(* ===== verification/_CoqProject ===== *)
-Q . S2P
Prelude.v
Buffer.v
Codec.v
LogStore.v
Timer.v
Peer.v
RaftState.v
Raft.v
Member.v
Server.v
Frames.v
Invariants.v
Demo.v
Safety.v
Elections.v
Replication.v
Leader.v
Scenarios.v
Membership.v
CommitThread.v
Deviations.v
Stream.v
FsLogStore.v
FsRefine.v
FsCompact.v
FsProps.v
FsPack.v
Rpc.v
Session.v
RpcProps.v
Endpoint.v
Ptr.v
PtrInv.v
PtrHeap.v
PtrProps.v
Async.v
AsyncProps.v
Logger.v
LoggerProps.v
