(* ===== verification/Prelude.v ===== *)
(** * Cornerstone: a Raft library, modelled and verified

    Cornerstone is a C++ implementation of the Raft consensus protocol, to be embedded in
    an application that provides a state machine, a state manager and, if it wants, its
    own transport and log store.  This library models its logic and proves what makes it
    correct, or shows where it is not.

    ** The program and its model

    - [buffer.cxx]: a byte buffer whose size and cursor live in the first four or eight
      bytes of its own memory block.  [Buffer.v] has both views: module [Block] is the
      code on raw memory, module [Buf] the contract (bytes and a cursor) the rest uses.
    - [log_entry.hxx], [srv_config], [cluster_config], [snapshot], [snapshot_sync_req]:
      the serialized data.  [Codec.v], one module per class; the class [Wire] states the
      encoding and the law that deserialization reads it back.
    - [log_store.hxx]: the interface of the log.  [LogStore.v] has the class [LogStore] of
      its operations, the abstract log [alog] its comments describe, the class
      [LogStoreLaws] that ties an implementation to the abstract log, and the abstract log
      as an implementation.
    - [fs_log_store.hxx], [fs_log_store.cxx]: the implementation of that interface on
      three files.  [Stream.v] has the files and [std::fstream], with calls of the
      operating system that may fail; [FsLogStore.v] the store: the window of recent
      entries (module [LogBuf]), each operation, and compaction with its backups and its
      restore.
    - [asio_service.cxx], the rpc part: [Rpc.v] has the wire format as both ends write and
      read it, [Session.v] the sessions, the listener and the clients as machines that
      start socket operations and take their completions in any order; the server behind a
      listener is the class [MsgHandler].  [Endpoint.v] has the regular expressions of
      [create_client] with their groups.
    - [asio_service.cxx], the loggers, the timer that flushes them and the shutdown:
      [Logger.v], steps of writers, flushes and [stop] in any order.
    - [async.hxx]: [Async.v], the result object and threads that share it.
    - [ptr.hxx]: [Ptr.v], blocks with two counters, both kinds of pointer, and the variables
      and members that hold them.
    - [delayed_task.hxx], [delayed_task_scheduler.hxx] and the scheduling functions of
      [asio_service.cxx]: [Timer.v].
    - [msg_type.hxx], [req_msg.hxx], [resp_msg.hxx], [srv_state.hxx], [raft_params.hxx],
      [peer.hxx], [snapshot_sync_ctx.hxx]: [Peer.v].
    - [raft_server.hxx], [raft_server.cxx]: the server.  [RaftState.v] has its state (the
      record [server], field by field), what it calls outside (the classes
      [StateMachine] and [RaftEnv]) and the trace of its effects; [Raft.v] the handlers
      for elections and replication; [Member.v] those for membership and snapshots;
      [Server.v] the dispatch, the committing thread, construction, the client calls and
      runs.  Every function of the source is a definition of the same name.

    The code is imperative: a function is a computation in the monad [M S] of this file,
    which keeps the state when it stops on an exception, an exit, undefined behaviour or
    an endless loop.  Machine integers are integers with their wrap-around written out
    where it can happen ([u64], [i32]).  [nilptr] is [None].

    A handler of the server runs under the recursive lock [lock_], so it is one
    transition.  The committing thread takes the lock only for configurations; its steps
    ([bg_step]) are atomic and interleave with handlers in any order.  The calls that
    return nothing to the server (requests, timers, [state_mgr]) are effects on a trace;
    responses, timeouts and retries come back as events, in any order and number
    ([event], [handle], [run]), so that the theorems about runs hold for every network
    and every peer.

    ** What is proved

    - [Buffer.v]: the memory block refines the contract for all runs of operations
      ([block_refines_buffer]).
    - [Codec.v]: round trips of the formats, and the one case that breaks.
    - [Timer.v], [Peer.v]: when a scheduled task runs; the heart-beat back-off.
    - [Frames.v], [Invariants.v]: which fields each helper leaves alone, which functions
      always return, and the induction over handlers and runs that the invariants share:
      a preorder that satisfies [ServerInv] holds between the ends of every run.
    - [Safety.v]: votes are durable and unique per term, they are saved at rest, and the
      commit index never goes back, along every run.
    - [Elections.v]: when a vote is granted and who becomes the leader.
    - [Replication.v], [Leader.v]: the follower's side (merge of the abstract log, calls
      of the state machine, log matching, refusals), the leader's side (contents of
      requests, the majority index) and both together ([replication_step]).
    - [Membership.v]: the peers after a reconfiguration, joining, the installation of a
      snapshot, and the end of the search through previous configurations.
    - [CommitThread.v]: the committing thread catches up and applies each entry once, with
      the snapshots it takes on its way.
    - [Deviations.v]: where the server departs from Raft, for all its states: client
      entries without a term, votes of any term that count, configuration changes that are
      not serialised, heart-beats that do not run.  [Scenarios.v] and the end of
      [Elections.v] have runs of several servers in which agreement, or another promise,
      fails by them; each one is evaluated from the definitions alone.
    - [FsRefine.v], [FsCompact.v], [FsPack.v]: a store [s] represents an abstract log [g]
      ([fs_rep g s]: the bytes of the three files, the window, the counters), and each
      operation keeps this, within bounds that are stated.  [FsProps.v] and the end of
      [FsPack.v] have the theorems: runs with restarts refine the abstract log, appended
      entries survive a restart, errors on out-of-range indexes, packs; and the cases
      outside the bounds, which are undefined, corrupt an entry or lose the log.
    - [RpcProps.v], [Endpoint.v]: a request written by a client reaches the handler at the
      other end as it was sent, however its bytes arrive, but requests without entries
      reach it twice and no response is ever sent; the regular expression of endpoints
      accepts what a parser written by hand does.
    - [AsyncProps.v]: every [get] is answered with a result that was set, or after a
      spurious wake-up with the default value, and no thread waits for ever once there is
      a result.
    - [LoggerProps.v]: no log line is lost, written twice or out of order; two orders in
      which the shutdown fails.
    - [PtrInv.v], [PtrHeap.v], [PtrProps.v]: the counters are the numbers of pointers
      ([wf]), through releases that destroy other objects; any program within the rules of
      [op_ok] runs without touching freed memory; and the assignments outside these rules.
    - [Demo.v]: the concrete environment in which the scenarios run and in which every
      theorem with hypotheses is instantiated.

    ** Fuel

    [config_before] follows previous indexes, which decrease; it gets the configuration's
    own index plus one, and [config_before_terminates] shows that this is enough.
    [bg_run] is the thread left alone until it waits; the number of entries to apply plus
    five is enough ([commit_thread_catches_up]).  [fill_loop] reads one position per
    round; the bytes of the index file are enough ([fill_buffer_ret]).  The loop of the
    window's [pack] never ends, whatever the fuel ([window_pack_diverges]); nothing calls
    it.  The entries of a request are read while log data is left; its size is enough
    ([get_log_data_ends]).  A release of a pointer nests once per live object at most; the
    number of blocks is enough ([release_ret]).  All other recursions are structural.

    ** Not modelled

    Formatting ([strfmt.hxx]) and the text of log lines of the server; locks as such (a
    handler is a transition, and in [Async.v] and [Logger.v] what is done under one mutex
    is a step); the sockets and timers of asio, whose outcomes are events; the
    application's state manager, which is the trace; exceptions thrown by it.  The buffers
    of log entries are values: the cursor a state machine leaves in an entry's buffer is
    not written back into the log, and a configuration shared by [config_] and a snapshot
    is copied.  A peer is identified by its id, so a peer that is removed while it has a
    request in flight and then added again counts as the same object.  In the file log
    store, a crash between a write and its flush.  The components are not linked through
    [Ptr.v]: the other files use values and identities where the code has pointers.  There
    pointers are used by one thread at a time, and an object is its members of pointer
    type.  Handlers of an [async_result] only observe.  The destructor of a logger that
    overlaps with a flush.  The new memory of a buffer is filled with zeros, where the code
    leaves what [malloc] gives; only reads of bytes that were never written differ. *)
From stdpp Require Export prelude list gmap.
From Stdlib Require Export ZArith Lia.
From Stdlib Require Strings.Byte.

Declare Scope cs_scope.
Delimit Scope cs_scope with cs.
Open Scope Z_scope.
Open Scope cs_scope.

(** ** Record update

    [r <| f := v |>] sets one field and [r <| f ::= g |>] maps it.  A record type
    declares its [Eta] expansion once; the setter of each projection is computed
    from it. *)

Class Setter {R T : Type} (p : R → T) := set_field : (T → T) → R → R.
Arguments set_field {R T} p {_} _ _.
Class Eta (R : Type) := eta : R → R.

Ltac solve_setter :=
  lazymatch goal with
  | |- @Setter ?R ?T ?p =>
      let inst := constr:(_ : Eta R) in
      let inst := (eval hnf in inst) in
      lazymatch inst with
      | λ r : _, @?body r =>
          let t := constr:(λ (f : T → T) (r : R),
            ltac:(let e := eval cbv beta in (body r) in
                  let e := eval pattern (p r) in e in
                  lazymatch e with
                  | ?g _ => let t := eval cbv beta in (g (f (p r))) in exact t
                  end)) in
          exact t
      end
  end.
#[export] Hint Extern 1 (Setter _) => solve_setter : typeclass_instances.

Notation "r <| p ::= f |>" := (set_field p f r)
  (at level 1, left associativity, p at next level, f at level 200,
   format "r  <| p  ::=  f |>") : cs_scope.
Notation "r <| p := v |>" := (set_field p (λ _, v) r)
  (at level 1, left associativity, p at next level, v at level 200,
   format "r  <| p  :=  v |>") : cs_scope.

(** ** Machine integers: [uint16_t], [uint32_t], [uint64_t] and [int32_t] as [Z]
    with their wrap-around *)

Definition u16 (z : Z) : Z := z mod 2 ^ 16.
Definition u32 (z : Z) : Z := z mod 2 ^ 32.
Definition u64 (z : Z) : Z := z mod 2 ^ 64.
Definition i32 (z : Z) : Z := (z + 2 ^ 31) mod 2 ^ 32 - 2 ^ 31.

Definition is_u64 (z : Z) : Prop := 0 ≤ z < 2 ^ 64.
Definition is_i32 (z : Z) : Prop := - 2 ^ 31 ≤ z < 2 ^ 31.

Definition sz_byte : nat := 1.
Definition sz_int : nat := 4.
Definition sz_ulong : nat := 8.

Lemma u64_small z : is_u64 z → u64 z = z.
Proof. unfold is_u64, u64. intros. by apply Z.mod_small. Qed.
Lemma u64_range z : is_u64 (u64 z).
Proof. unfold is_u64, u64. by apply Z.mod_pos_bound. Qed.
Lemma i32_small z : is_i32 z → i32 z = z.
Proof. unfold is_i32, i32. intros. rewrite Z.mod_small; lia. Qed.
Lemma i32_range z : is_i32 (i32 z).
Proof.
  unfold is_i32, i32. pose proof (Z.mod_pos_bound (z + 2 ^ 31) (2 ^ 32) eq_refl). lia.
Qed.
Lemma i32_u32 z : i32 (u32 z) = i32 z.
Proof.
  unfold i32, u32. f_equal. rewrite <- (Zplus_mod_idemp_l z (2 ^ 31)). done.
Qed.
Lemma u64_pred_pos z : 0 < z < 2 ^ 64 → u64 (z - 1) = z - 1.
Proof. intros. apply u64_small. unfold is_u64. lia. Qed.

(** ** Bytes and little-endian encodings *)

Abbreviation byte := Corelib.Init.Byte.byte.
Abbreviation x00 := Corelib.Init.Byte.x00.

Definition byte_val (b : byte) : Z := Z.of_N (Byte.to_N b).
Definition byte_of (z : Z) : byte := default x00 (Byte.of_N (Z.to_N (z mod 256))).

#[export] Instance byte_eq_dec : EqDecision byte := Byte.byte_eq_dec.

Lemma byte_val_range b : 0 ≤ byte_val b < 256.
Proof.
  unfold byte_val. pose proof (Byte.to_N_bounded b). lia.
Qed.
Lemma byte_val_of z : byte_val (byte_of z) = z mod 256.
Proof.
  unfold byte_val, byte_of.
  pose proof (Z.mod_pos_bound z 256 eq_refl) as Hz.
  destruct (Byte.of_N (Z.to_N (z mod 256))) as [b|] eqn:E; simpl.
  - apply Byte.to_of_N in E. rewrite E. lia.
  - apply Byte.of_N_None_iff in E. lia.
Qed.
Lemma byte_of_val b : byte_of (byte_val b) = b.
Proof.
  unfold byte_of. rewrite Z.mod_small by apply byte_val_range.
  unfold byte_val. by rewrite N2Z.id, Byte.of_to_N.
Qed.
#[export] Instance byte_val_inj : Inj (=) (=) byte_val.
Proof. intros a b H. by rewrite <- (byte_of_val a), H, byte_of_val. Qed.

(** The loop [*(d + i) = (byte)(val >> (i * 8))] for [i < n]. *)
Definition le_bytes (n : nat) (z : Z) : list byte :=
  (λ i, byte_of (Z.shiftr z (8 * Z.of_nat i))) <$> seq 0 n.

(** The loop [val += ((int)*(d + i)) << (i * 8)] over the bytes of [d]. *)
Fixpoint le_sum (i : nat) (bs : list byte) : Z :=
  match bs with
  | [] => 0
  | b :: bs' => Z.shiftl (byte_val b) (8 * Z.of_nat i) + le_sum (S i) bs'
  end.
Definition le_val (bs : list byte) : Z := le_sum 0 bs.

Lemma length_le_bytes n z : length (le_bytes n z) = n.
Proof. unfold le_bytes. by rewrite length_fmap, length_seq. Qed.

Lemma le_sum_S i bs : le_sum (S i) bs = 256 * le_sum i bs.
Proof.
  revert i. induction bs as [|b bs IH]; intros i; [done|].
  simpl. rewrite IH. rewrite !Z.shiftl_mul_pow2 by lia.
  replace (8 * Z.of_nat (S i)) with (8 * Z.of_nat i + 8) by lia.
  rewrite Z.pow_add_r by lia. change (2 ^ 8) with 256. lia.
Qed.
Lemma le_val_cons b bs : le_val (b :: bs) = byte_val b + 256 * le_val bs.
Proof. unfold le_val. simpl. rewrite le_sum_S, Z.shiftl_0_r. done. Qed.
Lemma le_val_range bs : 0 ≤ le_val bs < 256 ^ Z.of_nat (length bs).
Proof.
  induction bs as [|b bs IH]; [unfold le_val; simpl; lia|].
  rewrite le_val_cons. pose proof (byte_val_range b).
  simpl length. rewrite Nat2Z.inj_succ, Z.pow_succ_r by lia. lia.
Qed.
Lemma le_val_app bs cs :
  le_val (bs ++ cs) = le_val bs + 256 ^ Z.of_nat (length bs) * le_val cs.
Proof.
  induction bs as [|b bs IH]; [simpl app; change (le_val []) with 0; simpl length; lia|].
  simpl app. rewrite !le_val_cons, IH. simpl length.
  rewrite Nat2Z.inj_succ, Z.pow_succ_r by lia. lia.
Qed.
Lemma le_bytes_S n z : le_bytes (S n) z = byte_of z :: le_bytes n (z / 256).
Proof.
  unfold le_bytes. simpl. rewrite Z.shiftr_0_r. f_equal.
  rewrite <- (fmap_S_seq 0 n), <- list_fmap_compose. apply list_fmap_ext.
  intros i x _. simpl. f_equal.
  rewrite !Z.shiftr_div_pow2 by lia.
  replace (8 * Z.of_nat (S x)) with (8 + 8 * Z.of_nat x) by lia.
  rewrite Z.pow_add_r by lia. rewrite <- Z.div_div by lia. done.
Qed.
Lemma le_val_bytes n z : le_val (le_bytes n z) = z mod 256 ^ Z.of_nat n.
Proof.
  revert z. induction n as [|n IH]; intros z.
  - simpl. by rewrite Z.mod_1_r.
  - rewrite le_bytes_S, le_val_cons, IH, byte_val_of.
    rewrite Nat2Z.inj_succ, Z.pow_succ_r by lia.
    rewrite Z.rem_mul_r by lia. lia.
Qed.
Lemma le_bytes_val bs : le_bytes (length bs) (le_val bs) = bs.
Proof.
  induction bs as [|b bs IH]; [done|]. simpl length.
  rewrite le_bytes_S, le_val_cons. pose proof (byte_val_range b).
  assert (byte_of (byte_val b + 256 * le_val bs) = b) as ->.
  { apply (inj byte_val). rewrite byte_val_of.
    rewrite Z.mul_comm, Z.mod_add by lia. by apply Z.mod_small. }
  f_equal. rewrite Z.mul_comm, Z.div_add by lia. rewrite Z.div_small by lia.
  by rewrite Z.add_0_l, IH.
Qed.
Lemma le_val_bytes8 z : le_val (le_bytes 8 z) = u64 z.
Proof. by rewrite le_val_bytes. Qed.
Lemma le_val_bytes4 z : le_val (le_bytes 4 z) = u32 z.
Proof. by rewrite le_val_bytes. Qed.
#[global] Opaque le_bytes.
#[global] Opaque le_val.

(** ** The effect monad

    A piece of code that reads and writes a state of type [S] and may stop: a C++
    exception ([Thrown]), [::exit] ([Exited]), undefined behaviour ([Undefined]:
    an access outside an object, a dereference of [nilptr]) or a loop that does not end
    within its fuel ([Diverges]).  The state at the point
    where the code stopped is kept, since C++ keeps it too. *)

Inductive exn :=
| Overflow_error | Out_of_range | Range_error | Runtime_error | Ios_failure.

Inductive abn :=
| Thrown (e : exn)
| Exited (code : Z)
| Undefined
| Diverges.

#[export] Instance exn_eq_dec : EqDecision exn.
Proof. solve_decision. Defined.
#[export] Instance abn_eq_dec : EqDecision abn.
Proof. solve_decision. Defined.

Inductive outcome (S A : Type) :=
| Ret (a : A) (s : S)
| Stop (x : abn) (s : S).
Arguments Ret {S A} a s.
Arguments Stop {S A} x s.

Definition M (S A : Type) : Type := S → outcome S A.

#[export] Instance M_ret S : MRet (M S) := λ A a s, Ret a s.
#[export] Instance M_bind S : MBind (M S) := λ A B k m s,
  match m s with
  | Ret a s' => k a s'
  | Stop x s' => Stop x s'
  end.
#[export] Instance M_fmap S : FMap (M S) := λ A B f m, a ← m; mret (f a).

Section ops.
Context {S : Type}.

Definition gets {A} (f : S → A) : M S A := λ s, Ret (f s) s.
Definition get : M S S := λ s, Ret s s.
Definition modify (f : S → S) : M S unit := λ s, Ret () (f s).
Definition stop {A} (x : abn) : M S A := λ s, Stop x s.
Definition throw {A} (e : exn) : M S A := stop (Thrown e).
Definition undefined {A} : M S A := stop Undefined.
Definition when (b : bool) (m : M S unit) : M S unit := if b then m else mret ().

(** [try { m } catch (...) { h }]: only an exception is caught. *)
Definition try_catch {A} (m : M S A) (h : M S A) : M S A := λ s,
  match m s with
  | Stop (Thrown _) s' => h s'
  | o => o
  end.

(** Dereference of a pointer that may be [nilptr]. *)
Definition deref {A} (o : option A) : M S A :=
  match o with Some a => mret a | None => undefined end.

Fixpoint for_each {A} (f : A → M S unit) (l : list A) : M S unit :=
  match l with
  | [] => mret ()
  | x :: l' => f x;; for_each f l'
  end.

(** Run a computation on one field of the state, or on a local object. *)
Definition zoom {T A} (p : S → T) `{!Setter p} (m : M T A) : M S A := λ s,
  match m (p s) with
  | Ret a t => Ret a (s <| p := t |>)
  | Stop x t => Stop x (s <| p := t |>)
  end.
Definition local {T A} (t : T) (m : M T A) : M S (A * T) := λ s,
  match m t with
  | Ret a t' => Ret (a, t') s
  | Stop x _ => Stop x s
  end.
End ops.

(** Expose a monadic term as the function of the state it is. *)
Ltac unfold_M :=
  unfold mbind, mret, fmap, M_fmap, M_bind, M_ret, gets, get, modify, when, deref,
    throw, undefined, stop; cbn beta iota zeta.

(** The final state of a run, however it ended. *)
Definition final {S A} (o : outcome S A) : S :=
  match o with Ret _ s | Stop _ s => s end.
Definition result {S A} (o : outcome S A) : option A :=
  match o with Ret a _ => Some a | Stop _ _ => None end.

Lemma bind_ret_l {S A B} (a : A) (k : A → M S B) s : (mret a ≫= k) s = k a s.
Proof. done. Qed.
Lemma bind_Ret {S A B} (m : M S A) (k : A → M S B) s a s' :
  m s = Ret a s' → (m ≫= k) s = k a s'.
Proof. unfold mbind, M_bind. by intros ->. Qed.
Lemma bind_Stop {S A B} (m : M S A) (k : A → M S B) s x s' :
  m s = Stop x s' → (m ≫= k) s = Stop x s'.
Proof. unfold mbind, M_bind. by intros ->. Qed.
Lemma zoom_Ret {S T A} (p : S → T) `{!Setter p} (m : M T A) s a t :
  m (p s) = Ret a t → zoom p m s = Ret a (set_field p (λ _, t) s).
Proof. unfold zoom. by intros ->. Qed.
Lemma bind_Ret_inv {S A B} (m : M S A) (k : A → M S B) s b s'' :
  (m ≫= k) s = Ret b s'' → ∃ a s', m s = Ret a s' ∧ k a s' = Ret b s''.
Proof. unfold mbind, M_bind. destruct (m s) as [a s'|]; [|done]. eauto. Qed.
Lemma bind_assoc {S A B C} (m : M S A) (k : A → M S B) (h : B → M S C) s :
  ((m ≫= k) ≫= h) s = (m ≫= (λ a, k a ≫= h)) s.
Proof. unfold mbind, M_bind. by destruct (m s). Qed.
Lemma for_each_app {S A} (f : A → M S unit) l1 l2 s :
  for_each f (l1 ++ l2) s = (for_each f l1;; for_each f l2) s.
Proof.
  revert s. induction l1 as [|x l1 IH]; intros s; [done|].
  simpl. rewrite bind_assoc. unfold mbind, M_bind. destruct (f x s); [apply IH|done].
Qed.

(** [keeps R m]: every run of [m], normal or not, ends in a state related to the
    initial one by [R].  For a preorder [R] it composes, so that an invariant of a
    handler follows from those of its parts. *)
Definition keeps {S A} (R : relation S) (m : M S A) : Prop :=
  ∀ s, R s (final (m s)).

Create HintDb keeps.

Section keeps.
Context {S : Type} (R : relation S) `{!PreOrder R}.

Lemma keeps_ret {A} (a : A) : keeps R (mret a).
Proof. intros s. simpl. reflexivity. Qed.
Lemma keeps_gets {A} (f : S → A) : keeps R (gets f).
Proof. intros s. simpl. reflexivity. Qed.
Lemma keeps_get : keeps R get.
Proof. intros s. simpl. reflexivity. Qed.
Lemma keeps_stop {A} x : keeps R (stop (A:=A) x).
Proof. intros s. simpl. reflexivity. Qed.
Lemma keeps_modify (f : S → S) : (∀ s, R s (f s)) → keeps R (modify f).
Proof. intros H s. apply H. Qed.
Lemma keeps_bind {A B} (m : M S A) (k : A → M S B) :
  keeps R m → (∀ a, keeps R (k a)) → keeps R (m ≫= k).
Proof.
  intros Hm Hk s. specialize (Hm s). unfold mbind, M_bind.
  destruct (m s) as [a s'|x s']; simpl in *; [|done].
  etrans; [done|apply Hk].
Qed.
Lemma keeps_try {A} (m h : M S A) : keeps R m → keeps R h → keeps R (try_catch m h).
Proof.
  intros Hm Hh s. specialize (Hm s). unfold try_catch.
  destruct (m s) as [a s'|[e|c| |] s']; simpl in *; try done.
  etrans; [done|apply Hh].
Qed.
Lemma keeps_for_each {A} (f : A → M S unit) l :
  (∀ x, keeps R (f x)) → keeps R (for_each f l).
Proof.
  intros Hf. induction l as [|x l IH]; simpl; [apply keeps_ret|].
  apply keeps_bind; [apply Hf|intros _; exact IH].
Qed.
Lemma keeps_zoom {T A} (p : S → T) `{!Setter p} (m : M T A) :
  (∀ s t, R s (s <| p := t |>)) → keeps R (zoom p m).
Proof. intros H s. unfold zoom. destruct (m (p s)); simpl; apply H. Qed.
Lemma keeps_local {T A} (t : T) (m : M T A) : keeps R (local t m).
Proof. intros s. unfold local. destruct (m t); simpl; reflexivity. Qed.
End keeps.

(** One structural step of a [keeps] goal. *)
Ltac keeps_step :=
  lazymatch goal with
  | |- keeps _ (mbind _ _) => apply keeps_bind; [typeclasses eauto| |intros ?]
  | |- keeps _ (mret _) => apply keeps_ret
  | |- keeps _ (gets _) => apply keeps_gets
  | |- keeps _ get => apply keeps_get
  | |- keeps _ (stop _) => apply keeps_stop
  | |- keeps _ (throw _) => apply keeps_stop
  | |- keeps _ undefined => apply keeps_stop
  | |- keeps _ (deref _) => unfold deref
  | |- keeps _ (try_catch _ _) => apply keeps_try
  | |- keeps _ (for_each _ _) => apply keeps_for_each; [typeclasses eauto|intros ?]
  | |- keeps _ (when _ _) => unfold when
  | |- keeps _ (local _ _) => apply keeps_local
  | |- keeps _ (let '_ := _ in _) => case_match
  | |- keeps _ (match _ with _ => _ end) => case_match
  end.
Ltac solve_keeps :=
  repeat first [ typeclasses eauto | solve [eauto with keeps nocore] | keeps_step
               | progress cbn beta iota zeta ].

(** [total m]: [m] always returns. *)
Definition total {S A} (m : M S A) : Prop := ∀ s, ∃ a s', m s = Ret a s'.

Create HintDb total.
Section total.
Context {S : Type}.
Lemma total_ret {A} (a : A) : total (S:=S) (mret a).
Proof. intros s. by exists a, s. Qed.
Lemma total_get : total (S:=S) get.
Proof. intros s. by exists s, s. Qed.
Lemma total_gets {A} (f : S → A) : total (gets f).
Proof. intros s. by exists (f s), s. Qed.
Lemma total_modify (f : S → S) : total (modify f).
Proof. intros s. by exists (), (f s). Qed.
Lemma total_bind {A B} (m : M S A) (k : A → M S B) :
  total m → (∀ a, total (k a)) → total (m ≫= k).
Proof.
  intros Hm Hk s. destruct (Hm s) as (a & s' & E). destruct (Hk a s') as (b & s'' & E').
  exists b, s''. by erewrite bind_Ret.
Qed.
Lemma total_for_each {A} (f : A → M S unit) l : (∀ x, total (f x)) → total (for_each f l).
Proof.
  intros Hf. induction l; simpl; [apply total_ret|]. apply total_bind; [apply Hf|by intros _].
Qed.
Lemma total_zoom {T A} (p : S → T) `{!Setter p} (m : M T A) : total m → total (zoom p m).
Proof.
  intros Hm s. unfold zoom. destruct (Hm (p s)) as (a & t & ->). by exists a, (s <| p := t |>).
Qed.
End total.
#[export] Hint Resolve total_ret total_get total_gets total_modify : total.
Ltac total_step :=
  lazymatch goal with
  | |- total (mbind _ _) => apply total_bind; [|intros ?]
  | |- total (for_each _ _) => apply total_for_each; intros ?
  | |- total (when _ _) => unfold when
  | |- total (let '_ := _ in _) => case_match
  | |- total (match _ with _ => _ end) => case_match
  end.
Ltac solve_total :=
  repeat first [ solve [eauto with total nocore] | total_step | progress cbn beta iota zeta ].

Definition outcome_map {S T A} (f : S → T) (o : outcome S A) : outcome T A :=
  match o with Ret a s => Ret a (f s) | Stop x s => Stop x (f s) end.

(** ** Slices of byte lists *)

(** [rd_at off n l]: the [n] elements from [off]; [wr_at off bs l]: [l] with [bs]
    written over it from [off] (used only inside the list). *)
Definition rd_at {A} (off n : nat) (l : list A) : list A := take n (drop off l).
Definition wr_at {A} (off : nat) (bs l : list A) : list A :=
  take off l ++ bs ++ drop (off + length bs) l.

Lemma length_rd_at {A} off n (l : list A) :
  (off + n ≤ length l)%nat → length (rd_at off n l) = n.
Proof. intros. unfold rd_at. rewrite length_take, length_drop. lia. Qed.
Lemma length_wr_at {A} off (bs l : list A) :
  (off + length bs ≤ length l)%nat → length (wr_at off bs l) = length l.
Proof.
  intros. unfold wr_at. rewrite !length_app, length_take, length_drop. lia.
Qed.
Lemma rd_at_app {A} off n (p q r : list A) :
  off = length p → n = length q → rd_at off n (p ++ q ++ r) = q.
Proof. intros -> ->. unfold rd_at. by rewrite drop_app_length, take_app_length. Qed.
Lemma rd_at_app_0 {A} n (q r : list A) : n = length q → rd_at 0 n (q ++ r) = q.
Proof. intros ->. apply (rd_at_app 0 _ [] q r); done. Qed.
Lemma rd_at_app_r {A} off n (p q : list A) :
  (length p ≤ off)%nat → rd_at off n (p ++ q) = rd_at (off - length p) n q.
Proof. intros. unfold rd_at. by rewrite drop_app_ge. Qed.
Lemma rd_at_app_l {A} off n (p q : list A) :
  (off + n ≤ length p)%nat → rd_at off n (p ++ q) = rd_at off n p.
Proof.
  intros. unfold rd_at. rewrite drop_app_le by lia.
  rewrite take_app_le; [done|]. rewrite length_drop. lia.
Qed.
Lemma wr_at_app {A} off (p q r bs : list A) :
  off = length p → length bs = length q → wr_at off bs (p ++ q ++ r) = p ++ bs ++ r.
Proof.
  intros -> Hl. unfold wr_at. rewrite take_app_length, Hl.
  rewrite <- (drop_drop (p ++ q ++ r)). by rewrite !drop_app_length.
Qed.
Lemma wr_at_app_0 {A} (bs q r : list A) :
  length bs = length q → wr_at 0 bs (q ++ r) = bs ++ r.
Proof. intros. by apply (wr_at_app 0 [] q r bs). Qed.
Lemma wr_at_app_r {A} off (p q bs : list A) :
  (length p ≤ off)%nat → wr_at off bs (p ++ q) = p ++ wr_at (off - length p) bs q.
Proof.
  intros. unfold wr_at. rewrite take_app_ge by done. rewrite drop_app_ge by lia.
  rewrite <- app_assoc. do 4 f_equal. lia.
Qed.

(** ** Sums over lists *)
Definition lsum {A} (f : A → Z) (l : list A) : Z := foldr (λ a z, f a + z) 0 l.
Lemma lsum_app {A} (f : A → Z) l1 l2 : lsum f (l1 ++ l2) = lsum f l1 + lsum f l2.
Proof. induction l1 as [|a l1 IH]; simpl; [done|]. rewrite IH. lia. Qed.
Lemma lsum_nonneg {A} (f : A → Z) l : (∀ a, 0 ≤ f a) → 0 ≤ lsum f l.
Proof. intros H. induction l as [|a l IH]; simpl; [done|]. specialize (H a). lia. Qed.
Lemma lsum_perm {A} (f : A → Z) l1 l2 : l1 ≡ₚ l2 → lsum f l1 = lsum f l2.
Proof. induction 1; simpl; lia. Qed.
Lemma lsum_insert {A} (f : A → Z) l i a a' : l !! i = Some a → lsum f (<[i:=a']> l) = lsum f l - f a + f a'.
Proof.
  intros Hi. apply list_elem_of_split_length in Hi as (l1 & l2 & -> & ->).
  rewrite insert_app_r_alt, Nat.sub_diag by done. simpl. rewrite !lsum_app. simpl. lia.
Qed.
Lemma lsum_fmap {A B} (f : B → Z) (h : A → B) l : lsum f (h <$> l) = lsum (λ a, f (h a)) l.
Proof. induction l as [|a l IH]; [done|]. rewrite fmap_cons. simpl. by rewrite IH. Qed.
Lemma lsum_ext {A} (f h : A → Z) l : (∀ a, f a = h a) → lsum f l = lsum h l.
Proof. intros Hfh. induction l as [|a l IH]; simpl; [done|]. by rewrite IH, Hfh. Qed.

Create Rewrite HintDb len.
#[export] Hint Rewrite @length_app @length_take @length_drop @length_fmap @length_seq
  @length_replicate @length_insert @length_reverse length_le_bytes @length_cons : len.
Ltac len :=
  autorewrite with len in *; unfold sz_byte, sz_int, sz_ulong in *; simpl length in *; try lia.
