(* ===== verification/Buffer.v ===== *)
(** The byte buffer of [buffer.cxx].  [Block] is the object as it lies in memory: a
    header of two [ushort] (small block) or two [uint] (big block, high bit set) that
    hold the size and the position, then the data.  [Buf] is its contract: a list of
    bytes and a position.  The last section proves that every operation on the memory
    refines the operation of the contract. *)
From S2P Require Import Prelude.

Record buffer := mk_buffer { bdata : list byte; bpos : nat }.
#[export] Instance eta_buffer : Eta buffer := λ b, mk_buffer (bdata b) (bpos b).
#[export] Instance buffer_eq_dec : EqDecision buffer.
Proof. solve_decision. Defined.

(** What every operation maintains: the size fits the header and the position is
    inside the data. *)
Definition buffer_wf (b : buffer) : Prop :=
  Z.of_nat (length (bdata b)) < 0x80000000 ∧ (bpos b ≤ length (bdata b))%nat.
#[export] Instance buffer_wf_dec b : Decision (buffer_wf b).
Proof. unfold buffer_wf. apply _. Defined.

(** The bytes before the first NUL of [l], all of them when there is none. *)
Fixpoint str_prefix (l : list byte) : list byte :=
  match l with
  | [] => []
  | b :: l' => if decide (b = x00) then [] else b :: str_prefix l'
  end.

(** ** The object in memory *)
Module Block.
Abbreviation block := (list byte).

Definition rd_word (w off : nat) (p : block) : Z := le_val (rd_at off w p).
Definition wr_word (w off : nat) (z : Z) (p : block) : block := wr_at off (le_bytes w z) p.

Definition is_big_block (p : block) : bool := negb (Z.land 0x80000000 (rd_word 4 0 p) =? 0).
Definition init_block (w : nat) (s : Z) (p : block) : block :=
  wr_word w w 0 (wr_word w 0 s p).
Definition init_s_block (s : Z) (p : block) : block := init_block 2 s p.
Definition init_b_block (s : Z) (p : block) : block :=
  let p := init_block 4 s p in
  wr_word 4 0 (Z.lor (rd_word 4 0 p) 0x80000000) p.
Definition pos_of_s_block (p : block) : Z := rd_word 2 2 p.
Definition pos_of_b_block (p : block) : Z := rd_word 4 4 p.
Definition size_of_block (p : block) : Z :=
  if is_big_block p then Z.lxor (rd_word 4 0 p) 0x80000000 else rd_word 2 0 p.
Definition pos_of_block (p : block) : Z :=
  if is_big_block p then pos_of_b_block p else pos_of_s_block p.
Definition mv_fw_block (d : Z) (p : block) : block :=
  if is_big_block p then wr_word 4 4 (pos_of_b_block p + d) p
  else wr_word 2 2 (pos_of_s_block p + u16 d) p.
Definition set_block_pos (pos : Z) (p : block) : block :=
  if is_big_block p then wr_word 4 4 pos p else wr_word 2 2 pos p.
(** [data_of_block p] as an offset from the start of the object. *)
Definition data_of_block (p : block) : nat :=
  if is_big_block p then (8 + Z.to_nat (pos_of_b_block p))%nat
  else (4 + Z.to_nat (pos_of_s_block p))%nat.

(** Fresh memory is filled with zero bytes. *)
Definition alloc {S} (size : Z) : M S block :=
  if 0x80000000 <=? size then throw Out_of_range
  else if 0x8000 <=? size then
    mret (init_b_block size (replicate (Z.to_nat (size + 4 * 2)) x00))
  else mret (init_s_block size (replicate (Z.to_nat (size + 2 * 2)) x00)).

Definition size (p : block) : Z := size_of_block p.
Definition pos (p : block) : Z := pos_of_block p.
Definition set_pos (n : Z) : M block unit :=
  modify (λ p, set_block_pos (if size p <? n then size p else n) p).

Definition avail (p : block) : Z := u64 (size p - pos p).

Definition get_int : M block Z :=
  p ← get;
  if avail p <? Z.of_nat sz_int then throw Overflow_error else
  let val := i32 (le_val (rd_at (data_of_block p) sz_int p)) in
  modify (mv_fw_block (Z.of_nat sz_int));; mret val.

Definition get_ulong : M block Z :=
  p ← get;
  if avail p <? Z.of_nat sz_ulong then throw Overflow_error else
  let val := u64 (le_val (rd_at (data_of_block p) sz_ulong p)) in
  modify (mv_fw_block (Z.of_nat sz_ulong));; mret val.

Definition get_byte : M block byte :=
  p ← get;
  if avail p <? Z.of_nat sz_byte then throw Overflow_error else
  val ← deref (p !! data_of_block p);
  modify (mv_fw_block (Z.of_nat sz_byte));; mret val.

(** [None] is the [nilptr] it returns for a missing terminator or an empty string. *)
Definition get_str : M block (option (list byte)) :=
  p ← get;
  let s := str_prefix (rd_at (data_of_block p) (Z.to_nat (size p - pos p)) p) in
  let i := Z.of_nat (length s) in
  if (size p <=? pos p + i) || (i =? 0) then mret None
  else modify (mv_fw_block (i + 1));; mret (Some s).

Definition put_bytes (bs : list byte) : M block unit :=
  p ← get;
  if avail p <? Z.of_nat (length bs) then throw Overflow_error else
  modify (λ p, wr_at (data_of_block p) bs p);;
  modify (mv_fw_block (Z.of_nat (length bs))).
Definition put_byte (b : byte) : M block unit := put_bytes [b].
Definition put_int (val : Z) : M block unit := put_bytes (le_bytes sz_int val).
Definition put_ulong (val : Z) : M block unit := put_bytes (le_bytes sz_ulong val).
Definition put_str (str : list byte) : M block unit := put_bytes (str ++ [x00]).
Definition put_buf (buf : block) : M block unit :=
  put_bytes (rd_at (data_of_block buf) (Z.to_nat (size buf - pos buf)) buf).

(** [get(dst)]: the copy has no check on the source, so it may read past the object;
    the result is [dst] after the copy. *)
Definition get_buf (dst : block) : M block block :=
  p ← get;
  let sz := Z.to_nat (size dst - pos dst) in
  if (length p <? data_of_block p + sz)%nat then undefined else
  let dst := wr_at (data_of_block dst) (rd_at (data_of_block p) sz p) dst in
  modify (mv_fw_block (Z.of_nat sz));; mret dst.

Definition copy {S} (buf : block) : M S block :=
  other ← alloc (size buf - pos buf);
  '(_, other) ← local other (put_buf buf;; set_pos 0);
  mret other.
End Block.

(** ** The contract *)
Module Buf.
Definition size (b : buffer) : nat := length (bdata b).
Definition avail (b : buffer) : nat := (size b - bpos b)%nat.
Definition rest (b : buffer) : list byte := drop (bpos b) (bdata b).
Definition advance (n : nat) (b : buffer) : buffer := b <| bpos ::= λ p, (p + n)%nat |>.

Definition alloc {S} (n : Z) : M S buffer :=
  if 0x80000000 <=? n then throw Out_of_range
  else mret (mk_buffer (replicate (Z.to_nat n) x00) 0).
Definition set_pos (n : Z) : M buffer unit :=
  modify (λ b, b <| bpos := if Z.of_nat (size b) <? n then size b else Z.to_nat n |>).

Definition get_bytes (n : nat) : M buffer (list byte) :=
  b ← get;
  if (avail b <? n)%nat then throw Overflow_error else
  modify (advance n);; mret (rd_at (bpos b) n (bdata b)).
Definition get_int : M buffer Z := bs ← get_bytes sz_int; mret (i32 (le_val bs)).
Definition get_ulong : M buffer Z := bs ← get_bytes sz_ulong; mret (u64 (le_val bs)).
Definition get_byte : M buffer byte := bs ← get_bytes sz_byte; deref (head bs).
Definition get_str : M buffer (option (list byte)) :=
  b ← get;
  let s := str_prefix (rest b) in
  if (size b <=? bpos b + length s)%nat || (length s =? 0)%nat then mret None
  else modify (advance (length s + 1));; mret (Some s).

Definition put_bytes (bs : list byte) : M buffer unit :=
  b ← get;
  if (avail b <? length bs)%nat then throw Overflow_error else
  modify (λ b, b <| bdata ::= wr_at (bpos b) bs |>);; modify (advance (length bs)).
Definition put_byte (v : byte) : M buffer unit := put_bytes [v].
Definition put_int (v : Z) : M buffer unit := put_bytes (le_bytes sz_int v).
Definition put_ulong (v : Z) : M buffer unit := put_bytes (le_bytes sz_ulong v).
Definition put_str (s : list byte) : M buffer unit := put_bytes (s ++ [x00]).
Definition put_buf (src : buffer) : M buffer unit := put_bytes (rest src).
Definition get_buf (dst : buffer) : M buffer buffer :=
  b ← get;
  let sz := avail dst in
  if (avail b <? sz)%nat then undefined else
  let dst := dst <| bdata ::= wr_at (bpos dst) (rd_at (bpos b) sz (bdata b)) |> in
  modify (advance sz);; mret dst.

Definition copy {S} (src : buffer) : M S buffer :=
  other ← alloc (Z.of_nat (avail src));
  '(_, other) ← local other (put_buf src;; set_pos 0);
  mret other.
End Buf.

(** ** The memory image of a contract state *)

Definition is_big (n : nat) : bool := 0x8000 <=? Z.of_nat n.
Definition header (n p : nat) : list byte :=
  if is_big n then le_bytes 4 (Z.of_nat n + 0x80000000) ++ le_bytes 4 (Z.of_nat p)
  else le_bytes 2 (Z.of_nat n) ++ le_bytes 2 (Z.of_nat p).
Definition image (b : buffer) : Block.block :=
  header (length (bdata b)) (bpos b) ++ bdata b.

(** The operations as data, to state the refinement over whole runs. *)
Inductive buf_op :=
| OSetPos (n : Z) | OGetInt | OGetUlong | OGetByte | OGetStr
| OPutByte (v : byte) | OPutInt (v : Z) | OPutUlong (v : Z) | OPutStr (s : list byte)
| OPutBuf (src : buffer) | OGetBuf (dst : buffer) | OCopy.
Inductive buf_val :=
| VUnit | VInt (z : Z) | VByte (b : byte) | VStr (s : option (list byte)) | VBuf (d : list byte).

Definition buf_step (o : buf_op) : M buffer buf_val :=
  match o with
  | OSetPos n => Buf.set_pos n;; mret VUnit
  | OGetInt => VInt <$> Buf.get_int
  | OGetUlong => VInt <$> Buf.get_ulong
  | OGetByte => VByte <$> Buf.get_byte
  | OGetStr => VStr <$> Buf.get_str
  | OPutByte v => Buf.put_byte v;; mret VUnit
  | OPutInt v => Buf.put_int v;; mret VUnit
  | OPutUlong v => Buf.put_ulong v;; mret VUnit
  | OPutStr s => Buf.put_str s;; mret VUnit
  | OPutBuf src => Buf.put_buf src;; mret VUnit
  | OGetBuf dst => (λ d, VBuf (image d)) <$> Buf.get_buf dst
  | OCopy => b ← get; c ← Buf.copy b; mret (VBuf (image c))
  end.
Definition block_step (o : buf_op) : M Block.block buf_val :=
  match o with
  | OSetPos n => Block.set_pos n;; mret VUnit
  | OGetInt => VInt <$> Block.get_int
  | OGetUlong => VInt <$> Block.get_ulong
  | OGetByte => VByte <$> Block.get_byte
  | OGetStr => VStr <$> Block.get_str
  | OPutByte v => Block.put_byte v;; mret VUnit
  | OPutInt v => Block.put_int v;; mret VUnit
  | OPutUlong v => Block.put_ulong v;; mret VUnit
  | OPutStr s => Block.put_str s;; mret VUnit
  | OPutBuf src => Block.put_buf (image src);; mret VUnit
  | OGetBuf dst => VBuf <$> Block.get_buf (image dst)
  | OCopy => p ← get; c ← Block.copy p; mret (VBuf c)
  end.
Definition op_ok (o : buf_op) : Prop :=
  match o with
  | OSetPos n => 0 ≤ n
  | OPutBuf b | OGetBuf b => buffer_wf b
  | _ => True
  end.
(** A run that stops at the first error; the values returned, in order. *)
Fixpoint run_ops {St} (step : buf_op → M St buf_val) (os : list buf_op) : M St (list buf_val) :=
  match os with
  | [] => mret []
  | o :: os' => v ← step o; vs ← run_ops step os'; mret (v :: vs)
  end.

(** ** Header arithmetic *)

Lemma land_high_small x : 0 ≤ x < 0x80000000 → Z.land 0x80000000 x = 0.
Proof.
  intros. rewrite Z.land_comm. change 0x80000000 with (2 ^ 31) in *.
  apply Z.bits_inj'. intros i Hi. rewrite Z.land_spec, Z.bits_0, Z.pow2_bits_eqb by lia.
  destruct (Z.eqb_spec 31 i) as [<-|]; [|apply andb_false_r].
  rewrite Z.bits_above_log2; [done|lia|].
  destruct (decide (x = 0)) as [->|]; [done|]. apply Z.log2_lt_pow2; lia.
Qed.
Lemma high_bit_set x : 0 ≤ x < 0x80000000 → Z.testbit (x + 0x80000000) 31 = true.
Proof.
  intros. rewrite Z.testbit_true by lia. change (2 ^ 31) with 0x80000000.
  replace (x + 0x80000000) with (x + 1 * 0x80000000) by lia.
  rewrite Z.div_add, Z.div_small by lia. done.
Qed.
Lemma land_high_big x : 0 ≤ x < 0x80000000 → Z.land 0x80000000 (x + 0x80000000) ≠ 0.
Proof.
  intros Hx H. apply (f_equal (λ z, Z.testbit z 31)) in H.
  rewrite Z.land_spec, high_bit_set in H by done. done.
Qed.
Lemma add_high_lor x : 0 ≤ x < 0x80000000 → Z.lor x 0x80000000 = x + 0x80000000.
Proof.
  intros. assert (Z.land x 0x80000000 = 0) as Hx by (rewrite Z.land_comm; by apply land_high_small).
  by rewrite Z.add_nocarry_lxor, Z.lxor_lor.
Qed.
Lemma lxor_high x : 0 ≤ x < 0x80000000 → Z.lxor (x + 0x80000000) 0x80000000 = x.
Proof.
  intros. rewrite Z.add_nocarry_lxor by (rewrite Z.land_comm; by apply land_high_small).
  by rewrite Z.lxor_assoc, Z.lxor_nilpotent, Z.lxor_0_r.
Qed.

Definition hlen (n : nat) : nat := if is_big n then 8 else 4.

Lemma length_header n p : length (header n p) = hlen n.
Proof. unfold header, hlen. case_match; by len. Qed.
Lemma is_big_spec n : is_big n = true ↔ 0x8000 ≤ Z.of_nat n.
Proof. unfold is_big. apply Z.leb_le. Qed.

Section image.
Context (b : buffer) (Hwf : buffer_wf b).
#[local] Abbreviation n := (length (bdata b)).

Lemma image_word0 : Block.rd_word 4 0 (image b) =
  if is_big n then Z.of_nat n + 0x80000000 else Z.of_nat n + 65536 * Z.of_nat (bpos b).
Proof using Hwf.
  destruct Hwf as [Hn Hp]. unfold Block.rd_word, image, header. rewrite rd_at_app_l by
    (case_match; len). destruct (is_big n) eqn:E.
  - rewrite rd_at_app_l by len. unfold rd_at. rewrite drop_0, take_ge by len.
    rewrite le_val_bytes. apply Z.mod_small. lia.
  - unfold rd_at. rewrite drop_0, take_ge by len. rewrite le_val_app, !le_val_bytes.
    len. unfold is_big in E. apply Z.leb_gt in E. rewrite !Z.mod_small; lia.
Qed.
Lemma image_is_big : Block.is_big_block (image b) = is_big n.
Proof using Hwf.
  destruct Hwf as [Hn Hp]. unfold Block.is_big_block. rewrite image_word0.
  destruct (is_big n) eqn:E.
  - apply negb_true_iff, Z.eqb_neq, land_high_big. lia.
  - rewrite land_high_small; [done|]. unfold is_big in E. apply Z.leb_gt in E. lia.
Qed.
Lemma image_size : Block.size (image b) = Z.of_nat n.
Proof using Hwf.
  destruct Hwf as [Hn Hp]. unfold Block.size, Block.size_of_block.
  rewrite image_is_big, image_word0. destruct (is_big n) eqn:E; [apply lxor_high; lia|].
  unfold Block.rd_word, image, header. rewrite E. rewrite <- app_assoc.
  rewrite rd_at_app_0 by len. rewrite le_val_bytes.
  unfold is_big in E. apply Z.leb_gt in E. apply Z.mod_small. lia.
Qed.
Lemma image_pos : Block.pos (image b) = Z.of_nat (bpos b).
Proof using Hwf.
  destruct Hwf as [Hn Hp]. unfold Block.pos, Block.pos_of_block, Block.pos_of_b_block,
    Block.pos_of_s_block. rewrite image_is_big.
  unfold Block.rd_word, image, header. destruct (is_big n) eqn:E; rewrite <- app_assoc.
  - rewrite (rd_at_app 4 4 (le_bytes 4 _)) by len. rewrite le_val_bytes.
    apply Z.mod_small. lia.
  - rewrite (rd_at_app 2 2 (le_bytes 2 _)) by len. rewrite le_val_bytes.
    unfold is_big in E. apply Z.leb_gt in E. apply Z.mod_small. lia.
Qed.
Lemma image_data : Block.data_of_block (image b) = (hlen n + bpos b)%nat.
Proof using Hwf.
  pose proof image_pos as H. unfold Block.pos, Block.pos_of_block in H.
  unfold Block.data_of_block, hlen. rewrite image_is_big in *. destruct (is_big n); lia.
Qed.
Lemma image_wr_pos z : 0 ≤ z ≤ Z.of_nat n →
  (if Block.is_big_block (image b) then Block.wr_word 4 4 z (image b)
   else Block.wr_word 2 2 z (image b)) = image (b <| bpos := Z.to_nat z |>).
Proof using Hwf.
  intros Hz. rewrite image_is_big. unfold Block.wr_word, image, header. simpl.
  destruct (is_big n) eqn:E; rewrite <- !app_assoc.
  - rewrite (wr_at_app 4 (le_bytes 4 _)) by len. by rewrite Z2Nat.id by lia.
  - rewrite (wr_at_app 2 (le_bytes 2 _)) by len. by rewrite Z2Nat.id by lia.
Qed.
Lemma image_mv d : (bpos b + d ≤ n)%nat →
  Block.mv_fw_block (Z.of_nat d) (image b) = image (Buf.advance d b).
Proof using Hwf.
  intros Hd. pose proof image_pos as Hp. unfold Block.pos, Block.pos_of_block in Hp.
  pose proof (image_wr_pos (Z.of_nat (bpos b + d))) as Hw.
  rewrite Nat2Z.id in Hw. unfold Block.mv_fw_block.
  etransitivity; [|apply Hw; lia]. rewrite image_is_big in *. destruct (is_big n) eqn:E.
  - do 2 f_equal. lia.
  - unfold is_big in E. apply Z.leb_gt in E.
    unfold u16. rewrite Z.mod_small by lia. do 2 f_equal. lia.
Qed.
Lemma image_rd m : rd_at (Block.data_of_block (image b)) m (image b)
  = rd_at (bpos b) m (bdata b).
Proof using Hwf.
  rewrite image_data. unfold image. rewrite rd_at_app_r; rewrite length_header; [|lia].
  f_equal. lia.
Qed.
Lemma image_wr bs : (bpos b + length bs ≤ n)%nat →
  wr_at (Block.data_of_block (image b)) bs (image b)
  = image (b <| bdata ::= wr_at (bpos b) bs |>).
Proof using Hwf.
  intros Hl. rewrite image_data. unfold image. simpl.
  rewrite wr_at_app_r; rewrite length_header; [|lia].
  rewrite length_wr_at by lia. f_equal. f_equal. lia.
Qed.
Lemma image_avail : Block.avail (image b) = Z.of_nat (Buf.avail b).
Proof using Hwf.
  destruct Hwf as [Hn Hp]. unfold Block.avail, Buf.avail, Buf.size.
  rewrite image_size, image_pos. rewrite u64_small; unfold is_u64; lia.
Qed.
End image.

(** ** The operations on memory refine the contract *)

(** Position moves and writes inside the data keep the contract's invariant. *)
Lemma wf_advance b d : buffer_wf b → (bpos b + d ≤ length (bdata b))%nat →
  buffer_wf (Buf.advance d b).
Proof. intros [? ?] ?. split; simpl; lia. Qed.
Lemma wf_write b bs : buffer_wf b → (bpos b + length bs ≤ length (bdata b))%nat →
  buffer_wf (b <| bdata ::= wr_at (bpos b) bs |>).
Proof. intros [? ?] ?. split; simpl; rewrite length_wr_at; lia. Qed.
Create HintDb buffer.
#[export] Hint Resolve wf_advance wf_write : buffer.

(** [sim m r b]: on the image of [b] the memory operation [m] returns what the
    contract's operation [r] returns on [b], in the image of its state, which is again
    well formed. *)
Definition sim {A} (m : M Block.block A) (r : M buffer A) (b : buffer) : Prop :=
  m (image b) = outcome_map image (r b) ∧ buffer_wf (final (r b)).

Lemma sim_bind {A B} (m : M Block.block A) r (k : A → M Block.block B) h b :
  sim m r b → (∀ a b', r b = Ret a b' → sim (k a) (h a) b') → sim (m ≫= k) (r ≫= h) b.
Proof.
  intros [Hm Hwf] Hk. unfold sim, mbind, M_bind. rewrite Hm.
  destruct (r b) as [a b'|x b'] eqn:E; simpl; [by apply Hk|done].
Qed.
Lemma sim_ret {A} (a : A) b : buffer_wf b → sim (mret a) (mret a) b.
Proof. done. Qed.

Lemma avail_wf b : buffer_wf b → (bpos b + Buf.avail b = length (bdata b))%nat.
Proof. intros [? ?]. unfold Buf.avail, Buf.size. lia. Qed.

Lemma sim_put_bytes bs b : buffer_wf b → sim (Block.put_bytes bs) (Buf.put_bytes bs) b.
Proof.
  intros Hwf. pose proof (avail_wf b Hwf). unfold sim, Block.put_bytes, Buf.put_bytes.
  unfold_M.
  rewrite image_avail by done.
  destruct (Nat.ltb_spec (Buf.avail b) (length bs));
    [rewrite (proj2 (Z.ltb_lt _ _)) by lia; done|].
  rewrite (proj2 (Z.ltb_ge _ _)) by lia. rewrite image_wr by (done || lia).
  rewrite image_mv by (eauto with buffer lia || simpl; rewrite length_wr_at; lia).
  split; [done|]. simpl. apply wf_advance; [apply wf_write; [done|lia]|].
  simpl. rewrite length_wr_at; lia.
Qed.

Lemma sim_get_bytes {A} n (f : list byte → A) b : buffer_wf b →
  sim (p ← get; if Block.avail p <? Z.of_nat n then throw Overflow_error else
       let val := f (rd_at (Block.data_of_block p) n p) in
       modify (Block.mv_fw_block (Z.of_nat n));; mret val)
      (bs ← Buf.get_bytes n; mret (f bs)) b.
Proof.
  intros Hwf. pose proof (avail_wf b Hwf). unfold sim, Buf.get_bytes.
  unfold_M.
  rewrite image_avail by done.
  destruct (Nat.ltb_spec (Buf.avail b) n);
    [rewrite (proj2 (Z.ltb_lt _ _)) by lia; done|].
  rewrite (proj2 (Z.ltb_ge _ _)) by lia. cbv zeta.
  rewrite image_rd, image_mv by (done || lia).
  split; [done|]. simpl. apply wf_advance; [done|lia].
Qed.

Lemma sim_get_byte b : buffer_wf b → sim Block.get_byte Buf.get_byte b.
Proof.
  intros Hwf. pose proof (avail_wf b Hwf). unfold sim, Block.get_byte, Buf.get_byte, Buf.get_bytes.
  unfold_M.
  rewrite image_avail by done. unfold sz_byte.
  destruct (Nat.ltb_spec (Buf.avail b) 1);
    [rewrite (proj2 (Z.ltb_lt _ _)) by lia; done|].
  rewrite (proj2 (Z.ltb_ge _ _)) by lia.
  destruct (lookup_lt_is_Some_2 (bdata b) (bpos b)) as [v Hv]; [lia|].
  assert (image b !! Block.data_of_block (image b) = Some v) as ->.
  { rewrite image_data by done. unfold image.
    rewrite lookup_app_r; rewrite length_header; [|lia]. rewrite <- Hv. f_equal. lia. }
  unfold rd_at. rewrite (drop_S _ _ _ Hv). simpl.
  change 1 with (Z.of_nat 1). rewrite image_mv by (done || lia).
  split; [done|]. apply wf_advance; [done|lia].
Qed.

Lemma sim_get_str b : buffer_wf b → sim Block.get_str Buf.get_str b.
Proof.
  intros Hwf. pose proof (avail_wf b Hwf). unfold sim, Block.get_str, Buf.get_str.
  unfold_M.
  rewrite image_rd, image_size, image_pos by done.
  assert (rd_at (bpos b) (Z.to_nat (Z.of_nat (length (bdata b)) - Z.of_nat (bpos b))) (bdata b)
    = Buf.rest b) as ->.
  { unfold rd_at, Buf.rest. by rewrite take_ge by len. }
  set (s := str_prefix (Buf.rest b)). unfold Buf.size.
  destruct (Nat.leb_spec (length (bdata b)) (bpos b + length s)).
  { rewrite (proj2 (Z.leb_le _ _)) by lia. done. }
  rewrite (proj2 (Z.leb_gt _ _)) by lia. simpl.
  destruct (Nat.eqb_spec (length s) 0).
  { rewrite (proj2 (Z.eqb_eq _ _)) by lia. done. }
  rewrite (proj2 (Z.eqb_neq _ _)) by lia.
  replace (Z.of_nat (length s) + 1) with (Z.of_nat (length s + 1)) by lia.
  rewrite image_mv by (done || lia). split; [done|]. apply wf_advance; [done|lia].
Qed.

Lemma sim_set_pos n b : 0 ≤ n → buffer_wf b → sim (Block.set_pos n) (Buf.set_pos n) b.
Proof.
  intros Hn Hwf. destruct (Hwf) as [H1 H2].
  unfold sim, Block.set_pos, Buf.set_pos, modify, Block.set_block_pos, Buf.size. simpl.
  rewrite image_size by done. destruct (Z.ltb_spec (Z.of_nat (length (bdata b))) n).
  - rewrite image_wr_pos by (done || lia). rewrite Nat2Z.id. split; [done|]. split; simpl; lia.
  - rewrite image_wr_pos by (done || lia). split; [done|]. split; simpl; lia.
Qed.

Lemma replicate_zero_word n : replicate n x00 = le_bytes n 0.
Proof.
  induction n as [|n IH]; [done|]. by rewrite le_bytes_S, Z.div_0_l, <- IH by lia.
Qed.

(** A fresh block is the image of a fresh buffer, in either layout. *)
Lemma block_alloc {S} n (s : S) : 0 ≤ n →
  Block.alloc n s = match Buf.alloc n s with
                    | Ret b s' => Ret (image b) s'
                    | Stop x s' => Stop x s'
                    end.
Proof.
  intros Hn. unfold Block.alloc, Buf.alloc, image, header. unfold_M.
  destruct (Z.leb_spec 0x80000000 n); [done|]. simpl. rewrite length_replicate.
  unfold is_big. rewrite Z2Nat.id by lia.
  destruct (Z.leb_spec 0x8000 n); f_equal.
  - replace (Z.to_nat (n + 4 * 2)) with (4 + (4 + Z.to_nat n))%nat by lia.
    rewrite !replicate_add. unfold Block.init_b_block, Block.init_block, Block.wr_word, Block.rd_word.
    rewrite (wr_at_app_0 (le_bytes 4 n) (replicate 4 x00)) by len.
    rewrite (wr_at_app 4 (le_bytes 4 n)) by len.
    rewrite rd_at_app_0 by len. rewrite le_val_bytes, Z.mod_small by lia.
    rewrite add_high_lor by lia. rewrite wr_at_app_0 by len. by rewrite <- app_assoc.
  - replace (Z.to_nat (n + 2 * 2)) with (2 + (2 + Z.to_nat n))%nat by lia.
    rewrite !replicate_add. unfold Block.init_s_block, Block.init_block, Block.wr_word.
    rewrite (wr_at_app_0 (le_bytes 2 n) (replicate 2 x00)) by len.
    rewrite (wr_at_app 2 (le_bytes 2 n)) by len. by rewrite <- app_assoc.
Qed.

Lemma image_rest b : buffer_wf b →
  rd_at (Block.data_of_block (image b)) (Z.to_nat (Block.size (image b) - Block.pos (image b)))
    (image b) = Buf.rest b.
Proof.
  intros Hwf. rewrite image_rd, image_size, image_pos by done.
  unfold rd_at, Buf.rest. by rewrite take_ge by len.
Qed.
Lemma length_rest b : length (Buf.rest b) = Buf.avail b.
Proof. unfold Buf.rest, Buf.avail, Buf.size. by len. Qed.

Lemma sim_put_buf src b : buffer_wf src → buffer_wf b →
  sim (Block.put_buf (image src)) (Buf.put_buf src) b.
Proof.
  intros Hs Hb. unfold Block.put_buf, Buf.put_buf. rewrite image_rest by done.
  by apply sim_put_bytes.
Qed.

Lemma length_image b : length (image b) = (hlen (length (bdata b)) + length (bdata b))%nat.
Proof. unfold image. by rewrite length_app, length_header. Qed.
Lemma sim_get_buf dst b : buffer_wf dst → buffer_wf b →
  sim (VBuf <$> Block.get_buf (image dst)) ((λ d, VBuf (image d)) <$> Buf.get_buf dst) b.
Proof.
  intros Hd Hb. pose proof (avail_wf b Hb). pose proof (avail_wf dst Hd).
  unfold sim, Block.get_buf, Buf.get_buf, fmap, M_fmap. unfold_M.
  rewrite image_size, image_pos, length_image, (image_data b) by done.
  replace (Z.to_nat (Z.of_nat (length (bdata dst)) - Z.of_nat (bpos dst))) with (Buf.avail dst) by lia.
  destruct (Nat.ltb_spec (Buf.avail b) (Buf.avail dst)).
  - rewrite (proj2 (Nat.ltb_lt _ _)) by lia. done.
  - rewrite (proj2 (Nat.ltb_ge _ _)) by lia. cbv zeta. rewrite <- (image_data b), image_rd by done.
    rewrite image_wr by (done || (rewrite length_rd_at; lia)). rewrite image_mv by (done || lia).
    split; [done|]. simpl. apply wf_advance; [done|lia].
Qed.

(** [buffer::copy]: on an image it returns the image of the contract's copy. *)
Lemma block_copy {S} b (s : S) : buffer_wf b →
  Block.copy (image b) s = match Buf.copy b s with
                           | Ret c s' => Ret (image c) s'
                           | Stop x s' => Stop x s'
                           end.
Proof.
  intros Hwf. pose proof (avail_wf b Hwf). destruct (Hwf) as [H1 H2].
  unfold Block.copy, Buf.copy. rewrite image_size, image_pos by done.
  replace (Z.of_nat (length (bdata b)) - Z.of_nat (bpos b)) with (Z.of_nat (Buf.avail b)) by lia.
  unfold_M. rewrite block_alloc by lia.
  destruct (Buf.alloc (Z.of_nat (Buf.avail b)) s) as [c s'|x s'] eqn:E; [|done].
  assert (buffer_wf c) as Hc.
  { unfold Buf.alloc in E. destruct (Z.leb_spec 0x80000000 (Z.of_nat (Buf.avail b)));
      unfold throw, stop, mret, M_ret in E; simplify_eq. split; simpl; len. }
  unfold local.
  edestruct (sim_bind (Block.put_buf (image b)) (Buf.put_buf b) (λ _, Block.set_pos 0)
    (λ _, Buf.set_pos 0) c) as [Hr _].
  { by apply sim_put_buf. }
  { intros [] b' Hb. apply sim_set_pos; [done|].
    destruct (sim_put_buf b c) as [_ Hx]; [done..|]. by rewrite Hb in Hx. }
  unfold mbind, M_bind in Hr. rewrite Hr. by destruct (match Buf.put_buf b c with Ret _ _ => _ | Stop _ _ => _ end).
Qed.

Lemma buf_copy_local {S} b (s : S) :
  Buf.copy b s = match Buf.copy b () with Ret c _ => Ret c s | Stop x _ => Stop x s end.
Proof.
  unfold Buf.copy, Buf.alloc, local. unfold_M.
  destruct (Z.leb_spec 0x80000000 (Z.of_nat (Buf.avail b))); [done|].
  by destruct (match Buf.put_buf b _ with Ret _ _ => _ | Stop _ _ => _ end).
Qed.

Lemma sim_then {A B} m r (f : A → B) b :
  sim m r b → sim (a ← m; mret (f a)) (a ← r; mret (f a)) b.
Proof.
  intros Hs. apply sim_bind; [done|]. intros a b' E. apply sim_ret.
  destruct Hs as [_ Hx]. by rewrite E in Hx.
Qed.

Lemma sim_step o b : op_ok o → buffer_wf b → sim (block_step o) (buf_step o) b.
Proof.
  intros Ho Hwf. destruct o; simpl in *.
  - by apply (sim_then _ _ (λ _, VUnit)), sim_set_pos.
  - apply (sim_then _ _ VInt), (sim_get_bytes _ (λ bs, i32 (le_val bs))), Hwf.
  - apply (sim_then _ _ VInt), (sim_get_bytes _ (λ bs, u64 (le_val bs))), Hwf.
  - by apply (sim_then _ _ VByte), sim_get_byte.
  - by apply (sim_then _ _ VStr), sim_get_str.
  - by apply (sim_then _ _ (λ _, VUnit)), sim_put_bytes.
  - by apply (sim_then _ _ (λ _, VUnit)), sim_put_bytes.
  - by apply (sim_then _ _ (λ _, VUnit)), sim_put_bytes.
  - by apply (sim_then _ _ (λ _, VUnit)), sim_put_bytes.
  - by apply (sim_then _ _ (λ _, VUnit)), sim_put_buf.
  - by apply sim_get_buf.
  - unfold sim. unfold_M. rewrite block_copy by done.
    rewrite (buf_copy_local b (image b)), (buf_copy_local b b). unfold_M.
    by destruct (Buf.copy b ()).
Qed.

(** C12: Refinement of the buffer.  Any sequence of buffer operations, run on the
    object in memory (small or big block, with its 16 or 32 bit header words), returns
    the same values and stops at the same error as on the contract's bytes and
    position, and ends in the memory image of the contract's final state, whose
    position is still inside the data. *)
Theorem block_refines_buffer os b :
  Forall op_ok os → buffer_wf b →
  run_ops block_step os (image b) = outcome_map image (run_ops buf_step os b) ∧
  buffer_wf (final (run_ops buf_step os b)).
Proof.
  intros Hos. revert b. induction Hos as [|o os Ho _ IH]; intros b Hwf; [done|].
  change (sim (v ← block_step o; vs ← run_ops block_step os; mret (v :: vs))
    (v ← buf_step o; vs ← run_ops buf_step os; mret (v :: vs)) b).
  apply sim_bind; [by apply sim_step|].
  intros v b' E. apply sim_bind.
  - apply IH. destruct (sim_step o b Ho Hwf) as [_ Hx]. by rewrite E in Hx.
  - intros vs b'' E'. apply sim_ret.
    assert (buffer_wf b') as Hb'.
    { destruct (sim_step o b Ho Hwf) as [_ Hx]. by rewrite E in Hx. }
    destruct (IH b' Hb') as [_ Hx]. by rewrite E' in Hx.
Qed.

Definition demo_ops : list buf_op :=
  [OPutInt (-5); OPutUlong 0x1122334455667788; OPutStr [byte_of 65; byte_of 66]; OSetPos 0;
   OGetInt; OGetUlong; OGetStr; OGetByte; OSetPos 0; OGetBuf (mk_buffer (replicate 6 x00) 2)].
Lemma block_refines_buffer_witness :
  Forall op_ok demo_ops ∧ buffer_wf (mk_buffer (replicate 16 x00) 0) ∧
  run_ops block_step demo_ops (image (mk_buffer (replicate 16 x00) 0))
  = outcome_map image (run_ops buf_step demo_ops (mk_buffer (replicate 16 x00) 0)).
Proof.
  assert (Forall op_ok demo_ops) as H1 by (repeat constructor; simpl; lia).
  assert (buffer_wf (mk_buffer (replicate 16 x00) 0)) as H2 by (split; simpl; lia).
  exact (conj H1 (conj H2 (proj1 (block_refines_buffer demo_ops _ H1 H2)))).
Defined.

(** ** Reading and writing at a cursor

    [cursor p q]: a buffer whose bytes before the position are [p] and whose bytes from
    it are [q].  The codecs move the cursor over the encoding. *)
Definition cursor (p q : list byte) : buffer := mk_buffer (p ++ q) (length p).
Definition zeros (n : nat) : list byte := replicate n x00.

Lemma cursor_start b : bpos b = 0%nat → b = cursor [] (bdata b).
Proof. destruct b as [d p]. simpl. by intros ->. Qed.
Lemma rest_cursor p q : Buf.rest (cursor p q) = q.
Proof. unfold Buf.rest, cursor. simpl. by rewrite drop_app_length. Qed.
Lemma avail_cursor p q : Buf.avail (cursor p q) = length q.
Proof. by rewrite <- length_rest, rest_cursor. Qed.
Lemma advance_cursor p x q : Buf.advance (length x) (cursor p (x ++ q)) = cursor (p ++ x) q.
Proof. unfold Buf.advance, cursor. simpl. by rewrite <- app_assoc, length_app. Qed.

Lemma get_bytes_cursor n p x q : n = length x →
  Buf.get_bytes n (cursor p (x ++ q)) = Ret x (cursor (p ++ x) q).
Proof.
  intros ->. unfold Buf.get_bytes. unfold_M. rewrite avail_cursor.
  rewrite (proj2 (Nat.ltb_ge _ _)) by len. rewrite advance_cursor.
  unfold cursor at 1. simpl. by rewrite rd_at_app.
Qed.
Lemma get_bytes_short n p q : (length q < n)%nat →
  Buf.get_bytes n (cursor p q) = Stop (Thrown Overflow_error) (cursor p q).
Proof.
  intros. unfold Buf.get_bytes. unfold_M. rewrite avail_cursor.
  by rewrite (proj2 (Nat.ltb_lt _ _)).
Qed.
Lemma get_int_cursor p z q : is_i32 z →
  Buf.get_int (cursor p (le_bytes 4 z ++ q)) = Ret z (cursor (p ++ le_bytes 4 z) q).
Proof.
  intros. unfold Buf.get_int. erewrite bind_Ret by (apply get_bytes_cursor; by len).
  unfold_M. by rewrite le_val_bytes4, i32_u32, i32_small.
Qed.
Lemma get_ulong_cursor p z q : is_u64 z →
  Buf.get_ulong (cursor p (le_bytes 8 z ++ q)) = Ret z (cursor (p ++ le_bytes 8 z) q).
Proof.
  intros. unfold Buf.get_ulong. erewrite bind_Ret by (apply get_bytes_cursor; by len).
  unfold_M. by rewrite le_val_bytes8, !u64_small by (done || apply u64_range).
Qed.
Lemma get_byte_cursor p v q : Buf.get_byte (cursor p (v :: q)) = Ret v (cursor (p ++ [v]) q).
Proof.
  unfold Buf.get_byte. by erewrite bind_Ret by (apply (get_bytes_cursor _ _ [v]); done).
Qed.
Lemma str_prefix_app s q : x00 ∉ s → str_prefix (s ++ x00 :: q) = s.
Proof.
  induction s as [|b s IH]; simpl; [done|]. intros Hn.
  apply not_elem_of_cons in Hn as [Hb Hs].
  rewrite decide_False by done. by rewrite IH.
Qed.
Lemma get_str_cursor p s q : s ≠ [] → x00 ∉ s →
  Buf.get_str (cursor p ((s ++ [x00]) ++ q)) = Ret (Some s) (cursor (p ++ s ++ [x00]) q).
Proof.
  intros Hs Hn. unfold Buf.get_str. unfold_M. rewrite rest_cursor.
  rewrite <- app_assoc. simpl. rewrite str_prefix_app by done.
  rewrite (proj2 (Nat.leb_gt _ _)) by (unfold Buf.size, cursor; simpl; len).
  destruct s as [|b s']; [done|]. simpl. f_equal.
  unfold Buf.advance, cursor, set_field. simpl. f_equal; [rewrite <- app_assoc; simpl; by rewrite <- app_assoc|len].
Qed.

Lemma put_bytes_cursor bs p q : (length bs ≤ length q)%nat →
  Buf.put_bytes bs (cursor p q) = Ret () (cursor (p ++ bs) (drop (length bs) q)).
Proof.
  intros Hl. unfold Buf.put_bytes. unfold_M. rewrite avail_cursor.
  rewrite (proj2 (Nat.ltb_ge _ _)) by done. f_equal.
  rewrite <- advance_cursor. f_equal. unfold cursor, set_field. simpl. f_equal.
  rewrite wr_at_app_r, Nat.sub_diag by done. f_equal.
Qed.
Lemma put_bytes_zeros bs p n : (length bs ≤ n)%nat →
  Buf.put_bytes bs (cursor p (zeros n)) = Ret () (cursor (p ++ bs) (zeros (n - length bs))).
Proof.
  intros. unfold zeros. rewrite put_bytes_cursor by len. by rewrite drop_replicate.
Qed.
Lemma put_bytes_full bs p q : (length q < length bs)%nat →
  Buf.put_bytes bs (cursor p q) = Stop (Thrown Overflow_error) (cursor p q).
Proof.
  intros. unfold Buf.put_bytes. unfold_M. rewrite avail_cursor.
  by rewrite (proj2 (Nat.ltb_lt _ _)).
Qed.
Lemma set_pos_0 b : Buf.set_pos 0 b = Ret () (cursor [] (bdata b)).
Proof. unfold Buf.set_pos, modify. by rewrite (proj2 (Z.ltb_ge _ _)) by lia. Qed.
Lemma alloc_cursor {S} n (s : S) : Z.of_nat n < 0x80000000 →
  Buf.alloc (Z.of_nat n) s = Ret (cursor [] (zeros n)) s.
Proof.
  intros. unfold Buf.alloc. rewrite (proj2 (Z.leb_gt _ _)) by done. by rewrite Nat2Z.id.
Qed.

Lemma copy_cursor {S} p q (s : S) : Z.of_nat (length q) < 0x80000000 →
  Buf.copy (cursor p q) s = Ret (cursor [] q) s.
Proof.
  intros Hl. unfold Buf.copy. rewrite avail_cursor.
  erewrite bind_Ret by (by apply alloc_cursor).
  unfold local, Buf.put_buf. rewrite rest_cursor. unfold_M.
  rewrite put_bytes_zeros by len. rewrite set_pos_0. simpl.
  by rewrite Nat.sub_diag, app_nil_r.
Qed.
