(* ===== verification/Codec.v ===== *)
(** The serialized data: log entries, server and cluster configurations, snapshots and
    snapshot sync requests ([log_entry.hxx], [srv_config], [cluster_config], [snapshot],
    [snapshot_sync_req]).  [Wire] is what a serialized type promises to its users: the
    encoding, and that [deserialize] reads it back from the middle of a buffer. *)
From S2P Require Import Prelude Buffer.

(** ** Data *)

(** The enumerators of [log_val_type]; a value cast from any other byte is kept. *)
Inductive log_val_type :=
| app_log | conf | cluster_server | log_pack | snp_sync_req | other_val (b : byte).
#[export] Instance log_val_type_eq_dec : EqDecision log_val_type.
Proof. solve_decision. Defined.

Definition log_val_code (t : log_val_type) : byte :=
  match t with
  | app_log => byte_of 1 | conf => byte_of 2 | cluster_server => byte_of 3
  | log_pack => byte_of 4 | snp_sync_req => byte_of 5 | other_val b => b
  end.
Definition log_val_of (b : byte) : log_val_type :=
  match byte_val b with
  | 1 => app_log | 2 => conf | 3 => cluster_server | 4 => log_pack | 5 => snp_sync_req
  | _ => other_val b
  end.

Record log_entry := mk_log_entry {
  le_term : Z; le_val_type : log_val_type; le_buff : option buffer }.
#[export] Instance eta_log_entry : Eta log_entry :=
  λ e, mk_log_entry (le_term e) (le_val_type e) (le_buff e).
#[export] Instance log_entry_eq_dec : EqDecision log_entry.
Proof. solve_decision. Defined.

Record srv_config := mk_srv_config { sc_id : Z; sc_endpoint : list byte }.
#[export] Instance srv_config_eq_dec : EqDecision srv_config.
Proof. solve_decision. Defined.

Record cluster_config := mk_cluster_config {
  cc_log_idx : Z; cc_prev_log_idx : Z; cc_servers : list srv_config }.
#[export] Instance eta_cluster_config : Eta cluster_config :=
  λ c, mk_cluster_config (cc_log_idx c) (cc_prev_log_idx c) (cc_servers c).
#[export] Instance cluster_config_eq_dec : EqDecision cluster_config.
Proof. solve_decision. Defined.

Definition set_log_idx (idx : Z) (c : cluster_config) : cluster_config :=
  c <| cc_prev_log_idx := cc_log_idx c |> <| cc_log_idx := idx |>.
Definition get_server (id : Z) (c : cluster_config) : option srv_config :=
  snd <$> list_find (λ s, sc_id s = id) (cc_servers c).

Record snapshot := mk_snapshot {
  snp_last_log_idx : Z; snp_last_log_term : Z; snp_size : Z; snp_last_config : cluster_config }.
#[export] Instance snapshot_eq_dec : EqDecision snapshot.
Proof. solve_decision. Defined.

Record snapshot_sync_req := mk_snapshot_sync_req {
  ssr_snapshot : snapshot; ssr_offset : Z; ssr_data : buffer; ssr_done : bool }.

(** ** The functions of the source *)

(** Allocate a result buffer, fill it, rewind it. *)
Definition build {S} (n : Z) (m : M buffer unit) : M S buffer :=
  b ← Buf.alloc n; '(_, b) ← local b (m;; Buf.set_pos 0); mret b.

Module LogEntry.
Definition get_buf {S} (e : log_entry) : M S buffer :=
  match le_buff e with None => throw Runtime_error | Some b => mret b end.
(** [serialize] rewinds the entry's own buffer before it copies it. *)
Definition serialize : M log_entry buffer :=
  b ← gets le_buff; b ← deref b;
  '(_, b) ← local b (Buf.set_pos 0);
  modify (λ e, e <| le_buff := Some b |>);;
  e ← get;
  build (8 + 1 + Z.of_nat (Buf.size b))
    (Buf.put_ulong (le_term e);; Buf.put_byte (log_val_code (le_val_type e));; Buf.put_buf b).
Definition deserialize : M buffer log_entry :=
  term ← Buf.get_ulong;
  t ← Buf.get_byte;
  b ← get; data ← Buf.copy b;
  mret (mk_log_entry term (log_val_of t) (Some data)).
Definition term_in_buffer : M buffer Z :=
  term ← Buf.get_ulong; Buf.set_pos 0;; mret term.
End LogEntry.

Module SrvConfig.
(** [get_str] returns [nilptr] for an empty endpoint, and a [std::string] made from
    a null pointer is undefined. *)
Definition deserialize : M buffer srv_config :=
  id ← Buf.get_int; endpoint ← Buf.get_str; endpoint ← deref endpoint;
  mret (mk_srv_config id endpoint).
Definition serialize {S} (c : srv_config) : M S buffer :=
  build (Z.of_nat (sz_int + length (sc_endpoint c) + 1))
    (Buf.put_int (sc_id c);; Buf.put_str (sc_endpoint c)).
End SrvConfig.

Module ClusterConfig.
Fixpoint serialize_all {S} (cs : list srv_config) : M S (list buffer) :=
  match cs with
  | [] => mret []
  | c :: cs' => b ← SrvConfig.serialize c; bs ← serialize_all cs'; mret (b :: bs)
  end.
Definition serialize {S} (c : cluster_config) : M S buffer :=
  srv_buffs ← serialize_all (cc_servers c);
  let sz := (2 * sz_ulong + sz_int + sum_list (Buf.size <$> srv_buffs))%nat in
  build (Z.of_nat sz)
    (Buf.put_ulong (cc_log_idx c);; Buf.put_ulong (cc_prev_log_idx c);;
     Buf.put_int (i32 (Z.of_nat (length (cc_servers c))));; for_each Buf.put_buf srv_buffs).
(** The loop [while (cnt -- > 0)]. *)
Fixpoint read_servers (cnt : nat) : M buffer (list srv_config) :=
  match cnt with
  | O => mret []
  | S cnt' => c ← SrvConfig.deserialize; cs ← read_servers cnt'; mret (c :: cs)
  end.
Definition deserialize : M buffer cluster_config :=
  log_idx ← Buf.get_ulong; prev_log_idx ← Buf.get_ulong; cnt ← Buf.get_int;
  cs ← read_servers (Z.to_nat cnt);
  mret (mk_cluster_config log_idx prev_log_idx cs).
End ClusterConfig.

Module Snapshot.
Definition deserialize : M buffer snapshot :=
  last_log_idx ← Buf.get_ulong; last_log_term ← Buf.get_ulong; sz ← Buf.get_ulong;
  conf ← ClusterConfig.deserialize;
  mret (mk_snapshot last_log_idx last_log_term sz conf).
Definition serialize {S} (s : snapshot) : M S buffer :=
  conf_buf ← ClusterConfig.serialize (snp_last_config s);
  build (Z.of_nat (Buf.size conf_buf + sz_ulong * 3))
    (Buf.put_ulong (snp_last_log_idx s);; Buf.put_ulong (snp_last_log_term s);;
     Buf.put_ulong (snp_size s);; Buf.put_buf conf_buf).
End Snapshot.

Module SnapshotSyncReq.
(** The data is a fresh buffer with what is left; the source buffer does not move. *)
Definition deserialize : M buffer snapshot_sync_req :=
  snp ← Snapshot.deserialize; offset ← Buf.get_ulong; d ← Buf.get_byte;
  b ← get;
  data ← (if (bpos b <? Buf.size b)%nat then
            data ← Buf.alloc (Z.of_nat (Buf.avail b));
            mret (data <| bdata ::= wr_at 0 (Buf.rest b) |>)
          else Buf.alloc 0);
  mret (mk_snapshot_sync_req snp offset data (bool_decide (d = byte_of 1))).
Definition serialize {S} (r : snapshot_sync_req) : M S buffer :=
  snp_buf ← Snapshot.serialize (ssr_snapshot r);
  build (Z.of_nat (Buf.size snp_buf + sz_ulong + sz_byte + Buf.avail (ssr_data r)))
    (Buf.put_buf snp_buf;; Buf.put_ulong (ssr_offset r);;
     Buf.put_byte (if ssr_done r then byte_of 1 else byte_of 0);; Buf.put_buf (ssr_data r)).
End SnapshotSyncReq.

(** ** The wire format *)

Class Wire (A : Type) := {
  encode : A → list byte;
  wire_ok : A → Prop;
  wire_serialize : ∀ {S}, A → M S buffer;
  wire_deserialize : M buffer A }.

Class WireLaws (A : Type) `{Wire A} := {
  wire_ser {S} (a : A) (s : S) : wire_ok a → Z.of_nat (length (encode a)) < 0x80000000 →
    wire_serialize a s = Ret (cursor [] (encode a)) s;
  wire_deser (a : A) p q : wire_ok a →
    wire_deserialize (cursor p (encode a ++ q)) = Ret a (cursor (p ++ encode a) q) }.

Definition srv_config_ok (c : srv_config) : Prop :=
  is_i32 (sc_id c) ∧ sc_endpoint c ≠ [] ∧ x00 ∉ sc_endpoint c.
Definition cluster_config_ok (c : cluster_config) : Prop :=
  is_u64 (cc_log_idx c) ∧ is_u64 (cc_prev_log_idx c) ∧ Forall srv_config_ok (cc_servers c) ∧
  Z.of_nat (length (cc_servers c)) < 2 ^ 31.
Definition snapshot_ok (s : snapshot) : Prop :=
  is_u64 (snp_last_log_idx s) ∧ is_u64 (snp_last_log_term s) ∧ is_u64 (snp_size s) ∧
  cluster_config_ok (snp_last_config s).
#[export] Instance srv_config_ok_dec c : Decision (srv_config_ok c).
Proof. unfold srv_config_ok, is_i32. apply _. Defined.
#[export] Instance cluster_config_ok_dec c : Decision (cluster_config_ok c).
Proof. unfold cluster_config_ok, is_u64. apply _. Defined.
#[export] Instance snapshot_ok_dec s : Decision (snapshot_ok s).
Proof. unfold snapshot_ok, is_u64. apply _. Defined.

#[export] Instance srv_config_wire : Wire srv_config := {|
  encode c := le_bytes 4 (sc_id c) ++ sc_endpoint c ++ [x00];
  wire_ok := srv_config_ok;
  wire_serialize S := SrvConfig.serialize;
  wire_deserialize := SrvConfig.deserialize |}.
#[export] Instance cluster_config_wire : Wire cluster_config := {|
  encode c := le_bytes 8 (cc_log_idx c) ++ le_bytes 8 (cc_prev_log_idx c) ++
    le_bytes 4 (Z.of_nat (length (cc_servers c))) ++ concat (encode <$> cc_servers c);
  wire_ok := cluster_config_ok;
  wire_serialize S := ClusterConfig.serialize;
  wire_deserialize := ClusterConfig.deserialize |}.
#[export] Instance snapshot_wire : Wire snapshot := {|
  encode s := le_bytes 8 (snp_last_log_idx s) ++ le_bytes 8 (snp_last_log_term s) ++
    le_bytes 8 (snp_size s) ++ encode (snp_last_config s);
  wire_ok := snapshot_ok;
  wire_serialize S := Snapshot.serialize;
  wire_deserialize := Snapshot.deserialize |}.

#[global] Arguments encode : simpl never.

Lemma encode_srv (c : srv_config) :
  encode c = le_bytes 4 (sc_id c) ++ sc_endpoint c ++ [x00].
Proof. done. Qed.
Lemma encode_cluster (c : cluster_config) :
  encode c = le_bytes 8 (cc_log_idx c) ++ le_bytes 8 (cc_prev_log_idx c) ++
    le_bytes 4 (Z.of_nat (length (cc_servers c))) ++ concat (encode <$> cc_servers c).
Proof. done. Qed.
Lemma encode_snapshot (s : snapshot) :
  encode s = le_bytes 8 (snp_last_log_idx s) ++ le_bytes 8 (snp_last_log_term s) ++
    le_bytes 8 (snp_size s) ++ encode (snp_last_config s).
Proof. done. Qed.

(** ** Proofs about [build] *)

(** [writes m bs]: on any buffer with room for it, [m] writes [bs] at the cursor. *)
Definition writes (m : M buffer unit) (bs : list byte) : Prop :=
  ∀ p n, (length bs ≤ n)%nat →
  m (cursor p (zeros n)) = Ret () (cursor (p ++ bs) (zeros (n - length bs))).

Lemma writes_bytes bs : writes (Buf.put_bytes bs) bs.
Proof. intros p n. apply put_bytes_zeros. Qed.
Lemma writes_bind m1 m2 bs1 bs2 :
  writes m1 bs1 → writes m2 bs2 → writes (m1;; m2) (bs1 ++ bs2).
Proof.
  intros H1 H2 p n Hn. rewrite length_app in *.
  erewrite bind_Ret by (apply H1; lia). rewrite H2 by lia.
  by rewrite app_assoc, Nat.sub_add_distr.
Qed.
Lemma writes_ret : writes (mret ()) [].
Proof. intros p n _. simpl. by rewrite app_nil_r, Nat.sub_0_r. Qed.
Lemma writes_put_buf b : writes (Buf.put_buf b) (Buf.rest b).
Proof. apply writes_bytes. Qed.
Lemma writes_put_all bs :
  writes (for_each Buf.put_buf bs) (concat (Buf.rest <$> bs)).
Proof.
  induction bs as [|b bs IH]; [apply writes_ret|]. simpl.
  apply writes_bind; [apply writes_put_buf|exact IH].
Qed.
Create HintDb codec.
#[export] Hint Resolve writes_bytes writes_bind writes_ret writes_put_buf writes_put_all : codec.

Lemma build_writes {S} n m bs (s : S) :
  writes m bs → n = Z.of_nat (length bs) → n < 0x80000000 →
  build n m s = Ret (cursor [] bs) s.
Proof.
  intros Hm -> Hn. unfold build. erewrite bind_Ret by (by apply alloc_cursor).
  unfold local. rewrite (bind_Ret m _ _ _ _ (Hm _ _ (le_n _))).
  rewrite set_pos_0. simpl. by rewrite Nat.sub_diag, app_nil_r.
Qed.

#[export] Instance srv_config_laws : WireLaws srv_config.
Proof.
  split.
  - intros S c s Hok Hl. rewrite encode_srv in *. simpl. unfold SrvConfig.serialize.
    apply build_writes; [apply writes_bind; apply writes_bytes|..]; len.
  - intros c p q (Hid & He & Hn). rewrite encode_srv. simpl. unfold SrvConfig.deserialize.
    rewrite <- app_assoc. erewrite bind_Ret by (by apply get_int_cursor).
    erewrite bind_Ret by (by apply get_str_cursor). simpl.
    destruct c. by rewrite <- app_assoc.
Qed.

Lemma srv_ser {S} c (s : S) : srv_config_ok c → Z.of_nat (length (encode c)) < 0x80000000 →
  SrvConfig.serialize c s = Ret (cursor [] (encode c)) s.
Proof. exact (wire_ser c s). Qed.
Lemma srv_deser c p q : srv_config_ok c →
  SrvConfig.deserialize (cursor p (encode c ++ q)) = Ret c (cursor (p ++ encode c) q).
Proof. exact (wire_deser c p q). Qed.

Lemma serialize_all_ok {S} cs (s : S) :
  Forall srv_config_ok cs → Z.of_nat (length (concat (encode <$> cs))) < 0x80000000 →
  ClusterConfig.serialize_all cs s = Ret ((λ c, cursor [] (encode c)) <$> cs) s.
Proof.
  induction 1 as [|c cs Hc Hcs IH]; intros Hl; [done|].
  rewrite fmap_cons in Hl. simpl in Hl. rewrite length_app in Hl. simpl.
  erewrite bind_Ret by (apply srv_ser; [done|lia]).
  erewrite bind_Ret by (apply IH; lia). done.
Qed.
Lemma read_servers_ok cs p q : Forall srv_config_ok cs →
  ClusterConfig.read_servers (length cs) (cursor p (concat (encode <$> cs) ++ q))
  = Ret cs (cursor (p ++ concat (encode <$> cs)) q).
Proof.
  intros Hcs. revert p. induction Hcs as [|c cs Hc Hcs IH]; intros p; rewrite ?fmap_cons; simpl.
  - by rewrite app_nil_r.
  - rewrite <- app_assoc. erewrite bind_Ret by (by apply srv_deser).
    erewrite bind_Ret by (by apply IH). by rewrite <- app_assoc.
Qed.
Lemma sum_sizes (cs : list srv_config) :
  sum_list (Buf.size <$> ((λ c, cursor [] (encode c)) <$> cs)) = length (concat (encode <$> cs)).
Proof. induction cs as [|c cs IH]; [done|]. rewrite !fmap_cons. simpl. rewrite length_app. by rewrite IH. Qed.
Lemma concat_rests (cs : list srv_config) :
  concat (Buf.rest <$> ((λ c, cursor [] (encode c)) <$> cs)) = concat (encode <$> cs).
Proof. induction cs as [|c cs IH]; [done|]. rewrite !fmap_cons. simpl. by rewrite rest_cursor, IH. Qed.

#[export] Instance cluster_config_laws : WireLaws cluster_config.
Proof.
  split.
  - intros S c s (Hi & Hp & Hs & Hc) Hl. rewrite encode_cluster in *. simpl. unfold ClusterConfig.serialize.
    erewrite bind_Ret by (apply serialize_all_ok; [done|len]).
    rewrite i32_small by (unfold is_i32; lia).
    apply build_writes.
    + repeat (apply writes_bind; [apply writes_bytes|]). rewrite <- concat_rests. apply writes_put_all.
    + rewrite sum_sizes. len.
    + rewrite sum_sizes. len.
  - intros c p q (Hi & Hp & Hs & Hc). rewrite encode_cluster. simpl. unfold ClusterConfig.deserialize.
    rewrite <- !app_assoc.
    erewrite bind_Ret by (by apply get_ulong_cursor).
    erewrite bind_Ret by (by apply get_ulong_cursor).
    erewrite bind_Ret by (apply get_int_cursor; unfold is_i32; lia).
    rewrite Nat2Z.id. erewrite bind_Ret by (by apply read_servers_ok).
    destruct c. by rewrite <- !app_assoc.
Qed.

Lemma cluster_ser {S} c (s : S) :
  cluster_config_ok c → Z.of_nat (length (encode c)) < 0x80000000 →
  ClusterConfig.serialize c s = Ret (cursor [] (encode c)) s.
Proof. exact (wire_ser c s). Qed.
Lemma cluster_deser c p q : cluster_config_ok c →
  ClusterConfig.deserialize (cursor p (encode c ++ q)) = Ret c (cursor (p ++ encode c) q).
Proof. exact (wire_deser c p q). Qed.

#[export] Instance snapshot_laws : WireLaws snapshot.
Proof.
  split.
  - intros S c s (Hi & Ht & Hs & Hc) Hl. rewrite encode_snapshot in *. simpl. unfold Snapshot.serialize.
    erewrite bind_Ret by (apply cluster_ser; [done|len]).
    apply build_writes; [|unfold Buf.size; simpl; len..].
    repeat (apply writes_bind; [apply writes_bytes|]).
    apply (writes_put_buf (cursor [] (encode (snp_last_config c)))).
  - intros c p q (Hi & Ht & Hs & Hc). rewrite encode_snapshot. simpl. unfold Snapshot.deserialize. rewrite <- !app_assoc.
    erewrite bind_Ret by (by apply get_ulong_cursor).
    erewrite bind_Ret by (by apply get_ulong_cursor).
    erewrite bind_Ret by (by apply get_ulong_cursor).
    erewrite bind_Ret by (by apply cluster_deser).
    destruct c. by rewrite <- !app_assoc.
Qed.

Lemma snapshot_ser {S} c (s : S) :
  snapshot_ok c → Z.of_nat (length (encode c)) < 0x80000000 →
  Snapshot.serialize c s = Ret (cursor [] (encode c)) s.
Proof. exact (wire_ser c s). Qed.
Lemma snapshot_deser c p q : snapshot_ok c →
  Snapshot.deserialize (cursor p (encode c ++ q)) = Ret c (cursor (p ++ encode c) q).
Proof. exact (wire_deser c p q). Qed.

(** ** Round trips *)

Lemma local_cursor {S A} (m : M buffer A) p q (s : S) a b :
  m (cursor p q) = Ret a b → local (cursor p q) m s = Ret (a, b) s.
Proof. intros H. unfold local. by rewrite H. Qed.

(** C30: A snapshot with its configuration and servers survives [serialize] then
    [deserialize], whatever the ids, indexes, terms and non-empty NUL-free endpoints,
    and [deserialize] consumes the whole buffer. *)
Theorem snapshot_roundtrip (s : snapshot) :
  snapshot_ok s → Z.of_nat (length (encode s)) < 0x80000000 →
  (b ← Snapshot.serialize s; local b Snapshot.deserialize) ()
  = Ret (s, cursor (encode s) []) ().
Proof.
  intros Hok Hl. erewrite bind_Ret by (by apply snapshot_ser).
  apply local_cursor. rewrite <- (app_nil_r (encode s)) at 1. by apply (snapshot_deser s [] []).
Qed.

Definition demo_config : cluster_config :=
  mk_cluster_config 7 3 [mk_srv_config 1 [byte_of 65]; mk_srv_config (-2) [byte_of 66; byte_of 67]].
Definition demo_snapshot : snapshot := mk_snapshot 12 3 4096 demo_config.
Lemma snapshot_roundtrip_witness :
  snapshot_ok demo_snapshot ∧ Z.of_nat (length (encode demo_snapshot)) < 0x80000000 ∧
  (b ← Snapshot.serialize demo_snapshot; local b Snapshot.deserialize) ()
  = Ret (demo_snapshot, cursor (encode demo_snapshot) []) ().
Proof.
  assert (snapshot_ok demo_snapshot) as H1 by (apply (bool_decide_unpack _); vm_compute; exact I).
  assert (Z.of_nat (length (encode demo_snapshot)) < 0x80000000) as H2 by (vm_compute; reflexivity).
  exact (conj H1 (conj H2 (snapshot_roundtrip demo_snapshot H1 H2))).
Defined.

Lemma log_val_code_of t : (∀ b, t ≠ other_val b) → log_val_of (log_val_code t) = t.
Proof. intros H. destruct t; try done. by destruct (H b). Qed.

Definition log_entry_ok (e : log_entry) (b : buffer) : Prop :=
  le_buff e = Some b ∧ is_u64 (le_term e) ∧ (∀ v, le_val_type e ≠ other_val v) ∧
  Z.of_nat (length (bdata b)) < 0x80000000 - 9.
(** Serialization rewinds the buffer of an entry; an entry that is serializable and
    rewound. *)
Definition rewind (e : log_entry) : log_entry :=
  e <| le_buff ::= fmap (λ b, cursor [] (bdata b)) |>.
Definition stored (e : log_entry) : Prop :=
  ∃ d, log_entry_ok e (cursor [] d).
Definition encode_entry (e : log_entry) (d : list byte) : list byte :=
  le_bytes 8 (le_term e) ++ [log_val_code (le_val_type e)] ++ d.

Lemma log_entry_serialize e b : log_entry_ok e b →
  LogEntry.serialize e =
    Ret (cursor [] (encode_entry e (bdata b))) (e <| le_buff := Some (cursor [] (bdata b)) |>).
Proof.
  intros (Hb & Ht & Hv & Hl). unfold LogEntry.serialize.
  unfold mbind at 1, M_bind, gets. rewrite Hb. cbn beta iota.
  unfold mbind at 1, deref, mret at 1, M_ret. unfold local. rewrite set_pos_0. unfold_M.
  apply build_writes.
  - apply writes_bind; [apply writes_bytes|]. apply writes_bind; [apply writes_bytes|].
    apply (writes_put_buf (cursor [] (bdata b))).
  - unfold encode_entry, Buf.size. simpl. len.
  - unfold Buf.size. simpl. len.
Qed.

Lemma log_entry_deserialize p e d :
  is_u64 (le_term e) → (∀ v, le_val_type e ≠ other_val v) →
  Z.of_nat (length d) < 0x80000000 →
  LogEntry.deserialize (cursor p (encode_entry e d)) =
    Ret (e <| le_buff := Some (cursor [] d) |>)
        (cursor (p ++ le_bytes 8 (le_term e) ++ [log_val_code (le_val_type e)]) d).
Proof.
  intros Ht Hv Hl. unfold LogEntry.deserialize, encode_entry.
  erewrite bind_Ret by (by apply get_ulong_cursor). simpl.
  erewrite bind_Ret by apply get_byte_cursor. unfold mbind at 1, M_bind at 1, get at 1.
  erewrite bind_Ret by (by apply copy_cursor). rewrite log_val_code_of by done.
  rewrite <- app_assoc. by destruct e.
Qed.

(** C31: A log entry written to the wire or the store is read back with its term, its
    value type and its bytes; both buffers end rewound. *)
Theorem log_entry_roundtrip e b : log_entry_ok e b →
  (buf ← LogEntry.serialize; r ← local buf LogEntry.deserialize; mret (fst r)) e
  = Ret (e <| le_buff := Some (cursor [] (bdata b)) |>)
        (e <| le_buff := Some (cursor [] (bdata b)) |>).
Proof.
  intros Hok. erewrite bind_Ret by (by apply log_entry_serialize).
  destruct Hok as (Hb & Ht & Hv & Hl).
  erewrite bind_Ret by (apply local_cursor, log_entry_deserialize; [done..|lia]). done.
Qed.

Definition demo_entry : log_entry :=
  mk_log_entry 5 conf (Some (mk_buffer (byte_of <$> [1; 2; 3]) 2)).
Lemma log_entry_roundtrip_witness :
  ∃ b, log_entry_ok demo_entry b ∧
  (buf ← LogEntry.serialize; r ← local buf LogEntry.deserialize; mret (fst r)) demo_entry
  = Ret (demo_entry <| le_buff := Some (cursor [] (bdata b)) |>)
        (demo_entry <| le_buff := Some (cursor [] (bdata b)) |>).
Proof.
  exists (mk_buffer (byte_of <$> [1; 2; 3]) 2).
  assert (log_entry_ok demo_entry (mk_buffer (byte_of <$> [1; 2; 3]) 2)) as H.
  { split; [reflexivity|]. split; [split; vm_compute; congruence|]. split; [discriminate|].
    vm_compute. reflexivity. }
  exact (conj H (log_entry_roundtrip demo_entry _ H)).
Defined.

Definition encode_sync (r : snapshot_sync_req) : list byte :=
  encode (ssr_snapshot r) ++ le_bytes 8 (ssr_offset r) ++
  [if ssr_done r then byte_of 1 else byte_of 0] ++ Buf.rest (ssr_data r).

Lemma sync_req_serialize {S} r (s : S) :
  snapshot_ok (ssr_snapshot r) → Z.of_nat (length (encode_sync r)) < 0x80000000 →
  SnapshotSyncReq.serialize r s = Ret (cursor [] (encode_sync r)) s.
Proof.
  intros Hs Hl. unfold encode_sync in *. unfold SnapshotSyncReq.serialize.
  erewrite bind_Ret by (apply snapshot_ser; [done|len]).
  apply build_writes.
  - apply writes_bind; [apply (writes_put_buf (cursor [] _))|].
    repeat (apply writes_bind; [apply writes_bytes|]). apply writes_put_buf.
  - rewrite <- length_rest. unfold Buf.size. simpl. len.
  - rewrite <- length_rest. unfold Buf.size. simpl. len.
Qed.

Lemma sync_req_deserialize r :
  snapshot_ok (ssr_snapshot r) → is_u64 (ssr_offset r) →
  Z.of_nat (length (encode_sync r)) < 0x80000000 →
  ∃ b, SnapshotSyncReq.deserialize (cursor [] (encode_sync r)) =
    Ret (mk_snapshot_sync_req (ssr_snapshot r) (ssr_offset r)
          (cursor [] (Buf.rest (ssr_data r))) (ssr_done r)) b.
Proof.
  intros Hs Ho Hl. unfold encode_sync in *.
  assert (∀ d, bool_decide ((if ssr_done r then byte_of 1 else byte_of 0) = byte_of 1)
    = d → d = ssr_done r) as Hd by (intros d <-; by destruct (ssr_done r)).
  eexists. unfold SnapshotSyncReq.deserialize.
  erewrite bind_Ret by (by apply (snapshot_deser (ssr_snapshot r) [])).
  erewrite bind_Ret by (by apply get_ulong_cursor). simpl ([_] ++ _).
  erewrite bind_Ret by apply get_byte_cursor. unfold mbind at 1, M_bind at 1, get at 1.
  rewrite (Hd _ eq_refl). set (d := Buf.rest (ssr_data r)) in *.
  set (p := _ ++ [_]). rewrite avail_cursor, rest_cursor.
  enough (∀ b', (if (bpos (cursor p d) <? Buf.size (cursor p d))%nat
    then data ← Buf.alloc (Z.of_nat (length d)); mret (data <| bdata ::= wr_at 0 d |>)
    else Buf.alloc 0) b' = Ret (cursor [] d) (b' : buffer)) as Hx.
  { erewrite bind_Ret by apply Hx. done. }
  intros b'. unfold Buf.size, cursor at 1 2. simpl.
  destruct (Nat.ltb_spec (length p) (length (p ++ d))) as [Hlt|Hge].
  - erewrite bind_Ret by (apply alloc_cursor; len). unfold_M.
    f_equal. unfold cursor, set_field. simpl. f_equal. unfold wr_at, zeros. len.
    simpl. by rewrite drop_ge, app_nil_r by len.
  - rewrite length_app in Hge. destruct d; [done|simpl in Hge; lia].
Qed.

(** C32: A snapshot sync request is read back with its snapshot, offset, done flag and
    the bytes of its data from the data's position on, as a fresh rewound buffer. *)
Theorem sync_req_roundtrip r :
  snapshot_ok (ssr_snapshot r) → is_u64 (ssr_offset r) →
  Z.of_nat (length (encode_sync r)) < 0x80000000 →
  (b ← SnapshotSyncReq.serialize r; x ← local b SnapshotSyncReq.deserialize; mret (fst x)) ()
  = Ret (mk_snapshot_sync_req (ssr_snapshot r) (ssr_offset r)
          (cursor [] (Buf.rest (ssr_data r))) (ssr_done r)) ().
Proof.
  intros Hs Ho Hl. erewrite bind_Ret by (by apply sync_req_serialize).
  destruct (sync_req_deserialize r) as [b Hb]; [done..|].
  by erewrite bind_Ret by (by apply local_cursor).
Qed.

Definition demo_sync : snapshot_sync_req :=
  mk_snapshot_sync_req demo_snapshot 4096 (mk_buffer (byte_of <$> [9; 8; 7; 6]) 1) true.
Lemma sync_req_roundtrip_witness :
  snapshot_ok (ssr_snapshot demo_sync) ∧
  (b ← SnapshotSyncReq.serialize demo_sync;
   x ← local b SnapshotSyncReq.deserialize; mret (fst x)) ()
  = Ret (mk_snapshot_sync_req (ssr_snapshot demo_sync) (ssr_offset demo_sync)
          (cursor [] (Buf.rest (ssr_data demo_sync))) (ssr_done demo_sync)) ().
Proof.
  assert (snapshot_ok (ssr_snapshot demo_sync)) as H1
    by (apply (bool_decide_unpack _); vm_compute; exact I).
  assert (is_u64 (ssr_offset demo_sync)) as H2 by (split; vm_compute; congruence).
  assert (Z.of_nat (length (encode_sync demo_sync)) < 0x80000000) as H3 by (vm_compute; reflexivity).
  exact (conj H1 (sync_req_roundtrip demo_sync H1 H2 H3)).
Defined.

(** A server configuration with an empty endpoint is written, but reading it back
    makes a string from the null pointer that [get_str] returns: undefined behaviour. *)
Lemma empty_endpoint_undefined id s : is_i32 id →
  ∃ b b', SrvConfig.serialize (mk_srv_config id []) s = Ret b (s : unit) ∧
  SrvConfig.deserialize b = Stop Undefined b'.
Proof.
  intros Hid. exists (cursor [] (le_bytes 4 id ++ [x00])), (cursor (le_bytes 4 id) [x00]). split.
  - unfold SrvConfig.serialize. simpl.
    apply (build_writes _ _ (le_bytes 4 id ++ [x00])); [|done|done].
    apply writes_bind; apply writes_bytes.
  - unfold SrvConfig.deserialize. erewrite bind_Ret by (by apply get_int_cursor).
    unfold Buf.get_str. unfold_M. rewrite rest_cursor. simpl. by rewrite orb_true_r.
Qed.
