(* ===== verification/LogStore.v ===== *)
(** What the server asks of its log: the interface [log_store] of [log_store.hxx] as a
    class, the abstract log that its comments describe, and the laws that tie an
    implementation to the abstract log.  The abstract log is itself an implementation. *)
From S2P Require Import Prelude Buffer Codec.

(** ** The abstract log: the entries from index [al_start] on *)
Record alog := mk_alog { al_start : Z; al_entries : list log_entry }.
#[export] Instance eta_alog : Eta alog := λ l, mk_alog (al_start l) (al_entries l).

Definition al_next (l : alog) : Z := al_start l + Z.of_nat (length (al_entries l)).
Definition al_get (i : Z) (l : alog) : option log_entry :=
  if i <? al_start l then None else al_entries l !! Z.to_nat (i - al_start l).
Definition al_append (e : log_entry) (l : alog) : alog := l <| al_entries ::= λ es, es ++ [e] |>.
(** Writing at an index drops what was behind it. *)
Definition al_write_at (i : Z) (e : log_entry) (l : alog) : alog :=
  l <| al_entries ::= λ es, take (Z.to_nat (i - al_start l)) es ++ [e] |>.
Definition al_slice (s e : Z) (l : alog) : list log_entry :=
  take (Z.to_nat (e - s)) (drop (Z.to_nat (s - al_start l)) (al_entries l)).
Definition al_compact (i : Z) (l : alog) : alog :=
  mk_alog (i + 1) (drop (Z.to_nat (i + 1 - al_start l)) (al_entries l)).

(** The dummy entry [last_entry] returns on an empty store. *)
Definition empty_entry : log_entry := mk_log_entry 0 app_log None.
Definition al_last (l : alog) : log_entry := default empty_entry (last (al_entries l)).
(** The term at an index, zero outside. *)
Definition al_term (i : Z) (l : alog) : Z := default 0 (le_term <$> al_get i l).

(** An entry that a store can serialize. *)
Definition storable (e : log_entry) : Prop :=
  ∃ b, le_buff e = Some b ∧ Z.of_nat (length (bdata b)) < 0x80000000 - 9.

(** ** The interface *)
Class LogStore (L : Type) := {
  next_slot : L → Z;
  start_index : L → Z;
  last_entry : L → log_entry;
  append : log_entry → M L Z;
  write_at : Z → log_entry → M L unit;
  log_entries : Z → Z → M L (option (list log_entry));
  entry_at : Z → M L (option log_entry);
  term_at : Z → M L Z;
  pack : Z → Z → M L (option buffer);
  apply_pack : Z → buffer → M L unit;
  compact : Z → M L bool }.

(** [yields m a l P]: on the store [l], the operation returns [a], keeps the store's
    invariant and leaves an abstract log that satisfies [P]. *)
Definition yields {L A} (ok : L → Prop) (abs : L → alog) (m : M L A) (a : A) (l : L)
    (g : alog) : Prop :=
  ∃ l', m l = Ret a l' ∧ ok l' ∧ abs l' = g.

Class LogStoreLaws (L : Type) `{LogStore L} := {
  log_ok : L → Prop;
  log_of : L → alog;
  ls_start l : log_ok l → start_index l = al_start (log_of l) ∧ 1 ≤ al_start (log_of l);
  ls_next l : log_ok l → next_slot l = al_next (log_of l) ∧ al_next (log_of l) < 2 ^ 63;
  ls_last l : log_ok l → last_entry l = al_last (log_of l);
  ls_append l e : log_ok l → storable e → al_next (log_of l) + 1 < 2 ^ 63 →
    yields log_ok log_of (append e) (al_next (log_of l)) l (al_append e (log_of l));
  ls_write_at l i e : log_ok l → storable e →
    al_start (log_of l) ≤ i < al_next (log_of l) →
    yields log_ok log_of (write_at i e) () l (al_write_at i e (log_of l));
  ls_log_entries l s e : log_ok l → al_start (log_of l) ≤ s < al_next (log_of l) → s < e →
    yields log_ok log_of (log_entries s e)
      (Some (al_slice s (Z.min e (al_next (log_of l))) (log_of l))) l (log_of l);
  ls_entry_at l i : log_ok l → al_start (log_of l) ≤ i →
    yields log_ok log_of (entry_at i) (al_get i (log_of l)) l (log_of l);
  ls_term_at l i : log_ok l → al_start (log_of l) ≤ i < al_next (log_of l) →
    yields log_ok log_of (term_at i) (al_term i (log_of l)) l (log_of l);
  ls_compact l i : log_ok l → al_start (log_of l) ≤ i < 2 ^ 63 - 1 →
    ∃ b l', compact i l = Ret b l' ∧ log_ok l' ∧
      log_of l' = if b then al_compact i (log_of l) else log_of l }.

(** ** Facts of the abstract log *)

Lemma al_next_append e l : al_next (al_append e l) = al_next l + 1.
Proof. unfold al_next, al_append, set_field. simpl. len. Qed.
Lemma al_next_write_at i e l : al_start l ≤ i < al_next l → al_next (al_write_at i e l) = i + 1.
Proof. unfold al_next, al_write_at, set_field. simpl. intros. len. Qed.
Lemma al_next_compact i l : al_start l ≤ i →
  al_next (al_compact i l) = Z.max (i + 1) (al_next l).
Proof. unfold al_next, al_compact. simpl. intros. len. Qed.
Lemma al_get_lt i l : al_get i l ≠ None ↔ al_start l ≤ i < al_next l.
Proof.
  unfold al_get, al_next. destruct (Z.ltb_spec i (al_start l)); [split; [done|lia]|].
  rewrite lookup_ge_None. lia.
Qed.
Lemma al_get_Some i l : al_start l ≤ i < al_next l → ∃ e, al_get i l = Some e.
Proof.
  intros Hi. apply al_get_lt in Hi. destruct (al_get i l) as [e|]; [by exists e|done].
Qed.
Lemma al_get_append e l i :
  al_get i (al_append e l) =
  if i =? al_next l then (if al_next l <? al_start l then None else Some e) else al_get i l.
Proof.
  unfold al_get, al_append, al_next, set_field. simpl.
  destruct (Z.ltb_spec i (al_start l)), (Z.eqb_spec i (al_start l + Z.of_nat (length (al_entries l)))).
  - lia.
  - done.
  - rewrite (proj2 (Z.ltb_ge _ _)) by lia.
    rewrite lookup_app_r by lia. by replace (_ - _)%nat with 0%nat by lia.
  - destruct (decide (Z.to_nat (i - al_start l) < length (al_entries l))%nat).
    + by rewrite lookup_app_l.
    + by rewrite !lookup_ge_None_2 by len.
Qed.
Lemma al_get_append_old e l i : i < al_next l → al_get i (al_append e l) = al_get i l.
Proof. intros. rewrite al_get_append. by rewrite (proj2 (Z.eqb_neq _ _)) by lia. Qed.
Lemma al_get_append_new e l : al_get (al_next l) (al_append e l) = Some e.
Proof.
  rewrite al_get_append, Z.eqb_refl, (proj2 (Z.ltb_ge _ _)); [done|]. unfold al_next. lia.
Qed.
Lemma al_get_write_at i e l j : al_start l ≤ i < al_next l →
  al_get j (al_write_at i e l) = if j <? i then al_get j l else if j =? i then Some e else None.
Proof.
  unfold al_get, al_write_at, al_next, set_field. simpl. intros Hi.
  destruct (Z.ltb_spec j (al_start l)), (Z.ltb_spec j i), (Z.eqb_spec j i); try lia; try done.
  - rewrite lookup_app_l by len. by rewrite lookup_take_lt by lia.
  - subst. rewrite lookup_app_r by len. len.
    by replace (_ - _)%nat with 0%nat by lia.
  - by rewrite lookup_ge_None_2 by len.
Qed.

(** ** The abstract log as a store *)
#[export] Instance alog_store : LogStore alog := {|
  next_slot := al_next;
  start_index := al_start;
  last_entry := al_last;
  append e l := Ret (al_next l) (al_append e l);
  write_at i e l :=
    if (i <? al_start l) || (al_next l <=? i) then Stop (Thrown Range_error) l
    else Ret () (al_write_at i e l);
  log_entries s e l :=
    if s <? al_start l then Stop (Thrown Range_error) l
    else if (e <=? s) || (al_next l <=? s) then Ret None l
    else Ret (Some (al_slice s (Z.min e (al_next l)) l)) l;
  entry_at i l := if i <? al_start l then Stop (Thrown Range_error) l else Ret (al_get i l) l;
  term_at i l :=
    if (i <? al_start l) || (al_next l <=? i) then Stop (Thrown Range_error) l
    else Ret (al_term i l) l;
  pack i c l := Ret None l;
  apply_pack i b l := Ret () l;
  compact i l := if i <? al_start l then Stop (Thrown Range_error) l
                 else Ret true (al_compact i l) |}.

Lemma ltb_false a b : b ≤ a → (a <? b) = false.
Proof. apply Z.ltb_ge. Qed.
Lemma leb_false a b : b < a → (a <=? b) = false.
Proof. apply Z.leb_gt. Qed.
Lemma ltb_true a b : a < b → (a <? b) = true.
Proof. apply Z.ltb_lt. Qed.
Lemma leb_true a b : a ≤ b → (a <=? b) = true.
Proof. apply Z.leb_le. Qed.

#[export] Program Instance alog_laws : LogStoreLaws alog := {|
  log_ok l := 1 ≤ al_start l ∧ al_next l < 2 ^ 63;
  log_of l := l |}.
Next Obligation. intros l [? ?]. done. Qed.
Next Obligation. intros l [? ?]. done. Qed.
Next Obligation. done. Qed.
Next Obligation.
  intros l e [? ?] _ Hn. eexists. split; [done|]. rewrite al_next_append. split; [|done].
  split; [done|lia].
Qed.
Next Obligation.
  intros l i e [? ?] _ Hi. eexists. split; [|split; [|done]].
  - unfold write_at, alog_store. by rewrite ltb_false, leb_false by lia.
  - rewrite al_next_write_at by done. split; [done|lia].
Qed.
Next Obligation.
  intros l s e [? ?] Hs He. exists l. split; [|done].
  unfold log_entries, alog_store. by rewrite ltb_false, !leb_false by lia.
Qed.
Next Obligation.
  intros l i [? ?] Hi. exists l. split; [|done].
  unfold entry_at, alog_store. by rewrite ltb_false by lia.
Qed.
Next Obligation.
  intros l i [? ?] Hi. exists l. split; [|done].
  unfold term_at, alog_store. by rewrite ltb_false, leb_false by lia.
Qed.
Next Obligation.
  intros l i [? ?] Hi. exists true, (al_compact i l). split; [|split; [|done]].
  - unfold compact, alog_store. by rewrite ltb_false by lia.
  - rewrite al_next_compact by lia. simpl. lia.
Qed.
