(* ===== verification/Timer.v ===== *)
(** Delayed tasks and their scheduler: [delayed_task.hxx], [delayed_task_scheduler.hxx]
    and the scheduling part of [asio_service.cxx].  The steady timer of asio is outside:
    its only effect on the model is when [_timer_handler_] is called and with which
    error code, and both are arbitrary here. *)
From S2P Require Import Prelude.

Record delayed_task := mk_task {
  cancelled_ : bool;  (* the atomic flag *)
  impl_ctx_ : bool    (* a timer is attached *) }.
#[export] Instance eta_task : Eta delayed_task := λ t, mk_task (cancelled_ t) (impl_ctx_ t).
#[export] Instance task_eq_dec : EqDecision delayed_task.
Proof. solve_decision. Defined.

Module Task.
Definition new : delayed_task := mk_task false false.
Definition cancel (t : delayed_task) : delayed_task := t <| cancelled_ := true |>.
Definition reset (t : delayed_task) : delayed_task := t <| cancelled_ := false |>.
(** Whether [execute] runs the task's body. *)
Definition execute (t : delayed_task) : bool := negb (cancelled_ t).
Definition set_impl_context (t : delayed_task) : delayed_task := t <| impl_ctx_ := true |>.
End Task.

Module Scheduler.
(** [asio_service::schedule]. *)
Definition schedule (t : delayed_task) : delayed_task :=
  if impl_ctx_ t then Task.reset t else Task.set_impl_context t.
(** [asio_service::cancel_impl] only stops the timer. *)
Definition cancel_impl (t : delayed_task) : delayed_task := t.
Definition cancel (t : delayed_task) : delayed_task := Task.cancel (cancel_impl t).
(** [_timer_handler_]: [err] is asio's error code, set for an aborted wait. *)
Definition timer_handler (t : delayed_task) (err : bool) : bool :=
  if err then false else Task.execute t.
End Scheduler.

(** The history of a task: calls to the scheduler. *)
Inductive task_op := OpSchedule | OpCancel.
Definition task_step (t : delayed_task) (o : task_op) : delayed_task :=
  match o with OpSchedule => Scheduler.schedule t | OpCancel => Scheduler.cancel t end.
Definition task_run (os : list task_op) : delayed_task := foldl task_step Task.new os.

Lemma task_run_snoc os o : task_run (os ++ [o]) = task_step (task_run os) o.
Proof. unfold task_run. by rewrite foldl_app. Qed.
Lemma impl_ctx_iff os : impl_ctx_ (task_run os) = true ↔ OpSchedule ∈ os.
Proof.
  induction os as [|o os IH] using rev_ind; [split; [done|by intros ?%elem_of_nil]|].
  rewrite task_run_snoc, elem_of_app, list_elem_of_singleton, <- IH.
  destruct o; simpl.
  - unfold Scheduler.schedule. destruct (impl_ctx_ (task_run os)) eqn:E; simpl.
    + rewrite E. tauto.
    + tauto.
  - split; [auto|]. intros [?|?]; done.
Qed.

(** C33: Exactly when a scheduled task fires.  After any history that ends with
    [schedule], the timer's completion (without error) runs the task, unless this was
    the first [schedule] and a [cancel] came before it: [schedule] clears the
    cancelled flag only for a task that already has a timer. *)
Theorem scheduled_task_fires os :
  Scheduler.timer_handler (task_run (os ++ [OpSchedule])) false = true ↔
  (OpSchedule ∈ os ∨ OpCancel ∉ os).
Proof.
  rewrite task_run_snoc. unfold Scheduler.timer_handler, task_step, Task.execute.
  unfold Scheduler.schedule. destruct (impl_ctx_ (task_run os)) eqn:E.
  - apply impl_ctx_iff in E. simpl. tauto.
  - assert (OpSchedule ∉ os) as Hn by (rewrite <- impl_ctx_iff; by rewrite E).
    simpl. clear E. assert (cancelled_ (task_run os) = true ↔ OpCancel ∈ os) as <-.
    + induction os as [|o os IH] using rev_ind; [split; [done|by intros ?%elem_of_nil]|].
      apply not_elem_of_app in Hn as [Hn Ho]. rewrite task_run_snoc, elem_of_app.
      rewrite list_elem_of_singleton. destruct o; simpl; [|tauto].
      destruct Ho. by apply list_elem_of_singleton.
    + destruct (cancelled_ (task_run os)); simpl; intuition congruence.
Qed.
