(* ===== verification/Peer.v ===== *)
(** Messages, parameters and the per-peer record: [msg_type.hxx], [req_msg.hxx],
    [resp_msg.hxx], [srv_state.hxx], [srv_role.hxx], [raft_params.hxx], [peer.hxx],
    [peer.cxx] and [snapshot_sync_ctx.hxx]. *)
From S2P Require Import Prelude Buffer Codec Timer.

(** ** Messages *)
Inductive msg_type :=
| request_vote_request | request_vote_response
| append_entries_request | append_entries_response
| client_request
| add_server_request | add_server_response
| remove_server_request | remove_server_response
| sync_log_request | sync_log_response
| join_cluster_request | join_cluster_response
| leave_cluster_request | leave_cluster_response
| install_snapshot_request | install_snapshot_response
| other_msg (b : byte).
#[export] Instance msg_type_eq_dec : EqDecision msg_type.
Proof. solve_decision. Defined.

Record req_msg := mk_req {
  rq_term : Z; rq_type : msg_type; rq_src : Z; rq_dst : Z;
  rq_last_log_term : Z; rq_last_log_idx : Z; rq_commit_idx : Z;
  rq_log_entries : list log_entry }.
#[export] Instance eta_req : Eta req_msg := λ r,
  mk_req (rq_term r) (rq_type r) (rq_src r) (rq_dst r) (rq_last_log_term r)
    (rq_last_log_idx r) (rq_commit_idx r) (rq_log_entries r).

Record resp_msg := mk_resp {
  rs_term : Z; rs_type : msg_type; rs_src : Z; rs_dst : Z; rs_next_idx : Z; rs_accepted : bool }.
#[export] Instance eta_resp : Eta resp_msg := λ r,
  mk_resp (rs_term r) (rs_type r) (rs_src r) (rs_dst r) (rs_next_idx r) (rs_accepted r).
Definition accept (next_idx : Z) (r : resp_msg) : resp_msg :=
  r <| rs_next_idx := next_idx |> <| rs_accepted := true |>.
(** The constructor with its default arguments. *)
Definition new_resp (term : Z) (type : msg_type) (src dst : Z) : resp_msg :=
  mk_resp term type src dst 0 false.

Inductive srv_role := follower | candidate | leader.
#[export] Instance srv_role_eq_dec : EqDecision srv_role.
Proof. solve_decision. Defined.

(** ** The persistent state *)
Record srv_state := mk_srv_state { ss_term : Z; ss_commit_idx : Z; ss_voted_for : Z }.
#[export] Instance eta_srv_state : Eta srv_state := λ s,
  mk_srv_state (ss_term s) (ss_commit_idx s) (ss_voted_for s).
#[export] Instance srv_state_eq_dec : EqDecision srv_state.
Proof. solve_decision. Defined.

Module SrvState.
Definition new : srv_state := mk_srv_state 0 0 (-1).
Definition set_term (t : Z) (s : srv_state) : srv_state := s <| ss_term := t |>.
(** Only forward. *)
Definition set_commit_idx (i : Z) (s : srv_state) : srv_state :=
  if ss_commit_idx s <? i then s <| ss_commit_idx := i |> else s.
Definition set_voted_for (v : Z) (s : srv_state) : srv_state := s <| ss_voted_for := v |>.
Definition inc_term (s : srv_state) : srv_state := s <| ss_term ::= λ t, u64 (t + 1) |>.
End SrvState.

(** ** Parameters *)
Record raft_params := mk_params {
  election_timeout_upper_bound_ : Z;
  election_timeout_lower_bound_ : Z;
  heart_beat_interval_ : Z;
  rpc_failure_backoff_ : Z;
  log_sync_batch_size_ : Z;
  log_sync_stop_gap_ : Z;
  snapshot_distance_ : Z;
  snapshot_block_size_ : Z;
  max_append_size_ : Z }.
Definition default_params : raft_params := mk_params 300 150 75 25 1000 10 0 0 100.
#[export] Instance eta_params : Eta raft_params := λ p,
  mk_params (election_timeout_upper_bound_ p) (election_timeout_lower_bound_ p)
    (heart_beat_interval_ p) (rpc_failure_backoff_ p) (log_sync_batch_size_ p)
    (log_sync_stop_gap_ p) (snapshot_distance_ p) (snapshot_block_size_ p) (max_append_size_ p).
Definition with_election_timeout_upper (timeout : Z) (p : raft_params) : raft_params :=
  p <| election_timeout_upper_bound_ := timeout |>.
Definition with_election_timeout_lower (timeout : Z) (p : raft_params) : raft_params :=
  p <| election_timeout_lower_bound_ := timeout |>.
Definition with_hb_interval (hb_interval : Z) (p : raft_params) : raft_params :=
  p <| heart_beat_interval_ := hb_interval |>.
Definition with_rpc_failure_backoff (backoff : Z) (p : raft_params) : raft_params :=
  p <| rpc_failure_backoff_ := backoff |>.
Definition with_max_append_size (size : Z) (p : raft_params) : raft_params :=
  p <| max_append_size_ := size |>.
Definition with_log_sync_batch_size (batch_size : Z) (p : raft_params) : raft_params :=
  p <| log_sync_batch_size_ := batch_size |>.
Definition with_log_sync_stopping_gap (gap : Z) (p : raft_params) : raft_params :=
  p <| log_sync_stop_gap_ := gap |>.
Definition with_snapshot_enabled (commit_distance : Z) (p : raft_params) : raft_params :=
  p <| snapshot_distance_ := commit_distance |>.
Definition with_snapshot_sync_block_size (size : Z) (p : raft_params) : raft_params :=
  p <| snapshot_block_size_ := size |>.
Definition max_hb_interval (p : raft_params) : Z :=
  Z.max (heart_beat_interval_ p)
    (i32 (election_timeout_lower_bound_ p - Z.quot (heart_beat_interval_ p) 2)).

(** ** Peers *)
Record snapshot_sync_ctx := mk_sync_ctx { ssc_snapshot : snapshot; ssc_offset : Z }.
#[export] Instance eta_sync_ctx : Eta snapshot_sync_ctx := λ c,
  mk_sync_ctx (ssc_snapshot c) (ssc_offset c).

Record peer := mk_peer {
  pr_config : srv_config;
  pr_rpc : bool;               (* whether [create_client] returned a client *)
  pr_current_hb_interval : Z;
  pr_hb_interval : Z;
  pr_rpc_backoff : Z;
  pr_max_hb_interval : Z;
  pr_next_log_idx : Z;
  pr_matched_idx : Z;
  pr_busy_flag : bool;
  pr_pending_commit_flag : bool;
  pr_hb_enabled : bool;
  pr_hb_task : delayed_task;
  pr_snp_sync_ctx : option snapshot_sync_ctx }.
#[export] Instance eta_peer : Eta peer := λ p,
  mk_peer (pr_config p) (pr_rpc p) (pr_current_hb_interval p) (pr_hb_interval p)
    (pr_rpc_backoff p) (pr_max_hb_interval p) (pr_next_log_idx p) (pr_matched_idx p)
    (pr_busy_flag p) (pr_pending_commit_flag p) (pr_hb_enabled p) (pr_hb_task p)
    (pr_snp_sync_ctx p).

Module Peer.
Definition new (config : srv_config) (rpc : bool) (ps : raft_params) : peer :=
  mk_peer config rpc (heart_beat_interval_ ps) (heart_beat_interval_ ps)
    (rpc_failure_backoff_ ps) (max_hb_interval ps) 0 0 false false false Task.new None.
Definition get_id (p : peer) : Z := sc_id (pr_config p).
(** The compare-and-swap from false to true: whether it succeeded, and the peer. *)
Definition make_busy (p : peer) : bool * peer :=
  if pr_busy_flag p then (false, p) else (true, p <| pr_busy_flag := true |>).
Definition set_free (p : peer) : peer := p <| pr_busy_flag := false |>.
Definition enable_hb (enable : bool) (p : peer) : peer :=
  let p := p <| pr_hb_enabled := enable |> in
  if enable then p else p <| pr_hb_task ::= Scheduler.cancel |>.
Definition set_next_log_idx (i : Z) (p : peer) : peer := p <| pr_next_log_idx := i |>.
Definition set_matched_idx (i : Z) (p : peer) : peer := p <| pr_matched_idx := i |>.
Definition set_pending_commit (p : peer) : peer := p <| pr_pending_commit_flag := true |>.
Definition clear_pending_commit (p : peer) : bool * peer :=
  if pr_pending_commit_flag p then (true, p <| pr_pending_commit_flag := false |>)
  else (false, p).
Definition set_snapshot_in_sync (s : option snapshot) (p : peer) : peer :=
  p <| pr_snp_sync_ctx := (λ s, mk_sync_ctx s 0) <$> s |>.
Definition slow_down_hb (p : peer) : peer :=
  p <| pr_current_hb_interval :=
    Z.min (pr_max_hb_interval p) (i32 (pr_current_hb_interval p + pr_rpc_backoff p)) |>.
Definition resume_hb_speed (p : peer) : peer :=
  p <| pr_current_hb_interval := pr_hb_interval p |>.
(** The part of [handle_rpc_result] before the handler is called; [ok]: no error. *)
Definition rpc_returned (type : msg_type) (ok : bool) (p : peer) : peer :=
  let p := if decide (type = append_entries_request ∨ type = install_snapshot_request)
           then set_free p else p in
  if ok then resume_hb_speed p else slow_down_hb p.
End Peer.

(** The heart-beat interval stays between its base and its maximum. *)
Definition hb_interval_ok (p : peer) : Prop :=
  0 ≤ pr_hb_interval p ≤ pr_current_hb_interval p ∧
  pr_current_hb_interval p ≤ pr_max_hb_interval p ∧
  0 ≤ pr_rpc_backoff p ∧ pr_max_hb_interval p + pr_rpc_backoff p < 2 ^ 31.

(** A new peer starts there, whatever the heart-beat interval, the back-off and the lower
    election timeout are set to, as long as they are not negative and fit. *)
Lemma new_peer_hb_ok c rpc hb lower backoff ps :
  0 ≤ hb → 0 ≤ lower → 0 ≤ backoff → Z.max hb lower + backoff < 2 ^ 31 →
  hb_interval_ok (Peer.new c rpc
    (with_hb_interval hb (with_election_timeout_lower lower (with_rpc_failure_backoff backoff ps)))).
Proof.
  intros H1 H2 H3 H4. pose proof (Z.quot_pos hb 2 H1 ltac:(lia)).
  pose proof (Z.quot_le_upper_bound hb 2 hb ltac:(lia) ltac:(lia)).
  unfold hb_interval_ok, Peer.new, max_hb_interval. cbn -[Z.quot Z.max i32 Z.pow].
  rewrite i32_small by (unfold is_i32; lia). lia.
Qed.

(** C34: Heart-beat back-off.  From a fresh peer with sane parameters, any sequence of
    rpc results keeps the interval within [hb_interval, max_hb_interval], and [n]
    failures in a row bring it to the maximum as soon as [n] back-offs cover it. *)
Theorem hb_backoff_bounded types p :
  hb_interval_ok p →
  let p' := foldl (λ p (r : msg_type * bool), Peer.rpc_returned (fst r) (snd r) p) p types in
  hb_interval_ok p' ∧
  (Forall (λ r : msg_type * bool, snd r = false) types →
   pr_current_hb_interval p' =
     Z.min (pr_max_hb_interval p)
       (pr_current_hb_interval p + Z.of_nat (length types) * pr_rpc_backoff p)).
Proof.
  assert (∀ p t b, hb_interval_ok p →
    let p' := Peer.rpc_returned t b p in
    hb_interval_ok p' ∧ pr_max_hb_interval p' = pr_max_hb_interval p ∧
    pr_rpc_backoff p' = pr_rpc_backoff p ∧
    (b = false → pr_current_hb_interval p' =
       Z.min (pr_max_hb_interval p) (pr_current_hb_interval p + pr_rpc_backoff p))) as Hstep.
  { intros q t b (H1 & H2 & H3). unfold Peer.rpc_returned, Peer.resume_hb_speed,
      Peer.slow_down_hb, Peer.set_free, hb_interval_ok.
    case_decide; destruct b; simpl; try (rewrite i32_small by (unfold is_i32; lia)); lia. }
  revert p. induction types as [|[t b] types IH]; intros p Hp; simpl.
  - split; [done|]. destruct Hp as (H1 & H2 & H3). lia.
  - destruct (Hstep p t b Hp) as (Hp' & Hm & Hb & Hc). destruct (IH _ Hp') as [IH1 IH2].
    split; [done|]. intros [Hf Hfs]%Forall_cons. simpl in Hf. rewrite IH2 by done.
    rewrite Hm, Hb, Hc by done. destruct Hp as (H1 & H2 & H3). lia.
Qed.

Lemma hb_backoff_bounded_witness :
  let p := Peer.new (mk_srv_config 1 []) true default_params in
  let types := replicate 5 (append_entries_request, false) in
  hb_interval_ok p ∧
  pr_current_hb_interval
    (foldl (λ p (r : msg_type * bool), Peer.rpc_returned (fst r) (snd r) p) p types) = 113.
Proof.
  assert (hb_interval_ok (Peer.new (mk_srv_config 1 []) true default_params)) as H
    by (split; vm_compute; intuition congruence).
  split; [exact H|].
  destruct (hb_backoff_bounded (replicate 5 (append_entries_request, false)) _ H) as [_ Hx].
  rewrite Hx by (repeat constructor). vm_compute. reflexivity.
Defined.
