(* ===== verification/RaftState.v ===== *)
(** The state of [raft_server] and the primitives its handlers are made of.

    What the server calls outside itself: the log store is any implementation of
    [LogStore]; the state machine is a class of operations of its own state; the random
    engine, the rpc client factory and the iteration order of [unordered_map] form
    [RaftEnv].  Calls that leave the server without an answer (requests sent, timers,
    [state_mgr], the commit notification) are appended to a trace, newest first. *)
From S2P Require Import Prelude Buffer Codec LogStore Timer Peer.

(** ** The environment *)
Class StateMachine (SM : Type) := {
  sm_commit : Z → buffer → M SM unit;
  sm_pre_commit : Z → buffer → M SM unit;
  sm_rollback : Z → buffer → M SM unit;
  sm_save_snapshot_data : snapshot → Z → buffer → M SM unit;
  sm_apply_snapshot : snapshot → M SM bool;
  sm_read_snapshot_data : snapshot → Z → buffer → M SM (Z * buffer);
  sm_last_snapshot : M SM (option snapshot);
  sm_create_snapshot : snapshot → M SM unit }.

Class RaftEnv := {
  (** A draw of [uniform_int_distribution] between the two bounds, and the next state
      of the engine. *)
  rand_timeout : raft_params → Z → Z * Z;
  rand_timeout_ok ps s : election_timeout_lower_bound_ ps ≤ election_timeout_upper_bound_ ps →
    election_timeout_lower_bound_ ps ≤ fst (rand_timeout ps s) ≤ election_timeout_upper_bound_ ps;
  (** Whether [create_client] returns a client for an endpoint. *)
  create_client : list byte → bool;
  (** The order in which [unordered_map] visits its keys. *)
  peer_order : gmap Z peer → list Z;
  peer_order_ok m : peer_order m ≡ₚ (map_to_list m).*1 }.

(** ** Effects *)

(** A peer object: one of [peers_], or [srv_to_join_]. *)
Inductive peer_ref := Member (id : Z) | Joining.
#[export] Instance peer_ref_eq_dec : EqDecision peer_ref.
Proof. solve_decision. Defined.
(** The handler an rpc is sent with: [resp_handler_] or [ex_resp_handler_]. *)
Inductive rpc_handler := resp_handler_ | ex_resp_handler_.
Inductive timer_ref :=
| ElectionTimer
| HbTimer (p : peer_ref)
| RetryTimer (p : peer_ref) (rpc : bool) (req : req_msg).  (* it keeps the peer alive *)

Inductive effect :=
| Send (p : peer_ref) (req : req_msg) (h : rpc_handler)
| SendToLeader (id : Z) (req : req_msg)
| StartTimer (t : timer_ref) (ms : Z)
| CancelTimer (t : timer_ref)
| SaveState (s : srv_state)
| SaveConfig (c : cluster_config)
| SystemExit (code : Z)
| NotifyCommit.

(** ** The server *)
Record server (L SM : Type) := mk_server {
  leader_ : Z;
  id_ : Z;
  votes_responded_ : Z;
  votes_granted_ : Z;
  quick_commit_idx_ : Z;
  election_completed_ : bool;
  config_changing_ : bool;
  catching_up_ : bool;
  stopping_ : bool;
  steps_to_down_ : Z;
  snp_in_progress_ : bool;
  params_ : raft_params;
  election_task_ : option delayed_task;
  peers_ : gmap Z peer;
  rpc_clients_ : gmap Z bool;
  role_ : srv_role;
  state_ : srv_state;
  log_store_ : L;
  state_machine_ : SM;
  rand_timeout_ : Z;
  config_ : cluster_config;
  srv_to_join_ : option peer;
  conf_to_add_ : option srv_config;
  trace_ : list effect }.
Arguments mk_server {L SM}.
Arguments leader_ {L SM}. Arguments id_ {L SM}. Arguments votes_responded_ {L SM}.
Arguments votes_granted_ {L SM}. Arguments quick_commit_idx_ {L SM}.
Arguments election_completed_ {L SM}. Arguments config_changing_ {L SM}.
Arguments catching_up_ {L SM}. Arguments stopping_ {L SM}. Arguments steps_to_down_ {L SM}.
Arguments snp_in_progress_ {L SM}. Arguments params_ {L SM}. Arguments election_task_ {L SM}.
Arguments peers_ {L SM}. Arguments rpc_clients_ {L SM}. Arguments role_ {L SM}.
Arguments state_ {L SM}. Arguments log_store_ {L SM}. Arguments state_machine_ {L SM}.
Arguments rand_timeout_ {L SM}. Arguments config_ {L SM}. Arguments srv_to_join_ {L SM}.
Arguments conf_to_add_ {L SM}. Arguments trace_ {L SM}.
#[export] Instance eta_server {L SM} : Eta (server L SM) := λ s,
  mk_server (leader_ s) (id_ s) (votes_responded_ s) (votes_granted_ s)
    (quick_commit_idx_ s) (election_completed_ s) (config_changing_ s) (catching_up_ s)
    (stopping_ s) (steps_to_down_ s) (snp_in_progress_ s) (params_ s) (election_task_ s)
    (peers_ s) (rpc_clients_ s) (role_ s) (state_ s) (log_store_ s) (state_machine_ s)
    (rand_timeout_ s) (config_ s) (srv_to_join_ s) (conf_to_add_ s) (trace_ s).

Section primitives.
Context {L SM : Type} `{!LogStore L} `{!StateMachine SM} `{!RaftEnv}.
Abbreviation server := (server L SM).
Abbreviation RM := (M server).

Definition emit (e : effect) : RM unit := modify (λ s, s <| trace_ ::= cons e |>).
(** [state_mgr_.system_exit(-1); ::exit(code)]. *)
Definition die {A} (code : Z) : RM A := emit (SystemExit (-1));; stop (Exited code).
Definition save_state : RM unit := st ← gets state_; emit (SaveState st).
Definition upd_state (f : srv_state → srv_state) : RM unit := modify (λ s, s <| state_ ::= f |>).

Definition next_slot_ (s : server) : Z := next_slot (log_store_ s).
(** [log_store_->next_slot() - 1]. *)
Definition last_slot_ (s : server) : Z := u64 (next_slot_ s - 1).
Definition log_op {A} (m : M L A) : RM A := zoom log_store_ m.
Definition sm_op {A} (m : M SM A) : RM A := zoom state_machine_ m.
(** Run a reader on a buffer the caller does not use afterwards. *)
Definition reading {A} (b : buffer) (m : M buffer A) : RM A := fst <$> local b m.

Definition find_peer (p : peer_ref) (s : server) : option peer :=
  match p with Member id => peers_ s !! id | Joining => srv_to_join_ s end.
Definition the_peer (p : peer_ref) : RM peer := o ← gets (find_peer p); deref o.
Definition upd_peer (p : peer_ref) (f : peer → peer) : RM unit :=
  match p with
  | Member id => modify (λ s, s <| peers_ ::= alter f id |>)
  | Joining => modify (λ s, s <| srv_to_join_ ::= fmap f |>)
  end.
(** The keys of [peers_], in iteration order. *)
Definition for_peers (f : Z → RM unit) : RM unit :=
  s ← get; for_each f (peer_order (peers_ s)).
(** [peer::send_req]: the call through [rpc_]. *)
Definition send_req (p : peer_ref) (req : req_msg) (h : rpc_handler) : RM unit :=
  pr ← the_peer p; if pr_rpc pr then emit (Send p req h) else undefined.
Definition new_peer (c : srv_config) (s : server) : peer :=
  Peer.new c (create_client (sc_endpoint c)) (params_ s).
(** [peer::enable_hb(false)]. *)
Definition disable_hb (id : Z) : RM unit :=
  upd_peer (Member id) (Peer.enable_hb false);; emit (CancelTimer (HbTimer (Member id))).

Lemma the_peer_Ret p pr s : find_peer p s = Some pr → the_peer p s = Ret pr s.
Proof. intros Hp. unfold the_peer. unfold_M. by rewrite Hp. Qed.
End primitives.
