(* ===== verification/Raft.v ===== *)
(** The handlers of [raft_server] for elections, replication and snapshots:
    [raft_server.cxx] except membership changes, the committing thread and the client
    calls, which are in [Member.v] and [Server.v].

    Each handler runs under [lock_]; it is one transition of the state.  Logging is
    left out.  Counters of votes are mathematical integers: they are reset at each term
    and a signed overflow would be undefined. *)
From stdpp Require Import sorting.
From S2P Require Import Prelude Buffer Codec LogStore Timer Peer RaftState.

Section raft.
Context {L SM : Type} `{!LogStore L} `{!StateMachine SM} `{!RaftEnv}.
Abbreviation server := (server L SM).
Abbreviation RM := (M server).

(** ** Timers *)
Definition restart_election_timer : RM unit :=
  catching_up ← gets catching_up_;
  if (catching_up : bool) then mret () else
  t ← gets election_task_;
  t ← match t with
      | Some t => emit (CancelTimer ElectionTimer);; mret (Scheduler.cancel t)
      | None => mret Task.new
      end;
  s ← get;
  let '(ms, eng) := rand_timeout (params_ s) (rand_timeout_ s) in
  modify (λ s, s <| rand_timeout_ := eng |> <| election_task_ := Some (Scheduler.schedule t) |>);;
  emit (StartTimer ElectionTimer ms).

Definition stop_election_timer : RM unit :=
  t ← gets election_task_;
  match t with
  | None => mret ()
  | Some t => modify (λ s, s <| election_task_ := Some (Scheduler.cancel t) |>);;
              emit (CancelTimer ElectionTimer)
  end.

(** [enable_hb(true)], [resume_hb_speed] and [schedule]. *)
Definition enable_hb_for_peer (p : peer_ref) : RM unit :=
  upd_peer p (λ p, Peer.resume_hb_speed (Peer.enable_hb true p));;
  pr ← the_peer p;
  upd_peer p (λ p, p <| pr_hb_task ::= Scheduler.schedule |>);;
  emit (StartTimer (HbTimer p) (pr_current_hb_interval pr)).

Definition become_follower : RM unit :=
  for_peers disable_hb;;
  modify (λ s, s <| srv_to_join_ := None |> <| role_ := follower |>);;
  restart_election_timer.

Definition update_term (term : Z) : RM bool :=
  st ← gets state_;
  if ss_term st <? term then
    upd_state (λ st, SrvState.set_voted_for (-1) (SrvState.set_term term st));;
    modify (λ s, s <| election_completed_ := false |> <| votes_granted_ := 0 |>
                   <| votes_responded_ := 0 |>);;
    save_state;; become_follower;; mret true
  else mret false.

(** ** Terms of the log *)
Definition term_for_log (log_idx : Z) : RM Z :=
  if log_idx =? 0 then mret 0 else
  s ← get;
  if start_index (log_store_ s) <=? log_idx then log_op (term_at log_idx) else
  last_snapshot ← sm_op sm_last_snapshot;
  match last_snapshot with
  | Some snp => if log_idx =? snp_last_log_idx snp then mret (snp_last_log_term snp)
                else die (-1)
  | None => die (-1)
  end.

(** ** Requests to followers *)
Definition get_snapshot_sync_block_size (s : server) : Z :=
  let block_size := snapshot_block_size_ (params_ s) in
  if block_size =? 0 then 4 * 1024 else block_size.

(** When there is no snapshot at all the arguments of the error message dereference
    it. *)
Definition create_sync_snapshot_req (p : peer_ref) (last_log_idx term commit_idx : Z)
    : RM req_msg :=
  pr ← the_peer p;
  last_snp ← sm_op sm_last_snapshot;
  let snp := ssc_snapshot <$> pr_snp_sync_ctx pr in
  snp ← (if match snp, last_snp with
            | None, _ => true
            | Some s, Some l => snp_last_log_idx s <? snp_last_log_idx l
            | Some _, None => false
            end then
           l ← deref last_snp;
           (if snp_last_log_idx l <? last_log_idx then die (-1) else mret ());;
           (if snp_size l <? 1 then die (-1) else mret ());;
           upd_peer p (Peer.set_snapshot_in_sync (Some l));; mret l
         else deref snp);
  pr ← the_peer p;
  ctx ← deref (pr_snp_sync_ctx pr);
  let offset := ssc_offset ctx in
  s ← get;
  let sz_left := i32 (snp_size snp - offset) in
  data ← Buf.alloc (u64 (Z.min (get_snapshot_sync_block_size s) sz_left));
  '(sz_rd, data) ← sm_op (sm_read_snapshot_data snp offset data);
  if u64 sz_rd <? Z.of_nat (Buf.size data) then die (-1) else
  let done := snp_size snp <=? u64 (offset + Z.of_nat (Buf.size data)) in
  b ← SnapshotSyncReq.serialize (mk_snapshot_sync_req snp offset data done);
  id ← gets id_;
  mret (mk_req term install_snapshot_request id (Peer.get_id pr)
          (snp_last_log_term snp) (snp_last_log_idx snp) commit_idx
          [mk_log_entry term snp_sync_req (Some b)]).

Definition create_append_entries_req (p : peer_ref) : RM req_msg :=
  s ← get;
  let starting_idx := start_index (log_store_ s) in
  let cur_nxt_idx := next_slot_ s in
  let commit_idx := quick_commit_idx_ s in
  let term := ss_term (state_ s) in
  pr ← the_peer p;
  (if pr_next_log_idx pr =? 0 then upd_peer p (Peer.set_next_log_idx cur_nxt_idx) else mret ());;
  pr ← the_peer p;
  let last_log_idx := u64 (pr_next_log_idx pr - 1) in
  if cur_nxt_idx <=? last_log_idx then die (-1) else
  if (0 <? last_log_idx) && (last_log_idx <? u64 (starting_idx - 1)) then
    create_sync_snapshot_req p last_log_idx term commit_idx
  else
  last_log_term ← term_for_log last_log_idx;
  let end_idx := Z.min cur_nxt_idx (u64 (last_log_idx + 1 + max_append_size_ (params_ s))) in
  es ← (if cur_nxt_idx <=? u64 (last_log_idx + 1) then mret None
        else log_op (log_entries (u64 (last_log_idx + 1)) end_idx));
  mret (mk_req term append_entries_request (id_ s) (Peer.get_id pr) last_log_term
          last_log_idx commit_idx (default [] es)).

(** [request_append_entries(peer&)]: whether the peer was free. *)
Definition request_append_entries_to (p : peer_ref) : RM bool :=
  pr ← the_peer p;
  let '(ok, pr') := Peer.make_busy pr in
  if ok then
    upd_peer p (λ _, pr');;
    msg ← create_append_entries_req p;
    send_req p msg resp_handler_;; mret true
  else mret false.

Definition commit (target_idx : Z) : RM unit :=
  s ← get;
  (if quick_commit_idx_ s <? target_idx then
     modify (λ s, s <| quick_commit_idx_ := target_idx |>);;
     when (bool_decide (role_ s = leader))
       (for_peers (λ id,
          sent ← request_append_entries_to (Member id);
          when (negb sent) (upd_peer (Member id) Peer.set_pending_commit)))
   else mret ());;
  s ← get;
  when ((ss_commit_idx (state_ s) <? last_slot_ s) &&
        (ss_commit_idx (state_ s) <? quick_commit_idx_ s)) (emit NotifyCommit).

(** [request_append_entries()]. *)
Definition request_append_entries : RM unit :=
  s ← get;
  if bool_decide (peers_ s = ∅) then commit (last_slot_ s)
  else for_peers (λ id, request_append_entries_to (Member id);; mret ()).

(** ** Elections *)
Definition become_leader : RM unit :=
  stop_election_timer;;
  modify (λ s, s <| role_ := leader |> <| leader_ := id_ s |> <| srv_to_join_ := None |>);;
  for_peers (λ id,
    next ← gets next_slot_;
    upd_peer (Member id) (λ p,
      Peer.set_free (Peer.set_snapshot_in_sync None (Peer.set_next_log_idx next p)));;
    enable_hb_for_peer (Member id));;
  s ← get;
  when (cc_log_idx (config_ s) =? 0)
    (modify (λ s, s <| config_ ::= set_log_idx (next_slot_ s) |>);;
     s ← get;
     conf_buf ← ClusterConfig.serialize (config_ s);
     log_op (append (mk_log_entry (ss_term (state_ s)) conf (Some conf_buf)));;
     modify (λ s, s <| config_changing_ := true |>));;
  request_append_entries.

Definition request_vote : RM unit :=
  s ← get;
  upd_state (SrvState.set_voted_for (id_ s));;
  save_state;;
  modify (λ s, s <| votes_granted_ ::= Z.add 1 |> <| votes_responded_ ::= Z.add 1 |>);;
  s ← get;
  if Z.quot (i32 (Z.of_nat (size (peers_ s)) + 1)) 2 <? votes_granted_ s then
    modify (λ s, s <| election_completed_ := true |>);; become_leader
  else
    for_peers (λ id,
      s ← get;
      pr ← the_peer (Member id);
      t ← term_for_log (last_slot_ s);
      send_req (Member id)
        (mk_req (ss_term (state_ s)) request_vote_request (id_ s) (Peer.get_id pr) t
           (last_slot_ s) (ss_commit_idx (state_ s)) []) resp_handler_).

Definition handle_election_timeout : RM unit :=
  s ← get;
  if 0 <? steps_to_down_ s then
    modify (λ s, s <| steps_to_down_ ::= Z.pred |>);;
    if steps_to_down_ s - 1 =? 0 then
      (* erase the first entry with this server's id, and save *)
      match list_find (λ c, sc_id c = id_ s) (cc_servers (config_ s)) with
      | Some (i, _) =>
          modify (λ s, s <| config_ ::= λ c, c <| cc_servers ::= delete i |> |>);;
          s ← get; emit (SaveConfig (config_ s))
      | None => mret ()
      end;;
      die 0
    else restart_election_timer
  else if catching_up_ s then restart_election_timer
  else if bool_decide (role_ s = leader) then die (-1)
  else
    upd_state (λ st, SrvState.set_voted_for (-1) (SrvState.inc_term st));;
    modify (λ s, s <| role_ := candidate |> <| votes_granted_ := 0 |>
                   <| votes_responded_ := 0 |> <| election_completed_ := false |>);;
    save_state;;
    request_vote;;
    s ← get;
    when (bool_decide (role_ s ≠ leader)) restart_election_timer.

Definition handle_voting_resp (resp : resp_msg) : RM unit :=
  modify (λ s, s <| votes_responded_ ::= Z.add 1 |>);;
  s ← get;
  if election_completed_ s then mret () else
  when (rs_accepted resp) (modify (λ s, s <| votes_granted_ ::= Z.add 1 |>));;
  s ← get;
  let n := Z.of_nat (size (peers_ s)) + 1 in
  when (i32 n <=? votes_responded_ s) (modify (λ s, s <| election_completed_ := true |>));;
  when (i32 (n / 2) <? votes_granted_ s)
    (modify (λ s, s <| election_completed_ := true |>);; become_leader).

Definition handle_vote_req (req : req_msg) : RM resp_msg :=
  s ← get;
  let resp := new_resp (ss_term (state_ s)) request_vote_response (id_ s) (rq_src req) in
  let last_term := le_term (last_entry (log_store_ s)) in
  let log_okay := (last_term <? rq_last_log_term req) ||
    ((rq_last_log_term req =? last_term) && (last_slot_ s <=? rq_last_log_idx req)) in
  let grant := (rq_term req =? ss_term (state_ s)) && log_okay &&
    ((ss_voted_for (state_ s) =? rq_src req) || (ss_voted_for (state_ s) =? -1)) in
  if grant then
    upd_state (SrvState.set_voted_for (rq_src req));; save_state;;
    mret (accept (next_slot_ s) resp)
  else mret resp.

(** ** Replication *)

(** The three loops over the entries of the request.  Each one takes what is left of
    the request and the index it has reached; the bound [idx < next_slot] is read
    again at every turn. *)
Fixpoint skip_matching (idx : Z) (es : list log_entry) : RM (Z * list log_entry) :=
  match es with
  | [] => mret (idx, [])
  | e :: es' =>
      s ← get;
      if idx <? next_slot_ s then
        entry ← log_op (entry_at idx); entry ← deref entry;
        if le_term entry =? le_term e then skip_matching (u64 (idx + 1)) es'
        else mret (idx, es)
      else mret (idx, es)
  end.
Fixpoint overwrite (idx : Z) (es : list log_entry) : RM (list log_entry) :=
  match es with
  | [] => mret []
  | e :: es' =>
      s ← get;
      if idx <? next_slot_ s then
        old_entry ← log_op (entry_at idx); old_entry ← deref old_entry;
        match le_val_type old_entry with
        | app_log => b ← LogEntry.get_buf old_entry; sm_op (sm_rollback idx b)
        | conf => modify (λ s, s <| config_changing_ := false |>)
        | _ => mret ()
        end;;
        log_op (write_at idx e);;
        overwrite (u64 (idx + 1)) es'
      else mret es
  end.
Fixpoint append_new (es : list log_entry) : RM unit :=
  match es with
  | [] => mret ()
  | e :: es' =>
      idx_for_entry ← log_op (append e);
      match le_val_type e with
      | conf => modify (λ s, s <| config_changing_ := true |>)
      | _ => b ← LogEntry.get_buf e; sm_op (sm_pre_commit idx_for_entry b)
      end;;
      append_new es'
  end.

Definition handle_append_entries (req : req_msg) : RM resp_msg :=
  s ← get;
  (if rq_term req =? ss_term (state_ s) then
     match role_ s with
     | candidate => become_follower
     | leader => die (-1)
     | follower => restart_election_timer
     end
   else mret ());;
  s ← get;
  let resp := (new_resp (ss_term (state_ s)) append_entries_response (id_ s) (rq_src req))
                <| rs_next_idx := next_slot_ s |> in
  log_okay ← (if rq_last_log_idx req =? 0 then mret true
              else if rq_last_log_idx req <? next_slot_ s then
                t ← term_for_log (rq_last_log_idx req); mret (rq_last_log_term req =? t)
              else mret false);
  if (rq_term req <? ss_term (state_ s)) || negb log_okay then mret resp else
  '(idx, es) ← skip_matching (u64 (rq_last_log_idx req + 1)) (rq_log_entries req);
  es ← overwrite idx es;
  append_new es;;
  modify (λ s, s <| leader_ := rq_src req |>);;
  commit (rq_commit_idx req);;
  mret (accept (u64 (rq_last_log_idx req + Z.of_nat (length (rq_log_entries req)) + 1)) resp).

Definition handle_cli_req (req : req_msg) : RM resp_msg :=
  s ← get;
  let resp := new_resp (ss_term (state_ s)) append_entries_response (id_ s) (leader_ s) in
  if bool_decide (role_ s ≠ leader) then mret resp else
  for_each (λ e,
    log_op (append e);;
    b ← LogEntry.get_buf e;
    s ← get; sm_op (sm_pre_commit (last_slot_ s) b)) (rq_log_entries req);;
  request_append_entries;;
  s ← get; mret (accept (next_slot_ s) resp).

(** The index a majority has: the matched indexes in decreasing order, at the middle. *)
Definition matched_indexes (s : server) : list Z :=
  last_slot_ s :: ((λ id, default 0 (pr_matched_idx <$> peers_ s !! id)) <$> peer_order (peers_ s)).
Definition median_index (l : list Z) : option Z :=
  merge_sort Z.ge l !! Z.to_nat (Z.of_nat (length l) / 2).

Definition handle_append_entries_resp (resp : resp_msg) : RM unit :=
  let p := Member (rs_src resp) in
  s ← get;
  match find_peer p s with
  | None => mret ()
  | Some pr =>
      need_to_catchup ← (if rs_accepted resp then
          upd_peer p (λ p, Peer.set_matched_idx (u64 (rs_next_idx resp - 1))
                             (Peer.set_next_log_idx (rs_next_idx resp) p));;
          s ← get;
          m ← deref (median_index (matched_indexes s));
          commit m;;
          pr ← the_peer p;
          let '(pending, pr') := Peer.clear_pending_commit pr in
          upd_peer p (λ _, pr');;
          next ← gets next_slot_;
          mret (pending || (rs_next_idx resp <? next))
        else
          upd_peer p (λ p,
            if (0 <? rs_next_idx resp) && (rs_next_idx resp <? pr_next_log_idx p)
            then Peer.set_next_log_idx (rs_next_idx resp) p
            else Peer.set_next_log_idx (u64 (pr_next_log_idx p - 1)) p);;
          mret true);
      s ← get;
      when (bool_decide (role_ s = leader) && need_to_catchup)
        (request_append_entries_to p;; mret ())
  end.

Definition handle_install_snapshot_resp (resp : resp_msg) : RM unit :=
  let p := Member (rs_src resp) in
  s ← get;
  match find_peer p s with
  | None => mret ()
  | Some pr =>
      need_to_catchup ← (if rs_accepted resp then
          match pr_snp_sync_ctx pr with
          | None => mret false
          | Some ctx =>
              if snp_size (ssc_snapshot ctx) <=? rs_next_idx resp then
                upd_peer p (λ p, Peer.set_snapshot_in_sync None
                  (Peer.set_matched_idx (snp_last_log_idx (ssc_snapshot ctx))
                    (Peer.set_next_log_idx (u64 (snp_last_log_idx (ssc_snapshot ctx) + 1)) p)));;
                pr ← the_peer p;
                let '(pending, pr') := Peer.clear_pending_commit pr in
                upd_peer p (λ _, pr');;
                next ← gets next_slot_;
                mret (pending || (rs_next_idx resp <? next))
              else
                upd_peer p (λ p, p <| pr_snp_sync_ctx ::= fmap (λ c, c <| ssc_offset := rs_next_idx resp |>) |>);;
                mret true
          end
        else mret true);
      s ← get;
      when (bool_decide (role_ s = leader) && need_to_catchup)
        (request_append_entries_to p;; mret ())
  end.

Definition handle_hb_timeout (p : peer_ref) : RM unit :=
  s ← get;
  when (bool_decide (role_ s = leader))
    (request_append_entries_to p;;
     pr ← the_peer p;
     when (pr_hb_enabled pr)
       (upd_peer p (λ p, p <| pr_hb_task ::= Scheduler.schedule |>);;
        emit (StartTimer (HbTimer p) (pr_current_hb_interval pr)))).

(** [handle_peer_resp] with a response; with an error it does nothing. *)
Definition handle_peer_resp (resp : option resp_msg) : RM unit :=
  match resp with
  | None => mret ()
  | Some resp =>
      updated ← update_term (rs_term resp);
      if (updated : bool) then mret () else
      match rs_type resp with
      | request_vote_response => handle_voting_resp resp
      | append_entries_response => handle_append_entries_resp resp
      | install_snapshot_response => handle_install_snapshot_resp resp
      | _ => die (-1)
      end
  end.
End raft.
