(* ===== verification/Member.v ===== *)
(** The handlers of [raft_server] that change the membership, take and install
    snapshots, and bring a new server up to date: the rest of [raft_server.cxx] that
    runs under [lock_]. *)
From S2P Require Import Prelude Buffer Codec LogStore Timer Peer RaftState Raft.

Section member.
Context {L SM : Type} `{!LogStore L} `{!StateMachine SM} `{!RaftEnv}.
Abbreviation server := (server L SM).
Abbreviation RM := (M server).

(** ** Reconfiguration *)

(** The servers of the configuration that are neither peers nor this server. *)
Definition srvs_added (c : cluster_config) (s : server) : list srv_config :=
  filter (λ sc, peers_ s !! sc_id sc = None ∧ sc_id sc ≠ id_ s) (cc_servers c).
(** The peers, and then this server, that the configuration does not have. *)
Definition srvs_removed (c : cluster_config) (s : server) : list Z :=
  filter (λ id, get_server id c = None) (peer_order (peers_ s) ++ [id_ s]).

(** The new peer is reachable only through the map; it is filled first and inserted
    last, if its id is still free. *)
Definition add_peer (sc : srv_config) : RM unit :=
  s ← get;
  let p := Peer.set_next_log_idx (next_slot_ s) (new_peer sc s) in
  let r := Member (sc_id sc) in
  p ← (if bool_decide (role_ s = leader) then
         let p := Peer.resume_hb_speed (Peer.enable_hb true p) in
         let p := p <| pr_hb_task ::= Scheduler.schedule |> in
         emit (StartTimer (HbTimer r) (pr_current_hb_interval p));;
         match srv_to_join_ s with
         | Some j =>
             if Peer.get_id j =? sc_id sc then
               modify (λ s, s <| srv_to_join_ := None |>);;
               mret (Peer.set_next_log_idx (pr_next_log_idx j) p)
             else mret p
         | None => mret p
         end
       else mret p);
  modify (λ s, s <| peers_ ::= λ ps, match ps !! sc_id sc with
                                     | Some _ => ps | None => <[sc_id sc := p]> ps end |>).

Definition remove_peer (id : Z) : RM unit :=
  s ← get;
  match peers_ s !! id with
  | Some _ => disable_hb id;; modify (λ s, s <| peers_ ::= delete id |>)
  | None => mret ()
  end.

(** The last loop; it returns true when this server was removed and [reconfigure]
    returned early. *)
Fixpoint remove_srvs (c : cluster_config) (ids : list Z) : RM bool :=
  match ids with
  | [] => mret false
  | id :: ids' =>
      s ← get;
      if (id =? id_ s) && negb (catching_up_ s) then
        emit (SaveConfig c);; emit (SystemExit 0);; mret true
      else remove_peer id;; remove_srvs c ids'
  end.

Definition reconfigure (new_config : cluster_config) : RM unit :=
  s ← get;
  let added := srvs_added new_config s in
  let removed := srvs_removed new_config s in
  for_each add_peer added;;
  stepped_down ← remove_srvs new_config removed;
  when (negb stepped_down) (modify (λ s, s <| config_ := new_config |>)).

(** ** Taking snapshots *)

(** The loop over previous configurations.  Each turn follows [prev_log_idx]; with
    indexes that decrease, as the server writes them, the fuel below is enough. *)
Fixpoint config_before (fuel : nat) (committed_idx : Z) (c : cluster_config)
    : RM cluster_config :=
  s ← get;
  if (committed_idx <? cc_log_idx c) && (start_index (log_store_ s) <=? cc_prev_log_idx c) then
    match fuel with
    | O => stop Diverges
    | S fuel' =>
        conf_log ← log_op (entry_at (cc_prev_log_idx c));
        conf_log ← deref conf_log;
        b ← LogEntry.get_buf conf_log;
        c ← reading b ClusterConfig.deserialize;
        config_before fuel' committed_idx c
    end
  else mret c.

(** After the compare-and-swap on [snp_in_progress_] only an exception reaches the
    [catch], which gives the flag back. *)
Definition snapshot_and_compact (committed_idx : Z) : RM unit :=
  s ← get;
  let distance := snapshot_distance_ (params_ s) in
  if (0 <? distance) && (distance <? u64 (committed_idx - start_index (log_store_ s)))
     && negb (snp_in_progress_ s) then
    modify (λ s, s <| snp_in_progress_ := true |>);;
    try_catch (
      snp ← sm_op sm_last_snapshot;
      if match snp with
         | Some sn => u64 (committed_idx - snp_last_log_idx sn) <? distance
         | None => false
         end
      then modify (λ s, s <| snp_in_progress_ := false |>)
      else
        conf ← config_before (S (Z.to_nat (cc_log_idx (config_ s)))) committed_idx (config_ s);
        s ← get;
        conf ← (if (committed_idx <? cc_log_idx conf) && (0 <? cc_prev_log_idx conf) &&
                   (cc_prev_log_idx conf <? start_index (log_store_ s)) then
                  sn ← sm_op sm_last_snapshot;
                  match sn with
                  | Some sn => mret (snp_last_config sn)
                  | None => die (-1)
                  end
                else if (committed_idx <? cc_log_idx conf) && (cc_prev_log_idx conf =? 0)
                then die (-1)
                else mret conf);
        let idx_to_compact := u64 (committed_idx - 1) in
        log_term_to_compact ← log_op (term_at idx_to_compact);
        sm_op (sm_create_snapshot (mk_snapshot idx_to_compact log_term_to_compact 0 conf)))
      (modify (λ s, s <| snp_in_progress_ := false |>))
  else mret ().

(** Called by the state machine when the snapshot is done. *)
Definition on_snapshot_completed (sn : snapshot) (result err : bool) : RM unit :=
  when (negb err && result) (log_op (compact (snp_last_log_idx sn));; mret ());;
  modify (λ s, s <| snp_in_progress_ := false |>).

(** ** Installing snapshots *)
Definition handle_snapshot_sync_req (req : snapshot_sync_req) : RM bool :=
  let snp := ssr_snapshot req in
  try_catch (
    sm_op (sm_save_snapshot_data snp (ssr_offset req) (ssr_data req));;
    if ssr_done req then
      s ← get;
      (if bool_decide (role_ s = follower) then mret () else die (-1));;
      compacted ← log_op (compact (snp_last_log_idx snp));
      if (compacted : bool) then
        stop_election_timer;;
        applied ← sm_op (sm_apply_snapshot snp);
        if (applied : bool) then
          reconfigure (snp_last_config snp);;
          s ← get; emit (SaveConfig (config_ s));;
          upd_state (SrvState.set_commit_idx (snp_last_log_idx snp));;
          modify (λ s, s <| quick_commit_idx_ := snp_last_log_idx snp |>);;
          save_state;; restart_election_timer;; mret true
        else die (-1)
      else mret false
    else mret true)
    (die (-1)).

Definition handle_install_snapshot_req (req : req_msg) : RM resp_msg :=
  s ← get;
  (if (rq_term req =? ss_term (state_ s)) && negb (catching_up_ s) then
     match role_ s with
     | candidate => become_follower
     | leader => die (-1)
     | follower => restart_election_timer
     end
   else mret ());;
  s ← get;
  let resp := new_resp (ss_term (state_ s)) install_snapshot_response (id_ s) (rq_src req) in
  if negb (catching_up_ s) && (rq_term req <? ss_term (state_ s)) then mret resp else
  match rq_log_entries req with
  | [e] =>
      if bool_decide (le_val_type e = snp_sync_req) then
        b ← LogEntry.get_buf e;
        sync_req ← reading b SnapshotSyncReq.deserialize;
        if snp_last_log_idx (ssr_snapshot sync_req) <=? ss_commit_idx (state_ s) then mret resp
        else
          ok ← handle_snapshot_sync_req sync_req;
          mret (if (ok : bool) then
                  accept (u64 (ssr_offset sync_req + Z.of_nat (Buf.size (ssr_data sync_req)))) resp
                else resp)
      else mret resp
  | _ => mret resp
  end.

(** ** Configuration changes on the leader *)
Definition append_config (new_conf : cluster_config) : RM unit :=
  s ← get;
  b ← ClusterConfig.serialize new_conf;
  log_op (append (mk_log_entry (ss_term (state_ s)) conf (Some b)));;
  modify (λ s, s <| config_changing_ := true |>).

Definition sync_log_to_new_srv (start_idx : Z) : RM unit :=
  s ← get;
  let gap := i32 (quick_commit_idx_ s - start_idx) in
  if gap <? log_sync_stop_gap_ (params_ s) then
    the_peer Joining;;
    c ← deref (conf_to_add_ s);
    append_config (mk_cluster_config (next_slot_ s) (cc_log_idx (config_ s))
                     (cc_servers (config_ s) ++ [c]));;
    request_append_entries
  else
    let term := ss_term (state_ s) in
    req ← (if (0 <? start_idx) && (start_idx <? start_index (log_store_ s)) then
             create_sync_snapshot_req Joining start_idx term (quick_commit_idx_ s)
           else
             log_pack_buf ← log_op (pack start_idx (Z.min gap (log_sync_batch_size_ (params_ s))));
             p ← the_peer Joining;
             mret (mk_req term sync_log_request (id_ s) (Peer.get_id p) 0 (u64 (start_idx - 1))
                     (quick_commit_idx_ s) [mk_log_entry term log_pack log_pack_buf]));
    send_req Joining req ex_resp_handler_.

Definition invite_srv_to_join_cluster : RM unit :=
  s ← get;
  p ← the_peer Joining;
  b ← ClusterConfig.serialize (config_ s);
  let term := ss_term (state_ s) in
  send_req Joining (mk_req term join_cluster_request (id_ s) (Peer.get_id p) 0 (last_slot_ s)
                      (quick_commit_idx_ s) [mk_log_entry term conf (Some b)]) ex_resp_handler_.

Definition rm_srv_from_cluster (srv_id : Z) : RM unit :=
  s ← get;
  append_config (mk_cluster_config (next_slot_ s) (cc_log_idx (config_ s))
                   (filter (λ c, sc_id c ≠ srv_id) (cc_servers (config_ s))));;
  request_append_entries.

(** ** Extended requests *)
Definition handle_rm_srv_req (req : req_msg) : RM resp_msg :=
  s ← get;
  let resp := new_resp (ss_term (state_ s)) remove_server_response (id_ s) (leader_ s) in
  match rq_log_entries req with
  | [e] =>
      b ← LogEntry.get_buf e;
      if negb (Buf.size b =? sz_int)%nat then mret resp
      else if bool_decide (role_ s ≠ leader) then mret resp
      else if config_changing_ s then mret resp
      else
        srv_id ← reading b Buf.get_int;
        if srv_id =? id_ s then mret resp else
        match peers_ s !! srv_id with
        | None => mret resp
        | Some _ =>
            send_req (Member srv_id)
              (mk_req (ss_term (state_ s)) leave_cluster_request (id_ s) srv_id 0 (last_slot_ s)
                 (quick_commit_idx_ s) []) ex_resp_handler_;;
            mret (accept (next_slot_ s) resp)
        end
  | _ => mret resp
  end.

Definition handle_add_srv_req (req : req_msg) : RM resp_msg :=
  s ← get;
  let resp := new_resp (ss_term (state_ s)) add_server_response (id_ s) (leader_ s) in
  match rq_log_entries req with
  | [e] =>
      if bool_decide (le_val_type e ≠ cluster_server) then mret resp
      else if bool_decide (role_ s ≠ leader) then mret resp
      else
        b ← LogEntry.get_buf e;
        srv_conf ← reading b SrvConfig.deserialize;
        if bool_decide (peers_ s !! sc_id srv_conf ≠ None) || (id_ s =? sc_id srv_conf)
        then mret resp
        else if config_changing_ s then mret resp
        else
          modify (λ s, s <| conf_to_add_ := Some srv_conf |>
                         <| srv_to_join_ := Some (new_peer srv_conf s) |>);;
          invite_srv_to_join_cluster;;
          s ← get; mret (accept (next_slot_ s) resp)
  | _ => mret resp
  end.

Definition handle_log_sync_req (req : req_msg) : RM resp_msg :=
  s ← get;
  let resp := new_resp (ss_term (state_ s)) sync_log_response (id_ s) (rq_src req) in
  match rq_log_entries req with
  | [e] =>
      if bool_decide (le_val_type e ≠ log_pack) then mret resp
      else if negb (catching_up_ s) then mret resp
      else
        b ← LogEntry.get_buf e;
        log_op (apply_pack (u64 (rq_last_log_idx req + 1)) b);;
        s ← get; commit (last_slot_ s);;
        s ← get; mret (accept (next_slot_ s) resp)
  | _ => mret resp
  end.

Definition handle_join_cluster_req (req : req_msg) : RM resp_msg :=
  s ← get;
  let resp := new_resp (ss_term (state_ s)) join_cluster_response (id_ s) (rq_src req) in
  match rq_log_entries req with
  | [e] =>
      if bool_decide (le_val_type e ≠ conf) then mret resp
      else if catching_up_ s then mret resp
      else
        modify (λ s, s <| catching_up_ := true |> <| role_ := follower |>
                       <| leader_ := rq_src req |>);;
        upd_state (SrvState.set_commit_idx 0);;
        modify (λ s, s <| quick_commit_idx_ := 0 |>);;
        upd_state (λ st, SrvState.set_term (rq_term req) (SrvState.set_voted_for (-1) st));;
        save_state;;
        b ← LogEntry.get_buf e;
        c ← reading b ClusterConfig.deserialize;
        reconfigure c;;
        s ← get; mret (accept (next_slot_ s) resp)
  | _ => mret resp
  end.

Definition handle_leave_cluster_req (req : req_msg) : RM resp_msg :=
  s ← get;
  let resp := new_resp (ss_term (state_ s)) leave_cluster_response (id_ s) (rq_src req) in
  if config_changing_ s then mret resp
  else modify (λ s, s <| steps_to_down_ := 2 |>);; mret (accept (next_slot_ s) resp).

Definition handle_extended_msg (req : req_msg) : RM resp_msg :=
  match rq_type req with
  | add_server_request => handle_add_srv_req req
  | remove_server_request => handle_rm_srv_req req
  | sync_log_request => handle_log_sync_req req
  | join_cluster_request => handle_join_cluster_req req
  | leave_cluster_request => handle_leave_cluster_req req
  | install_snapshot_request => handle_install_snapshot_req req
  | _ => die (-1)
  end.

(** ** Extended responses *)
Definition handle_ext_resp_ok (resp : resp_msg) : RM unit :=
  s ← get;
  match rs_type resp with
  | sync_log_response =>
      match srv_to_join_ s with
      | None => mret ()
      | Some _ =>
          upd_peer Joining (λ p, Peer.set_matched_idx (u64 (rs_next_idx resp - 1))
            (Peer.set_next_log_idx (rs_next_idx resp) (Peer.resume_hb_speed p)));;
          sync_log_to_new_srv (rs_next_idx resp)
      end
  | join_cluster_response =>
      match srv_to_join_ s with
      | None => mret ()
      | Some _ => when (rs_accepted resp) (sync_log_to_new_srv 1)
      end
  | leave_cluster_response =>
      when (rs_accepted resp) (rm_srv_from_cluster (rs_src resp))
  | install_snapshot_response =>
      match srv_to_join_ s with
      | None => mret ()
      | Some j =>
          if negb (rs_accepted resp) then mret () else
          match pr_snp_sync_ctx j with
          | None => die (-1)
          | Some ctx =>
              let snp := ssc_snapshot ctx in
              (if snp_size snp <=? rs_next_idx resp then
                 upd_peer Joining (λ p, Peer.set_matched_idx (snp_last_log_idx snp)
                   (Peer.set_next_log_idx (u64 (snp_last_log_idx snp + 1))
                     (Peer.set_snapshot_in_sync None p)))
               else
                 upd_peer Joining (λ p,
                   p <| pr_snp_sync_ctx ::= fmap (λ c, c <| ssc_offset := rs_next_idx resp |>) |>));;
              j ← the_peer Joining;
              sync_log_to_new_srv (pr_next_log_idx j)
          end
      end
  | _ => die (-1)
  end.

(** The peer a failed request concerns. *)
Definition failed_peer (req : req_msg) : option peer_ref :=
  match rq_type req with
  | leave_cluster_request => Some (Member (rq_dst req))
  | sync_log_request | join_cluster_request => Some Joining
  | _ => None
  end.
Definition handle_ext_resp_err (req : req_msg) : RM unit :=
  s ← get;
  match p ← failed_peer req; pr ← find_peer p s; Some (p, pr) with
  | None => mret ()
  | Some (p, pr) =>
      if max_hb_interval (params_ s) <=? pr_current_hb_interval pr then
        if bool_decide (rq_type req = leave_cluster_request) then
          when (bool_decide (size (peers_ s) = 1%nat)) (remove_peer (Peer.get_id pr));;
          rm_srv_from_cluster (Peer.get_id pr)
        else modify (λ s, s <| config_changing_ := false |> <| srv_to_join_ := None |>)
      else
        upd_peer p Peer.slow_down_hb;;
        pr ← the_peer p;
        emit (StartTimer (RetryTimer p (pr_rpc pr) req) (pr_current_hb_interval pr))
  end.
(** [handle_ext_resp]: a response, or the request of the rpc exception. *)
Definition handle_ext_resp (r : resp_msg + req_msg) : RM unit :=
  match r with
  | inl resp => handle_ext_resp_ok resp
  | inr req => handle_ext_resp_err req
  end.
(** The retry timer's task. *)
Definition on_retryable_req_err (p : peer_ref) (rpc : bool) (req : req_msg) : RM unit :=
  if rpc then emit (Send p req ex_resp_handler_) else undefined.
End member.
