(* ===== verification/Server.v ===== *)
(** The rest of [raft_server]: the dispatch of requests and rpc results, the committing
    thread, the constructor and destructor, the client calls; and the runs of a server,
    sequences of events each of which is one call into it. *)
From S2P Require Import Prelude Buffer Codec LogStore Timer Peer RaftState Raft Member.

(** ** The committing thread

    [commit_in_bg] as a machine: where the thread is, with its local variable
    [current_commit_idx].  A step of the thread is atomic; the handlers run between
    steps. *)
Inductive bg_pc :=
| BgStart                (* the head of [while (true)] *)
| BgCheck (cur : Z)      (* the head of the waiting loop *)
| BgWait (cur : Z)       (* in [commit_cv_.wait] *)
| BgApply (cur : Z)      (* the head of the applying loop *)
| BgDone.                (* returned *)
#[export] Instance bg_pc_eq_dec : EqDecision bg_pc.
Proof. solve_decision. Defined.

(** What the client calls return: a ready [async_result], or one that waits for an rpc. *)
Inductive client_result := Ready (b : bool) | Pending.

Section server.
Context {L SM : Type} `{!LogStore L} `{!StateMachine SM} `{!RaftEnv}.
Abbreviation server := (server L SM).
Abbreviation RM := (M server).

(** ** Requests and rpc results *)
Definition process_req (req : req_msg) : RM resp_msg :=
  when (bool_decide (rq_type req = append_entries_request ∨
                     rq_type req = request_vote_request ∨
                     rq_type req = install_snapshot_request))
    (update_term (rq_term req);;
     s ← get;
     when (0 <? steps_to_down_ s) (modify (λ s, s <| steps_to_down_ := 2 |>)));;
  match rq_type req with
  | append_entries_request => handle_append_entries req
  | request_vote_request => handle_vote_req req
  | client_request => handle_cli_req req
  | _ => handle_extended_msg req
  end.

(** [peer::handle_rpc_result] and the handler it ends in; [None] is an rpc error.  The
    callback holds a raw pointer to the peer. *)
Definition handle_rpc_result (p : peer_ref) (req : req_msg) (h : rpc_handler)
    (r : option resp_msg) : RM unit :=
  the_peer p;;
  upd_peer p (Peer.rpc_returned (rq_type req) (bool_decide (r ≠ None)));;
  match h with
  | resp_handler_ => handle_peer_resp r
  | ex_resp_handler_ =>
      handle_ext_resp (match r with Some resp => inl resp | None => inr req end)
  end.

(** ** The committing thread *)
Definition commit_config (b : buffer) : RM unit :=
  new_conf ← reading b (Buf.set_pos 0;; ClusterConfig.deserialize);
  emit (SaveConfig new_conf);;
  modify (λ s, s <| config_changing_ := false |>);;
  s ← get;
  when (cc_log_idx (config_ s) <? cc_log_idx new_conf) (reconfigure new_conf);;
  s ← get;
  when (catching_up_ s && bool_decide (get_server (id_ s) new_conf ≠ None))
    (modify (λ s, s <| catching_up_ := false |>)).

(** The body of the applying loop, for the index it has advanced to. *)
Definition apply_entry (idx : Z) : RM unit :=
  e ← log_op (entry_at idx);
  e ← deref e;
  match le_val_type e with
  | app_log => b ← LogEntry.get_buf e; sm_op (sm_commit idx b)
  | conf => b ← LogEntry.get_buf e; commit_config b
  | _ => mret ()
  end;;
  upd_state (SrvState.set_commit_idx idx);;
  snapshot_and_compact idx.

Definition bg_body (pc : bg_pc) : RM bg_pc :=
  s ← get;
  match pc with
  | BgStart => mret (BgCheck (ss_commit_idx (state_ s)))
  | BgCheck cur =>
      if (quick_commit_idx_ s <=? cur) || (last_slot_ s <=? cur) then mret (BgWait cur)
      else mret (BgApply cur)
  | BgWait cur =>
      if stopping_ s then mret BgDone else mret (BgCheck (ss_commit_idx (state_ s)))
  | BgApply cur =>
      if (cur <? quick_commit_idx_ s) && (cur <? last_slot_ s) then
        apply_entry (u64 (cur + 1));; mret (BgApply (u64 (cur + 1)))
      else save_state;; mret BgStart
  | BgDone => mret BgDone
  end.
(** Any exception ends the process. *)
Definition bg_step (pc : bg_pc) : RM bg_pc := try_catch (bg_body pc) (die (-1)).

(** The thread alone, until it waits or returns. *)
Fixpoint bg_run (fuel : nat) (pc : bg_pc) : RM bg_pc :=
  match pc with
  | BgWait _ | BgDone => mret pc
  | _ => match fuel with
         | O => stop Diverges
         | S fuel' => pc ← bg_step pc; bg_run fuel' pc
         end
  end.

(** ** Construction *)
Definition blank (id : Z) (ps : raft_params) (st : option srv_state) (log : L) (sm : SM)
    (conf : cluster_config) (engine : Z) : server :=
  mk_server (-1) id 0 0 0 true false false false 0 false ps None ∅ ∅ follower
    (default SrvState.new st) log sm engine conf None None [].

(** The search for a configuration that is not committed yet, over the indexes. *)
Fixpoint find_uncommitted_config (idxs : list Z) : RM unit :=
  match idxs with
  | [] => mret ()
  | i :: idxs' =>
      s ← get;
      if i <? next_slot_ s then
        e ← log_op (entry_at i);
        e ← deref e;
        if bool_decide (le_val_type e = conf) then modify (λ s, s <| config_changing_ := true |>)
        else find_uncommitted_config idxs'
      else mret ()
  end.

(** The constructor's body; the fields are [blank]. *)
Definition construct : RM unit :=
  s ← get;
  let first := Z.max (u64 (ss_commit_idx (state_ s) + 1)) (start_index (log_store_ s)) in
  find_uncommitted_config (seqZ first (next_slot_ s - first));;
  for_each (λ c,
    s ← get;
    when (bool_decide (sc_id c ≠ id_ s))
      (modify (λ s, s <| peers_ ::= λ ps, match ps !! sc_id c with
         | Some _ => ps | None => <[sc_id c := new_peer c s]> ps end |>)))
    (cc_servers (config_ s));;
  modify (λ s, s <| quick_commit_idx_ := ss_commit_idx (state_ s) |>);;
  restart_election_timer.

(** The destructor, up to the wait for the thread, and after it. *)
Definition begin_stop : RM unit := modify (λ s, s <| stopping_ := true |>);; emit NotifyCommit.
Definition end_stop : RM unit :=
  t ← gets election_task_;
  match t with Some _ => emit (CancelTimer ElectionTimer) | None => mret () end;;
  for_peers (λ id, upd_peer (Member id) (λ p, p <| pr_hb_task ::= Scheduler.cancel |>);;
                   emit (CancelTimer (HbTimer (Member id)))).

(** ** Client calls *)
Definition send_msg_to_leader (req : req_msg) : RM client_result :=
  s ← get;
  let leader_id := leader_ s in
  if leader_id =? -1 then mret (Ready false)
  else if leader_id =? id_ s then
    resp ← process_req req; mret (Ready (rs_accepted resp))
  else
    rpc_cli ← match rpc_clients_ s !! leader_id with
      | Some c => mret (Some c)
      | None =>
          match get_server leader_id (config_ s) with
          | None => mret None
          | Some srv_conf =>
              let c := create_client (sc_endpoint srv_conf) in
              modify (λ s, s <| rpc_clients_ ::= insert leader_id c |>);; mret (Some c)
          end
      end;
    match rpc_cli with
    | Some true => emit (SendToLeader leader_id req);; mret Pending
    | _ => mret (Ready false)
    end.

Definition client_msg (t : msg_type) (es : list log_entry) : req_msg :=
  mk_req 0 t 0 0 0 0 0 es.
Definition add_srv (srv : srv_config) : RM client_result :=
  buf ← SrvConfig.serialize srv;
  send_msg_to_leader (client_msg add_server_request [mk_log_entry 0 cluster_server (Some buf)]).
Definition append_entries (logs : list buffer) : RM client_result :=
  match logs with
  | [] => mret (Ready false)
  | _ => send_msg_to_leader
           (client_msg client_request ((λ b, mk_log_entry 0 app_log (Some b)) <$> logs))
  end.
Definition remove_srv (srv_id : Z) : RM client_result :=
  buf ← build (Z.of_nat sz_int) (Buf.put_int srv_id);
  send_msg_to_leader (client_msg remove_server_request [mk_log_entry 0 cluster_server (Some buf)]).

(** ** Runs *)
Inductive event :=
| EvRequest (req : req_msg)
| EvRpcResult (p : peer_ref) (req : req_msg) (h : rpc_handler) (r : option resp_msg)
| EvElectionTimeout
| EvHbTimeout (p : peer_ref)
| EvRetry (p : peer_ref) (rpc : bool) (req : req_msg)
| EvSnapshotDone (sn : snapshot) (result err : bool)
| EvClientAppend (logs : list buffer)
| EvClientAdd (srv : srv_config)
| EvClientRemove (id : Z)
| EvCommitThread (pc : bg_pc).

Definition handle (ev : event) : RM unit :=
  match ev with
  | EvRequest req => process_req req;; mret ()
  | EvRpcResult p req h r => handle_rpc_result p req h r
  | EvElectionTimeout => handle_election_timeout
  | EvHbTimeout p => handle_hb_timeout p
  | EvRetry p rpc req => on_retryable_req_err p rpc req
  | EvSnapshotDone sn result err => on_snapshot_completed sn result err
  | EvClientAppend logs => append_entries logs;; mret ()
  | EvClientAdd srv => add_srv srv;; mret ()
  | EvClientRemove id => remove_srv id;; mret ()
  | EvCommitThread pc => bg_step pc;; mret ()
  end.
(** An exception that leaves a handler goes to asio's thread; the server's state stays
    as it is and other events follow.  After an exit or undefined behaviour none does. *)
Fixpoint run (evs : list event) : RM unit :=
  match evs with
  | [] => mret ()
  | ev :: evs' => try_catch (handle ev) (mret ());; run evs'
  end.
End server.
