(* ===== verification/Frames.v ===== *)
(** What the helpers that talk to peers leave alone.  [sends s s']: [s'] differs from [s]
    at most in the peers' bookkeeping, the stores, the timers and the trace, which only
    grows; [advances] also allows a larger quick commit index. *)
From S2P Require Import Prelude Buffer Codec LogStore Timer Peer RaftState Raft Member.
From S2P Require Import Server.

(** The states handed to [save_state], newest first. *)
Definition saves (tr : list effect) : list srv_state :=
  omap (λ e, match e with SaveState st => Some st | _ => None end) tr.

Lemma keeps_weaken {S A} (R R' : relation S) (m : M S A) :
  (∀ s s', R s s' → R' s s') → keeps R m → keeps R' m.
Proof. intros HR Hm s. apply HR, Hm. Qed.

Section frames.
Context {L SM : Type} `{!LogStore L} `{!StateMachine SM} `{HE : !RaftEnv}.
Abbreviation server := (server L SM).

Definition control (s : server) :=
  (role_ s, leader_ s, id_ s, votes_responded_ s, votes_granted_ s, election_completed_ s,
   config_changing_ s, catching_up_ s, stopping_ s, steps_to_down_ s, snp_in_progress_ s,
   params_ s, state_ s, config_ s, conf_to_add_ s, rpc_clients_ s).
Definition advances (s s' : server) : Prop :=
  control s' = control s ∧ dom (peers_ s') = dom (peers_ s) ∧
  (∃ tr, trace_ s' = tr ++ trace_ s) ∧ quick_commit_idx_ s ≤ quick_commit_idx_ s'.
Definition sends (s s' : server) : Prop :=
  control s' = control s ∧ dom (peers_ s') = dom (peers_ s) ∧
  (∃ tr, trace_ s' = tr ++ trace_ s) ∧ quick_commit_idx_ s' = quick_commit_idx_ s.
#[export] Instance advances_pre : PreOrder advances.
Proof.
  split.
  - intros s. repeat split; [by exists []|lia].
  - intros a b c (H1 & H2 & [t1 H3] & H4) (H5 & H6 & [t2 H7] & H8).
    repeat split; [congruence|congruence| |lia].
    exists (t2 ++ t1). rewrite H7, H3. by rewrite app_assoc.
Qed.
#[export] Instance sends_pre : PreOrder sends.
Proof.
  split.
  - intros s. repeat split. by exists [].
  - intros a b c (H1 & H2 & [t1 H3] & H4) (H5 & H6 & [t2 H7] & H8).
    repeat split; [congruence|congruence| |congruence].
    exists (t2 ++ t1). rewrite H7, H3. by rewrite app_assoc.
Qed.
Lemma sends_advances {A} (m : M server A) : keeps sends m → keeps advances m.
Proof. apply keeps_weaken. intros s s' (H1 & H2 & H3 & H4).
  do 3 (split; [done|]). lia. Qed.

Ltac frame := intros; repeat split; try (by exists []).
#[local] Hint Extern 1 (keeps _ (modify _)) => apply keeps_modify; frame : keeps.
Lemma sends_emit e : keeps sends (emit e).
Proof. intros s. repeat split. by exists [e]. Qed.
#[local] Hint Resolve sends_emit : keeps.
Lemma sends_die {A} c : keeps sends (die (A:=A) c).
Proof. unfold die. solve_keeps. Qed.
Lemma sends_log_op {A} (m : M L A) : keeps sends (log_op m).
Proof. apply keeps_zoom. frame. Qed.
Lemma sends_sm_op {A} (m : M SM A) : keeps sends (sm_op m).
Proof. apply keeps_zoom. frame. Qed.
Lemma sends_upd_peer p f : keeps sends (upd_peer p f).
Proof.
  destruct p; apply keeps_modify; [|frame].
  intros s. repeat split; [|by exists []].
  unfold set_field; simpl. apply dom_alter_L.
Qed.
Lemma sends_alloc n : keeps sends (Buf.alloc n).
Proof. unfold Buf.alloc. solve_keeps. Qed.
#[local] Hint Resolve sends_die sends_log_op sends_sm_op sends_upd_peer sends_alloc : keeps.
Lemma sends_build n m : keeps sends (build n m).
Proof. unfold build. solve_keeps. Qed.
Lemma sends_get_buf e : keeps sends (LogEntry.get_buf e).
Proof. unfold LogEntry.get_buf. solve_keeps. Qed.
Lemma sends_the_peer p : keeps sends (the_peer p).
Proof. unfold the_peer. solve_keeps. Qed.
#[local] Hint Resolve sends_build sends_get_buf sends_the_peer : keeps.
Lemma sends_for_peers f : (∀ id, keeps sends (f id)) → keeps sends (for_peers f).
Proof. intros Hf. unfold for_peers. solve_keeps. Qed.
Ltac go := solve_keeps; repeat (apply sends_for_peers; intros ?; solve_keeps).
Lemma sends_serialize_all cs : keeps sends (ClusterConfig.serialize_all cs).
Proof. induction cs; simpl; unfold SrvConfig.serialize; go. Qed.
#[local] Hint Resolve sends_serialize_all : keeps.
Lemma sends_serialize_config c : keeps sends (ClusterConfig.serialize c).
Proof. unfold ClusterConfig.serialize. go. Qed.
Lemma sends_send_req p req h : keeps sends (send_req p req h).
Proof. unfold send_req. go. Qed.
Lemma sends_disable_hb id : keeps sends (disable_hb id).
Proof. unfold disable_hb. go. Qed.
Lemma sends_restart : keeps sends restart_election_timer.
Proof. unfold restart_election_timer. go. Qed.
Lemma sends_stop_timer : keeps sends stop_election_timer.
Proof. unfold stop_election_timer. go. Qed.
Lemma sends_enable_hb p : keeps sends (enable_hb_for_peer p).
Proof. unfold enable_hb_for_peer. go. Qed.
Lemma sends_term_for_log i : keeps sends (term_for_log i).
Proof. unfold term_for_log. go. Qed.
#[local] Hint Resolve sends_serialize_config sends_send_req sends_disable_hb sends_restart
  sends_stop_timer sends_enable_hb sends_term_for_log : keeps.
Lemma sends_sync_snapshot_req p a b c : keeps sends (create_sync_snapshot_req p a b c).
Proof. unfold create_sync_snapshot_req, SnapshotSyncReq.serialize, Snapshot.serialize. go. Qed.
#[local] Hint Resolve sends_sync_snapshot_req : keeps.
Lemma sends_append_entries_req p : keeps sends (create_append_entries_req p).
Proof. unfold create_append_entries_req. go. Qed.
#[local] Hint Resolve sends_append_entries_req : keeps.
Lemma sends_request_append_to p : keeps sends (request_append_entries_to p).
Proof. unfold request_append_entries_to. go. Qed.
#[local] Hint Resolve sends_request_append_to : keeps.

(** [commit] raises the quick commit index to its target, however it ends. *)
Lemma commit_quick i s :
  let s' := final (commit i s) in
  advances s s' ∧ quick_commit_idx_ s' = Z.max (quick_commit_idx_ s) i.
Proof.
  assert (keeps sends (for_peers (λ id,
          sent ← request_append_entries_to (Member id);
          when (negb sent) (upd_peer (Member id) Peer.set_pending_commit)))) as Hf by go.
  unfold commit. erewrite bind_Ret by reflexivity.
  destruct (Z.ltb_spec (quick_commit_idx_ s) i) as [Hlt|Hge].
  - set (s1 := s <| quick_commit_idx_ := i |>).
    assert (advances s s1) as H1 by (repeat split; [by exists []|unfold s1, set_field; simpl; lia]).
    match goal with |- context [(?m ≫= ?k) s] =>
      change ((m ≫= k) s) with ((when (bool_decide (role_ s = leader)) (for_peers (λ id,
          sent ← request_append_entries_to (Member id);
          when (negb sent) (upd_peer (Member id) Peer.set_pending_commit))) ≫= k) s1)
    end.
    match goal with |- context [final (?m s1)] => assert (keeps sends m) as Hk by go end.
    split; [etrans; [exact H1|by apply sends_advances]|].
    destruct (Hk s1) as (_ & _ & _ & Hq). cbv zeta. rewrite Hq. unfold s1, set_field; simpl. lia.
  - erewrite bind_Ret by reflexivity.
    match goal with |- context [final (?m s)] => assert (keeps sends m) as Hk by go end.
    split; [by apply sends_advances|]. destruct (Hk s) as (_ & _ & _ & Hq). cbv zeta. rewrite Hq. lia.
Qed.
Lemma advances_commit i : keeps advances (commit i).
Proof. intros s. apply commit_quick. Qed.
#[local] Hint Resolve advances_commit : keeps.
#[local] Hint Extern 5 (keeps advances _) => apply sends_advances; solve [eauto with keeps nocore] : keeps.
Lemma advances_request_append : keeps advances request_append_entries.
Proof. unfold request_append_entries, for_peers. solve_keeps. Qed.

(** ** Timers and heart-beats

    [calm s s']: only roles, timers, peers and the trace may differ. *)
Definition data (s : server) :=
  (id_ s, votes_responded_ s, votes_granted_ s, election_completed_ s,
   catching_up_ s, steps_to_down_ s, params_ s, state_ s, log_store_ s,
   state_machine_ s, quick_commit_idx_ s).
Definition calm (s s' : server) : Prop :=
  data s' = data s ∧ saves (trace_ s') = saves (trace_ s).
#[export] Instance calm_pre : PreOrder calm.
Proof.
  split; [by split|]. intros a b c [H1 H2] [H3 H4]. split; congruence.
Qed.
Ltac calmly := intros; split; reflexivity.
#[local] Hint Extern 1 (keeps calm (modify _)) => apply keeps_modify; calmly : keeps.
Lemma calm_emit e : (∀ st, e ≠ SaveState st) → keeps calm (emit e).
Proof. intros He s. split; [done|]. destruct e; simpl; naive_solver. Qed.
#[local] Hint Extern 1 (keeps calm (emit _)) => apply calm_emit; discriminate : keeps.
Lemma calm_upd_peer p f : keeps calm (upd_peer p f).
Proof. destruct p; apply keeps_modify; calmly. Qed.
Lemma calm_the_peer p : keeps calm (the_peer p).
Proof. unfold the_peer. solve_keeps. Qed.
#[local] Hint Resolve calm_upd_peer calm_the_peer : keeps.
Lemma calm_restart : keeps calm restart_election_timer.
Proof. unfold restart_election_timer. solve_keeps. Qed.
Lemma calm_stop_timer : keeps calm stop_election_timer.
Proof. unfold stop_election_timer. solve_keeps. Qed.
Lemma calm_disable_hb id : keeps calm (disable_hb id).
Proof. unfold disable_hb. solve_keeps. Qed.
#[local] Hint Resolve calm_restart calm_stop_timer calm_disable_hb : keeps.
Lemma calm_become_follower : keeps calm become_follower.
Proof. unfold become_follower, for_peers. solve_keeps. Qed.
Lemma calm_add_peer c : keeps calm (add_peer c).
Proof. unfold add_peer. solve_keeps. Qed.
Lemma calm_remove_peer id : keeps calm (remove_peer id).
Proof. unfold remove_peer. solve_keeps. Qed.
#[local] Hint Resolve calm_add_peer calm_remove_peer : keeps.
Lemma calm_remove_srvs c ids : keeps calm (remove_srvs c ids).
Proof. induction ids; simpl; solve_keeps. Qed.
#[local] Hint Resolve calm_remove_srvs : keeps.
Lemma calm_reconfigure c : keeps calm (reconfigure c).
Proof. unfold reconfigure. solve_keeps. Qed.

(** ** What always returns *)
Lemma total_emit e : total (emit (L:=L) (SM:=SM) e).
Proof. apply total_modify. Qed.
Lemma total_upd_peer p f : total (upd_peer (L:=L) (SM:=SM) p f).
Proof. destruct p; apply total_modify. Qed.
#[local] Hint Resolve total_emit total_upd_peer : total.
Lemma total_restart : total (restart_election_timer (L:=L) (SM:=SM)).
Proof. unfold restart_election_timer. solve_total. Qed.
Lemma total_stop_timer : total (stop_election_timer (L:=L) (SM:=SM)).
Proof. unfold stop_election_timer. solve_total. Qed.
Lemma total_disable_hb id : total (disable_hb (L:=L) (SM:=SM) id).
Proof. unfold disable_hb. solve_total. Qed.
#[local] Hint Resolve total_restart total_stop_timer total_disable_hb : total.
Lemma total_become_follower : total (become_follower (L:=L) (SM:=SM)).
Proof. unfold become_follower, for_peers. solve_total. Qed.
Lemma total_add_peer c : total (add_peer (L:=L) (SM:=SM) c).
Proof. unfold add_peer. solve_total. Qed.
Lemma total_remove_peer id : total (remove_peer (L:=L) (SM:=SM) id).
Proof. unfold remove_peer. solve_total. Qed.
#[local] Hint Resolve total_add_peer total_remove_peer : total.
Lemma total_remove_srvs c ids : total (remove_srvs (L:=L) (SM:=SM) c ids).
Proof. induction ids; simpl; solve_total. Qed.
#[local] Hint Resolve total_remove_srvs : total.
Lemma total_reconfigure c : total (reconfigure (L:=L) (SM:=SM) c).
Proof. unfold reconfigure. solve_total. Qed.
End frames.

#[export] Hint Resolve sends_emit sends_die sends_log_op sends_sm_op sends_upd_peer sends_alloc
  sends_build sends_get_buf sends_the_peer sends_serialize_config sends_send_req
  sends_disable_hb sends_restart sends_stop_timer sends_enable_hb sends_term_for_log
  sends_sync_snapshot_req sends_append_entries_req sends_request_append_to
  advances_commit advances_request_append : keeps.
