(* ===== verification/Invariants.v ===== *)
(** Invariants of whole runs.  [ServerInv R] is what a preorder on servers has to
    satisfy, atomic change by atomic change, for every handler and then every run to
    respect it; the durable-vote, persistence and commit-index invariants are
    instances. *)
From S2P Require Import Prelude Buffer Codec LogStore Timer Peer RaftState Raft Member.
From S2P Require Import Server Frames.

Section invariants.
Context {L SM : Type} `{!LogStore L} `{!StateMachine SM} `{!RaftEnv}.
Abbreviation server := (server L SM).

(** Change the persistent state and save it. *)
Definition persist (f : srv_state → srv_state) (s : server) : server :=
  s <| state_ ::= f |> <| trace_ ::= cons (SaveState (f (state_ s))) |>.
Definition same_core (s s' : server) : Prop :=
  state_ s' = state_ s ∧ saves (trace_ s') = saves (trace_ s).

Definition to_term (t : Z) (st : srv_state) : srv_state :=
  SrvState.set_voted_for (-1) (SrvState.set_term t st).

(** [term_ok]: the terms that messages may carry; [join_ok]: whether join requests
    are considered. *)
Class ServerInv (term_ok : Z → Prop) (join_ok : Prop) (R : relation server) := {
  inv_pre :: PreOrder R;
  inv_frame s s' : same_core s s' → R s s';
  inv_commit s i : R s (s <| state_ ::= SrvState.set_commit_idx i |>);
  inv_save s : R s (persist id s);
  inv_term s t : term_ok t → ss_term (state_ s) < t → R s (persist (to_term t) s);
  inv_vote s v : ss_voted_for (state_ s) = v ∨ ss_voted_for (state_ s) = -1 →
    R s (persist (SrvState.set_voted_for v) s);
  inv_elect s : role_ s ≠ leader →
    R s (persist (SrvState.set_voted_for (-1) ∘ SrvState.inc_term) s);
  inv_join s t : join_ok → R s (persist (to_term t) s) }.

Section handlers.
Context {term_ok join_ok R} `{!ServerInv term_ok join_ok R}.

Ltac frame := intros; apply inv_frame; split; reflexivity.

Lemma keeps_frame {A} (m : M server A) :
  (∀ s, same_core s (final (m s))) → keeps R m.
Proof. intros Hm s. apply inv_frame, Hm. Qed.
Lemma keeps_at {A} (m : M server A) s0 s : keeps R m → R s0 s → R s0 (final (m s)).
Proof. intros Hm Hs. etrans; [exact Hs|apply Hm]. Qed.
Lemma keeps_bind_at {A B} (m : M server A) (k : A → M server B) s0 s :
  R s0 (final (m s)) → (∀ a, keeps R (k a)) → R s0 (final ((m ≫= k) s)).
Proof.
  intros Hm Hk. unfold mbind, M_bind. destruct (m s) as [a s'|x s']; [|done].
  by apply keeps_at.
Qed.
Lemma keeps_emit e : (∀ st, e ≠ SaveState st) → keeps R (emit e).
Proof. intros He s. apply inv_frame. split; [done|]. destruct e; simpl; naive_solver. Qed.
Lemma keeps_die {A} c : keeps R (die (A:=A) c).
Proof. apply keeps_bind; [typeclasses eauto|apply keeps_emit; done|]. intros _ s. simpl. reflexivity. Qed.
Lemma keeps_log_op {A} (m : M L A) : keeps R (log_op m).
Proof. apply keeps_zoom. frame. Qed.
Lemma keeps_sm_op {A} (m : M SM A) : keeps R (sm_op m).
Proof. apply keeps_zoom. frame. Qed.
Lemma keeps_upd_peer p f : keeps R (upd_peer p f).
Proof. destruct p; apply keeps_modify; frame. Qed.
Lemma keeps_save_state : keeps R save_state.
Proof. intros s. apply (inv_save (R:=R)). Qed.
Lemma keeps_commit_idx i : keeps R (upd_state (SrvState.set_commit_idx i)).
Proof. intros s. apply (inv_commit (R:=R)). Qed.
Lemma keeps_alloc n : keeps R (Buf.alloc n).
Proof. unfold Buf.alloc. case_match; intros s; simpl; reflexivity. Qed.
Lemma keeps_build n m : keeps R (build n m).
Proof.
  unfold build. apply keeps_bind; [typeclasses eauto|apply keeps_alloc|intros b].
  apply keeps_bind; [typeclasses eauto|apply keeps_local, inv_pre|].
  intros []. intros s; simpl; reflexivity.
Qed.
Lemma keeps_get_buf e : keeps R (LogEntry.get_buf e).
Proof. unfold LogEntry.get_buf. case_match; intros s; simpl; reflexivity. Qed.
#[local] Hint Resolve keeps_die keeps_log_op keeps_sm_op keeps_upd_peer keeps_save_state
  keeps_commit_idx keeps_alloc keeps_build keeps_get_buf : keeps.
#[local] Hint Extern 1 (keeps _ (modify _)) => apply keeps_modify; frame : keeps.
#[local] Hint Extern 1 (keeps _ (emit _)) => apply keeps_emit; discriminate : keeps.

Lemma keeps_the_peer p : keeps R (the_peer p).
Proof. unfold the_peer. solve_keeps. Qed.
Lemma keeps_reading {A} b (m : M buffer A) : keeps R (reading b m).
Proof. unfold reading, fmap, M_fmap. solve_keeps. Qed.
Lemma keeps_for_peers f : (∀ id, keeps R (f id)) → keeps R (for_peers f).
Proof. intros Hf. unfold for_peers. solve_keeps. Qed.
#[local] Hint Resolve keeps_the_peer keeps_reading : keeps.
Ltac go := solve_keeps; repeat (apply keeps_for_peers; intros ?; solve_keeps).
Lemma keeps_send_req p req h : keeps R (send_req p req h).
Proof. unfold send_req. go. Qed.
Lemma keeps_disable_hb id : keeps R (disable_hb id).
Proof. unfold disable_hb. go. Qed.
Lemma keeps_restart : keeps R restart_election_timer.
Proof. unfold restart_election_timer. go. Qed.
Lemma keeps_stop_timer : keeps R stop_election_timer.
Proof. unfold stop_election_timer. go. Qed.
#[local] Hint Resolve keeps_send_req keeps_disable_hb keeps_restart keeps_stop_timer : keeps.
Lemma keeps_enable_hb p : keeps R (enable_hb_for_peer p).
Proof. unfold enable_hb_for_peer. go. Qed.
Lemma keeps_become_follower : keeps R become_follower.
Proof. unfold become_follower. go. Qed.
#[local] Hint Resolve keeps_enable_hb keeps_become_follower : keeps.
Lemma keeps_update_term t : term_ok t → keeps R (update_term t).
Proof.
  intros Ht s. unfold update_term. unfold_M. case_match eqn:E; simpl; [|reflexivity].
  apply Z.ltb_lt in E.
  match goal with |- context [become_follower ?s'] =>
    assert (R s (final (become_follower s'))) as HR
  end.
  { apply keeps_at; [apply keeps_become_follower|].
    etrans; [by apply (inv_term s t)|]. frame. }
  destruct (become_follower _); exact HR.
Qed.
Lemma keeps_term_for_log i : keeps R (term_for_log i).
Proof. unfold term_for_log. go. Qed.
#[local] Hint Resolve keeps_term_for_log : keeps.
Lemma keeps_serialize_all cs : keeps R (ClusterConfig.serialize_all cs).
Proof. induction cs; simpl; unfold SrvConfig.serialize; go. Qed.
#[local] Hint Resolve keeps_serialize_all : keeps.
Lemma keeps_serialize_config c : keeps R (ClusterConfig.serialize c).
Proof. unfold ClusterConfig.serialize. go. Qed.
#[local] Hint Resolve keeps_serialize_config : keeps.
Lemma keeps_sync_snapshot_req p a b c : keeps R (create_sync_snapshot_req p a b c).
Proof. unfold create_sync_snapshot_req, SnapshotSyncReq.serialize, Snapshot.serialize. go. Qed.
#[local] Hint Resolve keeps_sync_snapshot_req : keeps.
Lemma keeps_append_entries_req p : keeps R (create_append_entries_req p).
Proof. unfold create_append_entries_req. go. Qed.
#[local] Hint Resolve keeps_append_entries_req : keeps.
Lemma keeps_request_append_to p : keeps R (request_append_entries_to p).
Proof. unfold request_append_entries_to. go. Qed.
#[local] Hint Resolve keeps_request_append_to : keeps.
Lemma keeps_commit i : keeps R (commit i).
Proof. unfold commit. go. Qed.
#[local] Hint Resolve keeps_commit : keeps.
Lemma keeps_request_append : keeps R request_append_entries.
Proof. unfold request_append_entries. go. Qed.
#[local] Hint Resolve keeps_request_append : keeps.
Lemma keeps_become_leader : keeps R become_leader.
Proof. unfold become_leader. go. Qed.
#[local] Hint Resolve keeps_become_leader : keeps.
Lemma keeps_request_vote s0 s :
  ss_voted_for (state_ s) = -1 → R s0 s → R s0 (final (request_vote s)).
Proof.
  intros Hv Hs. unfold request_vote.
  do 3 erewrite bind_Ret by reflexivity.
  apply keeps_at; [go|].
  etrans; [exact Hs|]. etrans; [apply (inv_vote s (id_ s)); auto|]. frame.
Qed.
Lemma keeps_election_timeout : keeps R handle_election_timeout.
Proof.
  intros s. unfold handle_election_timeout.
  erewrite bind_Ret by reflexivity.
  case_match; [apply keeps_at; [go|reflexivity]|].
  case_match; [apply keeps_at; [go|reflexivity]|].
  case_bool_decide; [apply keeps_at; [go|reflexivity]|].
  do 3 erewrite bind_Ret by reflexivity.
  apply keeps_bind_at; [|intros _; go].
  apply keeps_request_vote; [done|].
  etrans; [by apply (inv_elect s)|]. frame.
Qed.
#[local] Hint Resolve keeps_election_timeout : keeps.
Lemma keeps_voting_resp r : keeps R (handle_voting_resp r).
Proof. unfold handle_voting_resp. go. Qed.
Lemma keeps_vote_req r : keeps R (handle_vote_req r).
Proof.
  intros s. unfold handle_vote_req. erewrite bind_Ret by reflexivity.
  case_match eqn:E; [|apply keeps_at; [go|reflexivity]].
  apply andb_true_iff in E as [_ Hv]. apply orb_true_iff in Hv.
  rewrite !Z.eqb_eq in Hv.
  do 2 erewrite bind_Ret by reflexivity.
  apply keeps_at; [go|]. etrans; [by apply (inv_vote s (rq_src r))|]. frame.
Qed.
Lemma keeps_skip_matching es : ∀ i, keeps R (skip_matching i es).
Proof. induction es; intros i; simpl; go. Qed.
Lemma keeps_overwrite es : ∀ i, keeps R (overwrite i es).
Proof. induction es; intros i; simpl; go. Qed.
Lemma keeps_append_new es : keeps R (append_new es).
Proof. induction es; simpl; go. Qed.
#[local] Hint Resolve keeps_voting_resp keeps_vote_req keeps_skip_matching
  keeps_overwrite keeps_append_new : keeps.
Lemma keeps_append_entries r : keeps R (handle_append_entries r).
Proof. unfold handle_append_entries. go. Qed.
Lemma keeps_cli_req r : keeps R (handle_cli_req r).
Proof. unfold handle_cli_req. go. Qed.
Lemma keeps_append_entries_resp r : keeps R (handle_append_entries_resp r).
Proof. unfold handle_append_entries_resp. go. Qed.
Lemma keeps_install_snapshot_resp r : keeps R (handle_install_snapshot_resp r).
Proof. unfold handle_install_snapshot_resp. go. Qed.
Lemma keeps_hb_timeout p : keeps R (handle_hb_timeout p).
Proof. unfold handle_hb_timeout. go. Qed.
#[local] Hint Resolve keeps_append_entries keeps_cli_req keeps_append_entries_resp
  keeps_install_snapshot_resp keeps_hb_timeout : keeps.
Lemma keeps_peer_resp r :
  (∀ x, r = Some x → term_ok (rs_term x)) → keeps R (handle_peer_resp r).
Proof.
  intros Ht. destruct r as [r|]; simpl; [|go].
  apply keeps_bind; [typeclasses eauto|by apply keeps_update_term, Ht|intros ?]. go.
Qed.

(** Membership and snapshots. *)
Lemma keeps_add_peer c : keeps R (add_peer c).
Proof. unfold add_peer. go. Qed.
Lemma keeps_remove_peer i : keeps R (remove_peer i).
Proof. unfold remove_peer. go. Qed.
#[local] Hint Resolve keeps_add_peer keeps_remove_peer : keeps.
Lemma keeps_remove_srvs c ids : keeps R (remove_srvs c ids).
Proof. induction ids; simpl; go. Qed.
#[local] Hint Resolve keeps_remove_srvs : keeps.
Lemma keeps_reconfigure c : keeps R (reconfigure c).
Proof. unfold reconfigure. go. Qed.
Lemma keeps_config_before n i : ∀ c, keeps R (config_before n i c).
Proof. induction n; intros c; simpl; go. Qed.
#[local] Hint Resolve keeps_reconfigure keeps_config_before : keeps.
Lemma keeps_snapshot_and_compact i : keeps R (snapshot_and_compact i).
Proof. unfold snapshot_and_compact. go. Qed.
Lemma keeps_snapshot_completed sn r e : keeps R (on_snapshot_completed sn r e).
Proof. unfold on_snapshot_completed. go. Qed.
Lemma keeps_snapshot_sync_req r : keeps R (handle_snapshot_sync_req r).
Proof. unfold handle_snapshot_sync_req. go. Qed.
#[local] Hint Resolve keeps_snapshot_and_compact keeps_snapshot_completed
  keeps_snapshot_sync_req : keeps.
Lemma keeps_install_snapshot_req r : keeps R (handle_install_snapshot_req r).
Proof. unfold handle_install_snapshot_req. go. Qed.
Lemma keeps_append_config c : keeps R (append_config c).
Proof. unfold append_config. go. Qed.
#[local] Hint Resolve keeps_install_snapshot_req keeps_append_config : keeps.
Lemma keeps_sync_log i : keeps R (sync_log_to_new_srv i).
Proof. unfold sync_log_to_new_srv. go. Qed.
Lemma keeps_invite : keeps R invite_srv_to_join_cluster.
Proof. unfold invite_srv_to_join_cluster. go. Qed.
Lemma keeps_rm_srv i : keeps R (rm_srv_from_cluster i).
Proof. unfold rm_srv_from_cluster. go. Qed.
#[local] Hint Resolve keeps_sync_log keeps_invite keeps_rm_srv : keeps.
Lemma keeps_rm_srv_req r : keeps R (handle_rm_srv_req r).
Proof. unfold handle_rm_srv_req. go. Qed.
Lemma keeps_add_srv_req r : keeps R (handle_add_srv_req r).
Proof. unfold handle_add_srv_req. go. Qed.
Lemma keeps_log_sync_req r : keeps R (handle_log_sync_req r).
Proof. unfold handle_log_sync_req. go. Qed.
Lemma keeps_leave_req r : keeps R (handle_leave_cluster_req r).
Proof. unfold handle_leave_cluster_req. go. Qed.
Lemma keeps_join_req r : join_ok → keeps R (handle_join_cluster_req r).
Proof.
  intros Hj s. unfold handle_join_cluster_req. erewrite bind_Ret by reflexivity.
  destruct (rq_log_entries r) as [|e [|]]; [by apply keeps_at; go| |by apply keeps_at; go].
  case_bool_decide; [by apply keeps_at; go|].
  destruct (catching_up_ s); [by apply keeps_at; go|].
  do 5 erewrite bind_Ret by reflexivity.
  apply keeps_at; [go|].
  etrans; [apply (inv_commit s 0)|]. etrans; [by apply (inv_join _ (rq_term r))|]. frame.
Qed.
#[local] Hint Resolve keeps_rm_srv_req keeps_add_srv_req keeps_log_sync_req
  keeps_leave_req : keeps.
Lemma keeps_extended r :
  (rq_type r = join_cluster_request → join_ok) → keeps R (handle_extended_msg r).
Proof.
  intros Hj. unfold handle_extended_msg. case_match; go. by apply keeps_join_req, Hj.
Qed.
Lemma keeps_ext_resp r : keeps R (handle_ext_resp r).
Proof. unfold handle_ext_resp, handle_ext_resp_ok, handle_ext_resp_err. go. Qed.
#[local] Hint Resolve keeps_ext_resp : keeps.

(** Whole runs. *)
Definition req_ok (r : req_msg) : Prop :=
  term_ok (rq_term r) ∧ (rq_type r = join_cluster_request → join_ok).
Lemma keeps_process_req r : req_ok r → keeps R (process_req r).
Proof.
  intros [Ht Hj]. unfold process_req. pose proof (keeps_extended r Hj) as He.
  apply keeps_bind; [typeclasses eauto| |intros _; destruct (rq_type r); go].
  unfold when. case_match; go. by apply keeps_update_term.
Qed.
#[local] Hint Resolve keeps_process_req : keeps.
Lemma keeps_rpc_result p r h x :
  (∀ y, x = Some y → term_ok (rs_term y)) → keeps R (handle_rpc_result p r h x).
Proof.
  intros Hx. unfold handle_rpc_result. pose proof (keeps_peer_resp x Hx). go.
Qed.
Lemma keeps_commit_config b : keeps R (commit_config b).
Proof. unfold commit_config. go. Qed.
#[local] Hint Resolve keeps_commit_config : keeps.
Lemma keeps_apply_entry i : keeps R (apply_entry i).
Proof. unfold apply_entry. go. Qed.
#[local] Hint Resolve keeps_apply_entry : keeps.
Lemma keeps_bg_step pc : keeps R (bg_step pc).
Proof. unfold bg_step, bg_body. go. Qed.
#[local] Hint Resolve keeps_bg_step : keeps.
Lemma keeps_send_msg r : req_ok r → keeps R (send_msg_to_leader r).
Proof. intros Hr. unfold send_msg_to_leader. go. Qed.
Lemma client_msg_ok t es : term_ok 0 → t ≠ join_cluster_request → req_ok (client_msg t es).
Proof. intros ? ?. split; simpl; [done|congruence]. Qed.

Definition event_ok (ev : event) : Prop :=
  match ev with
  | EvRequest r => req_ok r
  | EvRpcResult _ _ _ (Some r) => term_ok (rs_term r)
  | _ => True
  end.
Lemma keeps_handle ev : term_ok 0 → event_ok ev → keeps R (handle ev).
Proof.
  intros H0 Hok. destruct ev; simpl in *; try (go; fail).
  - apply keeps_rpc_result. intros y ->. done.
  - unfold on_retryable_req_err. go.
  - unfold append_entries.
    pose proof (λ es, keeps_send_msg _ (client_msg_ok client_request es H0 ltac:(done))). go.
  - unfold add_srv, SrvConfig.serialize.
    pose proof (λ es, keeps_send_msg _ (client_msg_ok add_server_request es H0 ltac:(done))). go.
  - unfold remove_srv.
    pose proof (λ es, keeps_send_msg _ (client_msg_ok remove_server_request es H0 ltac:(done))). go.
Qed.
Lemma keeps_run evs : term_ok 0 → Forall event_ok evs → keeps R (run evs).
Proof.
  intros H0. induction 1 as [|ev evs Hev _ IH]; simpl; [apply keeps_ret; typeclasses eauto|].
  apply keeps_bind; [typeclasses eauto| |by intros _].
  apply keeps_try; [typeclasses eauto|by apply keeps_handle|apply keeps_ret; typeclasses eauto].
Qed.
End handlers.
End invariants.
