(* ===== verification/Demo.v ===== *)
(** A concrete environment, in which the theorems about servers are instantiated: the
    abstract log, a state machine that records its calls, a random engine that draws
    the lower bound, and the iteration order of [gmap]. *)
From S2P Require Import Prelude Buffer Codec LogStore Timer Peer RaftState Raft Member.
From S2P Require Import Server.

Inductive sm_call :=
| Committed (i : Z) (d : list byte)
| PreCommitted (i : Z) (d : list byte)
| RolledBack (i : Z) (d : list byte)
| Saved (offset : Z) (d : list byte)
| Applied (sn : snapshot)
| Created (sn : snapshot).

(** The calls, newest first, and the last snapshot with its content. *)
Record recorder := mk_recorder {
  rec_calls : list sm_call; rec_snapshot : option snapshot; rec_content : list byte }.
#[export] Instance eta_recorder : Eta recorder := λ r,
  mk_recorder (rec_calls r) (rec_snapshot r) (rec_content r).
Definition record (c : sm_call) : M recorder unit := modify (λ r, r <| rec_calls ::= cons c |>).

#[export] Instance recorder_sm : StateMachine recorder := {|
  sm_commit i b := record (Committed i (bdata b));
  sm_pre_commit i b := record (PreCommitted i (bdata b));
  sm_rollback i b := record (RolledBack i (bdata b));
  sm_save_snapshot_data sn off b := record (Saved off (bdata b));
  sm_apply_snapshot sn := record (Applied sn);; mret true;
  sm_read_snapshot_data sn off b :=
    r ← get;
    let d := rd_at (Z.to_nat off) (Buf.size b) (rec_content r) in
    mret (Z.of_nat (length d), b <| bdata ::= wr_at 0 d |>);
  sm_last_snapshot := gets rec_snapshot;
  sm_create_snapshot sn :=
    record (Created sn);; modify (λ r, r <| rec_snapshot := Some sn |>) |}.

#[export] Program Instance demo_env : RaftEnv := {|
  rand_timeout ps s := (election_timeout_lower_bound_ ps, s + 1);
  create_client e := true;
  peer_order m := (map_to_list m).*1 |}.
Next Obligation. simpl. lia. Qed.
Next Obligation. done. Qed.

(** Server [id] of a cluster of three, with an empty log. *)
Definition host (n : Z) : list byte := [byte_of (48 + n)].
Definition demo_cluster : cluster_config :=
  mk_cluster_config 0 0 [mk_srv_config 1 (host 1); mk_srv_config 2 (host 2); mk_srv_config 3 (host 3)].
Definition demo_log : alog := mk_alog 1 [].
Definition demo_blank (id : Z) : server alog recorder :=
  blank id default_params None demo_log (mk_recorder [] None []) demo_cluster 0.
Definition demo_server (id : Z) : server alog recorder := final (construct (demo_blank id)).

Definition vote_req (src dst term lt li : Z) : req_msg :=
  mk_req term request_vote_request src dst lt li 0 [].
Definition vote_resp (src dst term : Z) (granted : bool) : resp_msg :=
  mk_resp term request_vote_response src dst 1 granted.
Definition data_entry (term n : Z) : log_entry :=
  mk_log_entry term app_log (Some (mk_buffer [byte_of n] 0)).
Definition append_req (src dst term lt li ci : Z) (es : list log_entry) : req_msg :=
  mk_req term append_entries_request src dst lt li ci es.

(** Server 1 becomes the leader of term 1 with the vote of server 2. *)
Definition elect : list event :=
  [EvElectionTimeout;
   EvRpcResult (Member 2) (vote_req 1 2 1 0 0) resp_handler_ (Some (vote_resp 2 1 1 true))].
Definition demo_leader : server alog recorder := final (run elect (demo_server 1)).

Example demo_leader_elected :
  role_ demo_leader = leader ∧ ss_term (state_ demo_leader) = 1 ∧
  al_next (log_store_ demo_leader) = 2 ∧ config_changing_ demo_leader = true.
Proof. vm_compute. auto. Qed.
