(* ===== verification/Safety.v ===== *)
(** What holds along every run of a server, whatever the messages, the timers and the
    outcome of the calls it makes: votes are durable and unique per term, the saved
    state is up to date at rest, and the commit index never goes back. *)
From Stdlib Require Import Sorting.Sorted.
From S2P Require Import Prelude Buffer Codec LogStore Timer Peer RaftState Raft Member.
From S2P Require Import Server Frames Invariants Demo.

(** [vote_le st1 st2]: [st2] may follow [st1]: a later term, or the same term with the
    vote kept if it was given. *)
Definition vote_le (st1 st2 : srv_state) : Prop :=
  ss_term st1 < ss_term st2 ∨
  ss_term st1 = ss_term st2 ∧ (ss_voted_for st1 = -1 ∨ ss_voted_for st1 = ss_voted_for st2).
#[export] Instance vote_le_dec st1 st2 : Decision (vote_le st1 st2).
Proof. apply _. Defined.
#[export] Instance vote_le_pre : PreOrder vote_le.
Proof.
  split; [intros st; right; auto|]. unfold vote_le. intros a b c Hab Hbc.
  destruct Hab as [?|[? [?|?]]], Hbc as [?|[? [?|?]]]; try (left; lia); right;
    split; try lia; first [left; congruence|right; congruence].
Qed.
(** Each state may follow all those after it in the list. *)
Definition vote_history (l : list srv_state) : Prop := StronglySorted (flip vote_le) l.
Definition same_vote (st1 st2 : srv_state) : Prop :=
  ss_term st1 = ss_term st2 ∧ ss_voted_for st1 = ss_voted_for st2.

Section safety.
Context {L SM : Type} `{!LogStore L} `{!StateMachine SM} `{HE : !RaftEnv}.
Abbreviation server := (server L SM).

(** ** Votes *)
Definition votes_inv (T : Z) (st0 : srv_state) (s : server) : Prop :=
  vote_history (state_ s :: saves (trace_ s) ++ [st0]) ∧
  0 ≤ ss_term (state_ s) ≤ T + Z.of_nat (length (saves (trace_ s))).
Definition votes_step (T : Z) (st0 : srv_state) (s s' : server) : Prop :=
  (length (saves (trace_ s)) ≤ length (saves (trace_ s')))%nat ∧
  (T + Z.of_nat (length (saves (trace_ s'))) < 2 ^ 64 →
   votes_inv T st0 s → votes_inv T st0 s').

Lemma votes_inv_persist T st0 s f :
  vote_le (state_ s) (f (state_ s)) →
  0 ≤ ss_term (f (state_ s)) ≤ T + Z.of_nat (S (length (saves (trace_ s)))) →
  votes_inv T st0 s → votes_inv T st0 (persist f s).
Proof.
  intros Hle Ht [Hh _]. split; [|exact Ht].
  unfold vote_history in *. apply StronglySorted_inv in Hh as [Hh Hall].
  assert (Forall (flip vote_le (f (state_ s))) (saves (trace_ s) ++ [st0])) as Hf.
  { eapply Forall_impl; [exact Hall|]. intros st Hst. unfold flip in *. by etrans. }
  simpl. constructor; [by constructor|]. constructor; [|done]. unfold flip. done.
Qed.
Lemma votes_step_persist T st0 s f :
  (T + Z.of_nat (S (length (saves (trace_ s)))) < 2 ^ 64 →
   0 ≤ ss_term (state_ s) ≤ T + Z.of_nat (length (saves (trace_ s))) →
   vote_le (state_ s) (f (state_ s)) ∧
   0 ≤ ss_term (f (state_ s)) ≤ T + Z.of_nat (S (length (saves (trace_ s))))) →
  votes_step T st0 s (persist f s).
Proof.
  intros Hf. split; [simpl; lia|]. intros Hb Hi. simpl in Hb.
  destruct (Hf Hb (proj2 Hi)) as [? ?]. by apply votes_inv_persist.
Qed.

Lemma votes_server_inv T st0 :
  ServerInv (λ t, 0 ≤ t ≤ T) False (votes_step T st0).
Proof.
  split.
  - split; [by split|]. intros a b c [H1 H2] [H3 H4]. split; [lia|].
    intros Hb Ha. apply H4; [done|]. apply H2; [lia|done].
  - intros s s' [Hst Htr]. unfold votes_step, votes_inv. rewrite Hst, Htr. done.
  - intros s i. split; [done|]. intros _ [Hh Hr]. unfold votes_inv, set_field; simpl.
    assert (same_vote (SrvState.set_commit_idx i (state_ s)) (state_ s)) as [Ht Hv].
    { unfold SrvState.set_commit_idx. by case_match. }
    unfold vote_history in *. apply StronglySorted_inv in Hh as [Hh Hall].
    rewrite Ht. split; [|done]. constructor; [done|].
    eapply Forall_impl; [exact Hall|]. unfold flip, vote_le. by rewrite Ht, Hv.
  - intros s. apply votes_step_persist. intros. split; [reflexivity|]. unfold id; lia.
  - intros s t Ht Hlt. apply votes_step_persist. intros. split; [left; done|]. simpl. lia.
  - intros s v Hv. apply votes_step_persist. intros. split; [|simpl; lia].
    right. split; [done|]. simpl. destruct Hv as [Hv|Hv]; rewrite Hv; auto.
  - intros s _. apply votes_step_persist. intros Hb Hr.
    assert (u64 (ss_term (state_ s) + 1) = ss_term (state_ s) + 1) as Hu.
    { apply u64_small. unfold is_u64. lia. }
    unfold vote_le, compose; simpl; rewrite Hu. lia.
  - done.
Qed.

(** C1: One durable vote per term.  Take a server that has just been built from the
    persistent state it finds, and any run in which messages carry terms up to [T],
    the 64-bit term cannot wrap and no join request is received.  Then the states
    handed to [save_state] during the run and the current one form a history: the term
    never decreases, and within a term a vote, once given, is never changed.  So a
    restart from any saved state cannot vote twice in a term. *)
Theorem durable_votes (T : Z) (evs : list event) (s : server) :
  trace_ s = [] → 0 ≤ ss_term (state_ s) ≤ T →
  Forall (event_ok (term_ok:=λ t, 0 ≤ t ≤ T) (join_ok:=False)) evs →
  let s' := final (run evs s) in
  T + Z.of_nat (length (saves (trace_ s'))) < 2 ^ 64 →
  vote_history (state_ s' :: saves (trace_ s') ++ [state_ s]).
Proof.
  intros Htr Ht Hevs s' Hb.
  pose proof (votes_server_inv T (state_ s)) as HI.
  assert (0 ≤ 0 ≤ T) as H0 by lia.
  pose proof (keeps_run (R:=votes_step T (state_ s)) evs H0 Hevs s) as [_ Hr].
  destruct Hr as [Hh _]; [done| |done].
  split; rewrite Htr; simpl; [|lia].
  constructor; [by repeat constructor|]. constructor; [|constructor].
  unfold flip. reflexivity.
Qed.

(** ** Persistence *)
Definition last_saved (st0 : srv_state) (s : server) : srv_state :=
  default st0 (head (saves (trace_ s))).
Lemma saved_server_inv st0 :
  ServerInv (λ _, True) True
    (λ s s' : server, same_vote (state_ s) (last_saved st0 s) →
                      same_vote (state_ s') (last_saved st0 s')).
Proof.
  split; try (intros; split; reflexivity).
  - split; [by intros ??|]. intros a b c H1 H2 H. by apply H2, H1.
  - intros s s' [Hst Htr]. unfold last_saved. by rewrite Hst, Htr.
  - intros s i. unfold last_saved, same_vote, set_field; simpl.
    unfold SrvState.set_commit_idx. by case_match.
Qed.

(** C9: The term and the vote are saved before anything else happens.  After any run
    at all (an abnormal end included) the current term and vote are those of the last
    state handed to [save_state], or of the state the server started from. *)
Theorem vote_saved_at_rest (evs : list event) (s : server) :
  trace_ s = [] →
  let s' := final (run evs s) in
  same_vote (state_ s') (last_saved (state_ s) s').
Proof.
  intros Htr s'. pose proof (saved_server_inv (state_ s)) as HI.
  refine (keeps_run (term_ok:=λ _, True) (join_ok:=True) evs I _ s _).
  - apply Forall_true. intros []; simpl; try done. by case_match.
  - unfold last_saved. rewrite Htr. done.
Qed.

(** ** The commit index *)
Lemma commit_server_inv :
  ServerInv (λ _, True) True
    (λ s s' : server, ss_commit_idx (state_ s) ≤ ss_commit_idx (state_ s')).
Proof.
  split; try (intros; simpl; unfold id; lia).
  - split; [intros s; simpl; lia|]. intros a b c. simpl. lia.
  - intros s s' [Hst _]. rewrite Hst. lia.
  - intros s i. unfold set_field; simpl. unfold SrvState.set_commit_idx.
    destruct (Z.ltb_spec (ss_commit_idx (state_ s)) i); simpl; lia.
Qed.

(** C10: The commit index never goes back, in any run; not even when the server joins
    another cluster, where the code asks for an index of zero. *)
Theorem commit_idx_monotone (evs : list event) (s : server) :
  ss_commit_idx (state_ s) ≤ ss_commit_idx (state_ (final (run evs s))).
Proof.
  pose proof commit_server_inv as HI.
  refine (keeps_run (term_ok:=λ _, True) (join_ok:=True)
    (R:=λ s s' : server, ss_commit_idx (state_ s) ≤ ss_commit_idx (state_ s')) evs I _ s).
  apply Forall_true. intros []; simpl; try done. by case_match.
Qed.
End safety.

(** A run of server 1: it votes for server 2 in term 5, refuses server 3, and is a
    candidate itself in term 6. *)
Definition voting_run : list event :=
  [EvRequest (vote_req 2 1 5 0 0); EvRequest (vote_req 3 1 5 0 0); EvElectionTimeout].
Lemma durable_votes_witness :
  let s := (demo_server 1) <| trace_ := [] |> in
  let s' := final (run voting_run s) in
  map (λ st, (ss_term st, ss_voted_for st)) (saves (trace_ s')) =
    [(6, 1); (6, -1); (5, 2); (5, -1)] ∧
  vote_history (state_ s' :: saves (trace_ s') ++ [state_ s]).
Proof.
  split; [vm_compute; reflexivity|].
  apply (durable_votes 5 voting_run ((demo_server 1) <| trace_ := [] |>));
    [reflexivity|vm_compute; split; discriminate|
     repeat constructor; vm_compute; congruence|vm_compute; reflexivity].
Defined.

Lemma vote_saved_at_rest_witness :
  let s := (demo_server 1) <| trace_ := [] |> in
  let s' := final (run voting_run s) in
  last_saved (state_ s) s' = mk_srv_state 6 0 1 ∧ same_vote (state_ s') (last_saved (state_ s) s').
Proof.
  split; [vm_compute; reflexivity|].
  by apply (vote_saved_at_rest voting_run ((demo_server 1) <| trace_ := [] |>)).
Defined.
