(* ===== verification/Elections.v ===== *)
(** Elections: when a vote is granted, when a candidate becomes the leader, and two runs:
    leaders elected by responses of an older term, and a leader without heart-beats. *)
From S2P Require Import Prelude Buffer Codec LogStore Timer Peer RaftState Raft Member.
From S2P Require Import Server Frames Demo.

(** ** Votes *)
Section votes.
Context {L SM : Type} `{!LogStore L} `{HL : !LogStoreLaws L} `{!StateMachine SM} `{HE : !RaftEnv}.
Abbreviation server := (server L SM).

(** Raft's comparison of logs: the candidate's last entry is not behind ours. *)
Definition up_to_date (req : req_msg) (g : alog) : Prop :=
  le_term (al_last g) < rq_last_log_term req ∨
  le_term (al_last g) = rq_last_log_term req ∧ al_next g - 1 ≤ rq_last_log_idx req.
Definition may_grant (req : req_msg) (s : server) : Prop :=
  rq_term req = ss_term (state_ s) ∧ up_to_date req (log_of (log_store_ s)) ∧
  (ss_voted_for (state_ s) = rq_src req ∨ ss_voted_for (state_ s) = -1).

(** C6: Vote requests.  The handler always answers; it grants the vote exactly when the
    request is for the current term, the candidate's log is not behind the abstract log,
    and no other server has the vote; it then records the vote and saves it, and touches
    nothing else.  A refusal changes nothing. *)
Theorem vote_granted_iff (req : req_msg) (s : server) :
  log_ok (log_store_ s) →
  ∃ resp s', handle_vote_req req s = Ret resp s' ∧
    rs_term resp = ss_term (state_ s) ∧ rs_dst resp = rq_src req ∧
    (rs_accepted resp = true ↔ may_grant req s) ∧
    (rs_accepted resp = true →
       let st := SrvState.set_voted_for (rq_src req) (state_ s) in
       s' = s <| state_ := st |> <| trace_ ::= cons (SaveState st) |>) ∧
    (rs_accepted resp = false → s' = s).
Proof.
  intros Hok. destruct (ls_next _ Hok) as [Hn Hb].
  destruct (ls_start _ Hok) as [_ Hs]. pose proof (ls_last _ Hok) as Hl.
  assert (last_slot_ s = al_next (log_of (log_store_ s)) - 1) as Hls.
  { unfold last_slot_, next_slot_. rewrite Hn. apply u64_small. unfold is_u64, al_next in *. lia. }
  unfold handle_vote_req. erewrite bind_Ret by reflexivity.
  rewrite Hls, Hl.
  match goal with |- context [if ?b then _ else _] => destruct b eqn:E end.
  - eexists _, _. split; [reflexivity|]. do 2 (split; [done|]). split; [|by split].
    split; [intros _|done]. unfold may_grant, up_to_date. lia.
  - eexists _, _. split; [reflexivity|]. do 2 (split; [done|]). split; [|by split].
    split; [done|]. unfold may_grant, up_to_date. lia.
Qed.
End votes.

Lemma vote_granted_iff_witness :
  let s := demo_server 1 in
  ∃ resp s', handle_vote_req (vote_req 2 1 0 0 0) s = Ret resp s' ∧ rs_accepted resp = true.
Proof.
  destruct (vote_granted_iff (vote_req 2 1 0 0 0) (demo_server 1)) as
    (resp & s' & Heq & _ & _ & [_ Hacc] & _).
  { vm_compute. split; [discriminate|reflexivity]. }
  exists resp, s'. split; [exact Heq|]. apply Hacc.
  split; [reflexivity|]. split; [right; split; [reflexivity|vm_compute; discriminate]|].
  right. reflexivity.
Defined.

(** ** The count *)
Section count.
Context {L SM : Type} `{!LogStore L} `{!StateMachine SM} `{HE : !RaftEnv}.
Abbreviation server := (server L SM).

Definition leads (s s' : server) : Prop :=
  role_ s = leader → role_ s' = leader.
#[local] Instance leads_pre : PreOrder leads.
Proof. split; [by intros ??|]. intros a b c H1 H2 H. by apply H2, H1. Qed.
Lemma advances_leads {A} (m : M server A) : keeps advances m → keeps leads m.
Proof. apply keeps_weaken. intros s s' [Hc _] Hr. unfold control in Hc. congruence. Qed.
#[local] Hint Extern 1 (keeps leads (modify _)) => apply keeps_modify; intros ? ?; done : keeps.
#[local] Hint Extern 2 (keeps leads _) => apply advances_leads; solve [eauto with keeps nocore | apply sends_advances; eauto with keeps nocore] : keeps.

Lemma stop_election_timer_ret (s : server) :
  ∃ s', stop_election_timer s = Ret () s' ∧ sends s s'.
Proof.
  pose proof (sends_stop_timer s) as Hk. unfold stop_election_timer in *.
  revert Hk. unfold_M. case_match; eauto.
Qed.
Lemma become_leader_leads (s : server) : role_ (final (become_leader s)) = leader.
Proof.
  unfold become_leader. destruct (stop_election_timer_ret s) as (s1 & Hs1 & _).
  erewrite bind_Ret by exact Hs1. erewrite bind_Ret by reflexivity.
  match goal with |- role_ (final (?m ?s0)) = _ => assert (keeps leads m) as Hk end.
  { unfold for_peers. solve_keeps. }
  by apply Hk.
Qed.

Lemma elected_runs (resp : resp_msg) (s : server) :
  role_ s ≠ leader → Z.of_nat (size (peers_ s)) < 2 ^ 30 →
  role_ (final (handle_voting_resp resp s)) = leader ↔
  election_completed_ s = false ∧
  Z.of_nat (size (peers_ s)) + 1 <
    2 * (votes_granted_ s + if rs_accepted resp then 1 else 0).
Proof.
  intros Hr Hsz. unfold handle_voting_resp.
  do 2 erewrite bind_Ret by reflexivity.
  change (election_completed_ (_ <| _ ::= _ |>)) with (election_completed_ s).
  destruct (election_completed_ s); [split; [intros Hx; by destruct Hr|intros [Hx _]; discriminate]|].
  set (n := Z.of_nat (size (peers_ s)) + 1) in *.
  assert (0 < n) by lia. assert (n < 2 ^ 31) by lia.
  assert (i32 (n / 2) = n / 2) as Hdiv.
  { apply i32_small. unfold is_i32. split; [|]; [|apply Z.div_lt_upper_bound; lia].
    pose proof (Z.div_pos n 2 ltac:(lia) ltac:(lia)). lia. }
  assert (∀ v, (n / 2 <? v) = true ↔ n < 2 * v) as Hmaj.
  { intros v. rewrite Z.ltb_lt. pose proof (Z.div_mod n 2 ltac:(lia)).
    pose proof (Z.mod_pos_bound n 2 ltac:(lia)). lia. }
  assert (∀ s1 : server, peers_ s1 = peers_ s → role_ s1 = role_ s →
    role_ (final ((s0 ← get;
      let n := Z.of_nat (size (peers_ s0)) + 1 in
      when (i32 n <=? votes_responded_ s0) (modify (λ s, s <| election_completed_ := true |>));;
      when (i32 (n / 2) <? votes_granted_ s0)
        (modify (λ s, s <| election_completed_ := true |>);; become_leader)) s1)) = leader ↔
    n < 2 * votes_granted_ s1) as Hend.
  { intros s1 Hp1 Hr1. erewrite bind_Ret by reflexivity. cbn zeta. rewrite Hp1.
    fold n. rewrite Hdiv, <- Hmaj. unfold when.
    destruct (i32 n <=? votes_responded_ s1), (n / 2 <? votes_granted_ s1);
      repeat (erewrite bind_Ret by reflexivity); rewrite ?become_leader_leads; simpl;
      rewrite ?Hr1; intuition congruence. }
  unfold when at 1. destruct (rs_accepted resp); erewrite bind_Ret by reflexivity;
    rewrite Hend by done; simpl; [|rewrite Z.add_0_r; tauto].
  rewrite (Z.add_comm 1). tauto.
Qed.

(** C7: Who wins.  A server that is not the leader becomes the leader by a vote response
    exactly when the election is still open and the granted votes, this one included,
    are more than half of the cluster (the peers and the server itself). *)
Theorem elected_by_majority (resp : resp_msg) (s : server) :
  role_ s ≠ leader → Z.of_nat (size (peers_ s)) < 2 ^ 30 →
  role_ (final (handle_voting_resp resp s)) = leader ↔
  election_completed_ s = false ∧
  Z.of_nat (size (peers_ s)) + 1 <
    2 * (votes_granted_ s + if rs_accepted resp then 1 else 0).
Proof. apply elected_runs. Qed.
End count.

Lemma elected_by_majority_witness :
  let s := final (run [EvElectionTimeout] (demo_server 1)) in
  let r := vote_resp 2 1 1 true in
  (election_completed_ s = false ∧ 3 < 2 * (votes_granted_ s + 1)) ∧
  role_ (final (handle_voting_resp r s)) = leader.
Proof.
  assert (let s := final (run [EvElectionTimeout] (demo_server 1)) in
          election_completed_ s = false ∧ 3 < 2 * (votes_granted_ s + 1)) as H
    by (vm_compute; split; reflexivity).
  split; [exact H|].
  apply (elected_by_majority (vote_resp 2 1 1 true)
           (final (run [EvElectionTimeout] (demo_server 1))));
    [vm_compute; discriminate|vm_compute; reflexivity|exact H].
Defined.

(** ** Two runs, of what [Deviations.v] states in general *)

(** Votes of an older term count.  Three servers.  Servers 1 and 3 time out twice and
    are candidates of term 2.  Server 2 answers the request server 1 sent in term 1, then
    the one server 3 sent in term 2; it grants both, one per term.  When the two answers
    arrive both candidates become leaders, of the same term 2: the answer of term 1 is
    counted although a comment says that responses of a lower term are ignored. *)
Lemma two_leaders_in_one_term :
  let req1 := vote_req 1 2 1 0 0 in
  let req3 := vote_req 3 2 2 0 0 in
  let s1 := final (run [EvElectionTimeout; EvElectionTimeout] (demo_server 1)) in
  let s3 := final (run [EvElectionTimeout; EvElectionTimeout] (demo_server 3)) in
  Send (Member 2) req1 resp_handler_ ∈ trace_ s1 ∧
  Send (Member 2) req3 resp_handler_ ∈ trace_ s3 ∧
  ∃ r1 r3 s2 s2',
    process_req req1 (demo_server 2) = Ret r1 s2 ∧ process_req req3 s2 = Ret r3 s2' ∧
    rs_accepted r1 = true ∧ rs_term r1 = 1 ∧ rs_accepted r3 = true ∧ rs_term r3 = 2 ∧
    let s1' := final (run [EvRpcResult (Member 2) req1 resp_handler_ (Some r1)] s1) in
    let s3' := final (run [EvRpcResult (Member 2) req3 resp_handler_ (Some r3)] s3) in
    role_ s1' = leader ∧ role_ s3' = leader ∧
    ss_term (state_ s1') = 2 ∧ ss_term (state_ s3') = 2.
Proof.
  intros req1 req3 s1 s3.
  split; [vm_compute; repeat (first [left; reflexivity|right])|].
  split; [vm_compute; repeat (first [left; reflexivity|right])|].
  eexists _, _, _, _. split; [vm_compute; reflexivity|]. split; [vm_compute; reflexivity|].
  vm_compute. repeat split.
Qed.

(** The peers whose heart-beat task would run when its timer fires. *)
Definition beating (s : server alog recorder) : list Z :=
  fst <$> filter (λ p : Z * peer, Scheduler.timer_handler (pr_hb_task (snd p)) false = true)
            (map_to_list (peers_ s)).

(** Heart-beats of a first leadership.  A server elected at its first term beats for
    both its peers.  A server that first learns a higher term (here by a vote request)
    and is elected after that schedules the heart-beats of both peers, but neither task
    runs: becoming a follower cancelled tasks that had never been scheduled, and the
    first [schedule] does not clear the flag. *)
Lemma first_leadership_without_heartbeats :
  let s := final (run
    [EvRequest (vote_req 3 1 5 0 0); EvElectionTimeout;
     EvRpcResult (Member 2) (vote_req 1 2 6 0 0) resp_handler_ (Some (vote_resp 2 1 6 true))]
    (demo_server 1)) in
  role_ demo_leader = leader ∧ beating demo_leader ≡ₚ [2; 3] ∧
  role_ s = leader ∧ beating s = [] ∧
  (∀ id, id ∈ [2; 3] →
    (pr_hb_enabled <$> peers_ s !! id) = Some true ∧
    StartTimer (HbTimer (Member id)) 75 ∈ trace_ s).
Proof.
  split; [vm_compute; reflexivity|]. split; [vm_compute; try reflexivity; constructor|].
  split; [vm_compute; reflexivity|]. split; [vm_compute; reflexivity|].
  intros id [->|[->|[]%elem_of_nil]%elem_of_cons]%elem_of_cons;
    (split; [vm_compute; reflexivity|vm_compute; repeat (first [left; reflexivity|right])]).
Qed.
