(* ===== verification/Replication.v ===== *)
(** Log replication: what an accepted AppendEntries does to the follower's abstract log
    and to its state machine, which requests a leader creates, and which index it
    commits. *)
From stdpp Require Import sorting.
From S2P Require Import Prelude Buffer Codec LogStore Timer Peer RaftState Raft Member.
From S2P Require Import Server Frames Demo.

(** ** Merging entries into the abstract log *)

(** How many of the entries agree, in terms, with the log from an index on. *)
Fixpoint agreeing (idx : Z) (es : list log_entry) (g : alog) : nat :=
  match es with
  | [] => 0
  | e :: es' =>
      match al_get idx g with
      | Some o => if le_term o =? le_term e then S (agreeing (idx + 1) es' g) else 0
      | None => 0
      end
  end.
(** The log up to an index, the index excluded. *)
Definition al_upto (idx : Z) (g : alog) : alog :=
  g <| al_entries ::= take (Z.to_nat (idx - al_start g)) |>.
(** The log with the entries from an index on: the agreeing ones are skipped; at the
    first difference, or at the end of the log, the rest replaces what follows. *)
Definition al_merge (idx : Z) (es : list log_entry) (g : alog) : alog :=
  let k := agreeing idx es g in
  match drop k es with
  | [] => g
  | rest => (al_upto (idx + Z.of_nat k) g) <| al_entries ::= λ l, l ++ rest |>
  end.

Lemma agreeing_le idx es g : (agreeing idx es g ≤ length es)%nat.
Proof.
  revert idx. induction es as [|e es IH]; intros idx; simpl; [lia|].
  repeat case_match; try lia. specialize (IH (idx + 1)). lia.
Qed.
Lemma agreeing_lookup idx es g k e :
  (k < agreeing idx es g)%nat → es !! k = Some e →
  ∃ o, al_get (idx + Z.of_nat k) g = Some o ∧ le_term o = le_term e.
Proof.
  revert idx k. induction es as [|e' es IH]; intros idx k; simpl; [lia|].
  destruct (al_get idx g) as [o|] eqn:Eo; [|lia].
  destruct (Z.eqb_spec (le_term o) (le_term e')); [|lia].
  destruct k as [|k]; simpl; intros Hk He.
  - simplify_eq. rewrite Z.add_0_r. eauto.
  - destruct (IH (idx + 1) k) as (o' & Ho' & ?); [lia|done|].
    exists o'. split; [|done]. rewrite <- Ho'. f_equal. lia.
Qed.
Lemma agreeing_stop idx es g e :
  es !! agreeing idx es g = Some e →
  ∀ o, al_get (idx + Z.of_nat (agreeing idx es g)) g = Some o → le_term o ≠ le_term e.
Proof.
  revert idx. induction es as [|e' es IH]; intros idx; simpl; [done|].
  destruct (al_get idx g) as [o|] eqn:Eo.
  - destruct (Z.eqb_spec (le_term o) (le_term e')); simpl.
    + intros He o' Ho'. apply (IH (idx + 1) He).
      rewrite <- Ho'. f_equal. lia.
    + intros ? o'. rewrite Z.add_0_r. congruence.
  - simpl. intros _ o'. rewrite Z.add_0_r, Eo. done.
Qed.
Lemma agreeing_in_log idx es g :
  al_start g ≤ idx ≤ al_next g → idx + Z.of_nat (agreeing idx es g) ≤ al_next g.
Proof.
  revert idx. induction es as [|e es IH]; intros idx Hi; simpl; [lia|].
  destruct (al_get idx g) as [o|] eqn:Eo; [|lia].
  assert (al_get idx g ≠ None) as Hr%al_get_lt by congruence.
  destruct (Z.eqb_spec (le_term o) (le_term e)); [|lia].
  specialize (IH (idx + 1) ltac:(lia)). lia.
Qed.

Lemma al_get_upto i idx g : idx ≤ al_next g →
  al_get i (al_upto idx g) = if i <? idx then al_get i g else None.
Proof.
  unfold al_get, al_upto, al_next, set_field. simpl. intros Hn.
  destruct (Z.ltb_spec i (al_start g)), (Z.ltb_spec i idx); try done.
  - by rewrite lookup_take_lt by lia.
  - by rewrite lookup_take_ge by lia.
Qed.
Lemma al_next_upto idx g : al_start g ≤ idx ≤ al_next g → al_next (al_upto idx g) = idx.
Proof. unfold al_next, al_upto, set_field. simpl. intros. len. Qed.
Lemma al_get_extend i g rest :
  al_get i (g <| al_entries ::= λ l, l ++ rest |>) =
  if i <? al_next g then al_get i g else rest !! Z.to_nat (i - al_next g).
Proof.
  unfold al_get, al_next, set_field. simpl.
  destruct (Z.ltb_spec i (al_start g)), (Z.ltb_spec i (al_start g + Z.of_nat (length (al_entries g))));
    try done; try lia.
  - rewrite lookup_app_l by lia. done.
  - rewrite lookup_app_r by lia. f_equal. lia.
Qed.

Section merge.
Context (idx : Z) (es : list log_entry) (g : alog).
Hypothesis Hidx : al_start g ≤ idx ≤ al_next g.

(** Every index of the merged log. *)
Lemma al_get_merge i :
  al_get i (al_merge idx es g) =
  let k := agreeing idx es g in
  if decide (k = length es) then al_get i g
  else if i <? idx + Z.of_nat k then al_get i g else es !! Z.to_nat (i - idx).
Proof.
  pose proof (agreeing_le idx es g) as Hle. pose proof (agreeing_in_log idx es g Hidx) as Hin.
  unfold al_merge. cbv zeta. set (k := agreeing idx es g) in *.
  case_decide as Hk.
  - by rewrite drop_ge by lia.
  - destruct (drop k es) as [|e rest] eqn:Ed.
    { apply (f_equal length) in Ed. rewrite length_drop in Ed. simpl in Ed. lia. }
    rewrite al_get_extend, al_next_upto by lia.
    destruct (Z.ltb_spec i (idx + Z.of_nat k)) as [Hi|Hi].
    + rewrite al_get_upto by lia. by rewrite ltb_true.
    + rewrite <- Ed, lookup_drop. f_equal. lia.
Qed.
Lemma al_merge_before i : i < idx → al_get i (al_merge idx es g) = al_get i g.
Proof. intros. rewrite al_get_merge. cbv zeta. case_decide; [done|]. by rewrite ltb_true by lia. Qed.
Lemma al_merge_matches k e : es !! k = Some e →
  ∃ o, al_get (idx + Z.of_nat k) (al_merge idx es g) = Some o ∧ le_term o = le_term e.
Proof.
  intros He. rewrite al_get_merge. cbv zeta. pose proof (lookup_lt_Some _ _ _ He) as Hl.
  case_decide as Hk; [apply (agreeing_lookup idx es); [lia|done]|].
  destruct (Z.ltb_spec (idx + Z.of_nat k) (idx + Z.of_nat (agreeing idx es g))).
  - apply (agreeing_lookup idx es); [lia|done].
  - exists e. by replace (Z.to_nat (idx + Z.of_nat k - idx)) with k by lia.
Qed.
(** An index up to which the entries do not contradict the log keeps its entry. *)
Lemma al_merge_stable c :
  (∀ k e o, es !! k = Some e → idx + Z.of_nat k ≤ c → al_get (idx + Z.of_nat k) g = Some o →
            le_term o = le_term e) →
  c < al_next g → al_get c (al_merge idx es g) = al_get c g.
Proof.
  intros Hc Hn. rewrite al_get_merge. cbv zeta.
  pose proof (agreeing_le idx es g) as Hle.
  case_decide as Hk; [done|].
  destruct (Z.ltb_spec c (idx + Z.of_nat (agreeing idx es g))) as [|Hge]; [done|].
  destruct (lookup_lt_is_Some_2 es (agreeing idx es g)) as [e He]; [lia|].
  destruct (al_get_Some (idx + Z.of_nat (agreeing idx es g)) g) as [o Ho].
  { lia. }
  exfalso. eapply agreeing_stop; eauto.
Qed.
End merge.

(** ** The follower *)

(** A state machine whose calls return. *)
Class StateMachineTotal (SM : Type) `{StateMachine SM} := {
  sm_commit_total i b : total (sm_commit (SM:=SM) i b);
  sm_pre_commit_total i b : total (sm_pre_commit (SM:=SM) i b);
  sm_rollback_total i b : total (sm_rollback (SM:=SM) i b) }.
#[export] Instance recorder_total : StateMachineTotal recorder.
Proof. split; intros i b m; eexists _, _; reflexivity. Qed.

Definition has_data (e : log_entry) : Prop := le_buff e ≠ None.

Section follower.
Context {L SM : Type} `{!LogStore L} `{HL : !LogStoreLaws L} `{!StateMachine SM}
  `{HT : !StateMachineTotal SM} `{HE : !RaftEnv}.
Abbreviation server := (server L SM).
Abbreviation glog s := (log_of (log_store_ s)).

(** What the state machine is asked to do. *)
Fixpoint pre_commits (idx : Z) (es : list log_entry) : M SM unit :=
  match es with
  | [] => mret ()
  | e :: es' =>
      match le_val_type e with
      | conf => mret ()
      | _ => b ← LogEntry.get_buf e; sm_pre_commit idx b
      end;; pre_commits (idx + 1) es'
  end.
Definition rolls_back (idx : Z) (o : log_entry) : M SM unit :=
  match le_val_type o with
  | app_log => b ← LogEntry.get_buf o; sm_rollback idx b
  | _ => mret ()
  end.
Definition merge_calls (idx : Z) (es : list log_entry) (g : alog) : M SM unit :=
  let i := idx + Z.of_nat (agreeing idx es g) in
  match drop (agreeing idx es g) es, al_get i g with
  | [], _ => mret ()
  | e :: rest, Some o => rolls_back i o;; pre_commits (i + 1) rest
  | rest, None => pre_commits i rest
  end.

(** Everything but the log, the state machine and [config_changing_]. *)
Definition others (s : server) :=
  (leader_ s, id_ s, votes_responded_ s, votes_granted_ s, quick_commit_idx_ s,
   election_completed_ s, catching_up_ s, stopping_ s, steps_to_down_ s, snp_in_progress_ s,
   params_ s, election_task_ s, peers_ s, rpc_clients_ s, role_ s, state_ s,
   rand_timeout_ s, config_ s, srv_to_join_ s, conf_to_add_ s, trace_ s).

Lemma log_op_Ret {A} (m : M L A) (s : server) a l :
  m (log_store_ s) = Ret a l → log_op m s = Ret a (s <| log_store_ := l |>).
Proof. unfold log_op, zoom. by intros ->. Qed.
Lemma sm_op_Ret {A} (m : M SM A) (s : server) a t :
  m (state_machine_ s) = Ret a t → sm_op m s = Ret a (s <| state_machine_ := t |>).
Proof. unfold sm_op, zoom. by intros ->. Qed.
Lemma next_slot_eq (s : server) : log_ok (log_store_ s) → next_slot_ s = al_next (glog s).
Proof. intros Hok. apply ls_next, Hok. Qed.

Lemma skip_matching_runs es : ∀ idx (s : server),
  log_ok (log_store_ s) → al_start (glog s) ≤ idx → idx + Z.of_nat (length es) < 2 ^ 64 →
  let k := agreeing idx es (glog s) in
  ∃ l, skip_matching idx es s = Ret (idx + Z.of_nat k, drop k es) (s <| log_store_ := l |>) ∧
       log_ok l ∧ log_of l = glog s.
Proof.
  induction es as [|e es IH]; intros idx s Hok Hs Hb; simpl.
  { exists (log_store_ s). rewrite Z.add_0_r. split; [by destruct s|done]. }
  erewrite bind_Ret by reflexivity. rewrite (next_slot_eq s Hok).
  assert (∃ l, Ret (idx, e :: es) s = Ret (idx + 0, e :: es) (s <| log_store_ := l |>) ∧
               log_ok l ∧ log_of l = glog s) as Hstop.
  { exists (log_store_ s). rewrite Z.add_0_r. split; [by destruct s|done]. }
  destruct (Z.ltb_spec idx (al_next (glog s))) as [Hlt|Hge].
  - destruct (ls_entry_at _ _ Hok Hs) as (l & He & Hok' & Hl).
    erewrite bind_Ret by (by apply log_op_Ret).
    destruct (al_get_Some idx (glog s)) as [o Ho]; [lia|]. rewrite Ho. simpl.
    erewrite bind_Ret by reflexivity.
    destruct (le_term o =? le_term e).
    + assert (u64 (idx + 1) = idx + 1) as ->.
      { apply u64_small. unfold is_u64. destruct (ls_start _ Hok). simpl length in Hb. lia. }
      destruct (IH (idx + 1) (s <| log_store_ := l |>)) as (l' & Hrun & Hok'' & Hl').
      * done.
      * unfold set_field; simpl. rewrite Hl. lia.
      * simpl length in Hb. lia.
      * exists l'. unfold set_field in *; simpl in *. rewrite Hl in *.
        split; [|done]. rewrite Hrun. f_equal. f_equal. lia.
    + exists l. rewrite Z.add_0_r. done.
  - assert (al_get idx (glog s) = None) as ->; [|done].
    destruct (al_get idx (glog s)) eqn:E; [|done].
    assert (al_get idx (glog s) ≠ None) as Hx%al_get_lt by congruence. lia.
Qed.

Lemma overwrite_runs e es idx o (s : server) :
  log_ok (log_store_ s) → al_start (glog s) ≤ idx < al_next (glog s) →
  al_get idx (glog s) = Some o → has_data o → storable e →
  ∃ s', overwrite idx (e :: es) s = Ret es s' ∧ log_ok (log_store_ s') ∧
    glog s' = al_write_at idx e (glog s) ∧
    Ret () (state_machine_ s') = rolls_back idx o (state_machine_ s) ∧ others s' = others s.
Proof.
  intros Hok Hi Ho Hd He. cbn [overwrite]. destruct (ls_next _ Hok) as [_ Hb].
  destruct (ls_start _ Hok) as [_ H1].
  erewrite bind_Ret by reflexivity. rewrite (next_slot_eq s Hok), ltb_true by lia.
  destruct (ls_entry_at _ idx Hok ltac:(lia)) as (l & Hent & Hok' & Hl).
  erewrite bind_Ret by (by apply log_op_Ret). rewrite Ho. simpl.
  erewrite bind_Ret by reflexivity.
  set (s1 := s <| log_store_ := l |>).
  assert (∃ s2, (match le_val_type o with
        | app_log => b ← LogEntry.get_buf o; sm_op (sm_rollback idx b)
        | conf => modify (λ s, s <| config_changing_ := false |>)
        | _ => mret () end : M server unit) s1 = Ret () s2 ∧ log_store_ s2 = l ∧
      Ret () (state_machine_ s2) = rolls_back idx o (state_machine_ s) ∧ others s2 = others s)
    as (s2 & Hrun & Hs2 & Hsm & Hot).
  { unfold rolls_back. destruct (le_val_type o); try (eexists; split; [reflexivity|done]).
    unfold LogEntry.get_buf, has_data in *. destruct (le_buff o) as [b|]; [|done].
    destruct (sm_rollback_total idx b (state_machine_ s)) as ([] & m & Hm).
    exists (s1 <| state_machine_ := m |>). erewrite !bind_Ret by reflexivity.
    split; [by apply sm_op_Ret|]. by rewrite Hm. }
  erewrite bind_Ret by exact Hrun.
  destruct (ls_write_at l idx e) as (l3 & Hw & Hok3 & Hl3); [done|done|by rewrite Hl|].
  rewrite Hl in Hl3.
  erewrite bind_Ret by (apply log_op_Ret; rewrite Hs2; exact Hw).
  exists (s2 <| log_store_ := l3 |>). split.
  - destruct es as [|e' es]; [reflexivity|]. cbn [overwrite].
    erewrite bind_Ret by reflexivity. rewrite next_slot_eq by done.
    change (glog (s2 <| log_store_ := l3 |>)) with (log_of l3). rewrite Hl3.
    rewrite al_next_write_at by lia.
    rewrite ltb_false; [done|]. rewrite u64_small; [lia|]. unfold is_u64. lia.
  - unfold set_field; simpl. split; [done|]. split; [done|]. split; [done|]. exact Hot.
Qed.

Lemma get_buf_Ret {S} e b (s : S) : le_buff e = Some b → LogEntry.get_buf e s = Ret b s.
Proof. unfold LogEntry.get_buf. by intros ->. Qed.
Lemma append_new_runs es : ∀ s : server,
  log_ok (log_store_ s) → Forall storable es →
  al_next (glog s) + Z.of_nat (length es) < 2 ^ 63 →
  ∃ s', append_new es s = Ret () s' ∧ log_ok (log_store_ s') ∧
    glog s' = (glog s) <| al_entries ::= λ l, l ++ es |> ∧
    Ret () (state_machine_ s') = pre_commits (al_next (glog s)) es (state_machine_ s) ∧
    others s' = others s.
Proof.
  induction es as [|e es IH]; intros s Hok Hes Hb.
  { exists s. repeat split; [done|]. unfold set_field; simpl. rewrite app_nil_r.
    by destruct (glog s). }
  apply Forall_cons in Hes as [He Hes]. simpl length in Hb. cbn [append_new pre_commits].
  destruct (ls_append _ e Hok He) as (l & Ha & Hok' & Hl); [lia|].
  erewrite bind_Ret by (by apply log_op_Ret).
  destruct He as (b & Hbuf & _).
  set (s1 := s <| log_store_ := l |>).
  assert (∃ s2 m, (match le_val_type e with
        | conf => modify (λ s, s <| config_changing_ := true |>)
        | _ => b ← LogEntry.get_buf e; sm_op (sm_pre_commit (al_next (glog s)) b)
        end : M server unit) s1 = Ret () s2 ∧ log_store_ s2 = l ∧ state_machine_ s2 = m ∧
      match le_val_type e with
        | conf => mret ()
        | _ => b ← LogEntry.get_buf e; sm_pre_commit (al_next (glog s)) b
      end (state_machine_ s) = Ret () m ∧ others s2 = others s)
    as (s2 & m & Hrun & Hs2 & Hm & Hsm & Hot).
  { destruct (sm_pre_commit_total (al_next (glog s)) b (state_machine_ s)) as ([] & m & Hm).
    destruct (le_val_type e); try (eexists _, _; split; [reflexivity|done]);
      (exists (s1 <| state_machine_ := m |>), m; erewrite !bind_Ret by (by apply get_buf_Ret);
       split; [by apply sm_op_Ret|done]). }
  erewrite bind_Ret by exact Hrun. erewrite (bind_Ret _ _ (state_machine_ s)) by exact Hsm.
  destruct (IH s2) as (s' & Hr' & Hok2 & Hl2 & Hsm2 & Hot2); [by rewrite Hs2|done| |].
  { rewrite Hs2, Hl, al_next_append. lia. }
  exists s'. rewrite Hs2, Hl, al_next_append in *. subst m.
  split; [done|]. split; [done|]. split; [|split; [done|congruence]].
  rewrite Hl2. unfold al_append, set_field; simpl. by rewrite <- app_assoc.
Qed.

Lemma merge_runs idx es (s : server) :
  log_ok (log_store_ s) → al_start (glog s) ≤ idx ≤ al_next (glog s) →
  Forall storable es → Forall has_data (al_entries (glog s)) →
  idx + Z.of_nat (length es) < 2 ^ 63 →
  ∃ s', ('(i, es) ← skip_matching idx es; es ← overwrite i es; append_new es) s = Ret () s' ∧
    log_ok (log_store_ s') ∧ glog s' = al_merge idx es (glog s) ∧
    Ret () (state_machine_ s') = merge_calls idx es (glog s) (state_machine_ s) ∧
    others s' = others s.
Proof.
  intros Hok Hi Hes Hd Hb. pose proof (ls_next _ Hok) as [_ Hb'].
  pose proof (ls_start _ Hok) as [_ H1].
  destruct (skip_matching_runs es idx s) as (l & Hskip & Hok1 & Hl1); [done|lia|lia|].
  erewrite bind_Ret by exact Hskip. cbn beta iota.
  pose proof (agreeing_in_log idx es (glog s) Hi) as Hin.
  pose proof (agreeing_le idx es (glog s)) as Hle.
  unfold al_merge, merge_calls. set (k := agreeing idx es (glog s)) in *.
  assert (Forall storable (drop k es)) as Hes' by by apply Forall_drop.
  set (s1 := s <| log_store_ := l |>). assert (glog s1 = glog s) as Hg1 by done.
  assert (log_ok (log_store_ s1)) as Hok1' by done.
  pose proof (length_drop es k) as Hlen.
  destruct (drop k es) as [|e rest].
  { exists s1. split; [reflexivity|done]. }
  apply Forall_cons in Hes' as [He Hrest]. simpl length in Hlen.
  destruct (decide (idx + Z.of_nat k < al_next (glog s))) as [Hlt|Hge].
  - destruct (al_get_Some (idx + Z.of_nat k) (glog s)) as [o Ho]; [lia|]. rewrite Ho.
    assert (has_data o) as Hdo.
    { unfold al_get in Ho. rewrite ltb_false in Ho by lia. eapply Forall_lookup_1; eauto. }
    destruct (overwrite_runs e rest (idx + Z.of_nat k) o s1)
      as (s2 & How & Hok2 & Hl2 & Hsm2 & Hot2); [done|rewrite Hg1; lia|by rewrite Hg1|done|done|].
    erewrite bind_Ret by exact How.
    destruct (append_new_runs rest s2) as (s3 & Ha & Hok3 & Hl3 & Hsm3 & Hot3); try done.
    { rewrite Hl2, al_next_write_at by (rewrite Hg1; lia). lia. }
    exists s3. split; [done|]. split; [done|]. rewrite Hl2, Hg1 in *.
    rewrite al_next_write_at in Hsm3 by lia. split; [|split; [|by rewrite Hot3, Hot2]].
    + rewrite Hl3. unfold al_write_at, al_upto, set_field; simpl. by rewrite <- app_assoc.
    + erewrite bind_Ret by (symmetry; exact Hsm2). exact Hsm3.
  - assert (idx + Z.of_nat k = al_next (glog s)) as Heq by lia.
    assert (al_get (idx + Z.of_nat k) (glog s) = None) as ->.
    { destruct (al_get _ _) eqn:E; [|done].
      assert (al_get (idx + Z.of_nat k) (glog s) ≠ None) as Hx%al_get_lt by congruence. lia. }
    assert (overwrite (idx + Z.of_nat k) (e :: rest) s1 = Ret (e :: rest) s1) as How.
    { cbn [overwrite]. erewrite bind_Ret by reflexivity. rewrite next_slot_eq by done.
      rewrite Hg1, ltb_false by lia. done. }
    erewrite bind_Ret by exact How.
    destruct (append_new_runs (e :: rest) s1) as (s3 & Ha & Hok3 & Hl3 & Hsm3 & Hot3).
    { done. } { by constructor. } { rewrite Hg1. simpl length. lia. }
    exists s3. split; [done|]. split; [done|]. rewrite Hg1 in *. rewrite Heq.
    split; [|split; [done|done]].
    rewrite Hl3. unfold al_upto, set_field; simpl. rewrite take_ge; [done|].
    unfold al_next. lia.
Qed.

Lemma commit_follower i (s : server) : role_ s ≠ leader →
  ∃ tr, commit i s = Ret () (s <| quick_commit_idx_ := Z.max (quick_commit_idx_ s) i |>
                               <| trace_ ::= app tr |>) ∧ (tr = [] ∨ tr = [NotifyCommit]).
Proof.
  intros Hr. unfold commit. erewrite bind_Ret by reflexivity.
  rewrite (bool_decide_eq_false_2 _ Hr). unfold when at 1.
  assert (∃ s1, (if quick_commit_idx_ s <? i
     then modify (λ s : server, s <| quick_commit_idx_ := i |>) ;; mret () else mret ()) s = Ret () s1 ∧
     s1 = s <| quick_commit_idx_ := Z.max (quick_commit_idx_ s) i |>) as (s1 & Hs1 & ->).
  { destruct (Z.ltb_spec (quick_commit_idx_ s) i); eexists; (split; [reflexivity|]).
    - by rewrite Z.max_r by lia.
    - rewrite Z.max_l by lia. by destruct s. }
  erewrite bind_Ret by exact Hs1. erewrite bind_Ret by reflexivity.
  unfold when. match goal with |- context [if ?b then emit _ else _] => destruct b end;
    [exists [NotifyCommit]|exists []]; (split; [reflexivity|auto]).
Qed.

Lemma become_follower_role (s : server) : role_ (final (become_follower s)) = follower.
Proof.
  unfold become_follower.
  destruct (total_for_each disable_hb (peer_order (peers_ s)) total_disable_hb s) as ([] & s1 & H1).
  assert (for_peers disable_hb s = Ret () s1) as Hf.
  { unfold for_peers. erewrite bind_Ret by reflexivity. exact H1. }
  erewrite bind_Ret by exact Hf. erewrite bind_Ret by reflexivity.
  destruct (sends_restart (s1 <| srv_to_join_ := None |> <| role_ := follower |>)) as [Hc _].
  unfold control in Hc. simpl in Hc. by simplify_eq.
Qed.
(** A request of the current term makes a server that is not the leader a follower, and
    restarts its election timer. *)
Lemma heard_from_leader (s : server) : role_ s ≠ leader →
  ∃ s', (match role_ s with
         | candidate => become_follower | leader => die (-1) | follower => restart_election_timer
         end) s = Ret () s' ∧ role_ s' = follower ∧ calm s s'.
Proof.
  intros Hr. destruct (role_ s) eqn:E; [| |done].
  - destruct (total_restart s) as ([] & s' & H). exists s'. split; [done|].
    pose proof (sends_restart s) as [Hc _]. pose proof (calm_restart s) as Hk.
    rewrite H in Hc, Hk. split; [|exact Hk]. unfold control in Hc. simpl in Hc. congruence.
  - destruct (total_become_follower s) as ([] & s' & H). exists s'. split; [done|].
    pose proof (become_follower_role s) as Hc. pose proof (calm_become_follower s) as Hk.
    rewrite H in Hc, Hk. by split.
Qed.

(** The log contains the entry the request follows: the beginning, an entry of the
    right term, or the last entry of the last snapshot. *)
Definition follows (prev term : Z) (s : server) : Prop :=
  prev = 0 ∧ al_start (glog s) = 1 ∨
  al_start (glog s) ≤ prev < al_next (glog s) ∧ al_term prev (glog s) = term ∨
  0 < prev ∧ prev + 1 = al_start (glog s) ∧
    ∃ snp, sm_last_snapshot (state_machine_ s) = Ret (Some snp) (state_machine_ s) ∧
           snp_last_log_idx snp = prev ∧ snp_last_log_term snp = term.
Lemma follows_range prev term s : log_ok (log_store_ s) → follows prev term s →
  0 ≤ prev ∧ al_start (glog s) ≤ prev + 1 ≤ al_next (glog s).
Proof.
  intros Hok Hf. pose proof (ls_start _ Hok) as [_ H1]. unfold follows, al_next in *. lia.
Qed.
Lemma term_for_log_runs prev term s : log_ok (log_store_ s) → follows prev term s → 0 < prev →
  ∃ l, term_for_log prev s = Ret term (s <| log_store_ := l |>) ∧ log_ok l ∧ log_of l = glog s.
Proof.
  intros Hok Hf Hp. unfold term_for_log. rewrite (proj2 (Z.eqb_neq _ _)) by lia.
  erewrite bind_Ret by reflexivity.
  destruct (ls_start _ Hok) as [Hs H1]. rewrite Hs.
  destruct Hf as [[-> _]|[[Hi Ht]|(_ & Hi & snp & Hsnp & Hx & Ht)]]; [lia| |].
  - rewrite leb_true by lia. destruct (ls_term_at _ prev Hok Hi) as (l & Hl & Hok' & Hg).
    exists l. rewrite <- Ht. split; [by apply log_op_Ret|done].
  - rewrite leb_false by lia.
    erewrite bind_Ret by (by apply sm_op_Ret). simpl. rewrite Hx, Z.eqb_refl, Ht.
    exists (log_store_ s). split; [|done]. by destruct s.
Qed.

(** The precondition under which a request is accepted. *)
Definition acceptable (req : req_msg) (s : server) : Prop :=
  log_ok (log_store_ s) ∧ role_ s ≠ leader ∧ rq_term req = ss_term (state_ s) ∧
  follows (rq_last_log_idx req) (rq_last_log_term req) s ∧
  Forall storable (rq_log_entries req) ∧ Forall has_data (al_entries (glog s)) ∧
  rq_last_log_idx req + Z.of_nat (length (rq_log_entries req)) + 1 < 2 ^ 63.

Lemma append_entries_runs req (s : server) : acceptable req s →
  let prev := rq_last_log_idx req in let es := rq_log_entries req in
  ∃ resp s', handle_append_entries req s = Ret resp s' ∧
    rs_accepted resp = true ∧ rs_next_idx resp = prev + Z.of_nat (length es) + 1 ∧
    rs_term resp = ss_term (state_ s) ∧
    log_ok (log_store_ s') ∧ glog s' = al_merge (prev + 1) es (glog s) ∧
    Ret () (state_machine_ s') = merge_calls (prev + 1) es (glog s) (state_machine_ s) ∧
    role_ s' = follower ∧ leader_ s' = rq_src req ∧ state_ s' = state_ s ∧
    quick_commit_idx_ s' = Z.max (quick_commit_idx_ s) (rq_commit_idx req).
Proof.
  intros (Hok & Hr & Ht & Hf & Hes & Hd & Hb) prev es.
  destruct (follows_range _ _ _ Hok Hf) as [Hp Hi].
  unfold handle_append_entries. erewrite bind_Ret by reflexivity.
  rewrite Ht, Z.eqb_refl.
  destruct (heard_from_leader s Hr) as (s1 & Hs1 & Hr1 & [Hc1 _]).
  erewrite bind_Ret by exact Hs1. erewrite bind_Ret by reflexivity. cbn zeta.
  unfold data in Hc1. injection Hc1 as _ _ _ _ _ _ _ Hst1 Hlog1 Hsm1 Hq1.
  assert (log_ok (log_store_ s1)) as Hok1 by by rewrite Hlog1.
  assert (∃ l, (if rq_last_log_idx req =? 0 then mret true
     else if rq_last_log_idx req <? next_slot_ s1 then
       t ← term_for_log (rq_last_log_idx req); mret (rq_last_log_term req =? t)
     else mret false) s1 = Ret true (s1 <| log_store_ := l |>) ∧ log_ok l ∧ log_of l = glog s)
    as (l & Hokay & Hokl & Hgl).
  { rewrite next_slot_eq, Hlog1 by done. fold prev.
    destruct (Z.eqb_spec prev 0) as [|Hp0].
    { exists (log_store_ s1). split; [by destruct s1|by rewrite Hlog1]. }
    rewrite ltb_true by lia.
    assert (follows prev (rq_last_log_term req) s1) as Hf1.
    { unfold follows in *. by rewrite Hlog1, Hsm1. }
    destruct (term_for_log_runs prev _ s1 Hok1 Hf1) as (l & Hl & Hokl & Hgl); [lia|].
    exists l. erewrite bind_Ret by exact Hl. rewrite Z.eqb_refl, Hgl, Hlog1. done. }
  erewrite bind_Ret by exact Hokay. rewrite Hst1, Z.ltb_irrefl. simpl negb. cbn [orb].
  set (s2 := s1 <| log_store_ := l |>).
  assert (glog s2 = glog s) as Hg2 by done. fold prev in Hp, Hi, Hb |- *.
  assert (u64 (prev + 1) = prev + 1) as -> by (apply u64_small; unfold is_u64; lia).
  destruct (merge_runs (prev + 1) es s2) as (s3 & Hm & Hok3 & Hg3 & Hsm3 & Hot3).
  { done. } { rewrite Hg2. lia. } { done. } { by rewrite Hg2. } { fold es in Hb. lia. }
  unfold others in Hot3. simpl in Hot3.
  injection Hot3 as Hld Hid _ _ Hq3 _ _ _ _ _ _ _ _ _ Hro Hst3 _ _ _ _ _.
  apply bind_Ret_inv in Hm as ([i es1] & sa & Hskip & Hm).
  apply bind_Ret_inv in Hm as (es2 & sb & How & Happ).
  fold es. cbn [negb]. erewrite bind_Ret by exact Hskip. cbn beta iota.
  erewrite bind_Ret by exact How. erewrite bind_Ret by exact Happ.
  erewrite bind_Ret by reflexivity.
  destruct (commit_follower (rq_commit_idx req) (s3 <| leader_ := rq_src req |>)) as (tr & Hcm & _).
  { simpl. rewrite Hro. by rewrite Hr1. }
  erewrite bind_Ret by exact Hcm. eexists _, _. split; [reflexivity|].
  split; [done|]. split; [|].
  { simpl. apply u64_small. unfold is_u64. fold es in Hb. lia. }
  change (state_machine_ s2) with (state_machine_ s1) in Hsm3. rewrite Hsm1, Hg2 in Hsm3.
  unfold set_field; simpl. rewrite Hro, Hst3, Hq3, Hq1, Hst1, Hr1, Hg3, Hg2. done.
Qed.

(** C3: An acceptable AppendEntries request.  The handler returns; the response accepts
    and announces the index after the request's entries; the log becomes the merge; the
    state machine gets, in this order, the rollback of the first overwritten entry (if
    it is application data) and the pre-commits of the appended ones, and nothing else;
    the sender is the leader, this server its follower, the persistent state is as
    before and the quick commit index is raised to the leader's. *)
Theorem append_entries_accepted req (s : server) : acceptable req s →
  let prev := rq_last_log_idx req in let es := rq_log_entries req in
  ∃ resp s', handle_append_entries req s = Ret resp s' ∧
    rs_accepted resp = true ∧ rs_next_idx resp = prev + Z.of_nat (length es) + 1 ∧
    rs_term resp = ss_term (state_ s) ∧
    log_ok (log_store_ s') ∧ glog s' = al_merge (prev + 1) es (glog s) ∧
    Ret () (state_machine_ s') = merge_calls (prev + 1) es (glog s) (state_machine_ s) ∧
    role_ s' = follower ∧ leader_ s' = rq_src req ∧ state_ s' = state_ s ∧
    quick_commit_idx_ s' = Z.max (quick_commit_idx_ s) (rq_commit_idx req).
Proof. apply append_entries_runs. Qed.

(** C2: Log matching.  After an accepted request: what precedes the request's entries is
    untouched; at each of their indexes the log has an entry of the same term; and when
    the request agrees, in terms, with the log up to an index [c] (for instance because
    what is committed up to [c] is in the leader's log), every entry up to [c] is kept. *)
Theorem append_entries_log_matching req (s : server) : acceptable req s →
  let prev := rq_last_log_idx req in let es := rq_log_entries req in
  let g' := glog (final (handle_append_entries req s)) in
  (∀ i, i ≤ prev → al_get i g' = al_get i (glog s)) ∧
  (∀ k e, es !! k = Some e →
     ∃ o, al_get (prev + 1 + Z.of_nat k) g' = Some o ∧ le_term o = le_term e) ∧
  (∀ c, c < al_next (glog s) →
     (∀ k e o, es !! k = Some e → prev + 1 + Z.of_nat k ≤ c →
        al_get (prev + 1 + Z.of_nat k) (glog s) = Some o → le_term o = le_term e) →
     al_get c g' = al_get c (glog s)).
Proof.
  intros Hacc prev es. pose proof Hacc as (Hok & _ & _ & Hf & _).
  destruct (follows_range _ _ _ Hok Hf) as [_ Hi]. fold prev in Hi.
  destruct (append_entries_runs req s Hacc) as (resp & s' & Hrun & _ & _ & _ & _ & Hg & _).
  rewrite Hrun. cbn [final]. rewrite Hg. fold prev es. split; [|split].
  - intros i Hle. apply al_merge_before; lia.
  - intros k e He. by apply al_merge_matches.
  - intros c Hc Hag. by apply al_merge_stable.
Qed.

(** The term of the entry before a request: from the log, or from the last snapshot when
    the log begins after it. *)
Definition prev_term (prev : Z) (o : option snapshot) (g : alog) : option Z :=
  if al_start g <=? prev then Some (al_term prev g) else
  match o with
  | Some snp => if prev =? snp_last_log_idx snp then Some (snp_last_log_term snp) else None
  | None => None
  end.
Lemma term_for_log_spec prev o (s : server) :
  log_ok (log_store_ s) → 0 < prev < al_next (glog s) →
  (prev < al_start (glog s) → sm_last_snapshot (state_machine_ s) = Ret o (state_machine_ s)) →
  match prev_term prev o (glog s) with
  | Some t => ∃ l, term_for_log prev s = Ret t (s <| log_store_ := l |>) ∧ log_ok l ∧ log_of l = glog s
  | None => ∃ s', term_for_log prev s = Stop (Exited (-1)) s'
  end.
Proof.
  intros Hok Hp Ho. unfold term_for_log, prev_term. rewrite (proj2 (Z.eqb_neq _ _)) by lia.
  erewrite bind_Ret by reflexivity. destruct (ls_start _ Hok) as [Hs H1]. rewrite Hs.
  destruct (Z.leb_spec (al_start (glog s)) prev) as [Hle|Hlt].
  - destruct (ls_term_at _ prev Hok) as (l & Hl & Hok' & Hg); [lia|].
    exists l. split; [by apply log_op_Ret|done].
  - assert (s <| state_machine_ := state_machine_ s |> = s) as Hself by by destruct s.
    destruct o as [snp|]; [destruct (Z.eqb_spec prev (snp_last_log_idx snp)) as [Heq|]|].
    + exists (log_store_ s). erewrite bind_Ret by (by apply sm_op_Ret, Ho). rewrite Hself. subst prev.
      rewrite Z.eqb_refl. split; [by destruct s|done].
    + eexists. erewrite bind_Ret by (by apply sm_op_Ret, Ho). cbn beta iota.
      rewrite (proj2 (Z.eqb_neq _ _)) by done. reflexivity.
    + eexists. erewrite bind_Ret by (by apply sm_op_Ret, Ho). reflexivity.
Qed.

(** C21: Requests that are not accepted, by every server with a readable last snapshot [o].
    A leader that gets one of its own term exits.  Otherwise, when the previous entry is
    before the log and is not the last one of the snapshot either, the server exits,
    whatever the term of the request.  In all other cases a request of an older term, or
    whose previous entry is behind the end of the log or of another term, is answered with
    the next slot and changes neither the log, the state machine, the persistent state nor
    the commit indexes. *)
Theorem append_entries_refused req o (s : server) :
  let prev := rq_last_log_idx req in
  let g := glog s in
  log_ok (log_store_ s) → 0 ≤ prev →
  (prev < al_start g → sm_last_snapshot (state_machine_ s) = Ret o (state_machine_ s)) →
  if decide (role_ s = leader ∧ rq_term req = ss_term (state_ s))
  then ∃ s', handle_append_entries req s = Stop (Exited (-1)) s'
  else
    (0 < prev < al_next g → prev_term prev o g = None →
       ∃ s', handle_append_entries req s = Stop (Exited (-1)) s') ∧
    ((0 < prev < al_next g → prev_term prev o g ≠ None) →
     rq_term req < ss_term (state_ s) ∨
     prev ≠ 0 ∧ (al_next g ≤ prev ∨ prev_term prev o g ≠ Some (rq_last_log_term req)) →
     ∃ resp s', handle_append_entries req s = Ret resp s' ∧
       rs_accepted resp = false ∧ rs_next_idx resp = al_next g ∧
       log_ok (log_store_ s') ∧ glog s' = g ∧ state_machine_ s' = state_machine_ s ∧
       state_ s' = state_ s ∧ quick_commit_idx_ s' = quick_commit_idx_ s).
Proof.
  intros prev g Hok Hp0 Ho. unfold handle_append_entries. erewrite bind_Ret by reflexivity. case_decide as Hlead.
  { destruct Hlead as [Hr Ht]. rewrite Hr, Ht, Z.eqb_refl. eexists. reflexivity. }
  assert (∃ s1, (if rq_term req =? ss_term (state_ s) then
     match role_ s with
     | candidate => become_follower | leader => die (-1) | follower => restart_election_timer
     end else mret ()) s = Ret () s1 ∧ calm s s1) as (s1 & Hs1 & [Hc1 _]).
  { destruct (Z.eqb_spec (rq_term req) (ss_term (state_ s))); [|by exists s].
    destruct (heard_from_leader s) as (s1 & ? & _ & ?); [by intros Hr; apply Hlead|]. eauto. }
  erewrite bind_Ret by exact Hs1. erewrite bind_Ret by reflexivity. cbn zeta.
  unfold data in Hc1. injection Hc1 as _ _ _ _ _ _ _ Hst1 Hlog1 Hsm1 Hq1. fold prev.
  assert (log_ok (log_store_ s1)) as Hok1 by by rewrite Hlog1.
  rewrite (next_slot_eq s1), Hlog1 by done. fold g.
  assert (0 < prev < al_next g →
    match prev_term prev o g with
    | Some t => ∃ l, term_for_log prev s1 = Ret t (s1 <| log_store_ := l |>) ∧ log_ok l ∧ log_of l = g
    | None => ∃ s', term_for_log prev s1 = Stop (Exited (-1)) s'
    end) as Hterm.
  { intros Hi. pose proof (term_for_log_spec prev o s1) as H. rewrite Hlog1, Hsm1 in H. by apply H. }
  split.
  - intros Hi Hnone. rewrite Hnone in Hterm. destruct (Hterm Hi) as (s' & Hx).
    rewrite (proj2 (Z.eqb_neq prev 0)), (ltb_true prev (al_next g)) by lia. exists s'. unfold mbind, M_bind in *. by rewrite Hx.
  - intros Hknown Hcase.
    assert (∃ b l, (if prev =? 0 then mret true
       else if prev <? al_next g then t ← term_for_log prev; mret (rq_last_log_term req =? t)
       else mret false) s1 = Ret b (s1 <| log_store_ := l |>) ∧ log_ok l ∧ log_of l = g ∧
       (rq_term req <? ss_term (state_ s)) || negb b = true) as (b & l & Hokay & Hokl & Hgl & Hrej).
    { assert (∀ b : bool, (rq_term req <? ss_term (state_ s)) || negb b = true → ∃ b' l,
        Ret b s1 = Ret b' (s1 <| log_store_ := l |>) ∧ log_ok l ∧ log_of l = g ∧
        (rq_term req <? ss_term (state_ s)) || negb b' = true) as Hnop.
      { intros b Hb. exists b, (log_store_ s1). split; [by destruct s1|by rewrite Hlog1]. }
      destruct (Z.eqb_spec prev 0) as [|Hne]; [apply Hnop; lia|].
      destruct (Z.ltb_spec prev (al_next g)) as [Hlt|]; [|apply Hnop; simpl; by rewrite orb_true_r].
      destruct (prev_term prev o g) as [t|] eqn:Et; [|by destruct Hknown; [lia|]].
      destruct Hterm as (l & Hl & Hokl & Hgl); [lia|].
      exists (rq_last_log_term req =? t), l. erewrite bind_Ret by exact Hl. repeat split; [done..|].
      destruct Hcase as [?|[_ [?|Ht]]]; [lia|lia|]. apply orb_true_iff. right. apply negb_true_iff, Z.eqb_neq. congruence. }
    erewrite bind_Ret by exact Hokay. rewrite Hst1, Hrej.
    eexists _, _. split; [reflexivity|]. split; [done|]. by split.
Qed.
End follower.

(** Server 2 in term 1, with an empty log, and the first request of server 1. *)
Definition demo_follower : server alog recorder :=
  final (process_req (vote_req 1 2 1 0 0) (demo_server 2)).
Definition demo_append : req_msg := append_req 1 2 1 0 0 1 [data_entry 1 5; data_entry 1 6].
Lemma data_entry_storable t n : storable (data_entry t n).
Proof. exists (mk_buffer [byte_of n] 0). split; [done|]. simpl. lia. Qed.
Lemma demo_acceptable : acceptable demo_append demo_follower.
Proof.
  split; [vm_compute; split; [discriminate|reflexivity]|]. split; [vm_compute; discriminate|].
  split; [vm_compute; reflexivity|]. split; [left; vm_compute; auto|].
  split; [repeat constructor; apply data_entry_storable|]. split; [vm_compute; constructor|].
  vm_compute. reflexivity.
Qed.

Lemma append_entries_accepted_witness :
  ∃ resp s', handle_append_entries demo_append demo_follower = Ret resp s' ∧
    rs_accepted resp = true ∧ rs_next_idx resp = 3 ∧
    quick_commit_idx_ s' = 1 ∧ al_merge 1 (rq_log_entries demo_append) demo_log = log_store_ s'.
Proof.
  destruct (append_entries_accepted demo_append demo_follower demo_acceptable)
    as (resp & s' & Hrun & Hacc & Hnext & _ & _ & Hg & _ & _ & _ & _ & Hq).
  exists resp, s'. split; [exact Hrun|]. split; [exact Hacc|]. split; [exact Hnext|].
  split; [exact Hq|]. symmetry. exact Hg.
Defined.

Lemma append_entries_log_matching_witness :
  let g' := log_of (log_store_ (final (handle_append_entries demo_append demo_follower))) in
  ∃ o, al_get (rq_last_log_idx demo_append + 1 + Z.of_nat 1) g' = Some o ∧
       le_term o = le_term (data_entry 1 6).
Proof.
  destruct (append_entries_log_matching demo_append demo_follower demo_acceptable) as (_ & H & _).
  exact (H 1%nat (data_entry 1 6) eq_refl).
Defined.

(** Server 2 with a log that begins at index 5 and a snapshot up to index 4: it refuses a
    request of an older term that follows the snapshot, and exits on one that follows an
    entry before it. *)
Definition demo_compacted : server alog recorder :=
  demo_follower <| log_store_ := mk_alog 5 [data_entry 1 5] |>
    <| state_machine_ := mk_recorder [] (Some (mk_snapshot 4 1 0 demo_cluster)) [] |>.
Lemma append_entries_refused_witness :
  (∃ resp s', handle_append_entries (append_req 1 2 0 1 4 0 []) demo_compacted = Ret resp s' ∧
    rs_accepted resp = false ∧ rs_next_idx resp = 6) ∧
  ∃ s', handle_append_entries (append_req 1 2 0 1 3 0 []) demo_compacted = Stop (Exited (-1)) s'.
Proof.
  assert (log_ok (log_store_ demo_compacted)) as Hok by (vm_compute; split; [discriminate|reflexivity]).
  split.
  - pose proof (append_entries_refused (append_req 1 2 0 1 4 0 []) (Some (mk_snapshot 4 1 0 demo_cluster))
      demo_compacted Hok) as H.
    destruct (proj2 (H ltac:(vm_compute; discriminate) ltac:(reflexivity))) as (resp & s' & Hrun & Hacc & Hnext & _).
    + intros _. vm_compute. discriminate.
    + left. vm_compute. reflexivity.
    + exists resp, s'. split; [exact Hrun|]. split; [exact Hacc|exact Hnext].
  - pose proof (append_entries_refused (append_req 1 2 0 1 3 0 []) (Some (mk_snapshot 4 1 0 demo_cluster))
      demo_compacted Hok) as H.
    apply (proj1 (H ltac:(vm_compute; discriminate) ltac:(reflexivity))); [split; vm_compute; reflexivity|].
    vm_compute. reflexivity.
Defined.
