(* ===== verification/Leader.v ===== *)
(** The leader: the index it commits, the requests it creates, and what a request does
    to the follower that receives it. *)
From stdpp Require Import sorting.
From Stdlib Require Import Sorting.Sorted.
From S2P Require Import Prelude Buffer Codec LogStore Timer Peer RaftState Raft Member.
From S2P Require Import Server Frames Demo Replication.

(** ** The middle of a sorted list *)
Definition at_least (m : Z) (l : list Z) : nat := length (filter (λ x, m ≤ x) l).

#[export] Instance at_least_perm m : Proper ((≡ₚ) ==> (=)) (at_least m).
Proof. intros l l' H. unfold at_least. by rewrite H. Qed.
Lemma at_least_app m l l' : at_least m (l ++ l') = (at_least m l + at_least m l')%nat.
Proof. unfold at_least. by rewrite filter_app, length_app. Qed.
Lemma at_least_all m l : Forall (λ x, m ≤ x) l → at_least m l = length l.
Proof.
  unfold at_least. induction 1; [done|]. rewrite filter_cons_True by done. simpl. lia.
Qed.
Lemma at_least_none m l : Forall (λ x, x < m) l → at_least m l = 0%nat.
Proof.
  unfold at_least. induction 1; [done|]. rewrite filter_cons_False by lia. done.
Qed.
Lemma ge_split (l : list Z) k m :
  StronglySorted Z.ge l → l !! k = Some m →
  Forall (λ x, m ≤ x) (take (S k) l) ∧ Forall (λ x, x ≤ m) (drop k l).
Proof.
  revert k. induction l as [|x l IH]; intros k Hs Hk; [done|].
  apply StronglySorted_inv in Hs as [Hs Hx]. destruct k as [|k]; simpl in Hk.
  - simplify_eq. simpl. split; [repeat constructor; lia|]. constructor; [lia|].
    eapply Forall_impl; [exact Hx|]. simpl. lia.
  - destruct (IH k Hs Hk) as [H1 H2]. rewrite firstn_cons, skipn_cons. split; [|done].
    constructor; [|done]. apply (Forall_lookup_1 _ _ _ _ Hx) in Hk. lia.
Qed.
Lemma median_majority (l : list Z) : l ≠ [] → ∃ m, median_index l = Some m ∧
  (length l < 2 * at_least m l)%nat ∧
  ∀ m', m < m' → (2 * at_least m' l ≤ length l)%nat.
Proof.
  intros Hl. unfold median_index.
  assert (Total Z.ge) as Htot by (intros x y; lia).
  assert (Transitive Z.ge) as Htr by (intros x y z; lia).
  pose proof (StronglySorted_merge_sort Z.ge l) as Hs.
  pose proof (merge_sort_Permutation Z.ge l) as Hp.
  set (l' := merge_sort Z.ge l) in *.
  set (k := Z.to_nat (Z.of_nat (length l) / 2)).
  assert (0 < length l)%nat as Hlen by (destruct l; simpl; [done|lia]).
  assert (2 * k ≤ length l < 2 * k + 2)%nat as Hk.
  { unfold k. pose proof (Z.div_mod (Z.of_nat (length l)) 2 ltac:(lia)).
    pose proof (Z.mod_pos_bound (Z.of_nat (length l)) 2 ltac:(lia)). lia. }
  assert (length l' = length l) as Hll by by rewrite Hp.
  destruct (lookup_lt_is_Some_2 l' k) as [m Hm]; [lia|].
  exists m. split; [done|]. destruct (ge_split l' k m Hs Hm) as [H1 H2]. split.
  - rewrite <- (at_least_perm m _ _ Hp), <- (take_drop (S k) l'), at_least_app.
    rewrite (at_least_all m (take (S k) l')) by done. rewrite length_take. lia.
  - intros m' Hm'. rewrite <- (at_least_perm m' _ _ Hp), <- (take_drop k l'), at_least_app.
    rewrite (at_least_none m' (drop k l')).
    + unfold at_least. pose proof (length_filter (λ x, m' ≤ x) (take k l')) as Hf.
      rewrite length_take in Hf. lia.
    + eapply Forall_impl; [exact H2|]. simpl. lia.
Qed.

Section leader.
Context {L SM : Type} `{!LogStore L} `{!StateMachine SM} `{HE : !RaftEnv}.
Abbreviation server := (server L SM).

(** The peer's bookkeeping after an accepted response. *)
Definition noted (resp : resp_msg) (s : server) : server :=
  s <| peers_ ::= alter (λ p, Peer.set_matched_idx (u64 (rs_next_idx resp - 1))
                              (Peer.set_next_log_idx (rs_next_idx resp) p)) (rs_src resp) |>.

(** C5: The commit index of the leader.  An accepted response of a known peer raises the
    quick commit index to the middle one of the matched indexes, the server's own last
    index included: an index that a strict majority of the servers has reached, and
    the largest such index.  It is never lowered. *)
Theorem commit_index_majority (resp : resp_msg) (s : server) :
  rs_accepted resp = true → peers_ s !! rs_src resp ≠ None →
  let l := matched_indexes (noted resp s) in
  length l = S (size (peers_ s)) ∧
  ∃ m, quick_commit_idx_ (final (handle_append_entries_resp resp s)) =
         Z.max (quick_commit_idx_ s) m ∧
    (length l < 2 * at_least m l)%nat ∧
    (∀ m', m < m' → (2 * at_least m' l ≤ length l)%nat).
Proof.
  intros Hacc Hp l. split.
  { unfold l, matched_indexes. simpl length. rewrite length_fmap, peer_order_ok, length_fmap.
    rewrite length_map_to_list. f_equal. unfold noted, set_field; simpl.
    rewrite <- !size_dom. by rewrite dom_alter_L. }
  destruct (median_majority l) as (m & Hm & Hmaj & Hmax); [done|].
  exists m. split; [|done]. unfold handle_append_entries_resp.
  erewrite bind_Ret by reflexivity.
  change (find_peer (Member (rs_src resp)) s) with (peers_ s !! rs_src resp).
  destruct (peers_ s !! rs_src resp) as [pr|] eqn:E; [|done].
  rewrite Hacc, bind_assoc.
  erewrite (bind_Ret _ _ s () (noted resp s)) by reflexivity.
  cbn beta. rewrite bind_assoc. erewrite bind_Ret by reflexivity.
  cbn beta. rewrite bind_assoc. fold l. rewrite Hm. erewrite bind_Ret by reflexivity.
  cbn beta. rewrite bind_assoc.
  destruct (commit_quick m (noted resp s)) as [_ Hq].
  change (quick_commit_idx_ s) with (quick_commit_idx_ (noted resp s)).
  rewrite <- Hq. unfold mbind at 1, M_bind at 1.
  destruct (commit m (noted resp s)) as [[] s2|]; [|done]. cbn [final].
  match goal with |- quick_commit_idx_ (final (?k s2)) = _ =>
    assert (keeps sends k) as Hk by solve_keeps; apply (Hk s2) end.
Qed.
End leader.

Lemma leader_demo_resp : peers_ demo_leader !! 2 ≠ None.
Proof. vm_compute. discriminate. Qed.
Definition ok_resp (src next : Z) : resp_msg := mk_resp 1 append_entries_response src 1 next true.
Lemma commit_index_majority_witness :
  let s := demo_leader in
  let l := matched_indexes (noted (ok_resp 2 2) s) in
  l ≡ₚ [1; 1; 0] ∧
  ∃ m, quick_commit_idx_ (final (handle_append_entries_resp (ok_resp 2 2) s)) =
         Z.max (quick_commit_idx_ s) m ∧ (length l < 2 * at_least m l)%nat.
Proof.
  split; [vm_compute; repeat constructor|].
  destruct (commit_index_majority (ok_resp 2 2) demo_leader eq_refl leader_demo_resp)
    as (_ & m & Hm & Hmaj & _).
  exists m. split; [exact Hm|exact Hmaj].
Defined.

(** ** Requests *)
Lemma al_slice_lookup a b g k : al_start g ≤ a → b ≤ al_next g →
  a + Z.of_nat k < b → al_slice a b g !! k = al_get (a + Z.of_nat k) g.
Proof.
  intros Ha Hb Hk. unfold al_slice, al_get. rewrite ltb_false by lia.
  rewrite lookup_take_lt by lia. rewrite lookup_drop. f_equal. lia.
Qed.
Lemma length_al_slice a b g : al_start g ≤ a ≤ b → b ≤ al_next g →
  length (al_slice a b g) = Z.to_nat (b - a).
Proof. intros. unfold al_slice, al_next in *. rewrite length_take, length_drop. lia. Qed.

Section requests.
Context {L SM : Type} `{!LogStore L} `{HL : !LogStoreLaws L} `{!StateMachine SM}
  `{HT : !StateMachineTotal SM} `{HE : !RaftEnv}.
Abbreviation server := (server L SM).
Abbreviation glog s := (log_of (log_store_ s)).

(** Where the request for a peer starts, and where it ends. *)
Definition next_for (p : peer) (g : alog) : Z :=
  if pr_next_log_idx p =? 0 then al_next g else pr_next_log_idx p.
Definition request_end (prev : Z) (s : server) : Z :=
  Z.min (al_next (glog s)) (prev + 1 + max_append_size_ (params_ s)).

(** The leader can build an AppendEntries request for the peer: the index before its
    next one is in the log, or at the end of the last snapshot. *)
Definition can_append (p : peer_ref) (pr : peer) (prev t : Z) (s : server) : Prop :=
  log_ok (log_store_ s) ∧ find_peer p s = Some pr ∧
  prev = next_for pr (glog s) - 1 ∧ follows prev t s ∧ (prev = 0 → t = 0) ∧
  0 < max_append_size_ (params_ s) < 2 ^ 31.

Lemma append_req_runs p pr prev t (s : server) : can_append p pr prev t s →
  ∃ req s', create_append_entries_req p s = Ret req s' ∧
    rq_type req = append_entries_request ∧ rq_term req = ss_term (state_ s) ∧
    rq_src req = id_ s ∧ rq_dst req = Peer.get_id pr ∧
    rq_last_log_idx req = prev ∧ rq_last_log_term req = t ∧
    rq_commit_idx req = quick_commit_idx_ s ∧
    rq_log_entries req = al_slice (prev + 1) (request_end prev s) (glog s) ∧
    log_ok (log_store_ s') ∧ glog s' = glog s.
Proof.
  intros (Hok & Hp & Hprev & Hf & Ht0 & Hmax).
  pose proof (ls_start _ Hok) as [Hst H1]. pose proof (ls_next _ Hok) as [Hnx Hb].
  destruct (follows_range _ _ _ Hok Hf) as [Hge Hi].
  unfold create_append_entries_req. erewrite bind_Ret by reflexivity. cbn zeta.
  erewrite bind_Ret by (by apply the_peer_Ret). rewrite next_slot_eq by done.
  assert (∃ s1, (if pr_next_log_idx pr =? 0
      then upd_peer p (Peer.set_next_log_idx (al_next (glog s))) else mret ()) s = Ret () s1 ∧
    find_peer p s1 = Some (Peer.set_next_log_idx (prev + 1) pr) ∧
    log_store_ s1 = log_store_ s ∧ state_machine_ s1 = state_machine_ s)
    as (s1 & Hs1 & Hp1 & Hl1 & Hsm1).
  { unfold next_for in Hprev. destruct (pr_next_log_idx pr =? 0).
    - destruct p; eexists; (split; [reflexivity|]); (split; [|done]);
        unfold set_field; simpl in *.
      + rewrite lookup_alter_eq, Hp. simpl. do 2 f_equal. lia.
      + rewrite Hp. simpl. do 2 f_equal. lia.
    - exists s. split; [done|]. split; [|done]. rewrite Hp. subst prev.
      unfold Peer.set_next_log_idx, set_field; simpl. destruct pr; simpl.
      do 2 f_equal. lia. }
  erewrite bind_Ret by exact Hs1. erewrite bind_Ret by (by apply the_peer_Ret).
  change (pr_next_log_idx (Peer.set_next_log_idx (prev + 1) pr)) with (prev + 1).
  assert (u64 (prev + 1 - 1) = prev) as -> by (rewrite u64_small; unfold is_u64; lia).
  rewrite leb_false by lia. rewrite Hst.
  assert (u64 (al_start (glog s) - 1) = al_start (glog s) - 1) as ->
    by (apply u64_small; unfold is_u64, al_next in *; lia).
  rewrite (ltb_false prev (al_start (glog s) - 1)), andb_false_r by lia.
  assert (∃ l, term_for_log prev s1 = Ret t (s1 <| log_store_ := l |>) ∧ log_ok l ∧
               log_of l = glog s) as (l & Hterm & Hokl & Hgl).
  { destruct (decide (prev = 0)) as [Hz|Hnz].
    - exists (log_store_ s1). rewrite Hl1, Ht0 by done. rewrite Hz. unfold term_for_log. simpl.
      split; [|done]. rewrite <- Hl1. by destruct s1.
    - rewrite <- Hl1. apply term_for_log_runs; [by rewrite Hl1| |lia].
      unfold follows in *. by rewrite Hl1, Hsm1. }
  erewrite bind_Ret by exact Hterm.
  assert (u64 (prev + 1) = prev + 1) as -> by (apply u64_small; unfold is_u64; lia).
  assert (u64 (prev + 1 + max_append_size_ (params_ s)) = prev + 1 + max_append_size_ (params_ s))
    as -> by (apply u64_small; unfold is_u64; lia).
  fold (request_end prev s).
  assert (∃ es l', (if al_next (glog s) <=? prev + 1 then mret None
      else log_op (log_entries (prev + 1) (request_end prev s))) (s1 <| log_store_ := l |>) =
      Ret es (s1 <| log_store_ := l' |>) ∧ log_ok l' ∧ log_of l' = glog s ∧
      default [] es = al_slice (prev + 1) (request_end prev s) (glog s))
    as (es & l' & Hes & Hok' & Hg' & Hsl).
  { destruct (Z.leb_spec (al_next (glog s)) (prev + 1)).
    - exists None, l. split; [done|]. split; [done|]. split; [done|]. simpl.
      unfold al_slice, request_end. by replace (Z.to_nat _) with 0%nat by lia.
    - destruct (ls_log_entries l (prev + 1) (request_end prev s)) as (l' & Hr & Hok' & Hg').
      { done. } { rewrite Hgl. lia. } { unfold request_end. lia. }
      rewrite Hgl in *. eexists _, l'. split.
      { erewrite log_op_Ret; [reflexivity|]. exact Hr. }
      split; [done|]. split; [done|]. simpl. f_equal. unfold request_end. lia. }
  erewrite bind_Ret by exact Hes. eexists _, _. split; [reflexivity|].
  simpl. rewrite Hsl. done.
Qed.

(** C20: The requests of the leader.  For a peer whose next index it can serve, it builds a
    request of its term with its commit index; the entries are those of its log from
    the peer's next index, at most [max_append_size_] of them and up to the end; and
    the previous index and term are those of the entry just before.  The log is only
    read. *)
Theorem append_request_contents p pr prev t (s : server) : can_append p pr prev t s →
  ∃ req s', create_append_entries_req p s = Ret req s' ∧
    rq_term req = ss_term (state_ s) ∧ rq_dst req = Peer.get_id pr ∧
    rq_last_log_idx req = prev ∧ rq_last_log_term req = t ∧
    rq_commit_idx req = quick_commit_idx_ s ∧
    Z.of_nat (length (rq_log_entries req)) =
      Z.min (al_next (glog s) - (prev + 1)) (max_append_size_ (params_ s)) ∧
    (∀ k, (k < length (rq_log_entries req))%nat →
       rq_log_entries req !! k = al_get (prev + 1 + Z.of_nat k) (glog s)) ∧
    glog s' = glog s.
Proof.
  intros Hc. pose proof Hc as (Hok & _ & _ & Hf & _ & Hmax).
  destruct (follows_range _ _ _ Hok Hf) as [Hge Hi].
  destruct (append_req_runs _ _ _ _ _ Hc) as
    (req & s' & Hrun & _ & H1 & _ & H2 & H3 & H4 & H5 & Hes & _ & Hg).
  exists req, s'. rewrite Hes. repeat (split; [done|]).
  unfold request_end in *. split; [rewrite length_al_slice; lia|]. split; [|done].
  intros k Hk. rewrite length_al_slice in Hk by lia. apply al_slice_lookup; lia.
Qed.

(** Two logs hold the same entry wherever they hold entries of the same term. *)
Definition logs_match (g1 g2 : alog) : Prop :=
  ∀ i a b, al_get i g1 = Some a → al_get i g2 = Some b → le_term a = le_term b → a = b.

(** C4: One step of replication.  The leader [s1] builds the request for a peer and the
    follower [s2] can accept it.  If equal terms mean equal entries in the two logs,
    then afterwards the follower's log is the leader's, entry by entry, on the whole
    range of the request, and the leader's log has not moved. *)
Theorem replication_step p pr prev t (s1 s2 : server) : can_append p pr prev t s1 →
  logs_match (glog s1) (glog s2) →
  ∃ req s1', create_append_entries_req p s1 = Ret req s1' ∧ glog s1' = glog s1 ∧
    (acceptable req s2 →
     ∀ i, prev < i < request_end prev s1 →
       al_get i (glog (final (handle_append_entries req s2))) = al_get i (glog s1)).
Proof.
  intros Hc Hm. pose proof Hc as (Hok & _ & _ & Hf & _ & Hmax).
  destruct (follows_range _ _ _ Hok Hf) as [Hge Hi].
  destruct (append_req_runs _ _ _ _ _ Hc) as
    (req & s' & Hrun & _ & _ & _ & _ & Hpi & _ & _ & Hes & _ & Hg).
  exists req, s'. split; [done|]. split; [done|]. intros Hacc i Hri.
  pose proof Hacc as (Hok2 & _ & _ & Hf2 & _). rewrite Hpi in Hf2.
  destruct (follows_range _ _ _ Hok2 Hf2) as [_ Hi2].
  destruct (append_entries_runs req s2 Hacc) as (resp & s2' & Hrun2 & _ & _ & _ & _ & Hg2 & _).
  rewrite Hrun2. cbn [final]. rewrite Hg2, Hpi. set (es := rq_log_entries req) in *.
  assert (∀ k, prev + 1 + Z.of_nat k < request_end prev s1 →
            es !! k = al_get (prev + 1 + Z.of_nat k) (glog s1)) as Hlk.
  { intros k Hk. rewrite Hes. apply al_slice_lookup; unfold request_end in *; lia. }
  set (k := Z.to_nat (i - (prev + 1))).
  assert (prev + 1 + Z.of_nat k = i) as Hki by lia.
  destruct (al_get_Some i (glog s1)) as [e He]; [unfold request_end in *; lia|].
  assert (es !! k = Some e) as Hek by (rewrite Hlk, Hki; [done|lia]).
  rewrite He, al_get_merge by lia. cbv zeta.
  pose proof (lookup_lt_Some _ _ _ Hek) as Hlen.
  assert ((k < agreeing (prev + 1) es (glog s2))%nat → al_get i (glog s2) = Some e) as Hag.
  { intros Hlt. destruct (agreeing_lookup (prev + 1) es (glog s2) k e Hlt Hek) as (o & Ho & Ht).
    rewrite Hki in Ho. rewrite Ho. f_equal. symmetry. by eapply Hm. }
  case_decide; [apply Hag; lia|].
  destruct (Z.ltb_spec i (prev + 1 + Z.of_nat (agreeing (prev + 1) es (glog s2)))).
  - apply Hag. lia.
  - done.
Qed.
End requests.

Definition demo_peer : peer :=
  default (Peer.new (mk_srv_config 2 []) true default_params) (peers_ demo_leader !! 2).
Lemma demo_can_append : can_append (Member 2) demo_peer 0 0 demo_leader.
Proof.
  split; [vm_compute; split; [discriminate|reflexivity]|]. split; [vm_compute; reflexivity|].
  split; [vm_compute; reflexivity|]. split; [left; vm_compute; auto|].
  split; [reflexivity|vm_compute; auto].
Qed.

Lemma append_request_contents_witness :
  ∃ req s', create_append_entries_req (Member 2) demo_leader = Ret req s' ∧
    rq_last_log_idx req = 0 ∧ Z.of_nat (length (rq_log_entries req)) = 1.
Proof.
  destruct (append_request_contents (Member 2) demo_peer 0 0 demo_leader demo_can_append)
    as (req & s' & Hrun & _ & _ & Hp & _ & _ & Hl & _).
  exists req, s'. split; [exact Hrun|]. split; [exact Hp|]. rewrite Hl. vm_compute. reflexivity.
Defined.

Lemma replication_step_witness :
  ∃ req s', create_append_entries_req (Member 2) demo_leader = Ret req s' ∧
    al_get 1 (log_of (log_store_ (final (handle_append_entries req demo_follower)))) =
    al_get 1 (log_of (log_store_ demo_leader)).
Proof.
  destruct (replication_step (Member 2) demo_peer 0 0 demo_leader demo_follower demo_can_append)
    as (req & s' & Hrun & _ & H).
  - intros i a b _ Hb. exfalso. revert Hb. assert (log_of (log_store_ demo_follower) = demo_log) as -> by (vm_compute; reflexivity).
    unfold al_get. case_match; discriminate.
  - exists req, s'. split; [exact Hrun|]. apply H; [|vm_compute; auto].
    eassert (Some req = _) as Hreq.
    { transitivity (result (create_append_entries_req (Member 2) demo_leader));
        [by rewrite Hrun|vm_compute; reflexivity]. }
    clear Hrun H. simplify_eq.
    split; [vm_compute; split; [discriminate|reflexivity]|]. split; [vm_compute; discriminate|].
    split; [vm_compute; reflexivity|]. split; [left; vm_compute; auto|].
    split; [constructor; [eexists; split; [reflexivity|vm_compute; reflexivity]|constructor]|].
    split; [vm_compute; constructor|vm_compute; reflexivity].
Defined.
