(* ===== verification/Scenarios.v ===== *)
(** Whole scenarios between servers, run by the definitions: messages are taken from the
    trace of the sender and delivered to the receiver; all others are lost. *)
From S2P Require Import Prelude Buffer Codec LogStore Timer Peer RaftState Raft Member.
From S2P Require Import Server Frames Demo.

Abbreviation node := (server alog recorder).

(** The requests a server has sent to a peer, newest first. *)
Definition sent (to : Z) (s : node) : list req_msg :=
  omap (λ e, match e with
             | Send (Member i) r resp_handler_ => if i =? to then Some r else None
             | _ => None
             end) (trace_ s).
(** Deliver the newest request of [a] to [b], and the response back to [a]. *)
Definition hop (to : Z) (a b : node) : node * node :=
  match head (sent to a) with
  | None => (a, b)
  | Some r =>
      match process_req r b with
      | Ret x b' => (final (run [EvRpcResult (Member to) r resp_handler_ (Some x)] a), b')
      | Stop _ b' => (a, b')
      end
  end.
Fixpoint hops (n : nat) (to : Z) (a b : node) : node * node :=
  match n with
  | O => (a, b)
  | S n' => let '(a, b) := hop to a b in hops n' to a b
  end.
(** Deliver the newest request of [a] to [b]; the response is lost. *)
Definition tell (to : Z) (a b : node) : node :=
  match head (sent to a) with
  | None => b
  | Some r => final (process_req r b)
  end.
Definition payload (n : Z) : buffer := mk_buffer [byte_of n] 0.
(** Let the committing thread apply what it can. *)
Definition settle (s : node) : node := final (bg_run 20 BgStart s).

(** Server 1 leads term 1 and gets the client's entry 7; nobody hears of it. *)
Definition one_1 : node := final (run [EvClientAppend [payload 7]] demo_leader).
(** Server 3 is elected by server 2 in term 2, gets the client's entry 9 and replicates
    it to server 2. *)
Definition three_2 : node * node :=
  hop 2 (final (run [EvElectionTimeout; EvElectionTimeout] (demo_server 3))) (demo_server 2).
Definition three_3 : node * node :=
  hops 2 2 (final (run [EvClientAppend [payload 9]] (fst three_2))) (snd three_2).
(** Server 1 hears of term 2 from server 3's vote request, is elected by server 2 in
    term 3, and finds server 2's log in agreement with its own. *)
Definition one_2 : node := tell 1 (final (run [EvElectionTimeout; EvElectionTimeout] (demo_server 3))) one_1.
Definition one_3 : node * node :=
  hops 2 2 (final (run [EvElectionTimeout] one_2)) (snd three_3).


(** Entries keep the term their sender wrote, which is zero.  Server 1 leads term 1 and
    stores the client's entry with term 0; server 3 leads term 2 and stores its own with
    term 0.  Because the terms agree, server 2 then accepts server 1, leader of term 3,
    as having its log, and both leaders have two of three servers at index 2: their
    state machines execute different commands at the same index. *)
Lemma client_terms_break_agreement :
  ss_term (state_ one_1) = 1 ∧
  al_get 2 (log_store_ one_1) = Some (mk_log_entry 0 app_log (Some (payload 7))) ∧
  (let s3 := fst three_3 in
   role_ s3 = leader ∧ ss_term (state_ s3) = 2 ∧ quick_commit_idx_ s3 = 2 ∧
   Committed 2 [byte_of 9] ∈ rec_calls (state_machine_ (settle s3))) ∧
  (let s1 := fst one_3 in
   role_ s1 = leader ∧ ss_term (state_ s1) = 3 ∧ quick_commit_idx_ s1 = 2 ∧
   Committed 2 [byte_of 7] ∈ rec_calls (state_machine_ (settle s1))).
Proof.
  split; [vm_compute; reflexivity|]. split; [vm_compute; reflexivity|].
  split; vm_compute; repeat split; repeat (first [left; reflexivity|right]).
Qed.

(** Server 2 has pre-committed two entries of term 1; a leader of term 2 replaces both. *)
Definition two_old : node :=
  final (process_req (append_req 1 2 1 0 0 0 [data_entry 1 5; data_entry 1 6]) (demo_server 2)).
Definition two_new : node :=
  final (process_req (append_req 3 2 2 0 0 0 [data_entry 2 7; data_entry 2 8]) two_old).

(** Only the first overwritten entry is rolled back.  Writing it truncates the log, so
    the overwriting loop runs once: the second old entry disappears without a rollback,
    and the entry written in place is never pre-committed. *)
Lemma overwrite_rolls_back_one :
  rec_calls (state_machine_ two_old) = [PreCommitted 2 [byte_of 6]; PreCommitted 1 [byte_of 5]] ∧
  al_entries (log_store_ two_new) = [data_entry 2 7; data_entry 2 8] ∧
  rec_calls (state_machine_ two_new) =
    [PreCommitted 2 [byte_of 8]; RolledBack 1 [byte_of 5];
     PreCommitted 2 [byte_of 6]; PreCommitted 1 [byte_of 5]].
Proof. vm_compute. auto. Qed.

(** Server 1, leader, after its first configuration is committed. *)
Definition one_settled : node := settle (fst (hop 2 demo_leader (demo_server 2))).
(** Clients add server 4 and remove server 3; both servers answer. *)
Definition two_changes : list event :=
  [EvClientAdd (mk_srv_config 4 (host 4)); EvClientRemove 3;
   EvRpcResult (Member 3) (mk_req 1 leave_cluster_request 1 3 0 1 1 []) ex_resp_handler_
     (Some (mk_resp 1 leave_cluster_response 3 1 1 true));
   EvRpcResult Joining (mk_req 1 join_cluster_request 1 4 0 1 1 []) ex_resp_handler_
     (Some (mk_resp 1 join_cluster_response 4 1 1 true))].
(** The configurations in the log, with their index. *)
Definition configs_in (g : alog) : list (Z * list Z) :=
  omap (λ ie : nat * log_entry,
    match le_val_type (snd ie), le_buff (snd ie) with
    | conf, Some b =>
        match ClusterConfig.deserialize b with
        | Ret c _ => Some (al_start g + Z.of_nat (fst ie), sc_id <$> cc_servers c)
        | Stop _ _ => None
        end
    | _, _ => None
    end) (imap pair (al_entries g)).

(** Two configuration changes in flight.  The flag that refuses a second change is set
    only when a configuration is appended, long after the request was accepted.  Here a
    leader accepts to add server 4 and, before that, also accepts to remove server 3;
    its log then holds two uncommitted configurations, each computed from the committed
    one: the second one brings server 3 back. *)
Lemma two_config_changes_in_flight :
  let s := final (run two_changes one_settled) in
  role_ one_settled = leader ∧ config_changing_ one_settled = false ∧
  role_ s = leader ∧ ss_commit_idx (state_ s) = 1 ∧ config_changing_ s = true ∧
  configs_in (log_store_ s) = [(1, [1; 2; 3]); (2, [1; 2]); (3, [1; 2; 3; 4])].
Proof. vm_compute. repeat split. Qed.
