(* ===== verification/Membership.v ===== *)
(** Membership: what a reconfiguration makes of the peers, what joining a cluster and
    installing a snapshot do to the server, and the end of the search through previous
    configurations. *)
From S2P Require Import Prelude Buffer Codec LogStore Timer Peer RaftState Raft Member.
From S2P Require Import Server Frames Demo Replication Leader.

Lemma get_server_None id c : get_server id c = None ↔ Forall (λ sc, sc_id sc ≠ id) (cc_servers c).
Proof.
  unfold get_server. rewrite fmap_None, list_find_None. done.
Qed.

Section reconfigure.
Context {L SM : Type} `{!LogStore L} `{!StateMachine SM} `{HE : !RaftEnv}.
Abbreviation server := (server L SM).

Definition has_peer (id : Z) (s : server) : Prop := peers_ s !! id ≠ None.

Lemma total_final {A} (m : M server A) s : total m → ∃ a, m s = Ret a (final (m s)).
Proof. intros Ht. destruct (Ht s) as (a & s' & ->). by exists a. Qed.

Lemma add_peer_dom sc id (s : server) :
  has_peer id (final (add_peer sc s)) ↔ id = sc_id sc ∨ has_peer id s.
Proof.
  unfold add_peer, has_peer. erewrite bind_Ret by reflexivity. cbv zeta.
  match goal with |- context [(?m ≫= ?k) s] =>
    assert (∃ p s1, m s = Ret p s1 ∧ peers_ s1 = peers_ s) as (p & s1 & Hm & Hp) end.
  { case_bool_decide; [|by eexists _, _]. erewrite bind_Ret by reflexivity.
    case_match; [case_match|]; by eexists _, _. }
  erewrite bind_Ret by exact Hm. unfold modify, set_field; simpl. rewrite Hp.
  destruct (peers_ s !! sc_id sc) as [q|] eqn:E.
  - split; [auto|]. intros [->|?]; [by rewrite E|done].
  - destruct (decide (id = sc_id sc)) as [->|Hne].
    + rewrite lookup_insert_eq. naive_solver.
    + rewrite lookup_insert_ne by done. naive_solver.
Qed.
Lemma add_peers_dom scs id : ∀ s : server,
  has_peer id (final (for_each add_peer scs s)) ↔ id ∈ (sc_id <$> scs) ∨ has_peer id s.
Proof.
  induction scs as [|sc scs IH]; intros s; simpl; [set_solver|].
  destruct (total_final (add_peer sc) s (total_add_peer sc)) as [[] Ha].
  erewrite bind_Ret by exact Ha. rewrite IH, add_peer_dom. set_solver.
Qed.

Lemma remove_peer_dom id x (s : server) :
  has_peer x (final (remove_peer id s)) ↔ has_peer x s ∧ x ≠ id.
Proof.
  unfold remove_peer, has_peer. erewrite bind_Ret by reflexivity.
  destruct (peers_ s !! id) as [p|] eqn:E.
  - change (peers_ (final ?[o])) with (delete id (alter (Peer.enable_hb false) id (peers_ s))).
    destruct (decide (x = id)) as [->|Hne].
    + rewrite lookup_delete_eq. tauto.
    + rewrite lookup_delete_ne, lookup_alter_ne by done. tauto.
  - simpl. split; [|by intros []]. intros Hx. split; [done|]. congruence.
Qed.

(** The fields a reconfiguration reads. *)
Definition same_place (s s' : server) : Prop :=
  (id_ s', catching_up_ s', config_ s') = (id_ s, catching_up_ s, config_ s).
#[local] Instance same_place_pre : PreOrder same_place.
Proof. split; [by intros s|]. intros a b c. unfold same_place. congruence. Qed.
#[local] Hint Extern 1 (keeps same_place (modify _)) =>
  apply keeps_modify; intros ?; reflexivity : keeps.
Lemma place_emit e : keeps same_place (emit e).
Proof. by intros s. Qed.
Lemma place_upd_peer p f : keeps same_place (upd_peer p f).
Proof. destruct p; by intros s. Qed.
#[local] Hint Resolve place_emit place_upd_peer : keeps.
Lemma place_add_peer c : keeps same_place (add_peer c).
Proof. unfold add_peer. solve_keeps. Qed.
Lemma place_remove_peer i : keeps same_place (remove_peer i).
Proof. unfold remove_peer, disable_hb. solve_keeps. Qed.
#[local] Hint Resolve place_add_peer place_remove_peer : keeps.

Lemma remove_srvs_runs c ids : ∀ s : server,
  let down := bool_decide (id_ s ∈ ids) && negb (catching_up_ s) in
  ∃ s', remove_srvs c ids s = Ret down s' ∧ same_place s s' ∧
    (if down then ∃ tr, trace_ s' = SystemExit 0 :: SaveConfig c :: tr
     else ∀ id, has_peer id s' ↔ has_peer id s ∧ id ∉ ids).
Proof.
  induction ids as [|i ids IH]; intros s down.
  { exists s. split; [done|]. split; [done|]. simpl. intros id.
    split; [intros ?; split; [done|apply not_elem_of_nil]|by intros []]. }
  cbn [remove_srvs]. erewrite bind_Ret by reflexivity.
  destruct ((i =? id_ s) && negb (catching_up_ s)) eqn:E.
  - apply andb_true_iff in E as [->%Z.eqb_eq Hc]. unfold down. rewrite Hc.
    rewrite bool_decide_eq_true_2 by (by left). eexists. split; [reflexivity|].
    split; [done|]. simpl. eexists. reflexivity.
  - destruct (total_final (remove_peer i) s (total_remove_peer i)) as [[] Hr].
    pose proof (place_remove_peer i s) as Hpl. pose proof (λ x, remove_peer_dom i x s) as Hdom.
    set (s1 := final (remove_peer i s)) in *. erewrite bind_Ret by exact Hr.
    destruct (IH s1) as (s' & Hrun & Hpl' & Hcase). unfold same_place in Hpl.
    injection Hpl as Hid Hcu Hcfg. rewrite Hid, Hcu in *.
    assert (down = bool_decide (id_ s ∈ ids) && negb (catching_up_ s)) as Hdown.
    { unfold down. destruct (catching_up_ s); [by rewrite !andb_false_r|].
      rewrite andb_true_r in E. apply Z.eqb_neq in E. do 2 f_equal.
      apply bool_decide_ext. set_solver. }
    rewrite Hdown. exists s'. split; [exact Hrun|]. split.
    { unfold same_place in *. rewrite Hpl'. congruence. }
    case_match; [done|]. intros id. rewrite Hcase, Hdom, not_elem_of_cons. tauto.
Qed.

Lemma reconfigure_runs c (s : server) :
  let down := bool_decide (get_server (id_ s) c = None) && negb (catching_up_ s) in
  ∃ s1 s', reconfigure c s = Ret () s' ∧
    s' = (if down then s1 else s1 <| config_ := c |>) ∧ same_place s s1 ∧
    (if down then ∃ tr, trace_ s1 = SystemExit 0 :: SaveConfig c :: tr
     else ∀ id, has_peer id s1 ↔
            (id ∈ (sc_id <$> srvs_added c s) ∨ has_peer id s) ∧ id ∉ srvs_removed c s).
Proof.
  intros down. unfold reconfigure. erewrite bind_Ret by reflexivity. cbv zeta.
  assert (total (for_each (add_peer (L:=L) (SM:=SM)) (srvs_added c s))) as Ht.
  { apply total_for_each. apply total_add_peer. }
  assert (keeps same_place (for_each add_peer (srvs_added c s))) as Hk.
  { apply keeps_for_each; [apply _|]. intros. apply place_add_peer. }
  destruct (total_final _ s Ht) as [[] Ha]. specialize (Hk s).
  pose proof (λ id, add_peers_dom (srvs_added c s) id s) as Hdom.
  set (s0 := final _) in *. erewrite bind_Ret by exact Ha.
  destruct (remove_srvs_runs c (srvs_removed c s) s0) as (s1 & Hr & Hpl & Hcase).
  unfold same_place in Hk. injection Hk as Hid Hcu Hcfg. rewrite Hid, Hcu in *.
  assert (bool_decide (id_ s ∈ srvs_removed c s) && negb (catching_up_ s) = down) as Hdown.
  { unfold down. f_equal. apply bool_decide_ext. unfold srvs_removed.
    rewrite list_elem_of_filter. set_solver. }
  rewrite Hdown in *. erewrite bind_Ret by exact Hr.
  exists s1. exists (if down then s1 else s1 <| config_ := c |>).
  split; [by destruct down|]. split; [done|]. split.
  { unfold same_place in *. rewrite Hpl. congruence. }
  destruct down; [done|]. intros id. rewrite Hcase, Hdom. done.
Qed.

Lemma reconfigure_members_runs (c : cluster_config) (s : server) :
  ∃ s', reconfigure c s = Ret () s' ∧
    (get_server (id_ s) c ≠ None ∨ catching_up_ s = true →
       config_ s' = c ∧
       ∀ id, id ≠ id_ s → has_peer id s' ↔ get_server id c ≠ None) ∧
    (get_server (id_ s) c = None ∧ catching_up_ s = false →
       config_ s' = config_ s ∧ ∃ tr, trace_ s' = SystemExit 0 :: SaveConfig c :: tr).
Proof.
  destruct (reconfigure_runs c s) as (s1 & s' & Hrun & -> & Hpl & Hcase).
  eexists. split; [exact Hrun|].
  set (down := bool_decide _ && _) in *.
  assert (down = true ↔ get_server (id_ s) c = None ∧ catching_up_ s = false) as Hd.
  { unfold down. rewrite andb_true_iff, bool_decide_eq_true, negb_true_iff. tauto. }
  destruct down; split; intros Hcond.
  - destruct Hd as [Hd _]. destruct Hd as [? Hc]; [done|]. rewrite Hc in Hcond.
    by destruct Hcond.
  - unfold same_place in Hpl. by injection Hpl.
  - split; [done|]. intros id Hne. change (has_peer id (s1 <| config_ := c |>)) with (has_peer id s1).
    rewrite Hcase. unfold srvs_removed, srvs_added, has_peer. rewrite list_elem_of_filter.
    rewrite elem_of_app, list_elem_of_singleton, peer_order_ok.
    assert (id ∈ (map_to_list (peers_ s)).*1 ↔ peers_ s !! id ≠ None) as ->.
    { rewrite list_elem_of_fmap. split.
      - intros ([i p] & -> & Hp%elem_of_map_to_list). simpl. congruence.
      - intros Hp. destruct (peers_ s !! id) as [p|] eqn:E; [|done].
        exists (id, p). split; [done|]. by apply elem_of_map_to_list. }
    rewrite list_elem_of_fmap. setoid_rewrite list_elem_of_filter.
    assert (get_server id c ≠ None ↔ ∃ sc, sc ∈ cc_servers c ∧ sc_id sc = id) as Hg.
    { rewrite get_server_None. split.
      - intros Hn. apply not_Forall_Exists in Hn; [|intros x; solve_decision].
        apply Exists_exists in Hn as (x & Hx & Hnn). exists x. split; [done|].
        unfold compose in Hnn. lia.
      - intros (x & Hx & He) Hall. rewrite Forall_forall in Hall. by apply (Hall x). }
    split.
    + intros [[(sc & -> & [_ Hsc])|Hp] Hnr] Hgn.
      * apply Hg in Hgn; [done|]. by exists sc.
      * apply Hnr. split; [done|by left].
    + intros Hgn. split; [|tauto].
      destruct (decide (peers_ s !! id = None)) as [Hnone|Hp]; [left|by right].
      apply Hg in Hgn as (sc & Hsc & <-). exists sc. done.
  - destruct Hd as [_ Hd]. by specialize (Hd Hcond).
Qed.

Definition place (s : server) := (role_ s, leader_ s).
Definition at_place (s s' : server) : Prop := place s' = place s.
#[local] Instance at_place_pre : PreOrder at_place.
Proof. split; [by intros s|]. intros a b c. unfold at_place. congruence. Qed.
#[local] Hint Extern 1 (keeps at_place (modify _)) =>
  apply keeps_modify; intros ?; reflexivity : keeps.
Lemma at_place_emit e : keeps at_place (emit e).
Proof. by intros s. Qed.
Lemma at_place_upd_peer p f : keeps at_place (upd_peer p f).
Proof. destruct p; by intros s. Qed.
#[local] Hint Resolve at_place_emit at_place_upd_peer : keeps.
Lemma at_place_remove_srvs c ids : keeps at_place (remove_srvs c ids).
Proof. induction ids; simpl; unfold remove_peer, disable_hb; solve_keeps. Qed.
#[local] Hint Resolve at_place_remove_srvs : keeps.
Lemma place_reconfigure c : keeps at_place (reconfigure c).
Proof. unfold reconfigure, add_peer. solve_keeps. Qed.

(** C22: Reconfiguration.  It always returns.  If the configuration has this server, or the
    server is still catching up, then the peers are exactly the other servers of the
    configuration and the configuration is the current one.  Otherwise the
    configuration is saved, the process is asked to exit, and the current
    configuration is kept. *)
Theorem reconfigure_members (c : cluster_config) (s : server) :
  ∃ s', reconfigure c s = Ret () s' ∧
    (get_server (id_ s) c ≠ None ∨ catching_up_ s = true →
       config_ s' = c ∧
       ∀ id, id ≠ id_ s → has_peer id s' ↔ get_server id c ≠ None) ∧
    (get_server (id_ s) c = None ∧ catching_up_ s = false →
       config_ s' = config_ s ∧ ∃ tr, trace_ s' = SystemExit 0 :: SaveConfig c :: tr).
Proof. apply reconfigure_members_runs. Qed.
End reconfigure.

(** ** Joining, snapshots, previous configurations *)
Section join.
Context {L SM : Type} `{!LogStore L} `{HL : !LogStoreLaws L} `{!StateMachine SM}
  `{HE : !RaftEnv}.
Abbreviation server := (server L SM).
Abbreviation glog s := (log_of (log_store_ s)).

Lemma reading_Ret {A} b (m : M buffer A) a b' (s : server) :
  m b = Ret a b' → reading b m s = Ret a s.
Proof.
  intros Hm. unfold reading, fmap, M_fmap. rewrite (bind_Ret _ _ s (a, b') s); [reflexivity|].
  unfold local. by rewrite Hm.
Qed.

(** C25: Joining a cluster.  A server that is not catching up and receives a readable
    configuration always accepts, whatever its own term, role and vote: it becomes a
    follower that catches up, with the sender's term and no vote, saves that state, and
    takes the configuration.  Its commit index is not reset, although the code asks
    for zero. *)
Theorem join_cluster_accepted (req : req_msg) e b c b' (s : server) :
  rq_log_entries req = [e] → le_val_type e = conf → le_buff e = Some b →
  ClusterConfig.deserialize b = Ret c b' → catching_up_ s = false →
  0 ≤ ss_commit_idx (state_ s) →
  ∃ resp s', handle_join_cluster_req req s = Ret resp s' ∧
    rs_accepted resp = true ∧ rs_term resp = ss_term (state_ s) ∧
    rs_next_idx resp = next_slot_ s ∧
    catching_up_ s' = true ∧ role_ s' = follower ∧ leader_ s' = rq_src req ∧
    state_ s' = mk_srv_state (rq_term req) (ss_commit_idx (state_ s)) (-1) ∧
    head (saves (trace_ s')) = Some (state_ s') ∧
    quick_commit_idx_ s' = 0 ∧ log_store_ s' = log_store_ s ∧ config_ s' = c ∧
    (∀ id, id ≠ id_ s → has_peer id s' ↔ get_server id c ≠ None).
Proof.
  intros Hes Ht Hb Hc Hcu Hci. unfold handle_join_cluster_req.
  erewrite bind_Ret by reflexivity. cbv zeta. rewrite Hes, Ht, Hcu.
  rewrite bool_decide_eq_false_2 by congruence.
  do 5 erewrite bind_Ret by reflexivity.
  erewrite bind_Ret by (by apply get_buf_Ret). erewrite bind_Ret by (by eapply reading_Ret).
  match goal with |- context [reconfigure c ≫= _] =>
    match goal with |- context [(reconfigure c ≫= ?k) ?s1] =>
      pose proof (calm_reconfigure c s1) as Hcalm; pose proof (place_reconfigure c s1) as Hpl;
      destruct (reconfigure_members_runs c s1) as (s' & Hrun & Hmem & _) end end.
  rewrite Hrun in Hcalm, Hpl. cbn [final] in *. erewrite bind_Ret by exact Hrun.
  destruct Hmem as [Hcfg Hmem]; [by right|].
  destruct Hcalm as [Hd Hsv]. unfold data in Hd. unfold at_place, place in Hpl. simpl in *.
  injection Hd as Hid _ _ _ Hcu' _ _ Hst Hlog _ Hq. injection Hpl as Hro Hld.
  erewrite bind_Ret by reflexivity. eexists _, _. split; [reflexivity|].
  split; [done|]. split; [done|]. split; [simpl; unfold next_slot_; by rewrite Hlog|].
  rewrite Hcu', Hro, Hld, Hst, Hq, Hlog, Hsv. do 3 (split; [done|]).
  split; [|done]. unfold SrvState.set_commit_idx, set_field; simpl. by rewrite ltb_false.
Qed.

(** C23: The last block of a snapshot.  On a follower whose state machine takes the data
    and applies the snapshot, and whose log store compacts: the handler returns true;
    the log is compacted behind the snapshot, the commit index is at least, and the quick
    commit index exactly, the snapshot's last index, and the state is saved. *)
Theorem snapshot_installed (req : snapshot_sync_req) l m1 m2 (s : server) :
  let snp := ssr_snapshot req in let idx := snp_last_log_idx snp in
  ssr_done req = true → role_ s = follower →
  sm_save_snapshot_data snp (ssr_offset req) (ssr_data req) (state_machine_ s) = Ret () m1 →
  sm_apply_snapshot snp m1 = Ret true m2 →
  compact idx (log_store_ s) = Ret true l →
  log_ok (log_store_ s) → al_start (glog s) ≤ idx < 2 ^ 63 - 1 →
  ∃ s', handle_snapshot_sync_req req s = Ret true s' ∧
    state_machine_ s' = m2 ∧ log_ok (log_store_ s') ∧ glog s' = al_compact idx (glog s) ∧
    state_ s' = SrvState.set_commit_idx idx (state_ s) ∧ idx ≤ ss_commit_idx (state_ s') ∧
    quick_commit_idx_ s' = idx ∧ head (saves (trace_ s')) = Some (state_ s').
Proof.
  intros snp idx Hdone Hro Hsave Happ Hcomp Hok Hidx.
  destruct (ls_compact _ idx Hok Hidx) as (bb & l' & Hcomp' & Hok' & Hg').
  rewrite Hcomp in Hcomp'. injection Hcomp' as <- <-.
  unfold handle_snapshot_sync_req. fold snp. rewrite Hdone.
  match goal with |- context [try_catch ?m _] =>
    assert (∃ s', m s = Ret true s' ∧
      state_machine_ s' = m2 ∧ log_store_ s' = l ∧
      state_ s' = SrvState.set_commit_idx idx (state_ s) ∧
      quick_commit_idx_ s' = idx ∧ head (saves (trace_ s')) = Some (state_ s'))
      as (s' & Hrun & Hm & Hl & Hst & Hq & Hsv) end.
  { erewrite bind_Ret by (apply sm_op_Ret; exact Hsave).
    erewrite bind_Ret by reflexivity. rewrite (bool_decide_eq_true_2 (role_ _ = follower)) by done.
    erewrite bind_Ret by reflexivity.
    erewrite bind_Ret by (apply log_op_Ret; exact Hcomp).
    set (s1 := (s <| state_machine_ := m1 |>) <| log_store_ := l |>). cbn match.
    destruct (total_final _ s1 total_stop_timer) as [[] Hstop].
    pose proof (calm_stop_timer s1) as Hc1. set (s2 := final (stop_election_timer s1)) in *.
    erewrite bind_Ret by exact Hstop.
    destruct Hc1 as [Hc1 _]. unfold data in Hc1. simpl in Hc1.
    injection Hc1 as _ _ _ _ _ _ _ Hst2 Hl2 Hm2 _.
    assert (state_machine_ s2 = m1) as Hm2' by exact Hm2.
    erewrite bind_Ret by (apply sm_op_Ret; rewrite Hm2'; exact Happ). cbn match.
    set (s3 := s2 <| state_machine_ := m2 |>).
    destruct (reconfigure_runs (snp_last_config snp) s3) as (_ & s4 & Hrec & _).
    pose proof (calm_reconfigure (snp_last_config snp) s3) as Hc3. rewrite Hrec in Hc3.
    destruct Hc3 as [Hc3 _]. unfold data in Hc3. simpl in Hc3.
    injection Hc3 as _ _ _ _ _ _ _ Hst4 Hl4 Hm4 _.
    erewrite bind_Ret by exact Hrec.
    do 5 erewrite bind_Ret by reflexivity.
    match goal with |- context [(restart_election_timer ≫= _) ?t] => set (s5 := t) end.
    assert (state_ s5 = SrvState.set_commit_idx idx (state_ s) ∧ log_store_ s5 = l ∧
            state_machine_ s5 = m2 ∧ quick_commit_idx_ s5 = idx ∧
            head (saves (trace_ s5)) = Some (state_ s5)) as (Hst5 & Hl5 & Hm5 & Hq5 & Hsv5).
    { unfold s5, set_field; simpl. rewrite Hst4, Hl4, Hm4. simpl. rewrite Hst2, Hl2. done. }
    clearbody s5. destruct (total_final _ s5 total_restart) as [[] Hre].
    pose proof (calm_restart s5) as [Hc5 Hsv6]. set (s6 := final (restart_election_timer s5)) in *.
    erewrite bind_Ret by exact Hre.
    unfold data in Hc5. injection Hc5 as _ _ _ _ _ _ _ Hst6 Hl6 Hm6 Hq6.
    exists s6. rewrite Hst6, Hl6, Hm6, Hq6, Hsv6. done. }
  unfold try_catch. rewrite Hrun. exists s'. split; [reflexivity|].
  rewrite Hl, Hst. do 4 (split; [done|]). split; [|split; [done|by rewrite Hsv, Hst]].
  unfold SrvState.set_commit_idx. destruct (Z.ltb_spec (ss_commit_idx (state_ s)) idx); simpl; lia.
Qed.

(** The configurations that are reachable in the log through their previous indexes:
    each is readable and points further back. *)
Inductive config_chain (g : alog) : cluster_config → Prop :=
| chain_end c : cc_prev_log_idx c < al_start g → config_chain g c
| chain_step c e b c1 b' :
    al_get (cc_prev_log_idx c) g = Some e → le_buff e = Some b →
    ClusterConfig.deserialize b = Ret c1 b' →
    0 ≤ cc_prev_log_idx c1 < cc_prev_log_idx c → config_chain g c1 → config_chain g c.

(** C24: The search for a committed configuration ends.  When previous indexes decrease, the
    loop returns within the fuel [snapshot_and_compact] gives it, with a configuration
    that is committed or whose predecessor is no longer in the log, and the log is only
    read. *)
Theorem config_before_terminates (committed_idx : Z) (s : server) :
  log_ok (log_store_ s) → config_chain (glog s) (config_ s) →
  0 ≤ cc_prev_log_idx (config_ s) < cc_log_idx (config_ s) →
  ∃ c l, config_before (S (Z.to_nat (cc_log_idx (config_ s)))) committed_idx (config_ s) s =
           Ret c (s <| log_store_ := l |>) ∧ log_of l = glog s ∧
    (cc_log_idx c ≤ committed_idx ∨ cc_prev_log_idx c < al_start (glog s)).
Proof.
  intros Hok Hchain Hc.
  assert (∀ c, config_chain (glog s) c → ∀ fuel (s0 : server),
    log_ok (log_store_ s0) → glog s0 = glog s →
    0 ≤ cc_prev_log_idx c → (Z.to_nat (cc_prev_log_idx c) < fuel)%nat →
    ∃ c' l, config_before fuel committed_idx c s0 = Ret c' (s0 <| log_store_ := l |>) ∧
      log_of l = glog s ∧
      (cc_log_idx c' ≤ committed_idx ∨ cc_prev_log_idx c' < al_start (glog s))) as Hgen.
  { assert (∀ c fuel (s0 : server), log_ok (log_store_ s0) → glog s0 = glog s →
      cc_log_idx c ≤ committed_idx ∨ cc_prev_log_idx c < al_start (glog s) →
      config_before fuel committed_idx c s0 = Ret c s0) as Hend.
    { intros c fuel s0 Hok0 Hg0 Hcase. destruct fuel; cbn [config_before];
        (erewrite bind_Ret by reflexivity); destruct (ls_start _ Hok0) as [Hst _];
        rewrite Hst, Hg0; (replace (_ && _) with false by lia); done. }
    assert (∀ (s0 : server), s0 = s0 <| log_store_ := log_store_ s0 |>) as Heta by by intros [].
    induction 1 as [c Hlt|c e b c1 b' He Hb Hd Hprev Hch IH]; intros fuel s0 Hok0 Hg0 Hp Hf.
    - exists c, (log_store_ s0). rewrite Hend, <- Heta by auto. auto.
    - destruct (decide (committed_idx < cc_log_idx c)) as [Hlt|Hle];
        [|exists c, (log_store_ s0); rewrite Hend, <- Heta by auto with lia; auto with lia].
      assert (al_get (cc_prev_log_idx c) (glog s) ≠ None) as Hpl%al_get_lt by congruence.
      destruct fuel as [|fuel]; [lia|]. cbn [config_before].
      erewrite bind_Ret by reflexivity. destruct (ls_start _ Hok0) as [Hst _].
      rewrite Hst, Hg0, ltb_true, leb_true by lia. cbn [andb].
      destruct (ls_entry_at (log_store_ s0) (cc_prev_log_idx c) Hok0) as (l & Hl & Hokl & Hgl);
        [rewrite Hg0; lia|].
      erewrite bind_Ret by (by apply log_op_Ret). rewrite Hg0, He.
      erewrite bind_Ret by reflexivity. erewrite bind_Ret by (by apply get_buf_Ret).
      erewrite bind_Ret by (by eapply reading_Ret).
      destruct (IH fuel (s0 <| log_store_ := l |>)) as (c2 & l2 & Hrun & Hg2 & Hcase);
        [done|by rewrite <- Hg0|lia|lia|].
      exists c2, l2. rewrite Hrun. done. }
  apply (Hgen _ Hchain); [done|done|lia|lia].
Qed.
End join.

(** ** Instances *)
Lemma reconfigure_members_witness :
  ∃ s', reconfigure (mk_cluster_config 5 0 [mk_srv_config 1 (host 1); mk_srv_config 4 (host 4)])
          (demo_server 1) = Ret () s' ∧ has_peer 4 s' ∧ ¬ has_peer 2 s'.
Proof.
  destruct (reconfigure_members
    (mk_cluster_config 5 0 [mk_srv_config 1 (host 1); mk_srv_config 4 (host 4)]) (demo_server 1))
    as (s' & Hrun & Hmem & _).
  exists s'. split; [exact Hrun|]. destruct Hmem as [_ Hmem]; [left; vm_compute; discriminate|].
  split; rewrite Hmem by (vm_compute; discriminate); [vm_compute; discriminate|].
  intros H. apply H. vm_compute. reflexivity.
Defined.

Definition demo_config_buf : buffer := mk_buffer (encode demo_cluster) 0.
Definition demo_join : req_msg :=
  mk_req 3 join_cluster_request 1 2 0 0 0 [mk_log_entry 3 conf (Some demo_config_buf)].
Lemma join_cluster_accepted_witness :
  ∃ resp s', handle_join_cluster_req demo_join (demo_server 2) = Ret resp s' ∧
    rs_accepted resp = true ∧ catching_up_ s' = true ∧ ss_term (state_ s') = 3.
Proof.
  destruct (join_cluster_accepted demo_join (mk_log_entry 3 conf (Some demo_config_buf))
    demo_config_buf demo_cluster (mk_buffer (encode demo_cluster) (length (encode demo_cluster)))
    (demo_server 2)) as (resp & s' & Hrun & Hacc & _ & _ & Hcu & _ & _ & Hst & _);
    [reflexivity|reflexivity|reflexivity|vm_compute; reflexivity|vm_compute; reflexivity|
     vm_compute; discriminate|].
  exists resp, s'. split; [exact Hrun|]. split; [exact Hacc|]. split; [exact Hcu|].
  rewrite Hst. reflexivity.
Defined.

Definition demo_snap : snapshot := mk_snapshot 4 1 2 demo_cluster.
Definition demo_last_block : snapshot_sync_req :=
  mk_snapshot_sync_req demo_snap 0 (mk_buffer [byte_of 1; byte_of 2] 0) true.
Lemma snapshot_installed_witness :
  ∃ s', handle_snapshot_sync_req demo_last_block (demo_server 2) = Ret true s' ∧
    log_of (log_store_ s') = al_compact 4 demo_log ∧ quick_commit_idx_ s' = 4.
Proof.
  destruct (snapshot_installed demo_last_block (al_compact 4 demo_log)
    (mk_recorder [Saved 0 [byte_of 1; byte_of 2]] None [])
    (mk_recorder [Applied demo_snap; Saved 0 [byte_of 1; byte_of 2]] None [])
    (demo_server 2)) as (s' & Hrun & _ & _ & Hg & _ & _ & Hq & _);
    [reflexivity|vm_compute; reflexivity|vm_compute; reflexivity|reflexivity|
     vm_compute; reflexivity|vm_compute; split; [discriminate|reflexivity]|
     vm_compute; split; [discriminate|reflexivity]|].
  exists s'. split; [exact Hrun|]. split; [|exact Hq]. rewrite Hg. vm_compute. reflexivity.
Defined.

(** A log with configurations at 1 and 2, and a third one, not committed, in force. *)
Definition chained_log : alog :=
  mk_alog 1 [mk_log_entry 1 conf (Some (mk_buffer (encode (mk_cluster_config 1 0 [])) 0));
             mk_log_entry 1 conf (Some (mk_buffer (encode (mk_cluster_config 2 1 [])) 0))].
Definition chained_server : server alog recorder :=
  (demo_blank 1) <| log_store_ := chained_log |> <| config_ := mk_cluster_config 3 2 [] |>.
Lemma config_before_terminates_witness :
  ∃ c l, config_before 4 1 (config_ chained_server) chained_server =
           Ret c (chained_server <| log_store_ := l |>) ∧ log_of l = chained_log.
Proof.
  destruct (config_before_terminates 1 chained_server) as (c & l & Hrun & Hl & _).
  - vm_compute. split; [discriminate|reflexivity].
  - eapply (chain_step _ _ _ _ (mk_cluster_config 2 1 []));
      [reflexivity|reflexivity|vm_compute; reflexivity|vm_compute; split; [discriminate|reflexivity]|].
    eapply (chain_step _ _ _ _ (mk_cluster_config 1 0 []));
      [reflexivity|reflexivity|vm_compute; reflexivity|vm_compute; split; [discriminate|reflexivity]|].
    apply chain_end. vm_compute. reflexivity.
  - vm_compute. split; [discriminate|reflexivity].
  - exists c, l. split; [exact Hrun|exact Hl].
Defined.
