(* ===== verification/CommitThread.v ===== *)
(** The committing thread: it applies every committed entry once, in order, takes
    snapshots on its way if they are enabled, and stops when it has caught up. *)
From S2P Require Import Prelude Buffer Codec LogStore Timer Peer RaftState Raft Member.
From S2P Require Import Server Frames Demo Replication Leader Membership.

Section thread.
Context {L SM : Type} `{!LogStore L} `{HL : !LogStoreLaws L} `{!StateMachine SM}
  `{HT : !StateMachineTotal SM} `{HE : !RaftEnv}.
Abbreviation server := (server L SM).
Abbreviation glog s := (log_of (log_store_ s)).

(** What the state machine is asked for the entries from an index on. *)
Definition apply_call (idx : Z) (e : log_entry) : M SM unit :=
  match le_val_type e with
  | app_log => b ← LogEntry.get_buf e; sm_commit idx b
  | _ => mret ()
  end.
Fixpoint apply_calls (idx : Z) (es : list log_entry) : M SM unit :=
  match es with
  | [] => mret ()
  | e :: es' => apply_call idx e;; apply_calls (idx + 1) es'
  end.
(** An entry the thread can apply: it has data, and a configuration can be read. *)
Definition applicable (e : log_entry) : Prop :=
  ∃ b, le_buff e = Some b ∧
    (le_val_type e = conf → ∃ c b', (Buf.set_pos 0;; ClusterConfig.deserialize) b = Ret c b').

(** What applying an entry does not touch. *)
Definition inert (s s' : server) : Prop :=
  (log_store_ s', state_machine_ s', state_ s', quick_commit_idx_ s', params_ s') =
  (log_store_ s, state_machine_ s, state_ s, quick_commit_idx_ s, params_ s).
#[local] Instance inert_pre : PreOrder inert.
Proof. split; [by intros s|]. intros a b c. unfold inert. congruence. Qed.
#[local] Hint Extern 1 (keeps inert (modify _)) => apply keeps_modify; intros ?; reflexivity : keeps.
Lemma inert_emit e : keeps inert (emit e).
Proof. by intros s. Qed.
Lemma inert_reading {A} b (m : M buffer A) : keeps inert (reading b m).
Proof. unfold reading, fmap, M_fmap. solve_keeps. Qed.
Lemma inert_reconfigure c : keeps inert (reconfigure c).
Proof.
  eapply keeps_weaken; [|apply calm_reconfigure]. intros s s' [Hd _].
  unfold data in Hd. unfold inert. congruence.
Qed.
#[local] Hint Resolve inert_emit inert_reading inert_reconfigure : keeps.
Lemma commit_config_config b c b' (s : server) :
  (Buf.set_pos 0;; ClusterConfig.deserialize) b = Ret c b' →
  ∃ s', commit_config b s = Ret () s' ∧ (config_ s' = config_ s ∨ config_ s' = c).
Proof.
  intros Hb. unfold commit_config. erewrite bind_Ret by (by eapply reading_Ret).
  erewrite bind_Ret by reflexivity. erewrite bind_Ret by reflexivity. erewrite bind_Ret by reflexivity.
  set (s1 := set_field config_changing_ _ _).
  assert (∃ s2, when (cc_log_idx (config_ s1) <? cc_log_idx c) (reconfigure c) s1 = Ret () s2 ∧
    (config_ s2 = config_ s ∨ config_ s2 = c)) as (s2 & Hr & Hc).
  { destruct (_ <? _); cbn [when]; [|exists s1; auto].
    destruct (reconfigure_members_runs c s1) as (s2 & Hr & Hin & Hout). exists s2. split; [done|].
    destruct (decide (get_server (id_ s1) c = None ∧ catching_up_ s1 = false)) as [Hd|Hd].
    - left. by apply Hout.
    - right. apply Hin. destruct (get_server (id_ s1) c); [by left|right]. by destruct (catching_up_ s1); auto. }
  erewrite bind_Ret by exact Hr. erewrite bind_Ret by reflexivity.
  destruct (_ && _); eexists; split; try reflexivity; exact Hc.
Qed.
Lemma commit_config_runs b c b' (s : server) :
  (Buf.set_pos 0;; ClusterConfig.deserialize) b = Ret c b' →
  ∃ s', commit_config b s = Ret () s' ∧ inert s s' ∧ (config_ s' = config_ s ∨ config_ s' = c).
Proof.
  intros Hb. destruct (commit_config_config b c b' s Hb) as (s' & Hr & Hc). exists s'. split; [done|]. split; [|done].
  assert (keeps inert (commit_config b)) as Hk by (unfold commit_config; solve_keeps).
  specialize (Hk s). by rewrite Hr in Hk.
Qed.

(** ** Snapshots *)
Definition snapshots_on (s : server) : Prop := 0 < snapshot_distance_ (params_ s).

(** From [c], through the previous indexes of configurations, the log leads to one that was
    in force at [i]. *)
Inductive config_found (g : alog) (i : Z) : cluster_config → Prop :=
| found_here c : cc_log_idx c ≤ i → config_found g i c
| found_back c e b c1 b' :
    i < cc_log_idx c → cc_prev_log_idx c1 < cc_prev_log_idx c < cc_log_idx c →
    al_get (cc_prev_log_idx c) g = Some e → le_buff e = Some b →
    ClusterConfig.deserialize b = Ret c1 b' → config_found g i c1 → config_found g i c.

Lemma config_before_found i c g : config_found g i c → ∀ fuel (s : server),
  log_ok (log_store_ s) → glog s = g →
  (i < cc_log_idx c → (Z.to_nat (cc_prev_log_idx c) < fuel)%nat) →
  ∃ c' l, config_before fuel i c s = Ret c' (s <| log_store_ := l |>) ∧ log_ok l ∧ log_of l = g ∧ cc_log_idx c' ≤ i.
Proof.
  induction 1 as [c Hle|c e b c1 b' Hlt Hprev He Hb Hd Hch IH]; intros fuel s Hok Hg Hf.
  - exists c, (log_store_ s). assert (s <| log_store_ := log_store_ s |> = s) as -> by by destruct s.
    split; [|done]. destruct fuel; cbn [config_before]; (erewrite bind_Ret by reflexivity);
      by rewrite (ltb_false i (cc_log_idx c)) by done.
  - specialize (Hf Hlt). destruct fuel as [|fuel]; [lia|]. cbn [config_before].
    erewrite bind_Ret by reflexivity. destruct (ls_start _ Hok) as [Hst H1].
    assert (al_start g ≤ cc_prev_log_idx c < al_next g) as Hpl by (apply al_get_lt; congruence).
    rewrite Hst, Hg in *. rewrite ltb_true, leb_true by lia. cbn [andb].
    destruct (ls_entry_at (log_store_ s) (cc_prev_log_idx c) Hok) as (l & Hl & Hokl & Hgl); [rewrite Hg; lia|].
    erewrite bind_Ret by (by apply log_op_Ret). rewrite Hg, He.
    erewrite bind_Ret by reflexivity. erewrite bind_Ret by (by apply get_buf_Ret).
    erewrite bind_Ret by (by eapply reading_Ret).
    destruct (IH fuel (s <| log_store_ := l |>)) as (c2 & l2 & Hrun & Hok2 & Hg2 & Hle);
      [done|simpl; congruence|lia|]. exists c2, l2. by rewrite Hrun.
Qed.

(** What the thread asks of the state machine after the entry at [idx]: nothing, or, with
    snapshots on, its last snapshot, and then perhaps a new one of the entries before. *)
Definition snapshot_calls (on : Prop) (g : alog) (idx : Z) (m m' : SM) : Prop :=
  m' = m ∨ on ∧ ∃ o m1, sm_last_snapshot m = Ret o m1 ∧
    (m' = m1 ∨ ∃ c, cc_log_idx c ≤ idx ∧
      sm_create_snapshot (mk_snapshot (idx - 1) (al_term (idx - 1) g) 0 c) m1 = Ret () m').
Definition snapshots_total : Prop :=
  total (sm_last_snapshot (SM:=SM)) ∧ ∀ sn, total (sm_create_snapshot (SM:=SM) sn).

(** The parts of the server that taking a snapshot leaves alone, the log apart. *)
Definition settled (s : server) := (state_ s, quick_commit_idx_ s, params_ s, config_ s).
Lemma snapshot_and_compact_runs i (s : server) :
  log_ok (log_store_ s) → al_start (glog s) ≤ i < al_next (glog s) →
  (snapshots_on s → snapshots_total ∧ config_found (glog s) i (config_ s)) →
  ∃ s', snapshot_and_compact i s = Ret () s' ∧ log_ok (log_store_ s') ∧ glog s' = glog s ∧
    settled s' = settled s ∧ snapshot_calls (snapshots_on s) (glog s) i (state_machine_ s) (state_machine_ s').
Proof.
  intros Hok Hi Hon. unfold snapshot_and_compact. erewrite bind_Ret by reflexivity. cbv zeta.
  destruct (ls_start _ Hok) as [Hst H1]. destruct (ls_next _ Hok) as [_ Hnx]. rewrite Hst.
  rewrite (u64_small (i - al_start (glog s))) by (unfold is_u64; lia).
  destruct (Z.ltb_spec 0 (snapshot_distance_ (params_ s))) as [Hd|]; [|exists s; split; [done|]; do 3 (split; [done|]); by left].
  destruct (Z.ltb_spec (snapshot_distance_ (params_ s)) (i - al_start (glog s))) as [Hfar|];
    [|exists s; split; [done|]; do 3 (split; [done|]); by left].
  destruct (snp_in_progress_ s); [exists s; split; [done|]; do 3 (split; [done|]); by left|]. cbn [andb negb].
  destruct (Hon Hd) as [[Hlast Hcreate] Hfound]. erewrite bind_Ret by reflexivity.
  set (s1 := set_field snp_in_progress_ _ s). destruct (Hlast (state_machine_ s)) as (o & m1 & Hm1).
  unfold try_catch. erewrite bind_Ret by (by apply sm_op_Ret).
  destruct (match o with Some sn => _ | None => false end).
  { eexists. split; [reflexivity|]. split; [done|]. split; [done|]. split; [done|].
    right. split; [done|]. exists o, m1. auto. }
  set (s2 := set_field state_machine_ _ s1).
  destruct (config_before_found i (config_ s) (glog s) Hfound (S (Z.to_nat (cc_log_idx (config_ s)))) s2)
    as (c & l & Hc & Hokl & Hgl & Hle); [done|done| |].
  { inversion Hfound; lia. }
  erewrite bind_Ret by exact Hc. erewrite bind_Ret by reflexivity.
  rewrite (ltb_false i (cc_log_idx c)) by done. cbn [andb]. erewrite bind_Ret by reflexivity.
  rewrite (u64_small (i - 1)) by (unfold is_u64; lia).
  destruct (ls_term_at l (i - 1) Hokl) as (l2 & Hl2 & Hok2 & Hg2); [rewrite Hgl; lia|].
  erewrite bind_Ret by (by apply log_op_Ret). rewrite Hgl.
  destruct (Hcreate (mk_snapshot (i - 1) (al_term (i - 1) (glog s)) 0 c) m1) as ([] & m2 & Hm2).
  erewrite sm_op_Ret by exact Hm2. eexists. split; [reflexivity|]. split; [done|].
  split; [unfold set_field; simpl; congruence|]. split; [done|].
  right. split; [done|]. exists o, m1. split; [done|]. right. by exists c.
Qed.

(** ** Applying one entry *)

(** A configuration entry is not ahead of its index. *)
Definition config_at (idx : Z) (e : log_entry) : Prop := ∀ b c b', le_val_type e = conf →
  le_buff e = Some b → (Buf.set_pos 0;; ClusterConfig.deserialize) b = Ret c b' → cc_log_idx c ≤ idx.
(** The entry handed to the state machine, or to [commit_config]. *)
Lemma deliver_runs idx e (s : server) : applicable e → config_at idx e →
  ∃ s', (match le_val_type e with
      | app_log => b ← LogEntry.get_buf e; sm_op (sm_commit idx b)
      | conf => b ← LogEntry.get_buf e; commit_config b
      | _ => mret () end : M server unit) s = Ret () s' ∧
    log_store_ s' = log_store_ s ∧ state_ s' = state_ s ∧
    quick_commit_idx_ s' = quick_commit_idx_ s ∧ params_ s' = params_ s ∧
    Ret () (state_machine_ s') = apply_call idx e (state_machine_ s) ∧
    (config_ s' = config_ s ∨ cc_log_idx (config_ s') ≤ idx).
Proof.
  intros (b & Hb & Hconf) Hat. unfold apply_call. destruct (le_val_type e) eqn:Et; try (exists s; tauto).
  - destruct (sm_commit_total idx b (state_machine_ s)) as ([] & m & Hm).
    exists (s <| state_machine_ := m |>). erewrite !bind_Ret by (by apply get_buf_Ret).
    split; [by apply sm_op_Ret|]. rewrite Hm. do 5 (split; [done|]). by left.
  - destruct (Hconf eq_refl) as (c & b' & Hc).
    destruct (commit_config_runs b c b' s Hc) as (s' & Hr & Hi & Hcfg).
    exists s'. erewrite bind_Ret by (by apply get_buf_Ret).
    unfold inert in Hi. injection Hi as -> -> -> -> ->. do 6 (split; [done|]).
    destruct Hcfg as [->| ->]; [by left|right]. by eapply Hat.
Qed.
Definition entry_ready (idx : Z) (e : log_entry) (s : server) : Prop :=
  al_get idx (glog s) = Some e ∧ applicable e ∧ config_at idx e.
Lemma apply_entry_runs idx e (s : server) :
  log_ok (log_store_ s) → entry_ready idx e s →
  (snapshots_on s → snapshots_total ∧ config_found (glog s) idx (config_ s)) →
  ∃ s' m, apply_entry idx s = Ret () s' ∧ log_ok (log_store_ s') ∧ glog s' = glog s ∧
    Ret () m = apply_call idx e (state_machine_ s) ∧
    snapshot_calls (snapshots_on s) (glog s) idx m (state_machine_ s') ∧
    state_ s' = SrvState.set_commit_idx idx (state_ s) ∧
    quick_commit_idx_ s' = quick_commit_idx_ s ∧ params_ s' = params_ s ∧
    (config_ s' = config_ s ∨ cc_log_idx (config_ s') ≤ idx).
Proof.
  intros Hok (He & Happ & Hat) Hon. unfold apply_entry.
  assert (al_start (glog s) ≤ idx < al_next (glog s)) as Hi by (apply al_get_lt; congruence).
  destruct (ls_entry_at _ idx Hok (proj1 Hi)) as (l & Hl & Hok' & Hg).
  erewrite bind_Ret by (by apply log_op_Ret). rewrite He. erewrite bind_Ret by reflexivity.
  destruct (deliver_runs idx e (s <| log_store_ := l |>) Happ Hat) as (s2 & Hr & Hl2 & Hst2 & Hq2 & Hp2 & Hsm2 & Hc2).
  erewrite bind_Ret by exact Hr. erewrite bind_Ret by reflexivity. set (s3 := set_field state_ _ s2).
  assert (glog s3 = glog s) as Hg3 by (unfold s3, set_field; simpl; by rewrite Hl2).
  assert (snapshots_on s3 ↔ snapshots_on s) as Hs3 by (unfold snapshots_on, s3, set_field; simpl; by rewrite Hp2).
  destruct (snapshot_and_compact_runs idx s3) as (s' & Hsc & Hoks & Hgs & Hset & Hcalls).
  { unfold s3, set_field; simpl. by rewrite Hl2. } { by rewrite Hg3. }
  { intros H3. apply Hs3 in H3. destruct (Hon H3) as [Ht Hf]. split; [done|]. rewrite Hg3.
    change (config_ s3) with (config_ s2). destruct Hc2 as [->|Hle]; [done|by constructor]. }
  unfold settled in Hset. injection Hset as Hst Hq Hp Hc.
  exists s', (state_machine_ s2). rewrite Hsc. split; [done|]. split; [done|]. split; [congruence|]. split; [done|].
  split; [|rewrite Hst, Hq, Hp, Hc; unfold s3, set_field; simpl; by rewrite Hst2, Hq2, Hp2].
  rewrite Hg3 in Hcalls. destruct Hcalls as [?|[H3 ?]]; [by left|right]. by apply Hs3 in H3.
Qed.

Lemma bg_step_Ret pc (s : server) pc' s' : bg_body pc s = Ret pc' s' → bg_step pc s = Ret pc' s'.
Proof. unfold bg_step, try_catch. by intros ->. Qed.
Lemma bg_run_step fuel pc (s : server) pc' s' :
  (∀ c, pc ≠ BgWait c) → pc ≠ BgDone → bg_body pc s = Ret pc' s' →
  bg_run (S fuel) pc s = bg_run fuel pc' s'.
Proof.
  intros Hw Hd Hb. destruct pc; try done; try (by destruct (Hw cur)); cbn [bg_run];
    by erewrite bind_Ret by (by apply bg_step_Ret).
Qed.
Lemma last_slot_eq (s : server) : log_ok (log_store_ s) → last_slot_ s = al_next (glog s) - 1.
Proof.
  intros Hok. unfold last_slot_. rewrite next_slot_eq by done.
  destruct (ls_next _ Hok), (ls_start _ Hok). apply u64_small. unfold is_u64, al_next in *. lia.
Qed.
(** The index the thread can reach. *)
Definition reachable_idx (s : server) : Z := Z.min (quick_commit_idx_ s) (al_next (glog s) - 1).

Lemma bg_body_apply cur (s : server) : log_ok (log_store_ s) →
  bg_body (BgApply cur) s =
  (if cur <? reachable_idx s then apply_entry (u64 (cur + 1));; mret (BgApply (u64 (cur + 1)))
   else save_state;; mret BgStart) s.
Proof.
  intros Hok. unfold bg_body. erewrite bind_Ret by reflexivity. rewrite last_slot_eq by done.
  replace (cur <? reachable_idx s)
    with ((cur <? quick_commit_idx_ s) && (cur <? al_next (glog s) - 1))
    by (unfold reachable_idx; lia).
  done.
Qed.
Lemma bg_body_check cur (s : server) : log_ok (log_store_ s) →
  bg_body (BgCheck cur) s = Ret (if reachable_idx s <=? cur then BgWait cur else BgApply cur) s.
Proof.
  intros Hok. unfold bg_body. erewrite bind_Ret by reflexivity. rewrite last_slot_eq by done.
  replace (reachable_idx s <=? cur)
    with ((quick_commit_idx_ s <=? cur) || (al_next (glog s) - 1 <=? cur))
    by (unfold reachable_idx; lia).
  by case_match.
Qed.

(** What the state machine is asked for the entries from an index on, snapshots included. *)
Inductive applied (on : Prop) (g : alog) : Z → list log_entry → SM → SM → Prop :=
| applied_nil idx m : applied on g idx [] m m
| applied_cons idx e es m m1 m2 m3 :
    Ret () m1 = apply_call idx e m → snapshot_calls on g idx m1 m2 →
    applied on g (idx + 1) es m2 m3 → applied on g idx (e :: es) m m3.
Lemma applied_off (on : Prop) g idx es m m' : ¬ on → applied on g idx es m m' →
  Ret () m' = apply_calls idx es m.
Proof.
  intros Hoff. induction 1 as [|idx e es m m1 m2 m3 H1 [->|[? _]] _ IH]; [done| |done].
  cbn [apply_calls]. by erewrite bind_Ret by (symmetry; exact H1).
Qed.

(** The entries from [idx] on can be applied, and configurations found for snapshots. *)
Definition ready (idx : Z) (es : list log_entry) (s : server) : Prop :=
  (∀ j e, es !! j = Some e → entry_ready (idx + Z.of_nat j) e s) ∧
  (snapshots_on s → snapshots_total ∧
     ∀ i, idx ≤ i < idx + Z.of_nat (length es) → config_found (glog s) i (config_ s)).
Lemma ready_next idx e es (s s' : server) : ready idx (e :: es) s → glog s' = glog s → params_ s' = params_ s →
  config_ s' = config_ s ∨ cc_log_idx (config_ s') ≤ idx → ready (idx + 1) es s'.
Proof.
  intros [He Hon] Hg Hp Hc. split.
  - intros j e' Hj. replace (idx + 1 + Z.of_nat j) with (idx + Z.of_nat (S j)) by lia.
    unfold entry_ready. rewrite Hg. by apply He.
  - unfold snapshots_on. rewrite Hp, Hg. intros H. destruct (Hon H) as [Ht Hf]. split; [done|].
    intros i Hi. destruct Hc as [->|Hle]; [apply Hf; cbn [length]; lia|]. constructor. lia.
Qed.

Lemma bg_apply_runs es : ∀ cur (s : server) fuel,
  log_ok (log_store_ s) → ready (cur + 1) es s → 0 ≤ cur →
  ss_commit_idx (state_ s) = cur → cur + Z.of_nat (length es) = reachable_idx s →
  ∃ s', bg_run (S (length es) + fuel) (BgApply cur) s = bg_run fuel BgStart s' ∧
    log_ok (log_store_ s') ∧ glog s' = glog s ∧
    applied (snapshots_on s) (glog s) (cur + 1) es (state_machine_ s) (state_machine_ s') ∧
    state_ s' = (state_ s) <| ss_commit_idx := reachable_idx s |> ∧
    quick_commit_idx_ s' = quick_commit_idx_ s.
Proof.
  induction es as [|e es IH]; intros cur s fuel Hok Hrd H0 Hc Hn.
  - simpl in Hn. rewrite Z.add_0_r in Hn.
    exists (s <| trace_ ::= cons (SaveState (state_ s)) |>).
    split.
    + erewrite (bg_run_step _ _ s); [reflexivity|done|done|].
      rewrite bg_body_apply, ltb_false by (done || lia). reflexivity.
    + unfold set_field; simpl. rewrite <- Hn, <- Hc.
      do 2 (split; [done|]). split; [constructor|]. split; [|done]. by destruct (state_ s).
  - pose proof (proj1 Hrd 0%nat e eq_refl) as He. rewrite Z.add_0_r in He.
    simpl length in Hn. pose proof (ls_next _ Hok) as [_ H2].
    assert (u64 (cur + 1) = cur + 1) as Hu.
    { apply u64_small. unfold is_u64, reachable_idx in *. lia. }
    destruct (apply_entry_runs (cur + 1) e s) as (s1 & m & Hr & Hok1 & Hg1 & Hm & Hsm1 & Hst1 & Hq1 & Hp1 & Hc1);
      [done|done| |].
    { intros Hon. destruct (proj2 Hrd Hon) as [Ht Hf]. split; [done|]. apply Hf. cbn [length]. lia. }
    assert (state_ s1 = (state_ s) <| ss_commit_idx := cur + 1 |>) as Hst1'.
    { rewrite Hst1. unfold SrvState.set_commit_idx. by rewrite ltb_true by lia. }
    destruct (IH (cur + 1) s1 fuel) as (s' & Hrun & Hok' & Hg' & Hsm' & Hst' & Hq').
    { done. } { by eapply ready_next. } { lia. }
    { by rewrite Hst1'. } { unfold reachable_idx in *. rewrite Hg1, Hq1. lia. }
    assert (reachable_idx s1 = reachable_idx s) as Hre by (unfold reachable_idx; by rewrite Hg1, Hq1).
    exists s'. split; [|rewrite Hg', Hq', Hg1, Hq1; do 2 (split; [done|]); split; [|split; [|done]]].
    + change (S (length (e :: es)) + fuel)%nat with (S (S (length es) + fuel)).
      erewrite (bg_run_step _ _ s); [exact Hrun|done|done|].
      rewrite bg_body_apply, ltb_true, Hu by (done || lia). by erewrite bind_Ret by exact Hr.
    + eapply applied_cons; [exact Hm|exact Hsm1|]. rewrite <- Hg1.
      unfold snapshots_on in *. by rewrite Hp1 in Hsm'.
    + rewrite Hst', Hre, Hst1'. done.
Qed.

(** C8: The committing thread catches up.  From any state in which the entries up to the
    reachable index (the quick commit index, or the end of the log) can be applied and, if
    snapshots are enabled, the state machine answers and the log leads back to a
    configuration in force at each index, enough fuel (the number of entries plus five) lets
    the thread return to its wait: it never stops the process.  Each entry between the
    commit index and the reachable one is given to the state machine once and in order, if
    it is application data, with only calls for snapshots in between, and none of those
    when snapshots are disabled.  The thread leaves the log as it is (it is compacted by
    [on_snapshot_completed], another event), and the commit index is the reachable one,
    with the same term and vote. *)
Theorem commit_thread_catches_up (fuel : nat) (s : server) :
  let c := ss_commit_idx (state_ s) in
  let es := al_slice (c + 1) (reachable_idx s + 1) (glog s) in
  log_ok (log_store_ s) → al_start (glog s) ≤ c + 1 ≤ al_next (glog s) →
  Forall applicable es →
  (∀ j e, es !! j = Some e → config_at (c + 1 + Z.of_nat j) e) →
  (snapshots_on s → snapshots_total ∧
     ∀ i, c < i ≤ reachable_idx s → config_found (glog s) i (config_ s)) →
  (length es + 5 ≤ fuel)%nat →
  ∃ s', bg_run fuel BgStart s = Ret (BgWait (Z.max c (reachable_idx s))) s' ∧
    glog s' = glog s ∧
    applied (snapshots_on s) (glog s) (c + 1) es (state_machine_ s) (state_machine_ s') ∧
    (¬ snapshots_on s → Ret () (state_machine_ s') = apply_calls (c + 1) es (state_machine_ s)) ∧
    state_ s' = (state_ s) <| ss_commit_idx := Z.max c (reachable_idx s) |>.
Proof.
  intros c es Hok Hi Hes Hat Hon Hf. pose proof (ls_start _ Hok) as [_ H1].
  assert (∃ s', bg_run fuel BgStart s = Ret (BgWait (Z.max c (reachable_idx s))) s' ∧
    glog s' = glog s ∧ applied (snapshots_on s) (glog s) (c + 1) es (state_machine_ s) (state_machine_ s') ∧
    state_ s' = (state_ s) <| ss_commit_idx := Z.max c (reachable_idx s) |>)
    as (s' & Hrun & Hg & Happ & Hst).
  2: { exists s'. do 3 (split; [done|]). split; [|done]. intros Hoff. by eapply applied_off. }
  destruct fuel as [|[|fuel]]; [lia|lia|].
  erewrite bg_run_step by (done || reflexivity).
  destruct (Z.le_gt_cases (reachable_idx s) c) as [Hle|Hgt].
  - rewrite Z.max_l by lia.
    erewrite bg_run_step by (done || (rewrite bg_body_check, leb_true by done; reflexivity)).
    assert (es = []) as -> by (unfold es, al_slice; by replace (Z.to_nat _) with 0%nat by lia).
    exists s. split; [by destruct fuel|]. split; [done|]. split; [constructor|]. unfold c. by destruct s, (state_).
  - rewrite Z.max_r by lia.
    erewrite bg_run_step by (done || (rewrite bg_body_check, leb_false by done; reflexivity)).
    assert (Z.of_nat (length es) = reachable_idx s - c) as Hlen.
    { unfold es. rewrite length_al_slice; unfold reachable_idx in *; lia. }
    replace fuel with (S (length es) + S (S (fuel - length es - 3)))%nat by lia.
    destruct (bg_apply_runs es c s (S (S (fuel - length es - 3))))
      as (s' & Hrun & Hok' & Hg' & Hsm' & Hst' & Hq'); [done| |lia|done|lia|].
    { split; [|intros H; destruct (Hon H) as [Ht Hfd]; split; [done|]; intros i Hi'; apply Hfd; lia].
      intros j e Hj. split; [|split; [by eapply Forall_lookup_1|by apply Hat]].
      rewrite <- Hj. symmetry. apply lookup_lt_Some in Hj.
      apply al_slice_lookup; unfold reachable_idx in *; lia. }
    fold c. rewrite Hrun. exists s'.
    assert (ss_commit_idx (state_ s') = reachable_idx s) as Hc' by by rewrite Hst'.
    erewrite bg_run_step by (done || reflexivity).
    assert (reachable_idx s' = reachable_idx s) as Hre by (unfold reachable_idx; by rewrite Hg', Hq').
    erewrite bg_run_step by (done || (rewrite bg_body_check, Hc', Hre, Z.leb_refl by done; reflexivity)).
    split; [by destruct (fuel - length es - 3)%nat|]. done.
Qed.
End thread.

(** Server 2 with four entries in its log, three of them committed; snapshots are taken
    when two entries can go.  The configuration in force is that of the fourth entry,
    whose previous index leads back to the first one. *)
Definition config_entry (c : cluster_config) : log_entry :=
  mk_log_entry 1 conf (Some (mk_buffer (encode c) 0)).
Definition demo_committed : server alog recorder :=
  (demo_blank 2) <| log_store_ := mk_alog 1 [config_entry (mk_cluster_config 1 0 []); data_entry 1 5; data_entry 1 6;
                                             config_entry (mk_cluster_config 4 1 [])] |>
    <| config_ := mk_cluster_config 4 1 [] |> <| quick_commit_idx_ := 3 |>
    <| params_ ::= with_snapshot_enabled 1 |>.
Lemma recorder_snapshots_total : snapshots_total (SM:=recorder).
Proof. split; [intros m|intros sn m]; eexists _, _; reflexivity. Qed.
Lemma demo_committed_found i : 1 ≤ i → config_found (log_store_ demo_committed) i (config_ demo_committed).
Proof.
  intros Hi. destruct (Z.le_gt_cases 4 i) as [|Hlt]; [by apply found_here|].
  eapply (found_back _ _ _ _ _ (mk_cluster_config 1 0 [])); [exact Hlt|vm_compute; auto|reflexivity|reflexivity| |].
  - vm_compute. reflexivity.
  - by apply found_here.
Qed.
Lemma commit_thread_catches_up_witness :
  ∃ s', bg_run 8 BgStart demo_committed = Ret (BgWait 3) s' ∧ snapshots_on demo_committed ∧
    ss_commit_idx (state_ s') = 3 ∧
    rec_calls (state_machine_ (final (bg_run 8 BgStart demo_committed))) =
      [Created (mk_snapshot 2 1 0 (mk_cluster_config 1 0 [])); Committed 3 [byte_of 6]; Committed 2 [byte_of 5]].
Proof.
  destruct (commit_thread_catches_up 8 demo_committed) as (s' & Hrun & _ & _ & _ & Hst).
  - vm_compute. split; [discriminate|reflexivity].
  - vm_compute. split; discriminate.
  - assert (al_slice 1 4 (log_store_ demo_committed) =
      [config_entry (mk_cluster_config 1 0 []); data_entry 1 5; data_entry 1 6]) as Hes by (vm_compute; reflexivity).
    change (Forall applicable (al_slice 1 4 (log_store_ demo_committed))). rewrite Hes.
    repeat constructor; (eexists; split; [reflexivity|]); try discriminate.
    intros _. eexists _, _. vm_compute. reflexivity.
  - assert (al_slice 1 4 (log_store_ demo_committed) =
      [config_entry (mk_cluster_config 1 0 []); data_entry 1 5; data_entry 1 6]) as Hes by (vm_compute; reflexivity).
    change (∀ j e, al_slice 1 4 (log_store_ demo_committed) !! j = Some e → config_at (1 + Z.of_nat j) e). rewrite Hes.
    intros [|[|[|j]]] e [= <-] b c b' Ht [= <-] Hd; try discriminate. vm_compute in Hd. by injection Hd as <- _.
  - intros _. split; [exact recorder_snapshots_total|]. intros i Hi. apply demo_committed_found.
    assert (ss_commit_idx (state_ demo_committed) = 0) as H0 by reflexivity. rewrite H0 in Hi. lia.
  - vm_compute. lia.
  - exists s'. split; [exact Hrun|]. split; [reflexivity|]. split; [rewrite Hst; vm_compute; reflexivity|].
    vm_compute. reflexivity.
Defined.
