(* ===== verification/Deviations.v ===== *)
(** Where the server departs from Raft, as statements about all its states: the terms of
    client entries, the responses that count as votes, configuration changes in flight,
    and the heart-beats of a first leadership.  [Scenarios.v] and [Elections.v] have runs
    in which these end in two leaders, or in two values at one index. *)
From S2P Require Import Prelude Buffer Codec LogStore Timer Peer RaftState Raft Member.
From S2P Require Import Server Frames Demo Elections Replication Membership.

(** ** Votes *)
Section votes.
Context {L SM : Type} `{!LogStore L} `{!StateMachine SM} `{HE : !RaftEnv}.
Abbreviation server := (server L SM).

(** A response to a vote request: the peer whose rpc it completes, the request, and the
    response. *)
Definition vote_event (v : Z * req_msg * resp_msg) : event :=
  EvRpcResult (Member v.1.1) v.1.2 resp_handler_ (Some v.2).
(** It grants a vote, and its term is not above ours. *)
Definition grants (s : server) (v : Z * req_msg * resp_msg) : Prop :=
  is_Some (peers_ s !! v.1.1) ∧ rs_type v.2 = request_vote_response ∧
  rs_accepted v.2 = true ∧ rs_term v.2 ≤ ss_term (state_ s).

(** The server after a response that leaves the election open. *)
Definition one_more (v : Z * req_msg * resp_msg) (s : server) : server :=
  s <| peers_ ::= alter (Peer.rpc_returned (rq_type v.1.2) true) v.1.1 |>
    <| votes_responded_ ::= Z.add 1 |> <| votes_granted_ ::= Z.add 1 |>.

Lemma vote_result_eq v (s : server) : grants s v →
  handle (vote_event v) s =
  handle_voting_resp v.2
    (s <| peers_ ::= alter (Peer.rpc_returned (rq_type v.1.2) true) v.1.1 |>).
Proof.
  intros ([pr Hp] & Ht & _ & Hle). unfold handle, vote_event, handle_rpc_result.
  erewrite bind_Ret by (by apply the_peer_Ret). erewrite bind_Ret by reflexivity.
  unfold handle_peer_resp, update_term. rewrite bind_assoc. erewrite bind_Ret by reflexivity.
  cbn beta. rewrite ltb_false by done. erewrite bind_Ret by reflexivity.
  by rewrite Ht, bool_decide_eq_true_2.
Qed.
Lemma size_alter (f : peer → peer) i (m : gmap Z peer) : size (alter f i m) = size m.
Proof. by rewrite <- !size_dom, dom_alter_L. Qed.

Lemma vote_leaves_open v (s : server) :
  let n := Z.of_nat (size (peers_ s)) + 1 in
  grants s v → election_completed_ s = false → n < 2 ^ 31 →
  votes_responded_ s + 1 < n → 2 * (votes_granted_ s + 1) ≤ n →
  handle (vote_event v) s = Ret () (one_more v s).
Proof.
  intros n Hv Hc Hn Hr Hg. rewrite vote_result_eq by done. destruct Hv as (_ & _ & Ha & _).
  unfold handle_voting_resp. do 2 erewrite bind_Ret by reflexivity.
  set (s0 := s <| peers_ ::= _ |>).
  change (election_completed_ (s0 <| votes_responded_ ::= _ |>)) with (election_completed_ s).
  rewrite Hc, Ha. erewrite bind_Ret by reflexivity. erewrite bind_Ret by reflexivity. cbv zeta.
  change (s0 <| votes_responded_ ::= _ |> <| votes_granted_ ::= _ |>) with (one_more v s).
  assert (Z.of_nat (size (peers_ (one_more v s))) + 1 = n) as ->.
  { unfold one_more, set_field; simpl. by rewrite size_alter. }
  change (votes_responded_ (one_more v s)) with (1 + votes_responded_ s).
  change (votes_granted_ (one_more v s)) with (1 + votes_granted_ s).
  assert (0 < n) by lia.
  pose proof (Z.div_mod n 2 ltac:(lia)). pose proof (Z.mod_pos_bound n 2 ltac:(lia)).
  rewrite !i32_small by (unfold is_i32; lia).
  by rewrite leb_false, ltb_false by lia.
Qed.

Lemma run_one ev (s : server) : final (run [ev] s) = final (handle ev s).
Proof.
  cbn [run]. unfold mbind, M_bind, try_catch. destruct (handle ev s) as [[] ?|[] ?]; reflexivity.
Qed.
Lemma run_Ret ev evs (s s' : server) :
  handle ev s = Ret () s' → run (ev :: evs) s = run evs s'.
Proof. intros H. cbn [run]. unfold mbind, M_bind, try_catch. by rewrite H. Qed.

(** C27: Which responses elect.  A server that is not the leader, in an open election, gets
    [k] responses that grant a vote; all but the last leave the election undecided, and
    the responses it has counted do not exceed the number of servers.  Only their count
    matters: it is then the leader exactly if its votes are more than half of the servers.
    Their terms are any up to its own, so votes of an earlier election count; they may all
    be of one peer, so a vote counts each time it arrives. *)
Theorem any_granted_votes_elect (votes : list (Z * req_msg * resp_msg)) (s : server) :
  let n := Z.of_nat (size (peers_ s)) + 1 in
  let k := Z.of_nat (length votes) in
  role_ s ≠ leader → election_completed_ s = false → n < 2 ^ 30 →
  votes ≠ [] → Forall (grants s) votes →
  votes_responded_ s + k ≤ n → 2 * (votes_granted_ s + k - 1) ≤ n →
  role_ (final (run (vote_event <$> votes) s)) = leader ↔ n < 2 * (votes_granted_ s + k).
Proof.
  revert s. induction votes as [|v votes IH]; intros s n k Hrole Hc Hn Hne Hvs Hr Hg; [done|].
  apply Forall_cons in Hvs as [Hv Hvs]. destruct votes as [|v' votes].
  - change (vote_event <$> [v]) with [vote_event v]. rewrite run_one, vote_result_eq, elected_runs; [|done|simpl; rewrite size_alter; lia|done].
    destruct Hv as (_ & _ & -> & _). simpl. rewrite size_alter. unfold k, n. simpl length. tauto.
  - subst k. simpl length in *. rewrite fmap_cons.
    rewrite (run_Ret _ _ s (one_more v s)) by (apply vote_leaves_open; [done..|lia|lia|lia]).
    rewrite IH; unfold one_more, set_field; simpl; rewrite ?size_alter; fold n; try done; try lia.
    eapply Forall_impl; [exact Hvs|]. intros w (Hp & ? & ? & ?). repeat split; try done.
    simpl. by apply lookup_alter_is_Some.
Qed.
End votes.

(** Server 1 is a candidate of term 2; the vote it got for term 1 makes it the leader. *)
Definition demo_stale : server alog recorder :=
  final (run [EvElectionTimeout; EvElectionTimeout] (demo_server 1)).
Lemma any_granted_votes_elect_witness :
  ss_term (state_ demo_stale) = 2 ∧
  role_ (final (run (vote_event <$> [(2, vote_req 1 2 1 0 0, vote_resp 2 1 1 true)]) demo_stale)) = leader.
Proof.
  split; [vm_compute; reflexivity|].
  apply (any_granted_votes_elect [(2, vote_req 1 2 1 0 0, vote_resp 2 1 1 true)] demo_stale).
  - vm_compute. discriminate.
  - vm_compute. reflexivity.
  - vm_compute. reflexivity.
  - discriminate.
  - constructor; [|constructor]. split; [vm_compute; eexists; reflexivity|].
    split; [reflexivity|]. split; [reflexivity|]. vm_compute. discriminate.
  - vm_compute. discriminate.
  - vm_compute. discriminate.
  - vm_compute. reflexivity.
Defined.

(** ** Client entries *)
Section client.
Context {L SM : Type} `{!LogStore L} `{HL : !LogStoreLaws L} `{!StateMachine SM}
  `{HT : !StateMachineTotal SM} `{HE : !RaftEnv}.
Abbreviation server := (server L SM).
Abbreviation glog s := (log_of (log_store_ s)).

(** The log with entries added at the end. *)
Definition al_extend (es : list log_entry) (g : alog) : alog := g <| al_entries ::= λ l, l ++ es |>.
(** The calls of the state machine: every entry is pre-committed at its index. *)
Fixpoint pre_commit_all (idx : Z) (es : list log_entry) : M SM unit :=
  match es with
  | [] => mret ()
  | e :: es' => b ← LogEntry.get_buf e; sm_pre_commit idx b;; pre_commit_all (idx + 1) es'
  end.

Lemma client_loop_runs es : ∀ s : server,
  log_ok (log_store_ s) → Forall storable es →
  al_next (glog s) + Z.of_nat (length es) < 2 ^ 63 →
  ∃ l m, for_each (λ e,
      log_op (append e);;
      b ← LogEntry.get_buf e;
      s ← get; sm_op (sm_pre_commit (last_slot_ s) b)) es s =
    Ret () (s <| log_store_ := l |> <| state_machine_ := m |>) ∧
    log_ok l ∧ log_of l = al_extend es (glog s) ∧
    pre_commit_all (al_next (glog s)) es (state_machine_ s) = Ret () m.
Proof.
  induction es as [|e es IH]; intros s Hok Hes Hb.
  { exists (log_store_ s), (state_machine_ s). split; [by destruct s|]. split; [done|].
    split; [|done]. unfold al_extend, set_field; simpl. rewrite app_nil_r. by destruct (glog s). }
  apply Forall_cons in Hes as [He Hes]. simpl length in Hb.
  cbn [for_each pre_commit_all].
  destruct (ls_append _ e Hok He) as (l & Ha & Hok' & Hl); [lia|].
  destruct He as (b & Hbuf & _). rewrite bind_assoc.
  erewrite bind_Ret by (by apply log_op_Ret). cbn beta. rewrite bind_assoc.
  erewrite bind_Ret by (by apply get_buf_Ret). cbn beta. rewrite bind_assoc.
  erewrite bind_Ret by reflexivity. cbn beta.
  set (s1 := s <| log_store_ := l |>).
  pose proof (ls_start _ Hok) as [_ H1].
  assert (last_slot_ s1 = al_next (glog s)) as ->.
  { unfold last_slot_. rewrite (next_slot_eq s1) by done. unfold s1; simpl.
    rewrite Hl, al_next_append, Z.add_simpl_r. apply u64_small. unfold is_u64, al_next in *. lia. }
  destruct (sm_pre_commit_total (al_next (glog s)) b (state_machine_ s)) as ([] & m & Hm).
  erewrite bind_Ret by (by apply (sm_op_Ret _ s1)).
  destruct (IH (s1 <| state_machine_ := m |>)) as (l' & m' & Hrun & Hok2 & Hl2 & Hsm2);
    [done|done|unfold s1; simpl; rewrite Hl, al_next_append; lia|].
  exists l', m'. split; [exact Hrun|]. split; [done|].
  unfold s1 in *. simpl in *. rewrite Hl in *. rewrite al_next_append in *. split.
  - rewrite Hl2. unfold al_extend, al_append, set_field; simpl. by rewrite <- app_assoc.
  - erewrite bind_Ret by (by apply get_buf_Ret). by erewrite bind_Ret by exact Hm.
Qed.

(** The leader's answer to a client. *)
Definition client_resp (s : server) : resp_msg :=
  new_resp (ss_term (state_ s)) append_entries_response (id_ s) (leader_ s).
(** What follows when the entries are in the log. *)
Definition replicate_and_accept (r : resp_msg) : M server resp_msg :=
  request_append_entries;; s ← get; mret (accept (next_slot_ s) r).

Lemma cli_req_runs req (s : server) :
  role_ s = leader → log_ok (log_store_ s) → Forall storable (rq_log_entries req) →
  al_next (glog s) + Z.of_nat (length (rq_log_entries req)) < 2 ^ 63 →
  ∃ l m, handle_cli_req req s =
      replicate_and_accept (client_resp s) (s <| log_store_ := l |> <| state_machine_ := m |>) ∧
    log_ok l ∧ log_of l = al_extend (rq_log_entries req) (glog s) ∧
    pre_commit_all (al_next (glog s)) (rq_log_entries req) (state_machine_ s) = Ret () m.
Proof.
  intros Hr Hok Hes Hb. destruct (client_loop_runs _ s Hok Hes Hb) as (l & m & Hrun & Hrest).
  exists l, m. split; [|done]. unfold handle_cli_req. erewrite bind_Ret by reflexivity. cbv zeta.
  rewrite bool_decide_eq_false_2 by (intros Hx; by apply Hx).
  erewrite bind_Ret by exact Hrun. reflexivity.
Qed.

Definition client_entry (b : buffer) : log_entry := mk_log_entry 0 app_log (Some b).
Definition small_buffer (b : buffer) : Prop := Z.of_nat (length (bdata b)) < 0x80000000 - 9.

Lemma last_snoc_Some {A} (l : list A) : l ≠ [] → ∃ x, last l = Some x ∧ x ∈ l.
Proof.
  induction l as [|x l _] using rev_ind; [done|]. intros _. exists x. rewrite last_snoc.
  split; [done|]. apply elem_of_app. right. by apply list_elem_of_singleton.
Qed.
Lemma last_client_entry (logs : list buffer) g : logs ≠ [] →
  le_term (al_last (al_extend (client_entry <$> logs) g)) = 0.
Proof.
  intros Hne. unfold al_last, al_extend, set_field; simpl. rewrite last_app.
  destruct (last_snoc_Some (client_entry <$> logs)) as (e & -> & He).
  { intros Hx. by apply fmap_nil_inv in Hx. }
  apply list_elem_of_fmap in He as (b & -> & _). reflexivity.
Qed.
Lemma al_get_client (logs : list buffer) g k b : logs !! k = Some b →
  al_get (al_next g + Z.of_nat k) (al_extend (client_entry <$> logs) g) = Some (client_entry b).
Proof.
  intros Hk. unfold al_extend. rewrite al_get_extend, ltb_false by lia.
  replace (Z.to_nat _) with k by lia. by rewrite list_lookup_fmap, Hk.
Qed.

(** C26: Client entries have no term.  On the leader, with buffers that fit in entries and
    room in the log, [append_entries] adds the client's entries at the end of the log and
    pre-commits each at its index; the answer is that of replicating them.  Every one of them is stored with term zero, whatever the
    leader's term.  So the comparison of logs by which votes are granted takes any
    candidate whose last entry has a positive term to be ahead of this log, however short
    the candidate's log is. *)
Theorem client_entries_have_term_zero (logs : list buffer) (s : server) :
  let g := glog s in
  logs ≠ [] → role_ s = leader → leader_ s = id_ s → id_ s ≠ -1 →
  log_ok (log_store_ s) → Forall small_buffer logs →
  al_next g + Z.of_nat (length logs) < 2 ^ 63 →
  ∃ l m, let s1 := s <| log_store_ := l |> <| state_machine_ := m |> in
    append_entries logs s =
      (resp ← replicate_and_accept (client_resp s); mret (Ready (rs_accepted resp))) s1 ∧
    log_ok l ∧ log_of l = al_extend (client_entry <$> logs) g ∧
    pre_commit_all (al_next g) (client_entry <$> logs) (state_machine_ s) = Ret () m ∧
    (∀ k b, logs !! k = Some b →
       ∃ e, al_get (al_next g + Z.of_nat k) (log_of l) = Some e ∧
            le_term e = 0 ∧ le_val_type e = app_log ∧ le_buff e = Some b) ∧
    (∀ req, 0 < rq_last_log_term req → up_to_date req (log_of l)).
Proof.
  intros g Hne Hr Hld Hid Hok Hsm Hb.
  set (req := client_msg client_request (client_entry <$> logs)).
  destruct (cli_req_runs req s Hr Hok) as (l & m & Hrun & Hokl & Hg & Hm).
  { apply Forall_fmap. eapply Forall_impl; [exact Hsm|]. intros b Hlen. by exists b. }
  { simpl. by rewrite length_fmap. }
  exists l, m. cbv zeta. split; [|do 3 (split; [done|]); split].
  - destruct logs as [|b0 logs0]; [done|]. unfold append_entries, send_msg_to_leader.
    erewrite bind_Ret by reflexivity. cbv zeta.
    rewrite (proj2 (Z.eqb_neq (leader_ s) (-1))) by congruence. rewrite Hld, Z.eqb_refl.
    unfold mbind at 2, M_bind at 2.
    rewrite <- Hrun. reflexivity.
  - intros k b Hk. exists (client_entry b). rewrite Hg. split; [by apply al_get_client|done].
  - intros r Hpos. left. rewrite Hg. simpl. rewrite last_client_entry; done.
Qed.
End client.

(** A client's entry on the leader of term 1: a candidate with one entry, of term 1, is then
    ahead of the leader's log of two entries. *)
Lemma client_entries_have_term_zero_witness :
  let b := mk_buffer [byte_of 7] 0 in
  ∃ l, log_store_ (final (append_entries [b] demo_leader)) = l ∧
    al_next (log_store_ demo_leader) = 2 ∧ ∃ e, al_get 2 l = Some e ∧ le_term e = 0 ∧
    up_to_date (vote_req 3 1 2 1 1) l.
Proof.
  destruct (client_entries_have_term_zero [mk_buffer [byte_of 7] 0] demo_leader) as
    (l & m & Hrun & _ & Hg & _ & Hent & Hup).
  { discriminate. } { vm_compute. reflexivity. } { vm_compute. reflexivity. }
  { vm_compute. discriminate. } { vm_compute. split; [discriminate|reflexivity]. }
  { constructor; [vm_compute; reflexivity|constructor]. } { vm_compute. reflexivity. }
  exists l. destruct (Hent 0%nat _ eq_refl) as (e & He & Ht & _).
  split; [|split; [vm_compute; reflexivity|]].
  - change (log_of l) with l in Hg. rewrite Hg. vm_compute. reflexivity.
  - exists e. split; [exact He|]. split; [exact Ht|]. apply Hup. reflexivity.
Defined.

(** ** Configuration changes in flight *)
Section changes.
Context {L SM : Type} `{!LogStore L} `{HL : !LogStoreLaws L} `{!StateMachine SM} `{HE : !RaftEnv}.
Abbreviation server := (server L SM).
Abbreviation glog s := (log_of (log_store_ s)).

(** The current configuration with other servers, as the leader appends it. *)
Definition changed_config (srvs : list srv_config) (s : server) : cluster_config :=
  mk_cluster_config (al_next (glog s)) (cc_log_idx (config_ s)) srvs.
Definition config_entry (c : cluster_config) (s : server) : log_entry :=
  mk_log_entry (ss_term (state_ s)) conf (Some (cursor [] (encode c))).
(** The configuration can be written. *)
Definition config_fits (c : cluster_config) : Prop :=
  cluster_config_ok c ∧ Z.of_nat (length (encode c)) < 0x80000000 - 9.

Lemma append_config_runs c (s : server) :
  log_ok (log_store_ s) → config_fits c → al_next (glog s) + 1 < 2 ^ 63 →
  ∃ l, append_config c s =
      Ret () (s <| log_store_ := l |> <| config_changing_ := true |>) ∧
    log_ok l ∧ log_of l = al_append (config_entry c s) (glog s).
Proof.
  intros Hok [Hc Hlen] Hb.
  destruct (ls_append _ (config_entry c s) Hok) as (l & Ha & Hok' & Hg); [by eexists|done|].
  exists l. split; [|done]. unfold append_config. erewrite bind_Ret by reflexivity.
  erewrite bind_Ret by (apply cluster_ser; [done|lia]).
  by erewrite bind_Ret by (by apply log_op_Ret).
Qed.

(** Nothing but a result, and the server as it was. *)
Definition only_reads {A} (P : A → Prop) (m : M server A) : Prop :=
  ∀ s a s', m s = Ret a s' → P a ∧ s' = s.
Lemma get_buf_reads e : only_reads (λ _, True) (LogEntry.get_buf e).
Proof. intros s a s'. unfold LogEntry.get_buf, deref. destruct (le_buff e); by intros [= <- <-]. Qed.
Lemma reading_reads {A} b (m : M buffer A) : only_reads (λ _, True) (reading b m).
Proof.
  intros s a s' (p & s1 & Hp & [= <- <-])%bind_Ret_inv. unfold local in Hp.
  by destruct (m b); [injection Hp as <- <-|].
Qed.
Lemma add_srv_refused req (s : server) resp s' : config_changing_ s = true →
  handle_add_srv_req req s = Ret resp s' → rs_accepted resp = false ∧ s' = s.
Proof.
  intros Hcc Hrun. unfold handle_add_srv_req in Hrun.
  apply bind_Ret_inv in Hrun as (s0 & s1 & [= <- <-] & Hrun). cbv zeta in Hrun.
  destruct (rq_log_entries req) as [|e [|]]; [by injection Hrun as <- <-| |by injection Hrun as <- <-].
  do 2 (case_bool_decide; [by injection Hrun as <- <-|]).
  apply bind_Ret_inv in Hrun as (b & s1 & [_ ->]%get_buf_reads & Hrun).
  apply bind_Ret_inv in Hrun as (sc & s2 & [_ ->]%reading_reads & Hrun).
  rewrite Hcc in Hrun. case_match; by injection Hrun as <- <-.
Qed.
Lemma rm_srv_refused req (s : server) resp s' : config_changing_ s = true →
  handle_rm_srv_req req s = Ret resp s' → rs_accepted resp = false ∧ s' = s.
Proof.
  intros Hcc Hrun. unfold handle_rm_srv_req in Hrun.
  apply bind_Ret_inv in Hrun as (s0 & s1 & [= <- <-] & Hrun). cbv zeta in Hrun.
  destruct (rq_log_entries req) as [|e [|]]; [by injection Hrun as <- <-| |by injection Hrun as <- <-].
  apply bind_Ret_inv in Hrun as (b & s1 & [_ ->]%get_buf_reads & Hrun).
  rewrite Hcc in Hrun. repeat case_match; by injection Hrun as <- <-.
Qed.

(** C28: Configuration changes are not serialised.  While [config_changing_] is set a leader
    refuses new requests to add or remove a server.  But the changes it accepted before are
    completed whatever [config_changing_] says: the accepted response of a server that
    leaves, and the end of the log transfer to a server that joins, append a configuration
    that is the current one without, or with, that server (if it can be serialized and the
    log has room).  The current configuration
    stays as it is, so a second change is computed from the same one, without the first,
    and with the same previous index. *)
Theorem accepted_changes_complete (s : server) :
  log_ok (log_store_ s) → al_next (glog s) + 1 < 2 ^ 63 →
  let appended (c : cluster_config) (l : L) :=
    log_ok l ∧ log_of l = al_append (config_entry c s) (glog s) in
  let after (l : L) := s <| log_store_ := l |> <| config_changing_ := true |> in
  let unchanged (s' : server) := config_ s' = config_ s ∧ config_changing_ s' = true in
  (∀ resp, rs_type resp = leave_cluster_response → rs_accepted resp = true →
     let c := changed_config (filter (λ sc, sc_id sc ≠ rs_src resp) (cc_servers (config_ s))) s in
     config_fits c →
     ∃ l, appended c l ∧ handle_ext_resp (inl resp) s = request_append_entries (after l) ∧
       unchanged (final (handle_ext_resp (inl resp) s))) ∧
  (∀ start_idx j sc, srv_to_join_ s = Some j → conf_to_add_ s = Some sc →
     i32 (quick_commit_idx_ s - start_idx) < log_sync_stop_gap_ (params_ s) →
     let c := changed_config (cc_servers (config_ s) ++ [sc]) s in
     config_fits c →
     ∃ l, appended c l ∧ sync_log_to_new_srv start_idx s = request_append_entries (after l) ∧
       unchanged (final (sync_log_to_new_srv start_idx s))) ∧
  (∀ req resp s', config_changing_ s = true →
     handle_add_srv_req req s = Ret resp s' ∨ handle_rm_srv_req req s = Ret resp s' →
     rs_accepted resp = false ∧ s' = s).
Proof.
  intros Hok Hb appended after unchanged.
  assert (∀ l, unchanged (final (request_append_entries (after l)))) as Hun.
  { intros l. pose proof (advances_request_append (after l)) as [Hctl _].
    unfold control in Hctl. injection Hctl as _ _ _ _ _ _ Hch _ _ _ _ _ _ Hcf _ _. by split. }
  split; [|split].
  - intros resp Ht Ha c Hc. destruct (append_config_runs c s Hok Hc Hb) as (l & Hrun & Hl).
    exists l. split; [exact Hl|].
    assert (handle_ext_resp (inl resp) s = request_append_entries (after l)) as ->; [|by split].
    unfold handle_ext_resp, handle_ext_resp_ok. erewrite bind_Ret by reflexivity. rewrite Ht, Ha. unfold rm_srv_from_cluster, when.
    erewrite bind_Ret by reflexivity. rewrite next_slot_eq by done.
    by erewrite bind_Ret by exact Hrun.
  - intros i j sc Hj Hsc Hgap c Hc. destruct (append_config_runs c s Hok Hc Hb) as (l & Hrun & Hl).
    exists l. split; [exact Hl|].
    assert (sync_log_to_new_srv i s = request_append_entries (after l)) as ->; [|by split].
    unfold sync_log_to_new_srv. erewrite bind_Ret by reflexivity.
    cbv zeta. rewrite ltb_true by done. erewrite bind_Ret by (by apply the_peer_Ret).
    rewrite Hsc. erewrite bind_Ret by reflexivity. rewrite next_slot_eq by done.
    by erewrite bind_Ret by exact Hrun.
  - intros req resp s' Hcc Hrun. destruct Hrun as [Hrun|Hrun]; [by eapply add_srv_refused|by eapply rm_srv_refused].
Qed.
End changes.

(** The leader with an uncommitted configuration: server 3 has agreed to leave, and the log
    transfer to server 4 is over; each appends its configuration at index 2. *)
Definition demo_changing : server alog recorder :=
  demo_leader <| srv_to_join_ := Some (new_peer (mk_srv_config 4 (host 4)) demo_leader) |>
    <| conf_to_add_ := Some (mk_srv_config 4 (host 4)) |>.
Definition demo_left : resp_msg := mk_resp 1 leave_cluster_response 3 1 1 true.
Lemma accepted_changes_complete_witness :
  config_changing_ demo_changing = true ∧
  (∃ l s', handle_ext_resp (inl demo_left) demo_changing = request_append_entries s' ∧
     log_store_ s' = l ∧ al_next l = 3) ∧
  ∃ l s', sync_log_to_new_srv 1 demo_changing = request_append_entries s' ∧
     log_store_ s' = l ∧ al_next l = 3.
Proof.
  split; [vm_compute; reflexivity|].
  destruct (accepted_changes_complete demo_changing) as (Hleave & Hjoin & _).
  { vm_compute. split; [discriminate|reflexivity]. } { vm_compute. reflexivity. }
  split.
  - destruct (Hleave demo_left eq_refl eq_refl) as (l & [_ Hg] & Hrun & _).
    { split; [apply (bool_decide_unpack _); vm_compute; exact I|vm_compute; reflexivity]. }
    eexists _, _. split; [exact Hrun|]. split; [reflexivity|].
    change (al_next (log_of l) = 3). rewrite Hg. vm_compute. reflexivity.
  - destruct (Hjoin 1 _ _ eq_refl eq_refl) as (l & [_ Hg] & Hrun & _); [vm_compute; reflexivity| |].
    { split; [apply (bool_decide_unpack _); vm_compute; exact I|vm_compute; reflexivity]. }
    eexists _, _. split; [exact Hrun|]. split; [reflexivity|].
    change (al_next (log_of l) = 3). rewrite Hg. vm_compute. reflexivity.
Defined.

(** ** Heart-beats *)
Section heartbeats.
Context {L SM : Type} `{!LogStore L} `{!StateMachine SM} `{HE : !RaftEnv}.
Abbreviation server := (server L SM).

(** What matters to the heart-beat timers: the flag and the task of each peer. *)
Definition hb_view (s : server) : gmap Z (bool * delayed_task) :=
  (λ p, (pr_hb_enabled p, pr_hb_task p)) <$> peers_ s.
Definition hb_kept (s s' : server) : Prop := hb_view s' = hb_view s.
#[local] Instance hb_kept_pre : PreOrder hb_kept.
Proof. split; [by intros s|]. intros a b c. unfold hb_kept. congruence. Qed.

Lemma hb_kept_alter (f : peer → peer) id (s : server) :
  (∀ p, peers_ s !! id = Some p → pr_hb_enabled (f p) = pr_hb_enabled p ∧ pr_hb_task (f p) = pr_hb_task p) →
  hb_kept s (s <| peers_ ::= alter f id |>).
Proof.
  intros Hf. unfold hb_kept, hb_view, set_field; simpl. apply map_eq. intros i.
  rewrite !lookup_fmap. destruct (decide (i = id)) as [->|Hne].
  - rewrite lookup_alter_eq. destruct (peers_ s !! id) as [p|] eqn:E; [|done]. simpl.
    destruct (Hf p eq_refl) as [-> ->]. done.
  - by rewrite lookup_alter_ne.
Qed.
#[local] Hint Extern 1 (keeps hb_kept (modify _)) =>
  apply keeps_modify; intros ?; reflexivity : keeps.
Lemma hb_kept_upd p (f : peer → peer) :
  (∀ q, pr_hb_enabled (f q) = pr_hb_enabled q ∧ pr_hb_task (f q) = pr_hb_task q) →
  keeps hb_kept (upd_peer p f).
Proof.
  intros Hf. destruct p as [id|]; apply keeps_modify; intros s; [|reflexivity].
  by apply hb_kept_alter.
Qed.
#[local] Hint Extern 1 (keeps hb_kept (upd_peer _ _)) =>
  apply hb_kept_upd; intros ?; split; reflexivity : keeps.
Lemma hb_kept_emit e : keeps hb_kept (emit e).
Proof. by intros s. Qed.
Lemma hb_kept_log_op {A} (m : M L A) : keeps hb_kept (log_op m).
Proof. apply keeps_zoom. intros; reflexivity. Qed.
Lemma hb_kept_sm_op {A} (m : M SM A) : keeps hb_kept (sm_op m).
Proof. apply keeps_zoom. intros; reflexivity. Qed.
Lemma hb_kept_the_peer p : keeps hb_kept (the_peer p).
Proof. unfold the_peer. solve_keeps. Qed.
#[local] Hint Resolve hb_kept_emit hb_kept_log_op hb_kept_sm_op hb_kept_the_peer : keeps.
Lemma hb_kept_die {A} c : keeps hb_kept (die (A:=A) c).
Proof. unfold die. solve_keeps. Qed.
Lemma hb_kept_build n m : keeps hb_kept (build n m).
Proof. unfold build, Buf.alloc. solve_keeps. Qed.
#[local] Hint Resolve hb_kept_die hb_kept_build : keeps.
Lemma hb_kept_serialize_all cs : keeps hb_kept (ClusterConfig.serialize_all cs).
Proof. induction cs; simpl; unfold SrvConfig.serialize; solve_keeps. Qed.
#[local] Hint Resolve hb_kept_serialize_all : keeps.
Lemma hb_kept_serialize c : keeps hb_kept (ClusterConfig.serialize c).
Proof. unfold ClusterConfig.serialize. solve_keeps. Qed.
#[local] Hint Resolve hb_kept_serialize : keeps.
Lemma hb_kept_create_req p : keeps hb_kept (create_append_entries_req p).
Proof.
  unfold create_append_entries_req, create_sync_snapshot_req, term_for_log,
    SnapshotSyncReq.serialize, Snapshot.serialize, Buf.alloc. solve_keeps.
Qed.
#[local] Hint Resolve hb_kept_create_req : keeps.
Lemma hb_kept_request_to p : keeps hb_kept (request_append_entries_to p).
Proof.
  intros s. unfold request_append_entries_to. destruct (find_peer p s) as [pr|] eqn:E.
  - erewrite bind_Ret by (by apply the_peer_Ret). unfold Peer.make_busy.
    destruct (pr_busy_flag pr); [reflexivity|].
    assert (∃ s1, upd_peer p (λ _, pr <| pr_busy_flag := true |>) s = Ret () s1 ∧ hb_kept s s1)
      as (s1 & Hs1 & Hk1).
    { destruct p as [id|]; eexists; (split; [reflexivity|]); [|reflexivity].
      apply hb_kept_alter. intros q Hq. simpl in E. by simplify_eq. }
    erewrite bind_Ret by exact Hs1. etrans; [exact Hk1|].
    match goal with |- hb_kept s1 (final (?m s1)) => assert (keeps hb_kept m) as Hk; [|apply Hk] end.
    unfold send_req. solve_keeps.
  - erewrite bind_Stop; [reflexivity|]. unfold the_peer. erewrite bind_Ret by reflexivity.
    by rewrite E.
Qed.
#[local] Hint Resolve hb_kept_request_to : keeps.
Lemma hb_kept_request_all : keeps hb_kept request_append_entries.
Proof. unfold request_append_entries, commit, for_peers. solve_keeps. Qed.
#[local] Hint Resolve hb_kept_request_all : keeps.

(** *** Becoming a follower cancels the tasks *)
Lemma disable_all_view ids id p : ∀ s : server, peers_ s !! id = Some p →
  ∃ s' p', for_each disable_hb ids s = Ret () s' ∧ peers_ s' !! id = Some p' ∧
    impl_ctx_ (pr_hb_task p') = impl_ctx_ (pr_hb_task p) ∧
    cancelled_ (pr_hb_task p') = cancelled_ (pr_hb_task p) || bool_decide (id ∈ ids).
Proof.
  revert p. induction ids as [|i ids IH]; intros p s Hp.
  { exists s, p. split; [done|]. split; [done|]. split; [done|].
    rewrite bool_decide_eq_false_2 by apply not_elem_of_nil. by rewrite orb_false_r. }
  cbn [for_each].
  set (s1 := s <| peers_ ::= alter (Peer.enable_hb false) i |>
               <| trace_ ::= cons (CancelTimer (HbTimer (Member i))) |>).
  erewrite (bind_Ret _ _ s () s1) by reflexivity.
  assert (peers_ s1 !! id = if decide (i = id) then Some (Peer.enable_hb false p) else Some p) as Hp1.
  { change (peers_ s1) with (alter (Peer.enable_hb false) i (peers_ s)).
    destruct (decide (i = id)).
    - subst. by rewrite lookup_alter_eq, Hp.
    - by rewrite lookup_alter_ne. }
  destruct (decide (i = id)) as [Hi|Hi]; destruct (IH _ s1 Hp1) as (s' & p' & Hrun & Hp' & Himp & Hcan);
    exists s', p'; (split; [exact Hrun|]); (split; [done|]); (split; [done|]); rewrite Hcan.
  - simpl. symmetry. rewrite bool_decide_eq_true_2 by (subst; by left). by rewrite orb_true_r.
  - f_equal. apply bool_decide_ext. set_solver.
Qed.

(** *** Becoming the leader schedules them *)

(** The peer after the loop of [become_leader]. *)
Definition led (next : Z) (p : peer) : peer :=
  let p := Peer.set_free (Peer.set_snapshot_in_sync None (Peer.set_next_log_idx next p)) in
  Peer.resume_hb_speed (Peer.enable_hb true p) <| pr_hb_task ::= Scheduler.schedule |>.
Definition lead_peer (id : Z) : M server unit :=
  next ← gets next_slot_;
  upd_peer (Member id) (λ p,
    Peer.set_free (Peer.set_snapshot_in_sync None (Peer.set_next_log_idx next p)));;
  enable_hb_for_peer (Member id).
Lemma lead_peer_runs id p (s : server) : peers_ s !! id = Some p →
  ∃ s', lead_peer id s = Ret () s' ∧ log_store_ s' = log_store_ s ∧
    (∀ i, peers_ s' !! i = if decide (i = id) then Some (led (next_slot_ s) p) else peers_ s !! i) ∧
    trace_ s' = StartTimer (HbTimer (Member id)) (pr_hb_interval p) :: trace_ s.
Proof.
  intros Hp. unfold lead_peer, enable_hb_for_peer. do 3 erewrite bind_Ret by reflexivity.
  erewrite bind_Ret.
  2: { apply the_peer_Ret. simpl. unfold set_field; simpl. by rewrite !lookup_alter_eq, Hp. }
  erewrite bind_Ret by reflexivity. eexists. split; [reflexivity|].
  unfold set_field; simpl. split; [done|]. split; [|done].
  intros i. destruct (decide (i = id)) as [Hi|Hi]; [subst; by rewrite !lookup_alter_eq, Hp|].
  by rewrite !lookup_alter_ne.
Qed.
Lemma lead_all_runs ids : ∀ s : server,
  NoDup ids → (∀ id, id ∈ ids → is_Some (peers_ s !! id)) →
  ∃ s', for_each lead_peer ids s = Ret () s' ∧
    (∀ id p, peers_ s !! id = Some p →
       if decide (id ∈ ids)
       then peers_ s' !! id = Some (led (next_slot_ s) p) ∧
            StartTimer (HbTimer (Member id)) (pr_hb_interval p) ∈ trace_ s'
       else peers_ s' !! id = Some p) ∧
    (∀ e, e ∈ trace_ s → e ∈ trace_ s').
Proof.
  induction ids as [|i ids IH]; intros s Hnd Hin.
  { exists s. split; [done|]. split; [|done]. intros id p Hp.
    by rewrite decide_False by apply not_elem_of_nil. }
  apply NoDup_cons in Hnd as [Hi Hnd].
  destruct (Hin i) as [q Hq]; [by left|].
  destruct (lead_peer_runs i q s Hq) as (s1 & Hs1 & Hl1 & Hp1 & Ht1).
  destruct (IH s1 Hnd) as (s' & Hrun & Hall & Htr).
  { intros id Hid. rewrite Hp1. case_decide; [by eexists|]. apply Hin. by right. }
  assert (next_slot_ s1 = next_slot_ s) as Hn by (unfold next_slot_; by rewrite Hl1).
  rewrite Hn in Hall. exists s'. cbn [for_each]. erewrite bind_Ret by exact Hs1.
  split; [exact Hrun|]. split.
  - intros id p Hp. destruct (decide (id = i)) as [->|Hne].
    + simplify_eq. rewrite decide_True by by left.
      specialize (Hall i (led (next_slot_ s) q)). rewrite Hp1, decide_True in Hall by done.
      specialize (Hall eq_refl). rewrite decide_False in Hall by done. split; [done|].
      apply Htr. rewrite Ht1. by left.
    + specialize (Hall id p). rewrite Hp1, decide_False in Hall by done. specialize (Hall Hp).
      destruct (decide (id ∈ ids)); [rewrite decide_True by by right|rewrite decide_False by set_solver]; done.
  - intros e He. apply Htr. rewrite Ht1. by right.
Qed.
Lemma restart_peers (s : server) : peers_ (final (restart_election_timer s)) = peers_ s.
Proof.
  unfold restart_election_timer. erewrite bind_Ret by reflexivity.
  destruct (catching_up_ s); [done|]. erewrite bind_Ret by reflexivity.
  destruct (election_task_ s); do 2 erewrite bind_Ret by reflexivity;
    by destruct (rand_timeout _ _).
Qed.
Lemma peer_order_nodup (m : gmap Z peer) : NoDup (peer_order m).
Proof. rewrite peer_order_ok. apply NoDup_fst_map_to_list. Qed.
Lemma elem_of_peer_order id (m : gmap Z peer) : id ∈ peer_order m ↔ is_Some (m !! id).
Proof.
  rewrite peer_order_ok, list_elem_of_fmap. split.
  - intros ([i p] & -> & Hp%elem_of_map_to_list). by exists p.
  - intros [p Hp]. exists (id, p). split; [done|]. by apply elem_of_map_to_list.
Qed.

(** The trace only grows. *)
Definition grows (s s' : server) : Prop := ∃ tr, trace_ s' = tr ++ trace_ s.
#[local] Instance grows_pre : PreOrder grows.
Proof.
  split; [by exists []|]. intros a b c [t1 H1] [t2 H2]. exists (t2 ++ t1).
  by rewrite H2, H1, app_assoc.
Qed.
Lemma advances_grows {A} (m : M server A) : keeps advances m → keeps grows m.
Proof. apply keeps_weaken. by intros s s' (_ & _ & Ht & _). Qed.
#[local] Hint Extern 1 (keeps grows (modify _)) =>
  apply keeps_modify; intros ?; by exists [] : keeps.
#[local] Hint Extern 2 (keeps grows _) => apply advances_grows;
  solve [eauto with keeps nocore | apply sends_advances; eauto with keeps nocore] : keeps.
(** The loop of [become_leader] on the server, and the rest, which sends requests. *)
Lemma become_leader_view (s : server) id p : peers_ s !! id = Some p →
  let s' := final (become_leader s) in
  hb_view s' !! id = Some (true, Scheduler.schedule (pr_hb_task p)) ∧
  StartTimer (HbTimer (Member id)) (pr_hb_interval p) ∈ trace_ s'.
Proof.
  intros Hp. unfold become_leader. destruct (stop_election_timer_ret s) as (s1 & Hs1 & _).
  assert (peers_ s1 = peers_ s) as Hpe.
  { transitivity (peers_ (final (stop_election_timer s))); [by rewrite Hs1|].
    unfold stop_election_timer. erewrite bind_Ret by reflexivity. by destruct (election_task_ s). }
  erewrite bind_Ret by exact Hs1. erewrite bind_Ret by reflexivity.
  match goal with |- context [(for_peers ?f ≫= ?k) ?t] =>
    change (for_peers f ≫= k) with (for_peers lead_peer ≫= k); set (s2 := t) end.
  assert (peers_ s2 !! id = Some p) as Hp2 by (rewrite <- Hp, <- Hpe; reflexivity).
  destruct (lead_all_runs (peer_order (peers_ s2)) s2) as (s3 & Hs3 & Hall & _).
  { apply peer_order_nodup. } { intros i. apply elem_of_peer_order. }
  specialize (Hall id p Hp2). rewrite decide_True in Hall by (apply elem_of_peer_order; by eexists).
  destruct Hall as [Hp3 Htr].
  erewrite (bind_Ret (for_peers lead_peer)).
  2: { unfold for_peers. erewrite bind_Ret by reflexivity. exact Hs3. }
  match goal with |- context [final (?m s3)] =>
    assert (keeps hb_kept m) as Hk by solve_keeps; assert (keeps grows m) as Ha by solve_keeps;
    specialize (Hk s3); specialize (Ha s3) end.
  cbv zeta. split.
  - rewrite Hk. unfold hb_view. rewrite lookup_fmap, Hp3. reflexivity.
  - destruct Ha as [tr ->]. apply elem_of_app. by right.
Qed.

(** C29: Heart-beats after an election.  Becoming a follower cancels the heart-beat task of
    every peer, and does not give it a timer.  Becoming the leader enables the heart-beats
    of every peer and starts its timer; but when the timer fires, the task runs exactly if
    it had a timer before, or was not cancelled.  So a server that follows before it leads
    for the first time schedules heart-beats that do nothing. *)
Theorem heartbeats_of_new_leader (s : server) id p : peers_ s !! id = Some p →
  (∃ p', peers_ (final (become_follower s)) !! id = Some p' ∧
     cancelled_ (pr_hb_task p') = true ∧
     impl_ctx_ (pr_hb_task p') = impl_ctx_ (pr_hb_task p)) ∧
  (let s' := final (become_leader s) in
   ∃ p', peers_ s' !! id = Some p' ∧ pr_hb_enabled p' = true ∧
     StartTimer (HbTimer (Member id)) (pr_hb_interval p) ∈ trace_ s' ∧
     (Scheduler.timer_handler (pr_hb_task p') false = true ↔
      impl_ctx_ (pr_hb_task p) = true ∨ cancelled_ (pr_hb_task p) = false)).
Proof.
  intros Hp. split.
  - destruct (disable_all_view (peer_order (peers_ s)) id p s Hp) as (s1 & p1 & Hs1 & Hp1 & Hi & Hc).
    rewrite bool_decide_eq_true_2, orb_true_r in Hc by (apply elem_of_peer_order; by eexists).
    exists p1. split; [|by split]. unfold become_follower.
    erewrite (bind_Ret (for_peers disable_hb)).
    2: { unfold for_peers. erewrite bind_Ret by reflexivity. exact Hs1. }
    erewrite bind_Ret by reflexivity. by rewrite restart_peers.
  - destruct (become_leader_view s id p Hp) as [Hv Ht]. cbv zeta in *.
    unfold hb_view in Hv. rewrite lookup_fmap in Hv.
    destruct (peers_ (final (become_leader s)) !! id) as [p'|]; [|done]. simpl in Hv.
    injection Hv as He Hk. exists p'. split; [done|]. split; [done|]. split; [done|].
    rewrite Hk. unfold Scheduler.timer_handler, Task.execute, Scheduler.schedule.
    destruct (pr_hb_task p) as [[] []]; simpl; intuition congruence.
Qed.
End heartbeats.

(** A server that hears of a higher term and then wins an election: its heart-beat task for
    server 2 is cancelled and has no timer. *)
Definition demo_heard : server alog recorder :=
  final (run [EvRequest (vote_req 3 1 5 0 0); EvElectionTimeout] (demo_server 1)).
Lemma heartbeats_of_new_leader_witness :
  ∃ p p', peers_ demo_heard !! 2 = Some p ∧
    peers_ (final (become_leader demo_heard)) !! 2 = Some p' ∧ pr_hb_enabled p' = true ∧
    Scheduler.timer_handler (pr_hb_task p') false ≠ true.
Proof.
  eassert (peers_ demo_heard !! 2 = Some _) as Hp by (vm_compute; reflexivity).
  destruct (heartbeats_of_new_leader demo_heard 2 _ Hp) as [_ (p' & Hp' & He & _ & Hiff)].
  eexists _, p'. split; [exact Hp|]. split; [exact Hp'|]. split; [exact He|].
  intros Hfire%Hiff. destruct Hfire; discriminate.
Defined.
