(* ===== verification/Stream.v ===== *)
(** Files and [std::fstream], as far as the file log store uses them, and the operators
    of [buffer.cxx] that write a buffer to a stream and read one.

    A stream has one position for reading and writing (it has one [filebuf]), and one
    flag that stands for [!fail()].  What is written is in the file at once: a crash of
    the process between a write and the next flush is not modelled.  A call of the
    operating system may fail; [faults] says which ones will, in order. *)
From S2P Require Import Prelude Buffer.

(** ** The folder of a store *)
Inductive file_name :=
| LOG_INDEX_FILE | LOG_DATA_FILE | LOG_START_INDEX_FILE
| LOG_INDEX_FILE_BAK | LOG_DATA_FILE_BAK | LOG_START_INDEX_FILE_BAK.
#[export] Instance file_name_eq_dec : EqDecision file_name.
Proof. solve_decision. Defined.
Definition file_code (f : file_name) : nat :=
  match f with
  | LOG_INDEX_FILE => 0 | LOG_DATA_FILE => 1 | LOG_START_INDEX_FILE => 2
  | LOG_INDEX_FILE_BAK => 3 | LOG_DATA_FILE_BAK => 4 | LOG_START_INDEX_FILE_BAK => 5
  end.
Definition file_of (n : nat) : option file_name :=
  [LOG_INDEX_FILE; LOG_DATA_FILE; LOG_START_INDEX_FILE;
   LOG_INDEX_FILE_BAK; LOG_DATA_FILE_BAK; LOG_START_INDEX_FILE_BAK] !! n.
#[export] Instance file_name_countable : Countable file_name.
Proof. refine (inj_countable file_code file_of _). by intros []. Defined.

(** The next call of the operating system succeeds when the head of [faults] is [None]
    or there is none; [Some n] makes it fail, a write after [n] bytes. *)
Record os := mk_os { disk : gmap file_name (list byte); faults : list (option nat) }.
#[export] Instance eta_os : Eta os := λ o, mk_os (disk o) (faults o).

Definition next_fault : M os (option nat) :=
  fs ← gets faults; modify (λ o, o <| faults ::= tail |>);; mret (default None (head fs)).

(** [std::remove] and [truncate]; [false] is the error. *)
Definition sys_remove (f : file_name) : M os bool :=
  x ← next_fault; c ← gets (λ o, disk o !! f);
  match x, c with
  | None, Some _ => modify (λ o, o <| disk ::= delete f |>);; mret true
  | _, _ => mret false
  end.
Definition sys_truncate (f : file_name) (n : Z) : M os bool :=
  x ← next_fault; c ← gets (λ o, disk o !! f);
  match x, c with
  | None, Some bs =>
      if 2 ^ 63 <=? n then mret false
      else modify (λ o, o <| disk ::= <[f := resize (Z.to_nat n) x00 bs]> |>);; mret true
  | _, _ => mret false
  end.

(** ** Streams *)
Record fstream := mk_fstream { st_file : option file_name; st_good : bool; st_pos : nat }.
#[export] Instance eta_fstream : Eta fstream := λ s, mk_fstream (st_file s) (st_good s) (st_pos s).
Definition new_fstream : fstream := mk_fstream None true 0.

(** The flags of [open] that the source uses; all of them are binary. *)
Inductive open_mode := Out | In_out | In_out_ate.

Record io := mk_io { io_os : os; io_st : fstream }.
#[export] Instance eta_io : Eta io := λ i, mk_io (io_os i) (io_st i).

(** [bs] written at [off]: a gap behind the end is filled with zeros. *)
Definition fwrite (off : nat) (bs c : list byte) : list byte :=
  resize off x00 c ++ bs ++ drop (off + length bs) c.

Module Stream.
Definition good : M io bool := gets (λ i, st_good (io_st i)).
Definition fail : M io unit := modify (λ i, i <| io_st ::= set_field st_good (λ _, false) |>).
Definition set_pos (p : nat) : M io unit :=
  modify (λ i, i <| io_st ::= set_field st_pos (λ _, p) |>).
Definition os_fault : M io (option nat) := zoom io_os next_fault.
(** The file of the stream and its bytes; [None] when the stream has no open file. *)
Definition contents : M io (option (file_name * list byte)) :=
  gets (λ i, f ← st_file (io_st i); Some (f, default [] (disk (io_os i) !! f))).

(** A stream that is open already, or a file that is not there, sets the fail flag; a
    successful [open] clears it. *)
Definition open (f : file_name) (mode : open_mode) : M io unit :=
  i ← get;
  match st_file (io_st i) with
  | Some _ => fail
  | None =>
      x ← os_fault;
      match x, mode, disk (io_os i) !! f with
      | None, Out, _ =>
          modify (λ i, mk_io ((io_os i) <| disk ::= <[f := []]> |>) (mk_fstream (Some f) true 0))
      | None, In_out, Some _ => modify (λ i, i <| io_st := mk_fstream (Some f) true 0 |>)
      | None, In_out_ate, Some c =>
          modify (λ i, i <| io_st := mk_fstream (Some f) true (length c) |>)
      | _, _, _ => fail
      end
  end.
Definition close : M io unit :=
  i ← get;
  match st_file (io_st i) with
  | None => fail
  | Some _ => modify (λ i, i <| io_st ::= set_field st_file (λ _, None) |>)
  end.

(** The offset is a [std::streamoff], a signed 64 bit integer. *)
Definition seek (off : Z) : M io unit :=
  g ← good; when g (c ← contents;
    match c with
    | Some _ => if u64 off <? 2 ^ 63 then set_pos (Z.to_nat (u64 off)) else fail
    | None => fail
    end).
Definition seek_end : M io unit :=
  g ← good; when g (c ← contents;
    match c with Some (_, bs) => set_pos (length bs) | None => fail end).
Definition tell : M io Z :=
  gets (λ i, if st_good (io_st i)
             then match st_file (io_st i) with Some _ => Z.of_nat (st_pos (io_st i)) | None => -1 end
             else -1).
Definition flush : M io unit :=
  g ← good; when g (c ← contents;
    match c with
    | Some _ => x ← os_fault; match x with Some _ => fail | None => mret () end
    | None => mret ()
    end).

(** A file that was removed while it is open is written to in vain. *)
Definition put_at_pos (f : file_name) (bs : list byte) : M io unit :=
  modify (λ i, mk_io ((io_os i) <| disk ::= alter (fwrite (st_pos (io_st i)) bs) f |>)
                     ((io_st i) <| st_pos ::= λ p, (p + length bs)%nat |>)).
Definition write (bs : list byte) : M io unit :=
  g ← good; when g (c ← contents;
    match c with
    | Some (f, _) =>
        x ← os_fault;
        match x with Some n => put_at_pos f (take n bs);; fail | None => put_at_pos f bs end
    | None => if decide (bs = []) then mret () else fail
    end).
(** The bytes read; the flag is set when there are fewer than [n]. *)
Definition read (n : nat) : M io (list byte) :=
  g ← good;
  if negb g then mret [] else
  i ← get; c ← contents;
  let bs := default [] (snd <$> c) in
  let got := rd_at (st_pos (io_st i)) n bs in
  set_pos (st_pos (io_st i) + length got);;
  when (length got <? n)%nat fail;; mret got.

(** [out << in.rdbuf()]: the characters that are left in the buffer of [in], whose own
    flags do not matter; [out] gets the fail flag when there are none. *)
Definition drain : M io (list byte) :=
  i ← get; c ← contents;
  match c with
  | Some (_, bs) => set_pos (Nat.max (st_pos (io_st i)) (length bs));; mret (drop (st_pos (io_st i)) bs)
  | None => mret []
  end.
Definition insert (bs : list byte) : M io unit := if decide (bs = []) then fail else write bs.

(** [operator <<] and [operator >>] of [buffer.cxx]: all of the buffer from its
    position, which does not move. *)
Definition put_buffer (b : buffer) : M io unit :=
  g ← good; if negb g then throw Ios_failure else
  write (Buf.rest b);;
  g ← good; if negb g then throw Ios_failure else mret ().
Definition get_buffer (b : buffer) : M io buffer :=
  g ← good; if negb g then throw Ios_failure else
  bs ← read (Buf.avail b);
  g ← good; if negb g then throw Ios_failure else
  mret (b <| bdata ::= wr_at (bpos b) bs |>).
End Stream.

(** ** Facts about streams

    [here d f p]: a good stream open on [f] at [p], on the disk [d], no call failing. *)
Definition opened (f : file_name) (p : nat) : fstream := mk_fstream (Some f) true p.
Definition on_disk (d : gmap file_name (list byte)) (st : fstream) : io := mk_io (mk_os d []) st.
Definition here d f p : io := on_disk d (opened f p).

Lemma fwrite_end bs c : fwrite (length c) bs c = c ++ bs.
Proof.
  unfold fwrite. rewrite resize_all, drop_ge by lia. by rewrite app_nil_r.
Qed.
Lemma fwrite_app p bs q r : length bs = length q → fwrite (length p) bs (p ++ q ++ r) = p ++ bs ++ r.
Proof.
  intros Hl. unfold fwrite. rewrite resize_le by len. rewrite take_app_length.
  rewrite Hl, <- (drop_drop (p ++ q ++ r)). by rewrite !drop_app_length.
Qed.
Lemma fwrite_cut p bs q : fwrite (length p) bs (p ++ q) = p ++ bs ++ drop (length bs) q.
Proof.
  unfold fwrite. rewrite resize_le by len. rewrite take_app_length.
  by rewrite <- (drop_drop (p ++ q)), drop_app_length.
Qed.
Lemma fwrite_nil p c : (p ≤ length c)%nat → fwrite p [] c = c.
Proof.
  intros. unfold fwrite. rewrite resize_le by done. simpl. rewrite Nat.add_0_r.
  by rewrite take_drop.
Qed.

Lemma os_fault_none d st : Stream.os_fault (on_disk d st) = Ret None (on_disk d st).
Proof. done. Qed.
Section streams.
Context (d : gmap file_name (list byte)) (f : file_name) (c : list byte) (Hc : d !! f = Some c).

Lemma good_here p : Stream.good (here d f p) = Ret true (here d f p).
Proof. done. Qed.
Lemma here_contents p : Stream.contents (here d f p) = Ret (Some (f, c)) (here d f p).
Proof. unfold Stream.contents, here, on_disk, opened, gets. simpl. by rewrite Hc. Qed.
Lemma stream_seek p off : 0 ≤ off < 2 ^ 63 →
  Stream.seek off (here d f p) = Ret () (here d f (Z.to_nat off)).
Proof.
  intros Ho. unfold Stream.seek. erewrite bind_Ret by apply good_here. cbn beta iota delta [when].
  erewrite bind_Ret by apply here_contents.
  rewrite u64_small by (unfold is_u64; lia). by rewrite (proj2 (Z.ltb_lt _ _)) by lia.
Qed.
Lemma stream_seek_end p : Stream.seek_end (here d f p) = Ret () (here d f (length c)).
Proof.
  unfold Stream.seek_end. erewrite bind_Ret by apply good_here. cbn beta iota delta [when].
  by erewrite bind_Ret by apply here_contents.
Qed.
Lemma stream_tell p : Stream.tell (here d f p) = Ret (Z.of_nat p) (here d f p).
Proof. done. Qed.
Lemma stream_flush p : Stream.flush (here d f p) = Ret () (here d f p).
Proof.
  unfold Stream.flush. erewrite bind_Ret by apply good_here. cbn beta iota delta [when].
  by erewrite bind_Ret by apply here_contents.
Qed.
Lemma stream_write p bs :
  Stream.write bs (here d f p) = Ret () (here (<[f := fwrite p bs c]> d) f (p + length bs)).
Proof.
  unfold Stream.write. erewrite bind_Ret by apply good_here. cbn beta iota delta [when].
  erewrite bind_Ret by apply here_contents. cbn beta iota.
  erewrite bind_Ret by apply os_fault_none. cbn beta iota.
  unfold Stream.put_at_pos, modify, here, on_disk, opened, set_field. simpl. f_equal. f_equal. f_equal.
  apply map_eq. intros g. destruct (decide (f = g)) as [->|].
  - by rewrite lookup_alter_eq, lookup_insert_eq, Hc.
  - by rewrite lookup_alter_ne, lookup_insert_ne.
Qed.
Lemma stream_insert p bs : bs ≠ [] →
  Stream.insert bs (here d f p) = Ret () (here (<[f := fwrite p bs c]> d) f (p + length bs)).
Proof. intros. unfold Stream.insert. rewrite decide_False by done. apply stream_write. Qed.
Lemma stream_put_buffer p b :
  Stream.put_buffer b (here d f p)
  = Ret () (here (<[f := fwrite p (Buf.rest b) c]> d) f (p + length (Buf.rest b))).
Proof.
  unfold Stream.put_buffer. erewrite bind_Ret by apply good_here. cbn beta iota delta [negb].
  by erewrite bind_Ret by apply stream_write.
Qed.
Lemma stream_read p n : (p + n ≤ length c)%nat →
  Stream.read n (here d f p) = Ret (rd_at p n c) (here d f (p + n)).
Proof.
  intros Hn. unfold Stream.read. erewrite bind_Ret by apply good_here. cbn beta iota delta [negb].
  erewrite bind_Ret by done. erewrite bind_Ret by apply here_contents. simpl.
  rewrite length_rd_at by done. erewrite bind_Ret by done.
  by rewrite (proj2 (Nat.ltb_ge _ _)) by lia.
Qed.
Lemma stream_get_buffer p q x r : c = q ++ x ++ r → p = length q →
  Stream.get_buffer (cursor [] (zeros (length x))) (here d f p)
  = Ret (cursor [] x) (here d f (p + length x)).
Proof.
  intros Ec ->. unfold Stream.get_buffer. erewrite bind_Ret by done.
  cbn [st_good here on_disk opened io_st negb]. rewrite avail_cursor.
  erewrite bind_Ret by (apply stream_read; rewrite Ec; unfold zeros; len).
  erewrite bind_Ret by apply good_here. cbn beta iota delta [negb].
  rewrite Ec. unfold zeros. rewrite length_replicate, rd_at_app by done.
  unfold mret, M_ret, cursor, set_field. simpl. f_equal. f_equal.
  unfold wr_at. simpl. rewrite drop_ge by len. by rewrite app_nil_r.
Qed.
Lemma stream_drain p : (p ≤ length c)%nat →
  Stream.drain (here d f p) = Ret (drop p c) (here d f (length c)).
Proof.
  intros. unfold Stream.drain. erewrite bind_Ret by done. erewrite bind_Ret by apply here_contents.
  cbn beta iota. unfold Stream.set_pos. unfold_M. cbn. by rewrite Nat.max_r.
Qed.
Lemma stream_open_ate st : st_file st = None →
  Stream.open f In_out_ate (on_disk d st) = Ret () (here d f (length c)).
Proof.
  intros Hs. unfold Stream.open. erewrite bind_Ret by done. cbn [on_disk io_st]. rewrite Hs.
  erewrite bind_Ret by apply os_fault_none. cbn. by rewrite Hc.
Qed.
Lemma stream_open_in_out st : st_file st = None →
  Stream.open f In_out (on_disk d st) = Ret () (here d f 0).
Proof.
  intros Hs. unfold Stream.open. erewrite bind_Ret by done. cbn [on_disk io_st]. rewrite Hs.
  erewrite bind_Ret by apply os_fault_none. cbn. by rewrite Hc.
Qed.
Lemma os_truncate n : 0 ≤ n < 2 ^ 63 →
  sys_truncate f n (mk_os d []) = Ret true (mk_os (<[f := resize (Z.to_nat n) x00 c]> d) []).
Proof.
  intros Hn. unfold sys_truncate. erewrite bind_Ret by done. erewrite bind_Ret by done.
  cbn. by rewrite Hc, (proj2 (Z.leb_gt _ _)) by lia.
Qed.
Lemma os_remove : sys_remove f (mk_os d []) = Ret true (mk_os (delete f d) []).
Proof.
  unfold sys_remove. erewrite bind_Ret by done. erewrite bind_Ret by done. cbn. by rewrite Hc.
Qed.
End streams.

(** A system call's result apart, removing leaves no file behind. *)
Lemma os_remove_any d f : ∃ b, sys_remove f (mk_os d []) = Ret b (mk_os (delete f d) []).
Proof.
  destruct (d !! f) as [c|] eqn:E; [exists true; by eapply os_remove|].
  exists false. unfold sys_remove. erewrite bind_Ret by done. erewrite bind_Ret by done. cbn.
  by rewrite E, delete_id.
Qed.
Lemma stream_open_out d f st : st_file st = None →
  Stream.open f Out (on_disk d st) = Ret () (here (<[f := []]> d) f 0).
Proof.
  intros Hs. unfold Stream.open. erewrite bind_Ret by done. cbn [on_disk io_st]. rewrite Hs.
  by erewrite bind_Ret by apply os_fault_none.
Qed.
Lemma stream_open_missing d f mode st : st_file st = None → d !! f = None → mode ≠ Out →
  Stream.open f mode (on_disk d st) = Ret () (on_disk d (set_field st_good (λ _, false) st)).
Proof.
  intros Hs Hf Hm. unfold Stream.open. erewrite bind_Ret by done. cbn [on_disk io_st]. rewrite Hs.
  erewrite bind_Ret by apply os_fault_none. cbn. rewrite Hf. by destruct mode.
Qed.
Definition closed_at (p : nat) : fstream := mk_fstream None true p.
Lemma stream_close d f p : Stream.close (here d f p) = Ret () (on_disk d (closed_at p)).
Proof. done. Qed.
