(* ===== verification/FsLogStore.v ===== *)
(** The file log store, [fs_log_store.hxx] and [fs_log_store.cxx]: the window of recent
    entries that it keeps in memory ([LogBuf]), and the store on three files (entry
    positions, entries, start index) with the backups that compaction makes.  Every
    function of the source is a definition of the same name, its system calls in order.

    An entry in the window is the object the caller passed, so [append] and [write_at]
    put the entry there as [serialize] left it, rewound. *)
From S2P Require Import Prelude Buffer Codec LogStore Stream.

(** [static_cast<int32>] of a [ulong] that is a size is [i32]; the maximal [int]. *)
Definition int_max : Z := 2 ^ 31 - 1.

(** ** The window [log_store_buffer] *)
Record log_store_buffer := mk_log_store_buffer {
  lb_buf : list log_entry; lb_start_idx : Z; lb_max_size : Z }.
#[export] Instance eta_log_store_buffer : Eta log_store_buffer :=
  λ b, mk_log_store_buffer (lb_buf b) (lb_start_idx b) (lb_max_size b).

Module LogBuf.
Definition size (b : log_store_buffer) : Z := Z.of_nat (length (lb_buf b)).
Definition last_idx (b : log_store_buffer) : Z := u64 (lb_start_idx b + size b).
Definition first_idx (b : log_store_buffer) : Z := lb_start_idx b.
Definition last_entry (b : log_store_buffer) : option log_entry :=
  if 0 <? size b then lb_buf b !! Z.to_nat (size b - 1) else None.
(** [operator []] *)
Definition at_idx (idx : Z) (b : log_store_buffer) : option log_entry :=
  let idx_within_buf := u64 (idx - lb_start_idx b) in
  if (size b <=? idx_within_buf) || (idx <? lb_start_idx b) then None
  else lb_buf b !! Z.to_nat idx_within_buf.

(** Push [buf_[off]], [buf_[off + 1]], ...: an index outside the vector is undefined. *)
Fixpoint push_range (off : Z) (n : nat) (result : list (option log_entry))
    : M log_store_buffer (list (option log_entry)) :=
  match n with
  | O => mret result
  | S n' =>
      b ← get;
      e ← (if off <? 0 then undefined else deref (lb_buf b !! Z.to_nat off));
      push_range (off + 1) n' (result ++ [Some e])
  end.
Definition fill (start end_ : Z) (result : list (option log_entry))
    : M log_store_buffer (Z * list (option log_entry)) :=
  start_idx ← gets lb_start_idx;
  if end_ <? start_idx then mret (start_idx, result) else
  let offset := i32 (start - start_idx) in
  result ← (if 0 <? offset then push_range offset (Z.to_nat (i32 (end_ - start))) result
            else push_range 0 (Z.to_nat (i32 (end_ - start_idx)))
                   (result ++ replicate (Z.to_nat (- offset)) None));
  mret (start_idx, result).

(** The loop [for (i = offset; i < offset + good_cnt; ++offset)] within [fuel] rounds;
    it returns the total size. *)
Fixpoint pack_loop (fuel : nat) (i offset good_cnt size : Z) : M log_store_buffer Z :=
  if i <? u64 (offset + good_cnt) then
    match fuel with
    | O => stop Diverges
    | S fuel' =>
        b ← get; e ← deref (lb_buf b !! Z.to_nat i);
        '(buf, e) ← local e LogEntry.serialize;
        modify (λ b, b <| lb_buf ::= <[Z.to_nat i := e]> |>);;
        pack_loop fuel' i (u64 (offset + 1)) good_cnt (u64 (size + Z.of_nat (Buf.size buf)))
    end
  else mret size.
(** Nothing is pushed to [buffers], so the loop that copies them does nothing. *)
Definition pack (fuel : nat) (start cnt : Z) : M log_store_buffer buffer :=
  b ← get;
  let offset := u64 (start - lb_start_idx b) in
  let left := u64 (size b - offset) in
  let good_cnt := if left <? u64 cnt then left else u64 cnt in
  sz ← pack_loop fuel offset offset good_cnt 0;
  buf ← Buf.alloc sz; '(_, buf) ← local buf (Buf.set_pos 0); mret buf.

Definition get_term (index : Z) : M log_store_buffer Z :=
  b ← get;
  if (index <? lb_start_idx b) || (u64 (lb_start_idx b + size b) <=? index) then mret 0
  else let i := i32 (index - lb_start_idx b) in
       e ← (if i <? 0 then undefined else deref (lb_buf b !! Z.to_nat i)); mret (le_term e).
Definition trim (start : Z) : M log_store_buffer unit :=
  b ← get;
  if start <? lb_start_idx b then mret () else
  let index := u64 (start - lb_start_idx b) in
  when (index <? size b) (modify (λ b, b <| lb_buf ::= take (Z.to_nat index) |>)).
Definition append (entry : log_entry) : M log_store_buffer unit :=
  modify (λ b, b <| lb_buf ::= λ l, l ++ [entry] |>);;
  b ← get;
  when (u64 (lb_max_size b) <? size b)
    (modify (λ b, b <| lb_buf ::= tail |>);;
     modify (λ b, b <| lb_start_idx ::= λ i, u64 (i + 1) |>)).
Definition reset (start_idx : Z) : M log_store_buffer unit :=
  modify (λ b, b <| lb_buf := [] |> <| lb_start_idx := start_idx |>).
End LogBuf.

(** ** The store *)
Record fs_log_store := mk_fs_log_store {
  fs_os : os;
  idx_file_ : fstream;
  data_file_ : fstream;
  start_idx_file_ : fstream;
  entries_in_store_ : Z;
  start_idx_ : Z;
  buf_ : log_store_buffer;
  buf_size_ : Z }.
#[export] Instance eta_fs_log_store : Eta fs_log_store := λ s,
  mk_fs_log_store (fs_os s) (idx_file_ s) (data_file_ s) (start_idx_file_ s)
    (entries_in_store_ s) (start_idx_ s) (buf_ s) (buf_size_ s).

(** A stream operation on a stream of the store. *)
Definition on {A} (p : fs_log_store → fstream) `{!Setter p} (m : M io A) : M fs_log_store A :=
  λ s, match m (mk_io (fs_os s) (p s)) with
       | Ret a i => Ret a (s <| fs_os := io_os i |> <| p := io_st i |>)
       | Stop x i => Stop x (s <| fs_os := io_os i |> <| p := io_st i |>)
       end.
Definition sys {A} (m : M os A) : M fs_log_store A := zoom fs_os m.
Definition win {A} (m : M log_store_buffer A) : M fs_log_store A := zoom buf_ m.
Definition ulen : Z := Z.of_nat sz_ulong.

(** A fresh buffer with one [ulong], rewound; and the [ulong] read from a stream. *)
Definition ulong_buffer {S} (z : Z) : M S buffer :=
  b ← Buf.alloc ulen; '(_, b) ← local b (Buf.put_ulong z;; Buf.set_pos 0); mret b.
Definition read_ulong : M io Z :=
  b ← Buf.alloc ulen; b ← Stream.get_buffer b; '(z, _) ← local b Buf.get_ulong; mret z.
Definition read_buffer (n : Z) : M io buffer :=
  b ← Buf.alloc n; Stream.get_buffer b.

(** The check [if (!data_file_ || !idx_file_) throw ...]. *)
Definition io_check : M fs_log_store unit :=
  s ← get;
  if negb (st_good (data_file_ s)) || negb (st_good (idx_file_ s)) then throw Runtime_error
  else mret ().

(** *** Construction *)

Fixpoint fill_loop (fuel : nat) (idx_buf : buffer) (data_start : Z) : M fs_log_store Z :=
  if (bpos idx_buf <? Buf.size idx_buf)%nat then
    match fuel with
    | O => stop Diverges
    | S fuel' =>
        '(data_end, idx_buf) ← local idx_buf Buf.get_ulong;
        b ← on data_file_ (read_buffer (u64 (data_end - data_start)));
        '(entry, _) ← local b LogEntry.deserialize;
        win (LogBuf.append entry);;
        fill_loop fuel' idx_buf data_end
    end
  else mret data_start.
Definition fill_buffer : M fs_log_store unit :=
  first_idx ← gets (λ s, LogBuf.first_idx (buf_ s));
  on idx_file_ Stream.seek_end;; on data_file_ Stream.seek_end;;
  p ← on idx_file_ Stream.tell;
  when (0 <? p)
    (idx_file_len ← on idx_file_ Stream.tell;
     data_file_len ← on data_file_ Stream.tell;
     start_idx ← gets start_idx_;
     let idx_pos := u64 ((first_idx - start_idx) * ulen) in
     on idx_file_ (Stream.seek idx_pos);;
     idx_buf ← on idx_file_ (read_buffer (u64 (idx_file_len - idx_pos)));
     '(data_start, idx_buf) ← local idx_buf Buf.get_ulong;
     on data_file_ (Stream.seek data_start);;
     data_start ← fill_loop (Buf.size idx_buf) idx_buf data_start;
     b ← on data_file_ (read_buffer (u64 (u64 data_file_len - data_start)));
     '(entry, _) ← local b LogEntry.deserialize;
     win (LogBuf.append entry)).

(** Open a file of the store, create it and reopen it when it is not there. *)
Definition open_or_create (p : fs_log_store → fstream) `{!Setter p} (f : file_name)
    : M fs_log_store unit :=
  on p (Stream.open f In_out_ate);;
  g ← on p Stream.good;
  when (negb g)
    (on p (Stream.open f Out);; on p Stream.close;; on p (Stream.open f In_out_ate)).

(** The first index of the window for the entries in the store. *)
Definition window_start (s : fs_log_store) : Z :=
  if u64 (buf_size_ s) <? entries_in_store_ s
  then u64 (entries_in_store_ s + start_idx_ s - buf_size_ s) else start_idx_ s.

Definition init : M fs_log_store unit :=
  open_or_create idx_file_ LOG_INDEX_FILE;;
  open_or_create data_file_ LOG_DATA_FILE;;
  open_or_create start_idx_file_ LOG_START_INDEX_FILE;;
  s ← get;
  if negb (st_good (idx_file_ s)) || negb (st_good (data_file_ s)) || negb (st_good (start_idx_file_ s))
  then throw Runtime_error else
  p ← on start_idx_file_ Stream.tell;
  (if 0 <? p then
     on start_idx_file_ (Stream.seek 0);;
     start_idx ← on start_idx_file_ read_ulong;
     modify (λ s, s <| start_idx_ := start_idx |>);;
     p ← on idx_file_ Stream.tell;
     modify (λ s, s <| entries_in_store_ := u64 p / ulen |>)
   else
     modify (λ s, s <| start_idx_ := 1 |>);;
     idx_buf ← ulong_buffer 1;
     on start_idx_file_ (Stream.seek 0);;
     on start_idx_file_ (Stream.put_buffer idx_buf);;
     modify (λ s, s <| entries_in_store_ := 0 |>));;
  modify (λ s, s <| buf_ := mk_log_store_buffer [] (window_start s) (buf_size_ s) |>);;
  fill_buffer.
(** The constructor on the folder as [o] finds it; [buf_size] is the second argument. *)
Definition new_store (o : os) (buf_size : Z) : outcome fs_log_store unit :=
  let sz := if buf_size <? 0 then int_max else buf_size in
  init (mk_fs_log_store o new_fstream new_fstream new_fstream 0 1
          (mk_log_store_buffer [] 1 sz) sz).

(** *** Queries *)
Definition next_slot (s : fs_log_store) : Z := u64 (start_idx_ s + entries_in_store_ s).
Definition start_index (s : fs_log_store) : Z := start_idx_ s.
Definition last_entry (s : fs_log_store) : log_entry :=
  default empty_entry (LogBuf.last_entry (buf_ s)).

(** *** Writing *)
Definition append (entry : log_entry) : M fs_log_store Z :=
  on idx_file_ Stream.seek_end;; on data_file_ Stream.seek_end;;
  data_pos ← on data_file_ Stream.tell;
  idx_buf ← ulong_buffer (u64 data_pos);
  on idx_file_ (Stream.put_buffer idx_buf);;
  '(entry_buf, entry) ← local entry LogEntry.serialize;
  on data_file_ (Stream.put_buffer entry_buf);;
  win (LogBuf.append entry);;
  modify (λ s, s <| entries_in_store_ ::= λ n, u64 (n + 1) |>);;
  on idx_file_ Stream.flush;; on data_file_ Stream.flush;;
  io_check;;
  gets (λ s, u64 (start_idx_ s + entries_in_store_ s - 1)).

(** Close both files, cut them to the lengths, and open them again. *)
Definition truncate_files (idx_len data_len : Z) : M fs_log_store unit :=
  on idx_file_ Stream.close;; on data_file_ Stream.close;;
  ok ← sys (sys_truncate LOG_INDEX_FILE idx_len);
  if negb ok then throw Ios_failure else
  ok ← sys (sys_truncate LOG_DATA_FILE data_len);
  if negb ok then throw Ios_failure else
  on idx_file_ (Stream.open LOG_INDEX_FILE In_out_ate);;
  on data_file_ (Stream.open LOG_DATA_FILE In_out_ate).

Definition write_at (index : Z) (entry : log_entry) : M fs_log_store unit :=
  s ← get;
  if (index <? start_idx_ s) || (u64 (start_idx_ s + entries_in_store_ s) <? index)
  then throw Range_error else
  let local_idx := u64 (index - start_idx_ s + 1) in
  let idx_pos := u64 ((local_idx - 1) * ulen) in
  (if local_idx <=? entries_in_store_ s then
     on idx_file_ (Stream.seek idx_pos);;
     p ← on idx_file_ read_ulong;
     on data_file_ (Stream.seek p)
   else on data_file_ Stream.seek_end);;
  on idx_file_ (Stream.seek idx_pos);;
  data_pos ← on data_file_ Stream.tell;
  ibuf ← ulong_buffer (u64 data_pos);
  on idx_file_ (Stream.put_buffer ibuf);;
  '(ebuf, entry) ← local entry LogEntry.serialize;
  on data_file_ (Stream.put_buffer ebuf);;
  on idx_file_ Stream.flush;; on data_file_ Stream.flush;;
  ndata_len ← on data_file_ Stream.tell;
  nidx_len ← on idx_file_ Stream.tell;
  on idx_file_ Stream.seek_end;;
  p ← on idx_file_ Stream.tell;
  when (u64 nidx_len <? u64 p) (truncate_files (u64 nidx_len) (u64 ndata_len));;
  when (local_idx <=? entries_in_store_ s) (win (LogBuf.trim index));;
  win (LogBuf.append entry);;
  modify (λ s, s <| entries_in_store_ := local_idx |>);;
  io_check.

(** *** Reading *)

(** The loop that reads the entries that are not in the window; [data_start] is where
    the next one starts. *)
Fixpoint read_entries (n i : nat) (data_start : Z) (results : list (option log_entry))
    : M fs_log_store (list (option log_entry)) :=
  match n with
  | O => mret results
  | S n' =>
      data_end ← on idx_file_ read_ulong;
      let data_sz := i32 (data_end - data_start) in
      on data_file_ (Stream.seek data_start);;
      b ← on data_file_ (read_buffer (u64 data_sz));
      '(entry, _) ← local b LogEntry.deserialize;
      results ← (if (i <? length results)%nat then mret (<[i := Some entry]> results) else undefined);
      read_entries n' (S i) data_end results
  end.
Definition log_entries (start end_ : Z) : M fs_log_store (option (list (option log_entry))) :=
  s ← get;
  if start <? start_idx_ s then throw Range_error else
  if (end_ <=? start) || (u64 (start_idx_ s + entries_in_store_ s) <=? start) then mret None else
  let lstart := u64 (start - start_idx_ s) in
  let lend := u64 (end_ - start_idx_ s) in
  let lend := if entries_in_store_ s <? lend then entries_in_store_ s else lend in
  let good_end := u64 (lend + start_idx_ s) in
  if lend <=? lstart then mret None else
  '(buffer_first_idx, results) ← win (LogBuf.fill start good_end []);
  results ← (if start <? buffer_first_idx then
    io_check;;
    let lend := u64 (buffer_first_idx - start_idx_ s) in
    on idx_file_ (Stream.seek (u64 (lstart * ulen)));;
    data_start ← on idx_file_ read_ulong;
    read_entries (Z.to_nat (i32 (lend - lstart))) 0 data_start results
  else mret results);
  mret (Some results).

Definition entry_at (index : Z) : M fs_log_store (option log_entry) :=
  s ← get;
  match LogBuf.at_idx index (buf_ s) with
  | Some entry => mret (Some entry)
  | None =>
      if index <? start_idx_ s then throw Range_error else
      io_check;;
      if u64 (start_idx_ s + entries_in_store_ s) <=? index then mret None else
      on idx_file_ (Stream.seek (u64 ((index - start_idx_ s) * ulen)));;
      d_pos ← on idx_file_ read_ulong;
      end_d_pos ← on idx_file_ read_ulong;
      on data_file_ (Stream.seek d_pos);;
      b ← on data_file_ (read_buffer (u64 (i32 (end_d_pos - d_pos))));
      '(entry, _) ← local b LogEntry.deserialize;
      mret (Some entry)
  end.

Definition term_at (index : Z) : M fs_log_store Z :=
  s ← get;
  if (LogBuf.first_idx (buf_ s) <=? index) && (index <? LogBuf.last_idx (buf_ s))
  then win (LogBuf.get_term index) else
  if index <? start_idx_ s then throw Range_error else
  io_check;;
  on idx_file_ (Stream.seek (u64 (i32 (index - start_idx_ s) * ulen)));;
  p ← on idx_file_ read_ulong;
  on data_file_ (Stream.seek p);;
  on data_file_ read_ulong.

(** *** Packs *)
Definition pack (index cnt : Z) : M fs_log_store (option buffer) :=
  s ← get;
  if index <? start_idx_ s then throw Range_error else
  io_check;;
  let offset := u64 (index - start_idx_ s) in
  if entries_in_store_ s <=? offset then mret None else
  let end_offset := Z.min (u64 (offset + cnt)) (entries_in_store_ s) in
  on idx_file_ (Stream.seek (u64 (i32 offset * ulen)));;
  idx_buf ← on idx_file_ (read_buffer (u64 (i32 (end_offset - offset) * ulen)));
  end_of_data ← (if end_offset =? entries_in_store_ s then
                   on data_file_ Stream.seek_end;;
                   p ← on data_file_ Stream.tell; mret (u64 p)
                 else on idx_file_ read_ulong);
  '(start_of_data, idx_buf) ← local idx_buf (Buf.set_pos 0;; z ← Buf.get_ulong; Buf.set_pos 0;; mret z);
  on data_file_ (Stream.seek start_of_data);;
  data_buf ← on data_file_ (read_buffer (u64 (i32 (end_of_data - start_of_data))));
  result ← build (u64 (2 * Z.of_nat sz_int + Z.of_nat (Buf.size idx_buf) + Z.of_nat (Buf.size data_buf)))
    (Buf.put_int (i32 (Z.of_nat (Buf.size idx_buf)));;
     Buf.put_int (i32 (Z.of_nat (Buf.size data_buf)));;
     Buf.put_buf idx_buf;; Buf.put_buf data_buf);
  mret (Some result).

Definition apply_pack (index : Z) (pck : buffer) : M fs_log_store unit :=
  '(idx_len, pck) ← local pck Buf.get_int;
  '(data_len, pck) ← local pck Buf.get_int;
  s ← get;
  let local_idx := u64 (index - start_idx_ s) in
  (if local_idx =? entries_in_store_ s then
     on idx_file_ Stream.seek_end;; on data_file_ Stream.seek_end
   else
     let idx_pos := u64 (local_idx * ulen) in
     on idx_file_ (Stream.seek idx_pos);;
     p ← on idx_file_ read_ulong;
     on idx_file_ (Stream.seek idx_pos);;
     on data_file_ (Stream.seek p));;
  (if (idx_len <? 0) || (data_len <? 0) || (Z.of_nat (Buf.avail pck) <? idx_len + data_len)
   then undefined else mret ());;
  let bytes := Buf.rest pck in
  on idx_file_ (Stream.write (take (Z.to_nat idx_len) bytes));;
  on data_file_ (Stream.write (take (Z.to_nat data_len) (drop (Z.to_nat idx_len) bytes)));;
  on idx_file_ Stream.flush;; on data_file_ Stream.flush;;
  idx_pos ← on idx_file_ Stream.tell;
  data_pos ← on data_file_ Stream.tell;
  on idx_file_ Stream.seek_end;; on data_file_ Stream.seek_end;;
  p ← on idx_file_ Stream.tell;
  when (u64 idx_pos <? u64 p) (truncate_files (u64 idx_pos) (u64 data_pos));;
  io_check;;
  modify (λ s, s <| entries_in_store_ := u64 (local_idx + u64 idx_len / ulen) |>);;
  s ← get;
  win (LogBuf.reset (window_start s));;
  fill_buffer.

(** *** Compaction

    The state while [compact] runs: the store and the three backup streams. *)
Record compaction := mk_compaction {
  cp_store : fs_log_store;
  idx_bak_file : fstream;
  data_bak_file : fstream;
  start_idx_bak_file : fstream }.
#[export] Instance eta_compaction : Eta compaction := λ c,
  mk_compaction (cp_store c) (idx_bak_file c) (data_bak_file c) (start_idx_bak_file c).

Definition store {A} (m : M fs_log_store A) : M compaction A := zoom cp_store m.
Definition bak {A} (p : compaction → fstream) `{!Setter p} (m : M io A) : M compaction A :=
  λ c, match m (mk_io (fs_os (cp_store c)) (p c)) with
       | Ret a i => Ret a (c <| cp_store ::= set_field fs_os (λ _, io_os i) |> <| p := io_st i |>)
       | Stop x i => Stop x (c <| cp_store ::= set_field fs_os (λ _, io_os i) |> <| p := io_st i |>)
       end.
(** [out << in.rdbuf()] *)
Definition copy_rdbuf (out_good : M compaction bool) (out_insert : list byte → M compaction unit)
    (in_drain : M compaction (list byte)) : M compaction unit :=
  g ← out_good; when g (bs ← in_drain; out_insert bs).
Definition backup (src : fs_log_store → fstream) `{!Setter src}
    (dst : compaction → fstream) `{!Setter dst} : M compaction unit :=
  copy_rdbuf (bak dst Stream.good) (λ bs, bak dst (Stream.insert bs)) (store (on src Stream.drain)).
Definition unbackup (src : compaction → fstream) `{!Setter src}
    (dst : fs_log_store → fstream) `{!Setter dst} : M compaction unit :=
  copy_rdbuf (store (on dst Stream.good)) (λ bs, store (on dst (Stream.insert bs)))
    (bak src Stream.drain).

Definition open_bak (p : compaction → fstream) `{!Setter p} (f : file_name) : M compaction unit :=
  bak p (Stream.open f In_out);;
  g ← bak p Stream.good;
  when (negb g)
    (bak p (Stream.open f Out);; bak p Stream.close;; bak p (Stream.open f In_out)).
Definition close_baks : M compaction unit :=
  bak idx_bak_file Stream.close;; bak data_bak_file Stream.close;;
  bak start_idx_bak_file Stream.close.

(** Create an empty file in the place of a removed one. *)
Definition recreate (p : fs_log_store → fstream) `{!Setter p} (f g : file_name) : M fs_log_store unit :=
  on p (Stream.open f Out);; on p Stream.close;; on p (Stream.open g In_out_ate).

(** Clear the store; [false] is a [break] out of [do { ... } while (false)]. *)
Definition compact_all (last_log_index : Z) : M compaction bool :=
  store (on idx_file_ Stream.close;; on data_file_ Stream.close);;
  ok ← store (sys (sys_remove LOG_INDEX_FILE)); if negb ok then mret false else
  ok ← store (sys (sys_remove LOG_DATA_FILE)); if negb ok then mret false else
  store (recreate idx_file_ LOG_INDEX_FILE LOG_INDEX_FILE);;
  store (recreate data_file_ LOG_DATA_FILE LOG_DATA_FILE);;
  s ← gets cp_store;
  if negb (st_good (idx_file_ s)) || negb (st_good (data_file_ s)) then mret false else
  store (on start_idx_file_ (Stream.seek 0);;
    b ← ulong_buffer (u64 (last_log_index + 1));
    on start_idx_file_ (Stream.put_buffer b);;
    modify (λ s, s <| start_idx_ := u64 (last_log_index + 1) |>);;
    modify (λ s, s <| entries_in_store_ := 0 |>);;
    s ← get; win (LogBuf.reset (start_idx_ s)));;
  close_baks;; mret true.

(** The loop that shifts the positions of the kept entries by [data_pos]. *)
Fixpoint shift_positions (n : nat) (data_pos : Z) : M compaction unit :=
  match n with
  | O => mret ()
  | S n' =>
      p ← bak idx_bak_file read_ulong;
      store (b ← ulong_buffer (u64 (p - data_pos)); on idx_file_ (Stream.put_buffer b));;
      shift_positions n' data_pos
  end.

(** The steps that leave the kept entries in the data file and in the index file;
    [false] is a [break]. *)
Definition compact_data (data_pos data_len : Z) : M compaction bool :=
  bak data_bak_file (Stream.seek data_pos);;
  store (on data_file_ (Stream.seek 0));;
  unbackup data_bak_file data_file_;;
  store (on data_file_ Stream.close);;
  ok ← store (sys (sys_truncate LOG_DATA_FILE data_len)); if negb ok then mret false else
  store (on data_file_ (Stream.open LOG_DATA_FILE In_out_ate));;
  store (on data_file_ Stream.good).
Definition compact_idx (idx_pos idx_len data_pos : Z) : M compaction bool :=
  bak idx_bak_file (Stream.seek idx_pos);;
  store (on idx_file_ (Stream.seek 0));;
  shift_positions (Z.to_nat (idx_len / ulen)) data_pos;;
  store (on idx_file_ Stream.close);;
  ok ← store (sys (sys_truncate LOG_INDEX_FILE idx_len)); if negb ok then mret false else
  store (on idx_file_ (Stream.open LOG_INDEX_FILE In_out_ate));;
  store (on idx_file_ Stream.good).
(** The new start index, on disk and in memory, and the window again from the disk. *)
Definition move_start (last_log_index : Z) : M fs_log_store unit :=
  on start_idx_file_ (Stream.seek 0);;
  b ← ulong_buffer (u64 (last_log_index + 1));
  on start_idx_file_ (Stream.put_buffer b);;
  on start_idx_file_ Stream.flush;;
  modify (λ s, s <| entries_in_store_ := u64 (entries_in_store_ s - (last_log_index - start_idx_ s + 1)) |>);;
  modify (λ s, s <| start_idx_ := u64 (last_log_index + 1) |>);;
  s ← get; win (LogBuf.reset (window_start s));;
  fill_buffer.

(** Drop a prefix of the store; [false] is a [break]. *)
Definition compact_part (last_log_index : Z) : M compaction bool :=
  start_idx ← gets (λ c, start_idx_ (cp_store c));
  let local_last_idx := u64 (last_log_index - start_idx) in
  let idx_pos := u64 ((local_last_idx + 1) * ulen) in
  data_pos ← store (on idx_file_ (Stream.seek idx_pos);; on idx_file_ read_ulong);
  store (on idx_file_ Stream.seek_end;; on data_file_ Stream.seek_end);;
  p ← store (on idx_file_ Stream.tell);
  let idx_len := u64 (u64 p - idx_pos) in
  p ← store (on data_file_ Stream.tell);
  let data_len := u64 (u64 p - data_pos) in
  ok ← compact_data data_pos data_len; if negb ok then mret false else
  ok ← compact_idx idx_pos idx_len data_pos; if negb ok then mret false else
  close_baks;; store (move_start last_log_index);; mret true.

(** After a [break]: put the backups back.  The data file is recreated through the path
    of its backup, as the source does. *)
Definition close_if_good (p : fs_log_store → fstream) `{!Setter p} : M fs_log_store unit :=
  g ← on p Stream.good; when g (on p Stream.close).
Definition restore : M compaction bool :=
  store (close_if_good idx_file_;; close_if_good data_file_;; close_if_good start_idx_file_;;
    sys (sys_remove LOG_INDEX_FILE);; sys (sys_remove LOG_DATA_FILE);;
    sys (sys_remove LOG_START_INDEX_FILE));;
  bak idx_bak_file (Stream.seek 0);; bak data_bak_file (Stream.seek 0);;
  bak start_idx_bak_file (Stream.seek 0);;
  store (recreate data_file_ LOG_DATA_FILE_BAK LOG_DATA_FILE;;
    recreate idx_file_ LOG_INDEX_FILE LOG_INDEX_FILE;;
    recreate start_idx_file_ LOG_START_INDEX_FILE LOG_START_INDEX_FILE);;
  s ← gets cp_store;
  if negb (st_good (idx_file_ s)) || negb (st_good (data_file_ s)) || negb (st_good (start_idx_file_ s))
  then throw Runtime_error else
  unbackup data_bak_file data_file_;; unbackup idx_bak_file idx_file_;;
  unbackup start_idx_bak_file start_idx_file_;;
  store (on data_file_ Stream.flush;; on idx_file_ Stream.flush;; on start_idx_file_ Stream.flush);;
  close_baks;; mret false.

(** Copy the three files; [false] when there is no room for the copies. *)
Definition make_backups : M compaction bool :=
  store (on idx_file_ (Stream.seek 0);; on data_file_ (Stream.seek 0);;
    on start_idx_file_ (Stream.seek 0);;
    sys (sys_remove LOG_INDEX_FILE_BAK);; sys (sys_remove LOG_DATA_FILE_BAK);;
    sys (sys_remove LOG_START_INDEX_FILE_BAK));;
  open_bak idx_bak_file LOG_INDEX_FILE_BAK;;
  open_bak data_bak_file LOG_DATA_FILE_BAK;;
  open_bak start_idx_bak_file LOG_START_INDEX_FILE_BAK;;
  c ← get;
  if negb (st_good (idx_bak_file c)) || negb (st_good (data_bak_file c))
     || negb (st_good (start_idx_bak_file c)) then mret false else
  store (on idx_file_ (Stream.seek 0);; on data_file_ (Stream.seek 0);;
    on start_idx_file_ (Stream.seek 0));;
  backup idx_file_ idx_bak_file;; backup data_file_ data_bak_file;;
  backup start_idx_file_ start_idx_bak_file;;
  bak idx_bak_file Stream.flush;; bak data_bak_file Stream.flush;;
  bak start_idx_bak_file Stream.flush;; mret true.

Definition compact_in (last_log_index : Z) : M compaction bool :=
  ok ← make_backups;
  if negb ok then mret false else
  s ← gets cp_store;
  let body : M compaction bool :=
    if u64 (start_idx_ s + entries_in_store_ s - 1) <=? last_log_index
    then compact_all last_log_index else compact_part last_log_index in
  ok ← body;
  if ok : bool then mret true else restore.
Definition compact (last_log_index : Z) : M fs_log_store bool := λ s,
  if last_log_index <? start_idx_ s then Stop (Thrown Range_error) s else
  outcome_map cp_store (compact_in last_log_index (mk_compaction s new_fstream new_fstream new_fstream)).

Definition close : M fs_log_store unit :=
  on idx_file_ Stream.close;; on data_file_ Stream.close;; on start_idx_file_ Stream.close.
(** The destructor; the result is what it leaves in the folder. *)
Definition destroy (s : fs_log_store) : os :=
  fs_os (final ((close_if_good idx_file_;; close_if_good data_file_;;
                 close_if_good start_idx_file_) s)).

(** *** As an implementation of the interface

    A vector with a null pointer in it is undefined for every caller; [log_entries]
    replaces all of them ([log_entries_rep] in [FsRefine.v]). *)
#[export] Instance fs_store : LogStore fs_log_store := {|
  LogStore.next_slot := next_slot;
  LogStore.start_index := start_index;
  LogStore.last_entry := last_entry;
  LogStore.append := append;
  LogStore.write_at := write_at;
  LogStore.log_entries s e :=
    r ← log_entries s e;
    match r with
    | None => mret None
    | Some es => match mapM (M:=option) id es with Some l => mret (Some l) | None => undefined end
    end;
  LogStore.entry_at := entry_at;
  LogStore.term_at := term_at;
  LogStore.pack := pack;
  LogStore.apply_pack := apply_pack;
  LogStore.compact := compact |}.
