(* ===== verification/FsRefine.v ===== *)
(** The file log store refines the abstract log of [LogStore.v]: on a disk whose calls
    succeed, every operation that is inside the bounds of the in-memory window returns
    what the abstract log returns, reopening the store included. *)
From S2P Require Import Prelude Buffer Codec LogStore Stream FsLogStore.

(** ** What is on the disk *)

Definition enc (e : log_entry) : list byte := encode_entry e (default [] (bdata <$> le_buff e)).
Definition data_bytes (es : list log_entry) : list byte := concat (enc <$> es).
Definition dlen (es : list log_entry) : Z := Z.of_nat (length (data_bytes es)).
(** The positions of the entries in a data file, from [p] on. *)
Fixpoint positions (p : Z) (es : list log_entry) : list Z :=
  match es with [] => [] | e :: es' => p :: positions (p + Z.of_nat (length (enc e))) es' end.
Definition idx_of (ps : list Z) : list byte := concat (le_bytes 8 <$> ps).
Definition idx_bytes (es : list log_entry) : list byte := idx_of (positions 0 es).

(** The index file can be read into a buffer, the data file can be addressed. *)
Definition fits (es : list log_entry) : Prop :=
  8 * Z.of_nat (length es) < 2 ^ 31 ∧ dlen es < 2 ^ 63.
Definition log_fits (g : alog) : Prop :=
  1 ≤ al_start g ∧ al_next g < 2 ^ 63 ∧ fits (al_entries g) ∧ Forall stored (al_entries g).

Definition files (d : gmap file_name (list byte)) (g : alog) : Prop :=
  d !! LOG_INDEX_FILE = Some (idx_bytes (al_entries g)) ∧
  d !! LOG_DATA_FILE = Some (data_bytes (al_entries g)) ∧
  d !! LOG_START_INDEX_FILE = Some (le_bytes 8 (al_start g)).

Lemma data_bytes_app es es' : data_bytes (es ++ es') = data_bytes es ++ data_bytes es'.
Proof. unfold data_bytes. by rewrite fmap_app, concat_app. Qed.
Lemma data_bytes_cons e es : data_bytes (e :: es) = enc e ++ data_bytes es.
Proof. done. Qed.
Lemma data_bytes_snoc es e : data_bytes (es ++ [e]) = data_bytes es ++ enc e.
Proof. rewrite data_bytes_app, data_bytes_cons. unfold data_bytes at 2. simpl. by rewrite app_nil_r. Qed.
Lemma dlen_app es es' : dlen (es ++ es') = dlen es + dlen es'.
Proof. unfold dlen. rewrite data_bytes_app. len. Qed.
Lemma dlen_cons e es : dlen (e :: es) = Z.of_nat (length (enc e)) + dlen es.
Proof. unfold dlen. rewrite data_bytes_cons. len. Qed.
Lemma dlen_nil : dlen [] = 0.
Proof. done. Qed.
Lemma dlen_nonneg es : 0 ≤ dlen es.
Proof. unfold dlen. lia. Qed.
Lemma length_data es : length (data_bytes es) = Z.to_nat (dlen es).
Proof. unfold dlen. lia. Qed.
Lemma positions_app p es es' : positions p (es ++ es') = positions p es ++ positions (p + dlen es) es'.
Proof.
  revert p. induction es as [|e es IH]; intros p; simpl; [by rewrite dlen_nil, Z.add_0_r|].
  by rewrite IH, dlen_cons, Z.add_assoc.
Qed.
Lemma length_positions p es : length (positions p es) = length es.
Proof. revert p. induction es; intros p; simpl; [done|]. by rewrite IHes. Qed.
Lemma positions_shift p q es : positions (p + q) es = (λ x, x + q) <$> positions p es.
Proof.
  revert p. induction es as [|e es IH]; intros p; [done|]. simpl. rewrite <- IH.
  f_equal. f_equal. lia.
Qed.
Lemma idx_of_app ps qs : idx_of (ps ++ qs) = idx_of ps ++ idx_of qs.
Proof. unfold idx_of. by rewrite fmap_app, concat_app. Qed.
Lemma idx_of_cons p ps : idx_of (p :: ps) = le_bytes 8 p ++ idx_of ps.
Proof. done. Qed.
Lemma length_idx_of ps : length (idx_of ps) = (8 * length ps)%nat.
Proof. induction ps as [|p ps IH]; [done|]. rewrite idx_of_cons. simpl length. len. Qed.
Lemma length_idx es : length (idx_bytes es) = (8 * length es)%nat.
Proof. unfold idx_bytes. by rewrite length_idx_of, length_positions. Qed.
Lemma idx_bytes_app es es' :
  idx_bytes (es ++ es') = idx_bytes es ++ idx_of (positions (dlen es) es').
Proof. unfold idx_bytes. by rewrite positions_app, idx_of_app. Qed.
Lemma idx_bytes_snoc es e : idx_bytes (es ++ [e]) = idx_bytes es ++ le_bytes 8 (dlen es).
Proof. rewrite idx_bytes_app. simpl. rewrite idx_of_cons. unfold idx_of. simpl. by rewrite app_nil_r. Qed.
#[global] Opaque idx_of.

Lemma length_enc e d : log_entry_ok e (cursor [] d) → length (enc e) = (9 + length d)%nat.
Proof. intros (Hb & _). unfold enc, encode_entry. rewrite Hb. simpl. len. Qed.
Lemma enc_small e : stored e → 9 ≤ Z.of_nat (length (enc e)) < 2 ^ 31.
Proof. intros [d Hd]. rewrite (length_enc e d Hd). destruct Hd as (_ & _ & _ & Hl). simpl in Hl. lia. Qed.

Lemma stored_rewind e b : log_entry_ok e b → stored (rewind e).
Proof.
  intros (Hb & Ht & Hv & Hl). exists (bdata b). destruct e as [t v bf]. simpl in Hb. subst bf.
  done.
Qed.
Lemma serialize_stored e b : log_entry_ok e b →
  LogEntry.serialize e = Ret (cursor [] (enc (rewind e))) (rewind e).
Proof.
  intros Hok. rewrite (log_entry_serialize e b Hok). destruct Hok as (Hb & _).
  destruct e as [t v bf]. simpl in Hb. by subst bf.
Qed.
Lemma deserialize_stored e : stored e →
  ∃ b, LogEntry.deserialize (cursor [] (enc e)) = Ret e b.
Proof.
  intros [d (Hb & Ht & Hv & Hl)].
  assert (e <| le_buff := Some (cursor [] d) |> = e) as He.
  { destruct e. simpl in Hb. by subst. }
  eexists. unfold enc. rewrite Hb. simpl.
  rewrite log_entry_deserialize; [|done|done|simpl in Hl; lia]. by rewrite He.
Qed.
Lemma rewind_stored e : stored e → rewind e = e.
Proof. intros [d (Hb & _)]. destruct e as [t v bf]. simpl in Hb. by subst bf. Qed.

(** ** The window *)
Definition window (es : list log_entry) (st : Z) (k : nat) (sz : Z) : log_store_buffer :=
  mk_log_store_buffer (drop k es) (st + Z.of_nat k) sz.
(** The window holds the entries from the [k]-th on: the last one if there is one. *)
Definition win_ok (k : nat) (es : list log_entry) (sz : Z) : Prop :=
  (k < length es ∨ k = 0 ∧ es = [])%nat ∧ Z.of_nat (length es) - Z.of_nat k ≤ sz.
Definition size_ok (sz : Z) : Prop := 1 ≤ sz ≤ int_max.

Lemma win_append e es st k sz :
  size_ok sz → (k ≤ length es)%nat → Z.of_nat (length es) - Z.of_nat k ≤ sz →
  0 ≤ st → st + Z.of_nat (length es) < 2 ^ 63 →
  ∃ k', win_ok k' (es ++ [e]) sz ∧ (k ≤ k')%nat ∧
    (Z.of_nat (length es) - Z.of_nat k < sz → k' = k) ∧
    LogBuf.append e (window es st k sz) = Ret () (window (es ++ [e]) st k' sz).
Proof.
  unfold size_ok, int_max. intros Hsz Hk Hl Hst Hb. unfold LogBuf.append, window. unfold_M. unfold set_field, LogBuf.size.
  cbn [lb_buf lb_start_idx lb_max_size]. rewrite u64_small by (unfold is_u64; lia).
  rewrite <- drop_app_le by lia.
  destruct (Z.ltb_spec sz (Z.of_nat (length (drop k (es ++ [e]))))) as [Hlt|Hge];
    rewrite length_drop, length_app in *; cbn [length] in *.
  - exists (S k). split; [split; [left|]; len|]. split; [lia|]. split; [lia|].
    cbn [lb_buf lb_start_idx lb_max_size]. f_equal. f_equal.
    + rewrite <- (skipn_skipn 1 k). by destruct (drop k (es ++ [e])).
    + rewrite u64_small by (unfold is_u64; lia). lia.
  - exists k. split; [split; [left|]; len|]. done.
Qed.
Lemma win_trim es st k sz i : 0 ≤ st → st + Z.of_nat (length es) < 2 ^ 63 →
  (k ≤ i < length es)%nat →
  LogBuf.trim (st + Z.of_nat i) (window es st k sz) = Ret () (window (take i es) st k sz).
Proof.
  intros Hst Hb Hi. unfold LogBuf.trim, window. unfold_M. unfold set_field, LogBuf.size.
  cbn [lb_buf lb_start_idx lb_max_size]. rewrite ltb_false by lia.
  rewrite u64_small by (unfold is_u64; lia). rewrite ltb_true by len.
  cbn [lb_buf lb_start_idx lb_max_size]. f_equal. f_equal.
  rewrite skipn_firstn_comm. f_equal. lia.
Qed.
Lemma win_at es st k sz i : 0 ≤ st → st + Z.of_nat (length es) < 2 ^ 63 → is_u64 i →
  (k ≤ length es)%nat →
  LogBuf.at_idx i (window es st k sz) =
  if i <? st + Z.of_nat k then None else es !! Z.to_nat (i - st).
Proof.
  intros Hst Hb Hi Hk. unfold LogBuf.at_idx, window, LogBuf.size. cbn [lb_buf lb_start_idx].
  unfold is_u64 in Hi.
  destruct (Z.ltb_spec i (st + Z.of_nat k)).
  - by rewrite orb_true_r.
  - rewrite u64_small by (unfold is_u64; lia). rewrite orb_false_r. len.
    destruct (Z.leb_spec (Z.of_nat (length es - k)) (i - (st + Z.of_nat k))).
    + symmetry. apply lookup_ge_None_2. lia.
    + rewrite lookup_drop. f_equal. lia.
Qed.
Lemma win_first_idx es st k sz : LogBuf.first_idx (window es st k sz) = st + Z.of_nat k.
Proof. done. Qed.
Lemma win_last_idx es st k sz : 0 ≤ st → st + Z.of_nat (length es) < 2 ^ 63 → (k ≤ length es)%nat →
  LogBuf.last_idx (window es st k sz) = st + Z.of_nat (length es).
Proof.
  intros. unfold LogBuf.last_idx, LogBuf.size, window. cbn [lb_start_idx lb_buf].
  rewrite length_drop, u64_small by (unfold is_u64; lia). lia.
Qed.
Lemma win_term es st k sz i e : 0 ≤ st → st + Z.of_nat (length es) < 2 ^ 63 →
  Z.of_nat (length es) < 2 ^ 31 → (k ≤ length es)%nat → st + Z.of_nat k ≤ i →
  es !! Z.to_nat (i - st) = Some e →
  LogBuf.get_term i (window es st k sz) = Ret (le_term e) (window es st k sz).
Proof.
  intros H0 Hn Hs Hk Hi He. pose proof (lookup_lt_Some _ _ _ He). unfold LogBuf.get_term.
  unfold_M. unfold LogBuf.size, window. cbn [lb_start_idx lb_buf].
  rewrite (u64_small (_ + Z.of_nat (length _))) by (rewrite length_drop; unfold is_u64; lia).
  rewrite ltb_false, leb_false by (rewrite ?length_drop; lia). cbn [orb].
  rewrite i32_small by (unfold is_i32; lia). rewrite ltb_false by lia.
  rewrite lookup_drop. replace (k + _)%nat with (Z.to_nat (i - st)) by lia. by rewrite He.
Qed.
Lemma win_last es st k sz : win_ok k es sz →
  default empty_entry (LogBuf.last_entry (window es st k sz)) = default empty_entry (last es).
Proof.
  intros [[Hk|[-> ->]] _]; [|done]. unfold LogBuf.last_entry, window, LogBuf.size. cbn [lb_buf].
  rewrite ltb_true by len. rewrite lookup_drop, last_lookup. f_equal. f_equal. len.
Qed.

(** ** Running the store

    The store on the disk [d], no call failing, with its three streams. *)
Definition fsx d (s1 s2 s3 : fstream) n st b sz : fs_log_store :=
  mk_fs_log_store (mk_os d []) s1 s2 s3 n st b sz.
Abbreviation IDX := (opened LOG_INDEX_FILE).
Abbreviation DAT := (opened LOG_DATA_FILE).
Abbreviation STI := (opened LOG_START_INDEX_FILE).

Lemma start_fsx d s1 s2 s3 n st b sz : start_idx_ (fsx d s1 s2 s3 n st b sz) = st.
Proof. done. Qed.
Lemma entries_fsx d s1 s2 s3 n st b sz : entries_in_store_ (fsx d s1 s2 s3 n st b sz) = n.
Proof. done. Qed.
Lemma buf_fsx d s1 s2 s3 n st b sz : buf_ (fsx d s1 s2 s3 n st b sz) = b.
Proof. done. Qed.
Lemma size_fsx d s1 s2 s3 n st b sz : buf_size_ (fsx d s1 s2 s3 n st b sz) = sz.
Proof. done. Qed.
Ltac fields := rewrite ?start_fsx, ?entries_fsx, ?buf_fsx, ?size_fsx in *.
Lemma on_idx {A} (m : M io A) d s1 s2 s3 n st b sz a d' s1' :
  m (on_disk d s1) = Ret a (on_disk d' s1') →
  on idx_file_ m (fsx d s1 s2 s3 n st b sz) = Ret a (fsx d' s1' s2 s3 n st b sz).
Proof. unfold on, on_disk, fsx, fs_os, idx_file_. by intros ->. Qed.
Lemma on_data {A} (m : M io A) d s1 s2 s3 n st b sz a d' s2' :
  m (on_disk d s2) = Ret a (on_disk d' s2') →
  on data_file_ m (fsx d s1 s2 s3 n st b sz) = Ret a (fsx d' s1 s2' s3 n st b sz).
Proof. unfold on, on_disk, fsx, fs_os, data_file_. by intros ->. Qed.
Lemma on_sti {A} (m : M io A) d s1 s2 s3 n st b sz a d' s3' :
  m (on_disk d s3) = Ret a (on_disk d' s3') →
  on start_idx_file_ m (fsx d s1 s2 s3 n st b sz) = Ret a (fsx d' s1 s2 s3' n st b sz).
Proof. unfold on, on_disk, fsx, fs_os, start_idx_file_. by intros ->. Qed.
Lemma on_sys {A} (m : M os A) d s1 s2 s3 n st b sz a d' :
  m (mk_os d []) = Ret a (mk_os d' []) →
  sys m (fsx d s1 s2 s3 n st b sz) = Ret a (fsx d' s1 s2 s3 n st b sz).
Proof. unfold sys, zoom, fsx, fs_os. by intros ->. Qed.
Lemma on_win {A} (m : M log_store_buffer A) d s1 s2 s3 n st b sz a b' :
  m b = Ret a b' → win m (fsx d s1 s2 s3 n st b sz) = Ret a (fsx d s1 s2 s3 n st b' sz).
Proof. unfold win, zoom, fsx, buf_. by intros ->. Qed.
Lemma io_check_good d f1 p1 f2 p2 s3 n st b sz :
  io_check (fsx d (opened f1 p1) (opened f2 p2) s3 n st b sz)
  = Ret () (fsx d (opened f1 p1) (opened f2 p2) s3 n st b sz).
Proof. done. Qed.
Lemma upd_entries f d s1 s2 s3 n st b sz :
  modify (set_field entries_in_store_ f) (fsx d s1 s2 s3 n st b sz)
  = Ret () (fsx d s1 s2 s3 (f n) st b sz).
Proof. done. Qed.

Lemma upd_start f d s1 s2 s3 n st b sz :
  modify (set_field start_idx_ f) (fsx d s1 s2 s3 n st b sz)
  = Ret () (fsx d s1 s2 s3 n (f st) b sz).
Proof. done. Qed.
Lemma upd_buf G d s1 s2 s3 n st b sz :
  modify (λ s, s <| buf_ := G s |>) (fsx d s1 s2 s3 n st b sz)
  = Ret () (fsx d s1 s2 s3 n st (G (fsx d s1 s2 s3 n st b sz)) sz).
Proof. done. Qed.

Lemma ulong_buffer_ret {S} z (s : S) : ulong_buffer z s = Ret (cursor [] (le_bytes 8 z)) s.
Proof.
  unfold ulong_buffer. change ulen with (Z.of_nat 8). erewrite bind_Ret by by apply alloc_cursor.
  unfold local, Buf.put_ulong. unfold_M. rewrite put_bytes_zeros by len. rewrite set_pos_0.
  unfold sz_ulong. rewrite length_le_bytes. simpl. by rewrite app_nil_r.
Qed.

Lemma local_ret {S T A} (m : M T A) t (s : S) a t' :
  m t = Ret a t' → local t m s = Ret (a, t') s.
Proof. unfold local. by intros ->. Qed.

Section reads.
Context (d : gmap file_name (list byte)) (f : file_name) (c : list byte) (Hc : d !! f = Some c).

Lemma read_buffer_ret p n q x r : c = q ++ x ++ r → p = length q → n = Z.of_nat (length x) →
  n < 2 ^ 31 →
  read_buffer n (on_disk d (opened f p)) = Ret (cursor [] x) (on_disk d (opened f (p + length x))).
Proof.
  intros Ec Ep -> Hn. unfold read_buffer. erewrite bind_Ret by by apply alloc_cursor.
  by eapply stream_get_buffer.
Qed.
Lemma read_ulong_ret p z q r : c = q ++ le_bytes 8 z ++ r → p = length q → is_u64 z →
  read_ulong (on_disk d (opened f p)) = Ret z (on_disk d (opened f (p + 8))).
Proof.
  intros Ec Ep Hz. change (read_ulong) with
    (b ← Buf.alloc ulen; b ← Stream.get_buffer b; '(z, _) ← local b Buf.get_ulong; mret z).
  change ulen with (Z.of_nat 8). erewrite bind_Ret by by apply alloc_cursor.
  pose proof (stream_get_buffer d f c Hc p q (le_bytes 8 z) r Ec Ep) as Hg.
  rewrite length_le_bytes in Hg. erewrite bind_Ret by exact Hg.
  rewrite <- (app_nil_r (le_bytes 8 z)).
  by erewrite bind_Ret by by eapply local_cursor, get_ulong_cursor.
Qed.
End reads.

(** One step on a stream of the store. *)
Ltac fs_on := first [apply on_idx | apply on_data | apply on_sti | apply on_win | apply on_sys].
Tactic Notation "fs" uconstr(l) := erewrite bind_Ret; [| fs_on; eapply l; try eassumption ]; cbn beta iota.

(** *** Filling the window from the disk *)
Lemma fill_loop_ret d es st k sz l1 l2 el q fuel p1 s3 n :
  d !! LOG_DATA_FILE = Some (data_bytes es) → es = l1 ++ l2 ++ [el] → Forall stored es →
  fits es → size_ok sz → 0 ≤ st → st + Z.of_nat (length es) < 2 ^ 63 →
  (k ≤ length l1)%nat → Z.of_nat (length es) - Z.of_nat k ≤ sz → (length l2 ≤ fuel)%nat →
  fill_loop fuel (cursor q (idx_of (tail (positions (dlen l1) (l2 ++ [el]))))) (dlen l1)
    (fsx d (IDX p1) (DAT (length (data_bytes l1))) s3 n st (window l1 st k sz) sz)
  = Ret (dlen (l1 ++ l2))
      (fsx d (IDX p1) (DAT (length (data_bytes (l1 ++ l2)))) s3 n st (window (l1 ++ l2) st k sz) sz).
Proof.
  intros Hd Hes Hst Hfit Hsz H0 Hb. revert l1 q fuel Hes.
  induction l2 as [|e l2 IH]; intros l1 q fuel Hes Hk Hl Hfuel.
  - simpl. destruct fuel; simpl; unfold cursor, Buf.size; simpl;
      rewrite (proj2 (Nat.ltb_ge _ _)) by (rewrite app_nil_r; lia); by rewrite app_nil_r.
  - destruct fuel as [|fuel]; [simpl in Hfuel; lia|]. simpl in Hfuel.
    pose proof Hst as Hst'. rewrite Hes, Forall_app in Hst'. destruct Hst' as [_ Hst'].
    simpl in Hst'. apply Forall_cons in Hst' as [He _].
    destruct (deserialize_stored e He) as [b Hde]. pose proof (enc_small e He).
    pose proof (dlen_nonneg l1). pose proof (dlen_nonneg (l2 ++ [el])).
    assert (dlen es = dlen l1 + (Z.of_nat (length (enc e)) + dlen (l2 ++ [el]))) as Hlen.
    { rewrite Hes, dlen_app. simpl. by rewrite dlen_cons. }
    destruct Hfit as [Hf1 Hf2].
    assert (tail (positions (dlen l1) ((e :: l2) ++ [el]))
            = (dlen l1 + Z.of_nat (length (enc e))) :: tail (positions (dlen (l1 ++ [e])) (l2 ++ [el]))) as Ht.
    { simpl. rewrite dlen_app, dlen_cons, dlen_nil, Z.add_0_r. by destruct l2. }
    rewrite Ht, idx_of_cons. cbn [fill_loop].
    rewrite (proj2 (Nat.ltb_lt _ _)) by (unfold cursor, Buf.size; simpl; len).
    erewrite bind_Ret by (apply local_cursor, get_ulong_cursor; unfold is_u64; lia). cbn beta iota.
    replace (u64 _) with (Z.of_nat (length (enc e))) by (rewrite u64_small by (unfold is_u64; lia); lia).
    fs (read_buffer_ret _ _ _ Hd _ _ (data_bytes l1) (enc e) (data_bytes (l2 ++ [el])));
      [|rewrite Hes, data_bytes_app; done|done|done|lia].
    erewrite bind_Ret by (by apply local_cursor). cbn beta iota.
    destruct (win_append e l1 st k sz) as (k' & _ & _ & Hk' & Hw); try done.
    { rewrite Hes in Hl. len. }
    { rewrite Hes in Hb. len. }
    rewrite Hk' in Hw by (rewrite Hes in Hl; len).
    fs Hw. rewrite (cons_middle e l1 l2), app_assoc.
    replace (length (data_bytes l1) + length (enc e))%nat with (length (data_bytes (l1 ++ [e])))
      by (rewrite data_bytes_snoc; len).
    replace (dlen l1 + Z.of_nat (length (enc e))) with (dlen (l1 ++ [e]))
      by (rewrite dlen_app, dlen_cons, dlen_nil; lia).
    apply IH; [|len..]. by rewrite Hes, <- app_assoc.
Qed.

(** What [fill_buffer] does once it has the positions of the entries. *)
Lemma fill_rest d es st k sz l1 l2 el q p1 s3 n :
  d !! LOG_DATA_FILE = Some (data_bytes es) → es = l1 ++ l2 ++ [el] → Forall stored es →
  fits es → size_ok sz → 0 ≤ st → st + Z.of_nat (length es) < 2 ^ 63 →
  length l1 = k → Z.of_nat (length es) - Z.of_nat k ≤ sz →
  let ib := cursor q (idx_of (tail (positions (dlen l1) (l2 ++ [el])))) in
  (data_start ← fill_loop (Buf.size ib) ib (dlen l1);
   b ← on data_file_ (read_buffer (u64 (u64 (dlen es) - data_start)));
   '(entry, _) ← local b LogEntry.deserialize; win (LogBuf.append entry))
    (fsx d (IDX p1) (DAT (length (data_bytes l1))) s3 n st (window l1 st k sz) sz)
  = Ret () (fsx d (IDX p1) (DAT (length (data_bytes es))) s3 n st (window es st k sz) sz).
Proof.
  intros Hd Hes Hst Hf Hsz H0 Hn Hl1 Hl ib. destruct (Hf) as [Hf1 Hf2].
  pose proof (dlen_nonneg l1). pose proof (dlen_nonneg l2).
  assert (stored el) as Hel.
  { rewrite Hes in Hst. rewrite !Forall_app, Forall_singleton in Hst. tauto. }
  assert (dlen es = dlen l1 + dlen l2 + Z.of_nat (length (enc el))) as Hlen.
  { rewrite Hes, !dlen_app, dlen_cons, dlen_nil. lia. }
  pose proof (enc_small el Hel).
  erewrite bind_Ret by (apply (fill_loop_ret d es st k sz l1 l2 el); try done; try lia;
    unfold ib, cursor, Buf.size; simpl; len; rewrite length_idx_of;
    destruct l2 as [|e l2]; simpl; [lia|]; rewrite length_positions; len).
  cbn beta iota. rewrite (u64_small (dlen es)) by (unfold is_u64; lia).
  replace (u64 _) with (Z.of_nat (length (enc el)))
    by (rewrite u64_small by (unfold is_u64; rewrite dlen_app; lia); rewrite dlen_app; lia).
  fs (read_buffer_ret _ _ _ Hd _ _ (data_bytes (l1 ++ l2)) (enc el) []);
    [|by rewrite app_nil_r, <- data_bytes_snoc, <- app_assoc, <- Hes|done|done|lia].
  destruct (deserialize_stored el Hel) as [b Hde].
  erewrite bind_Ret by (by apply local_cursor). cbn beta iota.
  destruct (win_append el (l1 ++ l2) st k sz) as (k' & _ & _ & Hk' & Hw); [done|len..|].
  { rewrite Hes in Hl. len. }
  { rewrite Hes in Hn. len. }
  rewrite Hk', <- app_assoc, <- Hes in Hw by (rewrite Hes in Hl; len).
  erewrite on_win by exact Hw. f_equal. f_equal. f_equal. rewrite Hes, app_assoc, data_bytes_snoc. len.
Qed.

Lemma fill_buffer_ret d g k sz p1 p2 s3 :
  files d g → log_fits g → size_ok sz → win_ok k (al_entries g) sz →
  let n := Z.of_nat (length (al_entries g)) in
  ∃ p1' p2', fill_buffer (fsx d (IDX p1) (DAT p2) s3 n (al_start g)
      (mk_log_store_buffer [] (al_start g + Z.of_nat k) sz) sz)
  = Ret () (fsx d (IDX p1') (DAT p2') s3 n (al_start g) (window (al_entries g) (al_start g) k sz) sz).
Proof.
  intros (Hi & Hd & _) (H1 & Hn & [Hf1 Hf2] & Hst) Hsz Hk. unfold al_next in Hn.
  set (es := al_entries g) in *. set (st := al_start g) in *. unfold fill_buffer.
  erewrite bind_Ret by done. fs (stream_seek_end _ _ _ Hi). fs (stream_seek_end _ _ _ Hd).
  fs (stream_tell d LOG_INDEX_FILE). rewrite length_idx.
  destruct Hk as [[Hk|[-> Hnil]] Hl]; cycle 1.
  { rewrite Hnil. exists 0%nat, 0%nat. unfold window. by rewrite drop_nil. }
  rewrite ltb_true by lia. unfold when.
  fs (stream_tell d LOG_INDEX_FILE). fs (stream_tell d LOG_DATA_FILE). erewrite bind_Ret by done.
  cbn beta iota zeta. change ulen with 8. cbn [LogBuf.first_idx buf_ fsx lb_start_idx start_idx_].
  rewrite (u64_small (_ * 8)) by (unfold is_u64; lia).
  fs (stream_seek _ _ _ Hi); [|lia].
  replace (u64 (Z.of_nat _ - _)) with (Z.of_nat (8 * length (drop k es)))
    by (rewrite u64_small by (unfold is_u64; lia); len).
  destruct (exists_last (l:=drop k es)) as (l2 & el & Hes2).
  { intros Hx. apply (f_equal length) in Hx. len. }
  pose proof (take_drop k es) as Hes. rewrite Hes2 in Hes. symmetry in Hes.
  set (l1 := take k es) in Hes. assert (length l1 = k) as Hl1 by (unfold l1; len).
  assert (positions (dlen l1) (l2 ++ [el]) = dlen l1 :: tail (positions (dlen l1) (l2 ++ [el])))
    as Hpos by (by destruct l2).
  pose proof (dlen_nonneg l1). pose proof (dlen_nonneg (l2 ++ [el])).
  assert (dlen es = dlen l1 + dlen (l2 ++ [el])) as Hlen by (by rewrite Hes, dlen_app).
  fs (read_buffer_ret _ _ _ Hi _ _ (idx_bytes l1) (idx_of (positions (dlen l1) (l2 ++ [el]))) []);
    [|by rewrite app_nil_r, <- idx_bytes_app, <- Hes|rewrite length_idx; lia
     |by rewrite length_idx_of, length_positions, Hes2|len].
  rewrite Hpos, idx_of_cons.
  erewrite bind_Ret by (apply local_cursor, get_ulong_cursor; unfold is_u64; lia). cbn beta iota.
  fs (stream_seek _ _ _ Hd); [|lia]. fold (dlen es).
  replace (Z.to_nat (dlen l1)) with (length (data_bytes l1)) by (unfold dlen; lia).
  replace (mk_log_store_buffer [] _ sz) with (window l1 st k sz)
    by (unfold window; by rewrite drop_ge by lia).
  do 2 eexists. by apply fill_rest; try done; lia.
Qed.

(** ** The representation: the store [s] holds the log [g] *)
Definition fs_rep (g : alog) (s : fs_log_store) : Prop :=
  ∃ d p1 p2 p3 k sz, files d g ∧ log_fits g ∧ size_ok sz ∧ win_ok k (al_entries g) sz ∧
    s = fsx d (IDX p1) (DAT p2) (STI p3) (Z.of_nat (length (al_entries g))) (al_start g)
          (window (al_entries g) (al_start g) k sz) sz.
(** The first index that is in the window. *)
Definition window_first (s : fs_log_store) : Z := LogBuf.first_idx (buf_ s).

Lemma rep_intro d p1 p2 p3 k sz g :
  files d g → log_fits g → size_ok sz → win_ok k (al_entries g) sz →
  fs_rep g (fsx d (IDX p1) (DAT p2) (STI p3) (Z.of_nat (length (al_entries g))) (al_start g)
              (window (al_entries g) (al_start g) k sz) sz).
Proof. intros. exists d, p1, p2, p3, k, sz. auto 10. Qed.

Lemma files_append d g e :
  files d g →
  files (<[LOG_DATA_FILE := data_bytes (al_entries g) ++ enc e]>
          (<[LOG_INDEX_FILE := idx_bytes (al_entries g) ++ le_bytes 8 (dlen (al_entries g))]> d))
        (al_append e g).
Proof.
  intros (_ & _ & Hs). unfold files, al_append, set_field. simpl.
  rewrite idx_bytes_snoc, data_bytes_snoc.
  rewrite (lookup_insert_ne _ _ LOG_INDEX_FILE) by done. rewrite !lookup_insert_eq.
  by rewrite !lookup_insert_ne.
Qed.

Lemma append_rep g s e b :
  fs_rep g s → log_entry_ok e b → log_fits (al_append (rewind e) g) →
  ∃ s', append e s = Ret (al_next g) s' ∧ fs_rep (al_append (rewind e) g) s'.
Proof.
  intros (d & p1 & p2 & p3 & k & sz & (Hi & Hd & Hs) & Hfit & Hsz & Hk & ->) Hok Hfit'.
  destruct Hfit as (H1 & Hn & [Hf1 Hf2] & Hst). pose proof Hfit' as (_ & Hn' & [Hf1' _] & _).
  unfold al_next, al_append, set_field in *. simpl in Hn', Hf1'. rewrite length_app in *. simpl in *.
  set (es := al_entries g) in *. set (st := al_start g) in *.
  unfold append. fs (stream_seek_end _ _ _ Hi). fs (stream_seek_end _ _ _ Hd).
  fs (stream_tell d LOG_DATA_FILE). erewrite bind_Ret by apply ulong_buffer_ret. cbn beta iota.
  fold (dlen es). pose proof (dlen_nonneg es). rewrite (u64_small (dlen es)) by (unfold is_u64; lia).
  fs (stream_put_buffer _ _ _ Hi). rewrite rest_cursor, fwrite_end.
  erewrite bind_Ret by (apply local_ret, (serialize_stored e b), Hok). cbn beta iota.
  fs (stream_put_buffer (<[LOG_INDEX_FILE:=_]> d)); [|by rewrite lookup_insert_ne].
  rewrite rest_cursor, fwrite_end.
  destruct (win_append (rewind e) es st k sz) as (k' & Hk' & _ & _ & Hw);
    [done|destruct Hk as [[?|[-> ?]] ?]; lia|apply Hk|lia|lia|].
  fs Hw. erewrite bind_Ret by apply upd_entries.
  fs (stream_flush _ LOG_INDEX_FILE); [|by rewrite lookup_insert_ne, lookup_insert_eq by done].
  fs (stream_flush _ LOG_DATA_FILE); [|by rewrite lookup_insert_eq].
  erewrite bind_Ret by apply io_check_good.
  eexists. split.
  - unfold gets, fsx. cbn [start_idx_ entries_in_store_]. rewrite !u64_small by (unfold is_u64; try rewrite u64_small by (unfold is_u64; lia); lia).
    f_equal. lia.
  - replace (Z.of_nat (length es) + 1) with (Z.of_nat (length (es ++ [rewind e]))) by len.
    apply (rep_intro _ _ _ _ k' sz (al_append (rewind e) g)); try done.
    by apply files_append.
Qed.

(** An entry that is not the last one: where it is in the files. *)
Definition entry_at_pos (es l1 : list log_entry) (e e2 : log_entry) (l2 : list log_entry) : Prop :=
  stored e ∧
  idx_bytes es = idx_bytes l1 ++ le_bytes 8 (dlen l1) ++
    le_bytes 8 (dlen l1 + Z.of_nat (length (enc e))) ++
    idx_of (positions (dlen l1 + Z.of_nat (length (enc e)) + Z.of_nat (length (enc e2))) l2) ∧
  data_bytes es = data_bytes l1 ++ enc e ++ data_bytes (e2 :: l2) ∧
  0 ≤ dlen l1 ∧ dlen l1 + Z.of_nat (length (enc e)) ≤ dlen es ∧
  9 ≤ Z.of_nat (length (enc e)) < 2 ^ 31.
Lemma entry_bytes es l1 e e2 l2 : es = l1 ++ e :: e2 :: l2 → Forall stored es →
  entry_at_pos es l1 e e2 l2.
Proof.
  intros -> Hst. assert (stored e) as Hse by (rewrite Forall_app, Forall_cons in Hst; tauto).
  split; [done|]. split; [by rewrite idx_bytes_app; simpl; rewrite !idx_of_cons|].
  split; [by rewrite data_bytes_app, data_bytes_cons|].
  split; [apply dlen_nonneg|]. split; [|by apply enc_small].
  rewrite dlen_app, dlen_cons. pose proof (dlen_nonneg (e2 :: l2)). lia.
Qed.
Lemma entry_split (es : list log_entry) j : (S j < length es)%nat → Forall stored es →
  ∃ l1 e e2 l2, l1 = take j es ∧ length l1 = j ∧ es !! j = Some e ∧ entry_at_pos es l1 e e2 l2.
Proof.
  intros Hj Hst. destruct (lookup_lt_is_Some_2 es j) as [e He]; [lia|].
  pose proof (take_drop_middle es j e He) as Hm.
  destruct (drop (S j) es) as [|e2 l2] eqn:E; [apply (f_equal length) in E; len|].
  exists (take j es), e, e2, l2. split; [done|]. split; [len|]. split; [done|]. by apply entry_bytes.
Qed.

Lemma win_ok_le k es sz : win_ok k es sz → (k ≤ length es)%nat.
Proof. intros [[?|[-> ?]] _]; lia. Qed.

Lemma entry_at_rep g s i :
  fs_rep g s → al_start g ≤ i < 2 ^ 64 →
  ∃ s', entry_at i s = Ret (al_get i g) s' ∧ fs_rep g s'.
Proof.
  intros (d & p1 & p2 & p3 & k & sz & (Hi & Hd & Hs) & Hfit & Hsz & Hk & ->) Hb.
  pose proof Hfit as (H1 & Hn & [Hf1 Hf2] & Hst). unfold al_next, al_get in *.
  rewrite ltb_false by lia. unfold entry_at. erewrite bind_Ret by done. fields. pose proof (win_ok_le _ _ _ Hk).
  rewrite win_at by (unfold is_u64; lia).
  destruct (Z.ltb_spec i (al_start g + Z.of_nat k)) as [Hlt|Hge]; cycle 1.
  { destruct (al_entries g !! Z.to_nat (i - al_start g)) as [e|] eqn:E.
    - eexists. split; [done|]. by apply rep_intro.
    - apply lookup_ge_None in E. fields. rewrite ltb_false by lia.
      erewrite bind_Ret by apply io_check_good. fields.
      rewrite (u64_small (al_start g + _)) by (unfold is_u64; lia). rewrite leb_true by lia.
      eexists. split; [done|]. by apply rep_intro. }
  destruct Hk as [[Hk|[-> Hk]] Hl]; [|lia].
  fields. rewrite ltb_false by lia.
  erewrite bind_Ret by apply io_check_good. fields.
  rewrite (u64_small (al_start g + _)) by (unfold is_u64; lia). rewrite leb_false by lia.
  change ulen with 8. rewrite (u64_small (_ * 8)) by (unfold is_u64; lia).
  destruct (entry_split (al_entries g) (Z.to_nat (i - al_start g)))
    as (l1 & e & e2 & l2 & _ & Hl1 & He & Hse & Hx & Hdb & H0 & H2 & H3); [lia|done|].
  destruct (deserialize_stored e Hse) as [b Hde].
  fs (stream_seek _ _ _ Hi); [|lia].
  fs (read_ulong_ret _ _ _ Hi _ (dlen l1)); [|rewrite length_idx; lia|unfold is_u64; lia].
  fs (read_ulong_ret _ _ _ Hi _ (dlen l1 + Z.of_nat (length (enc e))) (idx_bytes l1 ++ le_bytes 8 (dlen l1)));
    [|by rewrite <- app_assoc|len; rewrite length_idx; lia|unfold is_u64; lia].
  fs (stream_seek _ _ _ Hd); [|lia].
  replace (u64 _) with (Z.of_nat (length (enc e)))
    by (rewrite i32_small by (unfold is_i32; lia); rewrite u64_small by (unfold is_u64; lia); lia).
  fs (read_buffer_ret _ _ _ Hd _ _ (data_bytes l1) (enc e)); [|unfold dlen; lia|done|lia].
  erewrite bind_Ret by (by apply local_cursor). rewrite He.
  eexists. split; [done|]. apply rep_intro; try done. by split; [left|].
Qed.

Lemma term_at_rep g s i :
  fs_rep g s → al_start g ≤ i < al_next g →
  ∃ s', term_at i s = Ret (al_term i g) s' ∧ fs_rep g s'.
Proof.
  intros (d & p1 & p2 & p3 & k & sz & (Hi & Hd & Hs) & Hfit & Hsz & Hk & ->) Hb.
  pose proof Hfit as (H1 & Hn & [Hf1 Hf2] & Hst). unfold al_term, al_get. rewrite ltb_false by lia.
  unfold al_next in *. unfold term_at. erewrite bind_Ret by done. fields.
  destruct Hk as [[Hk|[-> Hk]] Hl]; [|rewrite Hk in Hb; simpl in Hb; lia].
  rewrite win_first_idx, win_last_idx, (ltb_true i), andb_true_r by lia.
  destruct (lookup_lt_is_Some_2 (al_entries g) (Z.to_nat (i - al_start g))) as [e He]; [lia|].
  destruct (Z.leb_spec (al_start g + Z.of_nat k) i) as [Hge|Hlt].
  - eexists. split; [|by apply rep_intro; try done; split; [left|]].
    rewrite He. apply on_win, win_term; try done; lia.
  - fields. rewrite ltb_false by lia.
    erewrite bind_Ret by apply io_check_good. fields.
    destruct (entry_split (al_entries g) (Z.to_nat (i - al_start g)))
      as (l1 & e' & e2 & l2 & _ & Hl1 & He' & Hse & Hx & Hdb & H0 & H2 & H3); [lia|done|].
    assert (e' = e) as -> by congruence.
    rewrite i32_small by (unfold is_i32; lia). change ulen with 8. rewrite u64_small by (unfold is_u64; lia).
    fs (stream_seek _ _ _ Hi); [|lia].
    fs (read_ulong_ret _ _ _ Hi _ (dlen l1)); [|rewrite length_idx; lia|unfold is_u64; lia].
    fs (stream_seek _ _ _ Hd); [|lia].
    eexists. split; [|by apply rep_intro; try done; split; [left|]]. rewrite He.
    apply on_data. destruct Hse as [dd (_ & Ht & _)].
    eapply (read_ulong_ret _ _ _ Hd _ _ (data_bytes l1));
      [rewrite Hdb; unfold enc, encode_entry; by rewrite <- !app_assoc|unfold dlen; lia|done].
Qed.

(** *** Ranges *)
Lemma push_range_ret off n res b : 0 ≤ off →
  (Z.to_nat off + n ≤ length (lb_buf b))%nat →
  LogBuf.push_range off n res b
  = Ret (res ++ (Some <$> take n (drop (Z.to_nat off) (lb_buf b)))) b.
Proof.
  revert off res. induction n as [|n IH]; intros off res H0 Hn; simpl.
  - by rewrite app_nil_r.
  - erewrite bind_Ret by done. rewrite ltb_false by lia.
    destruct (lookup_lt_is_Some_2 (lb_buf b) (Z.to_nat off)) as [e He]; [lia|].
    rewrite He. erewrite bind_Ret by done. rewrite IH by lia. f_equal.
    rewrite (drop_S _ _ _ He). simpl. rewrite <- app_assoc. do 4 f_equal.
    replace (Z.to_nat (off + 1)) with (S (Z.to_nat off)) by lia. done.
Qed.

(** [slice es i j]: the entries from the [i]-th to before the [j]-th. *)
Definition slice (es : list log_entry) (i j : nat) : list log_entry := take (j - i) (drop i es).
Lemma win_fill es st k sz a b : 0 ≤ st → st + Z.of_nat (length es) < 2 ^ 63 →
  Z.of_nat (length es) < 2 ^ 31 → (a < b ≤ length es)%nat → (k ≤ b)%nat →
  LogBuf.fill (st + Z.of_nat a) (st + Z.of_nat b) [] (window es st k sz)
  = Ret (st + Z.of_nat k, replicate (k - a) None ++ (Some <$> slice es (Nat.max a k) b))
      (window es st k sz).
Proof.
  intros H0 Hn Hs Hab Hk. unfold LogBuf.fill.
  rewrite (bind_Ret _ _ _ (st + Z.of_nat k) (window es st k sz)) by done.
  rewrite ltb_false by lia. cbv zeta.
  rewrite !i32_small by (unfold is_i32; lia).
  destruct (Z.ltb_spec 0 (st + Z.of_nat a - (st + Z.of_nat k))).
  - erewrite bind_Ret by (apply push_range_ret; unfold window; cbn [lb_buf]; len).
    unfold mret, M_ret, slice, window. cbn [lb_buf]. f_equal. f_equal.
    replace (k - a)%nat with 0%nat by lia. simpl. rewrite drop_drop. f_equal. f_equal; [lia|]. f_equal. lia.
  - erewrite bind_Ret by (apply push_range_ret; unfold window; cbn [lb_buf]; len).
    unfold mret, M_ret, slice, window. cbn [lb_buf]. f_equal. f_equal. simpl.
    f_equal; [f_equal; lia|]. rewrite drop_0. f_equal. f_equal; [lia|]. f_equal. lia.
Qed.

Lemma read_entries_ret d es mid l1 e2 l2 dn tl p2 s3 n st b sz :
  d !! LOG_INDEX_FILE = Some (idx_bytes es) → d !! LOG_DATA_FILE = Some (data_bytes es) →
  es = l1 ++ mid ++ e2 :: l2 → Forall stored es → fits es →
  ∃ p1' p2', read_entries (length mid) (length dn) (dlen l1)
      ((Some <$> dn) ++ replicate (length mid) None ++ tl)
      (fsx d (IDX (8 * S (length l1))) (DAT p2) s3 n st b sz)
  = Ret ((Some <$> dn ++ mid) ++ tl) (fsx d (IDX p1') (DAT p2') s3 n st b sz).
Proof.
  intros Hi Hd Hes Hst [Hf1 Hf2]. revert l1 dn p2 Hes.
  induction mid as [|e mid IH]; intros l1 dn p2 Hes.
  { do 2 eexists. cbn [read_entries length]. by rewrite app_nil_r. }
  assert (∃ e3 l3, es = l1 ++ e :: e3 :: l3) as (e3 & l3 & Hes').
  { rewrite Hes. destruct mid; simpl; eauto. }
  destruct (entry_bytes _ _ _ _ _ Hes' Hst) as (Hse & Hx & Hdb & H0 & H2 & H3).
  destruct (deserialize_stored e Hse) as [bb Hde]. cbn [length read_entries].
  fs (read_ulong_ret _ _ _ Hi _ (dlen l1 + Z.of_nat (length (enc e))) (idx_bytes l1 ++ le_bytes 8 (dlen l1)));
    [|by rewrite <- app_assoc|len; rewrite length_idx; lia|unfold is_u64; lia].
  fs (stream_seek _ _ _ Hd); [|lia].
  replace (u64 _) with (Z.of_nat (length (enc e)))
    by (rewrite i32_small by (unfold is_i32; lia); rewrite u64_small by (unfold is_u64; lia); lia).
  fs (read_buffer_ret _ _ _ Hd _ _ (data_bytes l1) (enc e)); [|unfold dlen; lia|done|lia].
  erewrite bind_Ret by (by apply local_cursor). cbn beta iota.
  rewrite (proj2 (Nat.ltb_lt _ _)) by (rewrite !length_app, length_fmap; simpl; lia).
  erewrite bind_Ret by done.
  replace (<[length dn := Some e]> _)
    with ((Some <$> (dn ++ [e])) ++ replicate (length mid) None ++ tl); cycle 1.
  { replace (length dn) with (length (Some <$> dn) + 0)%nat by (rewrite length_fmap; lia).
    rewrite insert_app_r, fmap_app, <- app_assoc. done. }
  replace (dlen l1 + Z.of_nat (length (enc e))) with (dlen (l1 ++ [e]))
    by (rewrite dlen_app, dlen_cons, dlen_nil; lia).
  replace (8 * S (length l1) + 8)%nat with (8 * S (length (l1 ++ [e])))%nat by len.
  replace (S (length dn)) with (length (dn ++ [e])) by len.
  rewrite (cons_middle e dn mid), (app_assoc dn). apply IH. by rewrite Hes, <- app_assoc.
Qed.

Lemma al_slice_slice g a b :
  al_slice (al_start g + Z.of_nat a) (al_start g + Z.of_nat b) g = slice (al_entries g) a b.
Proof. unfold al_slice, slice. f_equal; [lia|]. f_equal. lia. Qed.
Lemma slice_app {es : list log_entry} {i j l : nat} : (i ≤ j ≤ l)%nat →
  slice es i l = slice es i j ++ slice es j l.
Proof.
  intros. unfold slice. rewrite <- (take_drop (j - i) (take (l - i) (drop i es))). f_equal.
  - rewrite take_take. f_equal. lia.
  - rewrite skipn_firstn_comm, drop_drop. f_equal; [lia|]. f_equal. lia.
Qed.
Lemma slice_split (es : list log_entry) i j : (i ≤ j < length es)%nat →
  ∃ e l2, es = take i es ++ slice es i j ++ e :: l2 ∧ length (slice es i j) = (j - i)%nat.
Proof.
  intros H. unfold slice. destruct (drop j es) as [|e l2] eqn:E.
  { apply (f_equal length) in E. len. }
  exists e, l2. split; [|len]. rewrite <- E. rewrite <- (take_drop i es) at 1. f_equal.
  rewrite <- (take_drop (j - i) (drop i es)) at 1. f_equal. rewrite drop_drop. f_equal. lia.
Qed.

Lemma log_entries_rep g s i j :
  fs_rep g s → al_start g ≤ i < al_next g → i < j < 2 ^ 64 →
  window_first s ≤ Z.min j (al_next g) →
  ∃ s', log_entries i j s = Ret (Some (Some <$> al_slice i (Z.min j (al_next g)) g)) s' ∧
    fs_rep g s'.
Proof.
  intros (d & p1 & p2 & p3 & k & sz & (Hi & Hd & Hs) & Hfit & Hsz & Hk & ->) Hb Hj Hw.
  pose proof Hfit as (H1 & Hn & [Hf1 Hf2] & Hst).
  unfold window_first in Hw. fields. rewrite win_first_idx in Hw. unfold al_next in *.
  unfold log_entries. erewrite bind_Ret by done. fields.
  rewrite ltb_false, leb_false, (u64_small (al_start g + _)), leb_false by (unfold is_u64; lia). cbn [orb].
  cbv zeta. rewrite (u64_small (i - _)), (u64_small (j - _)) by (unfold is_u64; lia).
  set (es := al_entries g) in *. set (st := al_start g) in *.
  set (a := Z.to_nat (i - st)). set (b := Z.to_nat (Z.min j (st + Z.of_nat (length es)) - st)).
  replace (if _ <? j - st then _ else _) with (Z.of_nat b)
    by (destruct (Z.ltb_spec (Z.of_nat (length es)) (j - st)); lia).
  rewrite leb_false, (u64_small (Z.of_nat b + st)) by (unfold is_u64; lia).
  replace i with (st + Z.of_nat a) by lia. rewrite (Z.add_comm (Z.of_nat b) st).
  replace (Z.min j _) with (st + Z.of_nat b) by lia.
  pose proof (al_slice_slice g a b) as Hsl. fold st es in Hsl. rewrite Hsl.
  fs win_fill; try lia.
  destruct (Z.ltb_spec (st + Z.of_nat a) (st + Z.of_nat k)) as [Hlt|Hge]; cycle 1.
  { erewrite bind_Ret by done. eexists. split; [|by apply rep_intro].
    replace (k - a)%nat with 0%nat by lia. by replace (Nat.max a k) with a by lia. }
  rewrite (u64_small (st + _ - _)) by (unfold is_u64; lia). rewrite Nat.max_r by lia.
  assert (k < length es)%nat as Hkl by (destruct Hk as [[?|[? ?]] ?]; lia).
  destruct (slice_split es a k) as (e2 & l2 & Hes & Hlen); [lia|].
  destruct (entry_split es a) as (l1 & e & e3 & l3 & Hl1 & Hll1 & _ & _ & Hx & _ & H0 & H2 & H3);
    [lia|done|]. rewrite <- Hl1 in Hes.
  destruct (read_entries_ret d es (slice es a k) l1 e2 l2 [] (Some <$> slice es k b) p2 (STI p3)
    (Z.of_nat (length es)) st (window es st k sz) sz) as (p1' & p2' & Hr); try done.
  erewrite bind_Ret; [|erewrite bind_Ret by apply io_check_good].
  2: { change ulen with 8. rewrite (u64_small (_ * 8)) by (unfold is_u64; lia).
    fs (stream_seek _ _ _ Hi); [|lia].
    fs (read_ulong_ret _ _ _ Hi _ (dlen l1)); [|rewrite length_idx; lia|unfold is_u64; lia].
    rewrite i32_small by (unfold is_i32; lia). rewrite Hlen in Hr.
    replace (Z.to_nat (_ - _)) with (k - a)%nat by lia.
    replace (Z.to_nat (_ * 8) + 8)%nat with (8 * S (length l1))%nat by lia. exact Hr. }
  eexists. split; [|by apply rep_intro]. unfold mret, M_ret. simpl.
  by rewrite <- fmap_app, <- slice_app by lia.
Qed.

(** *** Overwriting *)
Lemma truncate_files_ret d ci cd a b p1 p2 s3 n st bu sz :
  d !! LOG_INDEX_FILE = Some ci → d !! LOG_DATA_FILE = Some cd →
  Z.of_nat a < 2 ^ 63 → Z.of_nat b < 2 ^ 63 → 
  ∃ p1' p2', truncate_files (Z.of_nat a) (Z.of_nat b) (fsx d (IDX p1) (DAT p2) s3 n st bu sz)
  = Ret () (fsx (<[LOG_DATA_FILE := resize b x00 cd]> (<[LOG_INDEX_FILE := resize a x00 ci]> d))
      (IDX p1') (DAT p2') s3 n st bu sz).
Proof.
  intros Hi Hd Ha Hb. unfold truncate_files.
  fs (stream_close d LOG_INDEX_FILE). fs (stream_close d LOG_DATA_FILE).
  fs (os_truncate _ _ _ Hi); [|lia]. cbn [negb].
  fs (os_truncate (<[LOG_INDEX_FILE:=_]> d) LOG_DATA_FILE); [|by rewrite lookup_insert_ne|lia]. cbn [negb].
  rewrite !Nat2Z.id.
  fs (stream_open_ate (<[LOG_DATA_FILE:=_]> _) LOG_INDEX_FILE);
    [|by rewrite lookup_insert_ne, lookup_insert_eq by done|done].
  do 2 eexists. apply on_data. apply (stream_open_ate _ LOG_DATA_FILE); [by rewrite lookup_insert_eq|done].
Qed.

(** The bytes of the overwritten entry that stay behind the new one: there are some when
    the last entry is overwritten by a shorter one. *)
Definition left_over (es : list log_entry) (j : nat) (e : log_entry) : list byte :=
  if (S j <? length es)%nat then []
  else drop (length (enc e)) (default [] (enc <$> es !! j)).

Lemma write_at_disk {A} (K : log_entry → M fs_log_store A) d es j e0 b0 s3 n st b sz :
  let e := rewind e0 in log_entry_ok e0 b0 →
  d !! LOG_INDEX_FILE = Some (idx_bytes es) → d !! LOG_DATA_FILE = Some (data_bytes es) →
  (j < length es)%nat → fits es → dlen (take j es) + Z.of_nat (length (enc e)) < 2 ^ 63 →
  ∃ d' p1' p2',
    (on idx_file_ (Stream.put_buffer (cursor [] (le_bytes 8 (dlen (take j es)))));;
     '(ebuf, entry) ← local e0 LogEntry.serialize;
     on data_file_ (Stream.put_buffer ebuf);;
     on idx_file_ Stream.flush;; on data_file_ Stream.flush;;
     ndata_len ← on data_file_ Stream.tell;
     nidx_len ← on idx_file_ Stream.tell;
     on idx_file_ Stream.seek_end;;
     p ← on idx_file_ Stream.tell;
     when (u64 nidx_len <? u64 p) (truncate_files (u64 nidx_len) (u64 ndata_len));; K entry)
      (fsx d (IDX (8 * j)) (DAT (length (data_bytes (take j es)))) s3 n st b sz)
    = K e (fsx d' (IDX p1') (DAT p2') s3 n st b sz) ∧
    d' !! LOG_INDEX_FILE = Some (idx_bytes (take j es ++ [e])) ∧
    d' !! LOG_DATA_FILE = Some (data_bytes (take j es ++ [e]) ++ left_over es j e) ∧
    d' !! LOG_START_INDEX_FILE = d !! LOG_START_INDEX_FILE.
Proof.
  intros e Hok Hi Hd Hj [Hf1 Hf2] Hl. destruct (lookup_lt_is_Some_2 es j Hj) as [o Ho].
  pose proof (take_drop_middle es j o Ho) as Hes. set (l1 := take j es) in *.
  assert (length l1 = j) as Hl1 by (unfold l1; len).
  set (l2 := drop (S j) es) in *. assert (length es = S (j + length l2)) as Hlen by (unfold l2; len).
  clearbody l1 l2.
  assert (idx_bytes es = idx_bytes l1 ++ le_bytes 8 (dlen l1) ++
    idx_of (positions (dlen l1 + Z.of_nat (length (enc o))) l2)) as Hx
    by (rewrite <- Hes at 1; rewrite idx_bytes_app; simpl; by rewrite idx_of_cons).
  assert (data_bytes es = data_bytes l1 ++ (enc o ++ data_bytes l2)) as Hdb
    by (rewrite <- Hes at 1; by rewrite data_bytes_app, data_bytes_cons).
  fs (stream_put_buffer _ _ _ Hi). rewrite rest_cursor.
  replace (8 * j)%nat with (length (idx_bytes l1)) by (rewrite length_idx; lia).
  rewrite Hx, fwrite_app, <- Hx by done. rewrite insert_id by done.
  erewrite bind_Ret by (apply local_ret, (serialize_stored e0 b0), Hok). cbn beta iota. fold e.
  fs (stream_put_buffer _ _ _ Hd). rewrite rest_cursor, Hdb, fwrite_cut.
  set (dd := data_bytes l1 ++ enc e ++ drop _ _).
  fs (stream_flush (<[LOG_DATA_FILE:=dd]> d) LOG_INDEX_FILE (idx_bytes es)); [|by rewrite lookup_insert_ne].
  fs (stream_flush (<[LOG_DATA_FILE:=dd]> d) LOG_DATA_FILE dd); [|by rewrite lookup_insert_eq].
  fs (stream_tell (<[LOG_DATA_FILE:=dd]> d) LOG_DATA_FILE).
  fs (stream_tell (<[LOG_DATA_FILE:=dd]> d) LOG_INDEX_FILE).
  fs (stream_seek_end (<[LOG_DATA_FILE:=dd]> d) LOG_INDEX_FILE (idx_bytes es)); [|by rewrite lookup_insert_ne].
  fs (stream_tell (<[LOG_DATA_FILE:=dd]> d) LOG_INDEX_FILE).
  rewrite !length_idx, ?rest_cursor, length_le_bytes, Hl1, Hlen.
  rewrite !u64_small by (unfold is_u64, dlen in *; len).
  assert (idx_bytes (l1 ++ [e]) = idx_bytes l1 ++ le_bytes 8 (dlen l1)) as Hx' by apply idx_bytes_snoc.
  assert (data_bytes (l1 ++ [e]) = data_bytes l1 ++ enc e) as Hdb' by apply data_bytes_snoc.
  assert (left_over es j e = if (0 <? length l2)%nat then [] else drop (length (enc e)) (enc o)) as Hlo.
  { unfold left_over. rewrite Ho, Hlen. simpl. destruct l2; simpl; [by rewrite Nat.add_0_r, Nat.ltb_irrefl|].
    by rewrite (proj2 (Nat.ltb_lt _ _)) by lia. }
  rewrite Hx', Hdb', Hlo. unfold when.
  destruct (Z.ltb_spec (Z.of_nat (8 * j + 8)) (Z.of_nat (8 * S (j + length l2)))) as [Ht|Ht].
  - destruct (truncate_files_ret (<[LOG_DATA_FILE:=dd]> d) (idx_bytes es) dd (8 * j + 8)
      (length (data_bytes l1) + length (enc e)) (8 * S (j + length l2))
      (length (data_bytes l1) + length (enc e)) s3 n st b sz) as (p1' & p2' & Hr);
      [by rewrite lookup_insert_ne|by rewrite lookup_insert_eq|len|unfold dlen in *; lia|].
    do 3 eexists. split; [by erewrite bind_Ret by exact Hr|].
    rewrite lookup_insert_ne, !lookup_insert_eq, !lookup_insert_ne by done.
    rewrite (proj2 (Nat.ltb_lt _ _)) by lia. split; [|split; [|done]]; f_equal.
    + rewrite Hx. replace (8 * j + 8)%nat with (length (idx_bytes l1 ++ le_bytes 8 (dlen l1)))
        by (len; rewrite length_idx; lia).
      rewrite resize_le by (rewrite !length_app; lia). by rewrite app_assoc, take_app_length.
    + unfold dd. rewrite <- length_app, resize_le by (rewrite !length_app; lia).
      by rewrite app_assoc, take_app_length, app_nil_r.
  - do 3 eexists. split; [done|].
    rewrite lookup_insert_eq, !lookup_insert_ne by done.
    assert (l2 = []) as Hl2 by (destruct l2; [done|simpl in Ht; lia]).
    rewrite Hi, Hx, Hl2. simpl. split; [f_equal; by rewrite app_nil_r|]. split; [|done].
    unfold dd. rewrite Hl2. unfold data_bytes at 2. simpl. by rewrite app_nil_r, app_assoc.
Qed.

(** The store after an overwrite inside the window: right in memory; in the data file
    the bytes left over follow the new entry. *)
Lemma write_at_ret g s i e b :
  fs_rep g s → log_entry_ok e b → al_start g ≤ i < al_next g → window_first s ≤ i →
  log_fits (al_write_at i (rewind e) g) →
  let es' := take (Z.to_nat (i - al_start g)) (al_entries g) ++ [rewind e] in
  ∃ d p1 p2 p3 k sz,
    write_at i e s = Ret () (fsx d (IDX p1) (DAT p2) (STI p3) (Z.of_nat (length es')) (al_start g)
      (window es' (al_start g) k sz) sz) ∧
    d !! LOG_INDEX_FILE = Some (idx_bytes es') ∧
    d !! LOG_DATA_FILE = Some (data_bytes es' ++
      left_over (al_entries g) (Z.to_nat (i - al_start g)) (rewind e)) ∧
    d !! LOG_START_INDEX_FILE = Some (le_bytes 8 (al_start g)) ∧
    size_ok sz ∧ win_ok k es' sz.
Proof.
  intros (d & p1 & p2 & p3 & k & sz & (Hi & Hd & Hs) & Hfit & Hsz & Hk & ->) Hok Hb Hw Hfit' es'.
  pose proof Hfit as (H1 & Hn & [Hf1 Hf2] & Hst). pose proof Hfit' as (_ & _ & [_ Hf2'] & Hst').
  unfold window_first in Hw. fields. rewrite win_first_idx in Hw.
  unfold al_next, al_write_at, set_field in *. cbn [al_entries al_start] in *.
  set (es := al_entries g) in *. set (st := al_start g) in *. set (j := Z.to_nat (i - st)) in *.
  unfold es'. clear es'.
  rewrite dlen_app, dlen_cons, dlen_nil in Hf2'. pose proof (dlen_nonneg (take j es)).
  assert (stored (rewind e)) as Hse by (by eapply stored_rewind). pose proof (enc_small _ Hse).
  unfold write_at. erewrite bind_Ret by done. fields.
  rewrite ltb_false, (u64_small (st + _)), ltb_false by (unfold is_u64; lia). cbn [orb]. cbv zeta.
  rewrite (u64_small (i - st + 1)) by (unfold is_u64; lia). change ulen with 8.
  rewrite (u64_small (_ * 8)) by (unfold is_u64; lia). rewrite !leb_true by lia.
  destruct (lookup_lt_is_Some_2 es j) as [o Ho]; [lia|].
  pose proof (take_drop_middle es j o Ho) as Hes.
  assert (idx_bytes es = idx_bytes (take j es) ++ le_bytes 8 (dlen (take j es)) ++
    idx_of (positions (dlen (take j es) + Z.of_nat (length (enc o))) (drop (S j) es))) as Hx
    by (rewrite <- Hes at 1; rewrite idx_bytes_app; simpl; by rewrite idx_of_cons).
  assert (length (take j es) = j) as Hl1 by len.
  erewrite bind_Ret.
  2: { fs (stream_seek _ _ _ Hi); [|lia].
    fs (read_ulong_ret _ _ _ Hi _ (dlen (take j es))); [|rewrite length_idx; lia|unfold is_u64; lia].
    apply on_data. eapply stream_seek; [done|lia]. }
  fs (stream_seek _ _ _ Hi); [|lia]. fs (stream_tell d LOG_DATA_FILE).
  replace (Z.to_nat (dlen _)) with (length (data_bytes (take j es))) by (unfold dlen; lia).
  replace (Z.to_nat ((_ - 1) * 8)) with (8 * j)%nat by lia.
  fold (dlen (take j es)). rewrite (u64_small (dlen _)) by (unfold is_u64; lia).
  erewrite bind_Ret by apply ulong_buffer_ret. cbn beta iota.
  edestruct (write_at_disk (λ entry, when true (win (LogBuf.trim i));; win (LogBuf.append entry);;
      modify (λ s, s <| entries_in_store_ := i - st + 1 |>);; io_check)
      d es j e b (STI p3) (Z.of_nat (length es)) st (window es st k sz) sz)
    as (d' & p1' & p2' & Hrun & Hi' & Hd' & Hs'); [done|done|done|lia|done|lia|].
  rewrite Hrun. unfold when. pose proof (win_trim es st k sz j) as Ht.
  replace (st + Z.of_nat j) with i in Ht by lia. fs Ht; try lia.
  destruct (win_append (rewind e) (take j es) st k sz) as (k' & Hk' & _ & _ & Hap);
    [done|lia|destruct Hk; lia|lia|lia|].
  fs Hap. erewrite bind_Ret by apply upd_entries. rewrite io_check_good.
  replace (i - st + 1) with (Z.of_nat (length (take j es ++ [rewind e]))) by len.
  do 6 eexists. split; [done|]. by rewrite Hs'.
Qed.
Lemma write_at_rep g s i e b :
  fs_rep g s → log_entry_ok e b → al_start g ≤ i < al_next g → window_first s ≤ i →
  log_fits (al_write_at i (rewind e) g) →
  left_over (al_entries g) (Z.to_nat (i - al_start g)) (rewind e) = [] →
  ∃ s', write_at i e s = Ret () s' ∧ fs_rep (al_write_at i (rewind e) g) s'.
Proof.
  intros Hr Hok Hb Hw Hf Hlo.
  destruct (write_at_ret g s i e b Hr Hok Hb Hw Hf) as (d & p1 & p2 & p3 & k & sz & E & Hi & Hd & Hs & Hsz & Hk).
  rewrite Hlo, app_nil_r in Hd. eexists. split; [exact E|].
  by apply (rep_intro d p1 p2 p3 k sz (al_write_at i (rewind e) g)).
Qed.

(** *** Opening *)
Definition size_of (buf_size : Z) : Z := if buf_size <? 0 then int_max else buf_size.
Definition first_of (sz : Z) (es : list log_entry) : nat := length es - Z.to_nat sz.

Lemma first_of_ok sz es : size_ok sz → win_ok (first_of sz es) es sz.
Proof.
  unfold size_ok, win_ok, first_of. intros. split; [|lia].
  destruct es as [|e es]; [by right|left]. simpl length. lia.
Qed.
(** The value the source computes for the start of the window. *)
Lemma window_start_ret d s1 s2 s3 es st b sz :
  size_ok sz → 0 ≤ st → st + Z.of_nat (length es) < 2 ^ 63 →
  window_start (fsx d s1 s2 s3 (Z.of_nat (length es)) st b sz) = st + Z.of_nat (first_of sz es).
Proof.
  unfold size_ok, int_max, window_start, first_of. intros Hsz H0 Hn. fields.
  rewrite u64_small by (unfold is_u64; lia).
  destruct (Z.ltb_spec sz (Z.of_nat (length es))); [|lia].
  rewrite u64_small by (unfold is_u64; lia). lia.
Qed.

Lemma open_existing (p : fs_log_store → fstream) `{!Setter p} f s s' :
  on p (Stream.open f In_out_ate) s = Ret () s' → on p Stream.good s' = Ret true s' →
  open_or_create p f s = Ret () s'.
Proof.
  intros H1 H2. unfold open_or_create. erewrite bind_Ret by exact H1.
  by erewrite bind_Ret by exact H2.
Qed.

Lemma init_rep d g sz :
  files d g → log_fits g → size_ok sz →
  ∃ s', init (fsx d new_fstream new_fstream new_fstream 0 1 (mk_log_store_buffer [] 1 sz) sz)
    = Ret () s' ∧ fs_rep g s'.
Proof.
  intros (Hi & Hd & Hs) Hfit Hsz. pose proof Hfit as (H1 & Hn & [Hf1 Hf2] & Hst).
  unfold al_next in Hn. unfold init.
  erewrite bind_Ret by (eapply open_existing; [apply on_idx, (stream_open_ate _ _ _ Hi)|]; done).
  erewrite bind_Ret by (eapply open_existing; [apply on_data, (stream_open_ate _ _ _ Hd)|]; done).
  erewrite bind_Ret by (eapply open_existing; [apply on_sti, (stream_open_ate _ _ _ Hs)|]; done).
  erewrite bind_Ret by done. cbn [idx_file_ data_file_ start_idx_file_ fsx st_good opened negb orb].
  fs (stream_tell d LOG_START_INDEX_FILE). rewrite length_le_bytes, ltb_true by lia.
  erewrite bind_Ret.
  2: { fs (stream_seek _ _ _ Hs); [|lia].
    fs (read_ulong_ret _ _ _ Hs _ (al_start g) [] []);
      [|by rewrite app_nil_r|done|unfold is_u64; lia].
    erewrite bind_Ret by apply upd_start. fs (stream_tell d LOG_INDEX_FILE). apply upd_entries. }
  cbn beta. rewrite length_idx. change ulen with 8. rewrite u64_small by (unfold is_u64; lia).
  rewrite Nat2Z.inj_mul, Z.mul_comm, Z.div_mul by lia.
  erewrite bind_Ret by apply upd_buf. cbn beta. fields. rewrite window_start_ret by (done || lia).
  edestruct (fill_buffer_ret d g (first_of sz (al_entries g)) sz) as (p1' & p2' & Hr);
    [done..|by apply first_of_ok|].
  eexists. split; [exact Hr|]. apply rep_intro; try done. by apply first_of_ok.
Qed.

(** Closing the store leaves its files, and opening them again finds the log, whatever
    the two window sizes. *)
Definition reopen (buf_size : Z) : M fs_log_store unit := λ s, new_store (destroy s) buf_size.
Lemma reopen_rep g s buf_size :
  fs_rep g s → size_ok (size_of buf_size) →
  ∃ s', reopen buf_size s = Ret () s' ∧ fs_rep g s'.
Proof.
  intros (d & p1 & p2 & p3 & k & sz & Hf & Hfit & _ & _ & ->) Hsz.
  apply (init_rep d g (size_of buf_size)); done.
Qed.

(** A folder without store files becomes an empty log that starts at 1. *)
Definition empty_log : alog := mk_alog 1 [].
Lemma new_store_empty buf_size :
  size_ok (size_of buf_size) → ∃ s, new_store (mk_os ∅ []) buf_size = Ret () s ∧ fs_rep empty_log s.
Proof.
  intros Hsz. unfold new_store. fold (size_of buf_size). generalize dependent (size_of buf_size). intros sz Hsz.
  set (d := (<[LOG_START_INDEX_FILE := le_bytes 8 1]> (<[LOG_START_INDEX_FILE := []]>
    (<[LOG_DATA_FILE := []]> (<[LOG_INDEX_FILE := []]> (∅ : gmap file_name (list byte))))))).
  assert (files d empty_log) as Hf by (by vm_compute).
  assert (log_fits empty_log) as Hfit.
  { split; [done|]. split; [done|]. split; [by split; vm_compute|constructor]. }
  destruct (fill_buffer_ret d empty_log 0 sz 0 0 (STI 8) Hf Hfit Hsz) as (p1 & p2 & Hr).
  { split; [by right|]. unfold size_ok in Hsz. simpl. lia. }
  eexists. split; [|apply (rep_intro d p1 p2 8 0 sz empty_log Hf Hfit Hsz)].
  2: { split; [by right|]. unfold size_ok in Hsz. simpl. lia. }
  rewrite <- Hr. unfold init.
  erewrite bind_Ret by (vm_compute; reflexivity).
  erewrite bind_Ret by (vm_compute; reflexivity).
  erewrite bind_Ret by (vm_compute; reflexivity).
  erewrite bind_Ret by (vm_compute; reflexivity).
  cbn [idx_file_ data_file_ start_idx_file_ st_good negb orb].
  erewrite bind_Ret by (vm_compute; reflexivity). cbn beta iota delta [Z.ltb Z.compare].
  erewrite bind_Ret by (vm_compute; reflexivity).
  erewrite bind_Ret by reflexivity.
  replace (window_start _) with 1; [vm_compute; reflexivity|].
  unfold window_start, size_ok, int_max in *. cbn. rewrite u64_small by (unfold is_u64; lia).
  by rewrite ltb_false by lia.
Qed.
