(* ===== verification/FsCompact.v ===== *)
(** Compaction of the file log store keeps the representation: on a disk whose calls
    succeed it drops the prefix, with the positions of the kept entries shifted. *)
From S2P Require Import Prelude Buffer Codec LogStore Stream FsLogStore FsRefine.

(** ** Steps of a compaction *)
Lemma store_ret {A} (m : M fs_log_store A) s b1 b2 b3 a s' :
  m s = Ret a s' →
  store m (mk_compaction s b1 b2 b3) = Ret a (mk_compaction s' b1 b2 b3).
Proof. unfold store, zoom, cp_store. by intros ->. Qed.
Lemma bak_idx {A} (m : M io A) d s1 s2 s3 n st b sz b1 b2 b3 a d' b1' :
  m (on_disk d b1) = Ret a (on_disk d' b1') →
  bak idx_bak_file m (mk_compaction (fsx d s1 s2 s3 n st b sz) b1 b2 b3)
  = Ret a (mk_compaction (fsx d' s1 s2 s3 n st b sz) b1' b2 b3).
Proof. unfold bak, on_disk, fsx, cp_store, fs_os, idx_bak_file. by intros ->. Qed.
Lemma bak_data {A} (m : M io A) d s1 s2 s3 n st b sz b1 b2 b3 a d' b2' :
  m (on_disk d b2) = Ret a (on_disk d' b2') →
  bak data_bak_file m (mk_compaction (fsx d s1 s2 s3 n st b sz) b1 b2 b3)
  = Ret a (mk_compaction (fsx d' s1 s2 s3 n st b sz) b1 b2' b3).
Proof. unfold bak, on_disk, fsx, cp_store, fs_os, data_bak_file. by intros ->. Qed.
Lemma bak_sti {A} (m : M io A) d s1 s2 s3 n st b sz b1 b2 b3 a d' b3' :
  m (on_disk d b3) = Ret a (on_disk d' b3') →
  bak start_idx_bak_file m (mk_compaction (fsx d s1 s2 s3 n st b sz) b1 b2 b3)
  = Ret a (mk_compaction (fsx d' s1 s2 s3 n st b sz) b1 b2 b3').
Proof. unfold bak, on_disk, fsx, cp_store, fs_os, start_idx_bak_file. by intros ->. Qed.

(** A step on a stream of the store or of the backups. *)
Ltac cp_on := first [apply bak_idx | apply bak_data | apply bak_sti | apply store_ret; fs_on].
Tactic Notation "cp" uconstr(l) := erewrite bind_Ret; [| cp_on; eapply l; try eassumption ]; cbn beta iota.

Lemma flush_any d st : Stream.flush (on_disk d st) = Ret () (on_disk d st).
Proof. by destruct st as [[f|] [] p]. Qed.
Lemma close_any d f g p : Stream.close (on_disk d (mk_fstream (Some f) g p))
  = Ret () (on_disk d (mk_fstream None g p)).
Proof. done. Qed.

(** A backup stream after the copy of [c]: failed when there was nothing to copy. *)
Definition bak_stream (f : file_name) (c : list byte) : fstream :=
  mk_fstream (Some f) (bool_decide (c ≠ [])) (length c).
Lemma insert_into_empty d f c : d !! f = Some [] →
  Stream.insert c (here d f 0) = Ret () (on_disk (<[f := c]> d) (bak_stream f c)).
Proof.
  intros Hf. destruct (decide (c = [])) as [->|Hc].
  - unfold Stream.insert. rewrite decide_True by done. unfold Stream.fail, modify, here, on_disk, opened, set_field.
    cbn. by rewrite insert_id.
  - rewrite (stream_insert _ _ _ Hf) by done. pose proof (fwrite_end c []) as E.
    simpl in E. rewrite E. unfold bak_stream. by rewrite bool_decide_true by done.
Qed.

Section open_bak.
Context (d : gmap file_name (list byte)) (s1 s2 s3 : fstream) (n st : Z) (b : log_store_buffer) (sz : Z).
Context (b1 b2 b3 : fstream) (fl : file_name) (Hf : d !! fl = None).

Ltac solve_open_bak :=
  unfold open_bak; cp stream_open_missing; [|done..];
  erewrite (bind_Ret (bak _ Stream.good) _ _ false) by reflexivity; cbn beta iota delta [when negb];
  cp stream_open_out; [|done]; cp stream_close; cp_on;
  apply (stream_open_in_out _ _ []); [by rewrite lookup_insert_eq|done].
Lemma open_idx_bak :
  open_bak idx_bak_file fl (mk_compaction (fsx d s1 s2 s3 n st b sz) new_fstream b2 b3)
  = Ret () (mk_compaction (fsx (<[fl := []]> d) s1 s2 s3 n st b sz) (opened fl 0) b2 b3).
Proof. solve_open_bak. Qed.
Lemma open_data_bak :
  open_bak data_bak_file fl (mk_compaction (fsx d s1 s2 s3 n st b sz) b1 new_fstream b3)
  = Ret () (mk_compaction (fsx (<[fl := []]> d) s1 s2 s3 n st b sz) b1 (opened fl 0) b3).
Proof. solve_open_bak. Qed.
Lemma open_sti_bak :
  open_bak start_idx_bak_file fl (mk_compaction (fsx d s1 s2 s3 n st b sz) b1 b2 new_fstream)
  = Ret () (mk_compaction (fsx (<[fl := []]> d) s1 s2 s3 n st b sz) b1 b2 (opened fl 0)).
Proof. solve_open_bak. Qed.
End open_bak.

(** Find a file on the disk. *)
Ltac lk := by simplify_map_eq.

(** ** The backups *)
Section backup.
Context (d : gmap file_name (list byte)) (s1 s2 s3 : fstream) (n st : Z) (b : log_store_buffer) (sz : Z).
Context (b1 b2 b3 : fstream) (fl : file_name) (bs : list byte) (Hf : d !! fl = Some []).

Ltac solve_backup Hc :=
  unfold backup, copy_rdbuf;
  erewrite (bind_Ret (bak _ Stream.good) _ _ true) by reflexivity; cbn beta iota delta [when];
  cp (stream_drain _ _ _ Hc); [|lia]; cp_on; rewrite drop_0; by apply insert_into_empty.
Lemma backup_idx : d !! LOG_INDEX_FILE = Some bs →
  backup idx_file_ idx_bak_file (mk_compaction (fsx d (IDX 0) s2 s3 n st b sz) (opened fl 0) b2 b3)
  = Ret () (mk_compaction (fsx (<[fl := bs]> d) (IDX (length bs)) s2 s3 n st b sz) (bak_stream fl bs) b2 b3).
Proof. intros Hc. solve_backup Hc. Qed.
Lemma backup_data : d !! LOG_DATA_FILE = Some bs →
  backup data_file_ data_bak_file (mk_compaction (fsx d s1 (DAT 0) s3 n st b sz) b1 (opened fl 0) b3)
  = Ret () (mk_compaction (fsx (<[fl := bs]> d) s1 (DAT (length bs)) s3 n st b sz) b1 (bak_stream fl bs) b3).
Proof. intros Hc. solve_backup Hc. Qed.
Lemma backup_sti : d !! LOG_START_INDEX_FILE = Some bs →
  backup start_idx_file_ start_idx_bak_file (mk_compaction (fsx d s1 s2 (STI 0) n st b sz) b1 b2 (opened fl 0))
  = Ret () (mk_compaction (fsx (<[fl := bs]> d) s1 s2 (STI (length bs)) n st b sz) b1 b2 (bak_stream fl bs)).
Proof. intros Hc. solve_backup Hc. Qed.
End backup.

Lemma make_backups_ret d g p1 p2 p3 n st b sz :
  files d g →
  ∃ d' q1 q2 q3,
    make_backups (mk_compaction (fsx d (IDX p1) (DAT p2) (STI p3) n st b sz)
      new_fstream new_fstream new_fstream)
    = Ret true (mk_compaction (fsx d' (IDX q1) (DAT q2) (STI q3) n st b sz)
        (bak_stream LOG_INDEX_FILE_BAK (idx_bytes (al_entries g)))
        (bak_stream LOG_DATA_FILE_BAK (data_bytes (al_entries g)))
        (bak_stream LOG_START_INDEX_FILE_BAK (le_bytes 8 (al_start g)))) ∧
    files d' g ∧
    d' !! LOG_INDEX_FILE_BAK = Some (idx_bytes (al_entries g)) ∧
    d' !! LOG_DATA_FILE_BAK = Some (data_bytes (al_entries g)).
Proof.
  intros (Hi & Hd & Hs). unfold make_backups.
  destruct (os_remove_any d LOG_INDEX_FILE_BAK) as [r1 H1].
  destruct (os_remove_any (delete LOG_INDEX_FILE_BAK d) LOG_DATA_FILE_BAK) as [r2 H2].
  destruct (os_remove_any (delete LOG_DATA_FILE_BAK (delete LOG_INDEX_FILE_BAK d))
    LOG_START_INDEX_FILE_BAK) as [r3 H3].
  erewrite bind_Ret.
  2: { apply store_ret. fs (stream_seek _ _ _ Hi); [|lia]. fs (stream_seek _ _ _ Hd); [|lia].
    fs (stream_seek _ _ _ Hs); [|lia]. fs H1. fs H2. apply on_sys, H3. }
  set (d0 := delete LOG_START_INDEX_FILE_BAK _).
  erewrite bind_Ret by (apply open_idx_bak; unfold d0; lk).
  erewrite bind_Ret by (apply open_data_bak; unfold d0; lk).
  erewrite bind_Ret by (apply open_sti_bak; unfold d0; lk).
  erewrite bind_Ret by done. cbn [idx_bak_file data_bak_file start_idx_bak_file st_good opened negb orb].
  erewrite bind_Ret.
  2: { apply store_ret. fs stream_seek; [|unfold d0; lk|lia]. fs stream_seek; [|unfold d0; lk|lia].
    apply on_sti. eapply stream_seek; [unfold d0; lk|lia]. }
  cbn [Z.to_nat].
  erewrite bind_Ret by (apply backup_idx; unfold d0; lk).
  erewrite bind_Ret by (apply backup_data; unfold d0; lk).
  erewrite bind_Ret by (apply backup_sti; unfold d0; lk).
  cp flush_any. cp flush_any. cp flush_any.
  do 4 eexists. split; [done|]. unfold files, d0. repeat split; lk.
Qed.

Lemma close_baks_ret s f1 f2 f3 g1 g2 g3 p1 p2 p3 :
  close_baks (mk_compaction s (mk_fstream (Some f1) g1 p1) (mk_fstream (Some f2) g2 p2)
    (mk_fstream (Some f3) g3 p3))
  = Ret () (mk_compaction s (mk_fstream None g1 p1) (mk_fstream None g2 p2) (mk_fstream None g3 p3)).
Proof. by destruct s as [[] ? ? ? ? ? ? ?]. Qed.
Lemma cp_store_fsx s b1 b2 b3 : cp_store (mk_compaction s b1 b2 b3) = s.
Proof. done. Qed.

(** ** Clearing the store *)
Lemma recreate_idx d s1 s2 s3 n st b sz : st_file s1 = None →
  recreate idx_file_ LOG_INDEX_FILE LOG_INDEX_FILE (fsx d s1 s2 s3 n st b sz)
  = Ret () (fsx (<[LOG_INDEX_FILE := []]> d) (IDX 0) s2 s3 n st b sz).
Proof.
  intros Hs. unfold recreate. fs stream_open_out. fs stream_close.
  apply on_idx. apply (stream_open_ate _ _ []); [lk|done].
Qed.
Lemma recreate_data d s1 s2 s3 n st b sz : st_file s2 = None →
  recreate data_file_ LOG_DATA_FILE LOG_DATA_FILE (fsx d s1 s2 s3 n st b sz)
  = Ret () (fsx (<[LOG_DATA_FILE := []]> d) s1 (DAT 0) s3 n st b sz).
Proof.
  intros Hs. unfold recreate. fs stream_open_out. fs stream_close.
  apply on_data. apply (stream_open_ate _ _ []); [lk|done].
Qed.

Lemma write_start_index d start z s1 s2 p3 n st b sz {A} (m : M fs_log_store A) :
  d !! LOG_START_INDEX_FILE = Some (le_bytes 8 start) → is_u64 z →
  (on start_idx_file_ (Stream.seek 0);; b ← ulong_buffer (u64 z);
   on start_idx_file_ (Stream.put_buffer b);; m) (fsx d s1 s2 (STI p3) n st b sz)
  = m (fsx (<[LOG_START_INDEX_FILE := le_bytes 8 z]> d) s1 s2 (STI 8) n st b sz).
Proof.
  intros Hs Hz. fs (stream_seek _ _ _ Hs); [|lia].
  erewrite bind_Ret by apply ulong_buffer_ret. rewrite u64_small by done.
  fs (stream_put_buffer _ _ _ Hs). rewrite rest_cursor.
  change (Z.to_nat 0) with 0%nat. pose proof (fwrite_app [] (le_bytes 8 z) (le_bytes 8 start) []) as Hw.
  rewrite !app_nil_r, !app_nil_l in Hw. simpl length in Hw. by rewrite Hw, length_le_bytes by len.
Qed.

Lemma win_empty st sz : window [] st 0 sz = mk_log_store_buffer [] st sz.
Proof. unfold window. simpl. by rewrite Z.add_0_r. Qed.

Lemma compact_all_ret d g i p1 p2 p3 b sz b1 b2 b3 :
  files d g → size_ok sz → 0 ≤ i < 2 ^ 63 - 1 →
  st_file b1 ≠ None → st_file b2 ≠ None → st_file b3 ≠ None → lb_max_size b = sz →
  ∃ c, compact_all i (mk_compaction (fsx d (IDX p1) (DAT p2) (STI p3) (Z.of_nat (length (al_entries g)))
      (al_start g) b sz) b1 b2 b3) = Ret true c ∧
    fs_rep (mk_alog (i + 1) []) (cp_store c).
Proof.
  intros (Hi & Hd & Hs) Hsz Hb Hb1 Hb2 Hb3 Hm. unfold compact_all.
  erewrite bind_Ret by (apply store_ret; fs (stream_close d); apply on_data, stream_close).
  cp (os_remove _ _ _ Hi). cbn [negb].
  cp (os_remove (delete LOG_INDEX_FILE d) LOG_DATA_FILE); [|lk]. cbn [negb].
  erewrite bind_Ret by (by apply store_ret, recreate_idx).
  erewrite bind_Ret by (by apply store_ret, recreate_data).
  set (d' := <[LOG_DATA_FILE := []]> _).
  assert (d' !! LOG_INDEX_FILE = Some [] ∧ d' !! LOG_DATA_FILE = Some []
    ∧ d' !! LOG_START_INDEX_FILE = Some (le_bytes 8 (al_start g))) as (Hi' & Hd' & Hs')
    by (unfold d'; repeat split; lk). clearbody d'.
  erewrite bind_Ret by done. change (negb _ || negb _) with false. cbv iota.
  erewrite bind_Ret.
  2: { apply store_ret. rewrite (write_start_index _ (al_start g)) by (done || unfold is_u64; lia).
    erewrite bind_Ret by apply upd_start. erewrite bind_Ret by apply upd_entries.
    erewrite bind_Ret by done. apply on_win. reflexivity. }
  destruct b1 as [[f1|] g1 q1], b2 as [[f2|] g2 q2], b3 as [[f3|] g3 q3]; try done.
  erewrite bind_Ret by apply close_baks_ret.
  eexists. split; [done|]. cbn [cp_store]. fields. rewrite u64_small by (unfold is_u64; lia).
  replace (set_field _ _ _) with (window [] (i + 1) 0 sz)
    by (rewrite win_empty; destruct b; simpl in Hm; by subst).
  apply (rep_intro _ _ _ _ 0 sz (mk_alog (i + 1) [])); [|split_and!|done|].
  - repeat split; lk.
  - simpl. lia.
  - unfold al_next. simpl. lia.
  - by split.
  - constructor.
  - split; [by right|]. unfold size_ok in Hsz. simpl. lia.
Qed.

(** ** Dropping a prefix *)
Lemma shift_positions_ret d es l1 m1 m2 old s2 s3 n st b sz b2 b3 q :
  d !! LOG_INDEX_FILE_BAK = Some (idx_bytes es) → es = l1 ++ m1 ++ m2 → dlen es < 2 ^ 63 →
  d !! LOG_INDEX_FILE = Some (idx_bytes m1 ++ old) → (8 * length m2 ≤ length old)%nat →
  q = (8 * (length l1 + length m1))%nat →
  ∃ d2 q' p', shift_positions (length m2) (dlen l1)
      (mk_compaction (fsx d (IDX (8 * length m1)) s2 s3 n st b sz) (opened LOG_INDEX_FILE_BAK q) b2 b3)
    = Ret () (mk_compaction (fsx d2 (IDX p') s2 s3 n st b sz) (opened LOG_INDEX_FILE_BAK q') b2 b3) ∧
    d2 !! LOG_INDEX_FILE = Some (idx_bytes (m1 ++ m2) ++ drop (8 * length m2) old) ∧
    (∀ f, f ≠ LOG_INDEX_FILE → d2 !! f = d !! f).
Proof.
  intros Hb Hes Hf. revert d m1 old q Hb Hes. induction m2 as [|e m2 IH]; intros d m1 old q Hb Hes Hi Ho ->.
  { exists d. do 2 eexists. split; [done|]. by rewrite app_nil_r. }
  pose proof (dlen_nonneg l1). pose proof (dlen_nonneg m1). pose proof (dlen_nonneg (e :: m2)).
  assert (dlen es = dlen l1 + dlen m1 + dlen (e :: m2)) as Hlen by (by rewrite Hes, !dlen_app; lia).
  cbn [shift_positions length]. simpl length in Ho.
  cp (read_ulong_ret _ _ _ Hb _ (dlen l1 + dlen m1) (idx_bytes (l1 ++ m1))
       (idx_of (positions (dlen l1 + dlen m1 + Z.of_nat (length (enc e))) m2)));
    [|rewrite Hes, app_assoc, idx_bytes_app, dlen_app; cbn [positions]; by rewrite idx_of_cons
     |rewrite length_idx; len|unfold is_u64; lia].
  assert (length (take 8 old) = 8%nat) as H8 by (rewrite length_take; lia).
  erewrite bind_Ret.
  2: { apply store_ret. erewrite bind_Ret by apply ulong_buffer_ret.
    apply on_idx. apply (stream_put_buffer _ _ _ Hi). }
  rewrite rest_cursor. replace (dlen l1 + dlen m1 - dlen l1) with (dlen m1) by lia.
  rewrite u64_small by (unfold is_u64; lia).
  replace (8 * length m1)%nat with (length (idx_bytes m1)) by (rewrite length_idx; lia).
  rewrite fwrite_cut, length_le_bytes.
  edestruct (IH (<[LOG_INDEX_FILE := idx_bytes m1 ++ le_bytes 8 (dlen m1) ++ drop 8 old]> d)
    (m1 ++ [e]) (drop 8 old) (8 * (length l1 + length m1) + 8)%nat) as (d2 & q' & p' & Hr & Hd2 & Ho2).
  - lk.
  - by rewrite Hes, <- app_assoc.
  - rewrite idx_bytes_snoc, <- app_assoc. lk.
  - rewrite length_drop. lia.
  - len.
  - exists d2, q', p'. split; [|split].
    + rewrite <- Hr. f_equal. f_equal. f_equal. f_equal. len. rewrite length_idx. lia.
    + rewrite Hd2, drop_drop, <- app_assoc. f_equal. f_equal. f_equal. simpl. lia.
    + intros f Hne. rewrite Ho2 by done. by rewrite lookup_insert_ne.
Qed.

Lemma unbackup_data d s1 s3 n st b sz b1 b3 c1 c f q :
  d !! f = Some c1 → d !! LOG_DATA_FILE = Some c → (q ≤ length c1)%nat → drop q c1 ≠ [] →
  unbackup data_bak_file data_file_ (mk_compaction (fsx d s1 (DAT 0) s3 n st b sz) b1 (opened f q) b3)
  = Ret () (mk_compaction (fsx (<[LOG_DATA_FILE := fwrite 0 (drop q c1) c]> d) s1
      (DAT (length (drop q c1))) s3 n st b sz) b1 (opened f (length c1)) b3).
Proof.
  intros Hb Hd Hq Hne. unfold unbackup, copy_rdbuf.
  erewrite (bind_Ret (store (on _ Stream.good)) _ _ true) by reflexivity. cbn beta iota delta [when].
  cp (stream_drain _ _ _ Hb). cp_on. by apply stream_insert.
Qed.

(** What the compaction leaves alone. *)
Definition same_but (f : file_name) (d d' : gmap file_name (list byte)) : Prop :=
  ∀ h, h ≠ f → d' !! h = d !! h.

Lemma compact_data_ret d l1 l2 p1 p2 s3 n st b sz b1 b3 r2 :
  d !! LOG_DATA_FILE = Some (data_bytes (l1 ++ l2)) →
  d !! LOG_DATA_FILE_BAK = Some (data_bytes (l1 ++ l2)) →
  data_bytes l2 ≠ [] → dlen (l1 ++ l2) < 2 ^ 63 →
  ∃ d' q2 r2', compact_data (dlen l1) (dlen l2)
      (mk_compaction (fsx d (IDX p1) (DAT p2) s3 n st b sz) b1 (opened LOG_DATA_FILE_BAK r2) b3)
    = Ret true (mk_compaction (fsx d' (IDX p1) (DAT q2) s3 n st b sz) b1
        (opened LOG_DATA_FILE_BAK r2') b3) ∧
    d' !! LOG_DATA_FILE = Some (data_bytes l2) ∧ same_but LOG_DATA_FILE d d'.
Proof.
  intros Hd Hb Hne Hl. rewrite dlen_app in Hl. pose proof (dlen_nonneg l1). pose proof (dlen_nonneg l2).
  unfold compact_data. cp (stream_seek _ _ _ Hb); [|lia]. cp (stream_seek _ _ _ Hd); [|lia].
  replace (Z.to_nat (dlen l1)) with (length (data_bytes l1)) by (unfold dlen; lia).
  change (Z.to_nat 0) with 0%nat.
  erewrite bind_Ret by (eapply (unbackup_data _ _ _ _ _ _ _ _ _ _ _ _ _ Hb Hd);
    rewrite data_bytes_app; [len|by rewrite drop_app_length]).
  assert (drop (length (data_bytes l1)) (data_bytes (l1 ++ l2)) = data_bytes l2) as Hdr
    by (by rewrite data_bytes_app, drop_app_length).
  rewrite Hdr. pose proof (fwrite_cut [] (data_bytes l2) (data_bytes (l1 ++ l2))) as Hw.
  simpl in Hw. rewrite Hw.
  set (c := data_bytes l2 ++ _). cp stream_close.
  cp (os_truncate (<[LOG_DATA_FILE:=c]> d) LOG_DATA_FILE c); [|lk|lia]. cbn [negb].
  replace (resize (Z.to_nat (dlen l2)) x00 c) with (data_bytes l2); cycle 1.
  { unfold c. rewrite <- length_data, resize_le by len. by rewrite take_app_length. }
  set (d' := <[LOG_DATA_FILE:=data_bytes l2]> _).
  assert (d' !! LOG_DATA_FILE = Some (data_bytes l2)) as Hd' by (unfold d'; lk).
  cp (stream_open_ate _ _ _ Hd'); [|done].
  do 3 eexists. split; [done|]. split; [done|].
  intros h Hh. unfold d'. by rewrite !lookup_insert_ne.
Qed.

Lemma compact_idx_ret d l1 l2 p1 s2 s3 n st b sz b2 b3 r1 :
  d !! LOG_INDEX_FILE = Some (idx_bytes (l1 ++ l2)) →
  d !! LOG_INDEX_FILE_BAK = Some (idx_bytes (l1 ++ l2)) →
  fits (l1 ++ l2) →
  ∃ d' q1 r1', compact_idx (Z.of_nat (8 * length l1)) (Z.of_nat (8 * length l2)) (dlen l1)
      (mk_compaction (fsx d (IDX p1) s2 s3 n st b sz) (opened LOG_INDEX_FILE_BAK r1) b2 b3)
    = Ret true (mk_compaction (fsx d' (IDX q1) s2 s3 n st b sz)
        (opened LOG_INDEX_FILE_BAK r1') b2 b3) ∧
    d' !! LOG_INDEX_FILE = Some (idx_bytes l2) ∧ same_but LOG_INDEX_FILE d d'.
Proof.
  intros Hi Hb [Hf1 Hf2]. rewrite length_app in Hf1.
  unfold compact_idx. cp (stream_seek _ _ _ Hb); [|lia]. cp (stream_seek _ _ _ Hi); [|lia].
  change ulen with 8. rewrite Nat2Z.inj_mul, Z.mul_comm, Z.div_mul, !Nat2Z.id by lia.
  change (Z.to_nat 0) with (8 * length (@nil log_entry))%nat.
  destruct (shift_positions_ret d (l1 ++ l2) l1 [] l2 (idx_bytes (l1 ++ l2)) s2 s3 n st b sz b2 b3
    (8 * length l1)) as (d2 & q' & p' & Hr & Hi2 & Ho); [done|done|done|done|rewrite length_idx; len|simpl; lia|].
  erewrite bind_Ret by exact Hr. cp stream_close. simpl app in Hi2.
  cp (os_truncate d2 LOG_INDEX_FILE _ Hi2); [|lia]. cbn [negb].
  replace (resize _ x00 _) with (idx_bytes l2); cycle 1.
  { replace (Z.to_nat _) with (length (idx_bytes l2)) by (rewrite length_idx; lia).
    rewrite resize_le by len. by rewrite take_app_length. }
  set (d' := <[LOG_INDEX_FILE:=idx_bytes l2]> d2).
  assert (d' !! LOG_INDEX_FILE = Some (idx_bytes l2)) as Hd' by (unfold d'; lk).
  cp (stream_open_ate _ _ _ Hd'); [|done].
  do 3 eexists. split; [done|]. split; [done|].
  intros h Hh. unfold d'. rewrite lookup_insert_ne by done. by apply Ho.
Qed.

Lemma move_start_ret d g i p1 p2 p3 b sz :
  let l2 := drop (Z.to_nat (i + 1 - al_start g)) (al_entries g) in
  d !! LOG_INDEX_FILE = Some (idx_bytes l2) → d !! LOG_DATA_FILE = Some (data_bytes l2) →
  d !! LOG_START_INDEX_FILE = Some (le_bytes 8 (al_start g)) →
  log_fits g → log_fits (al_compact i g) → size_ok sz → lb_max_size b = sz →
  al_start g ≤ i < al_next g - 1 →
  ∃ s', move_start i (fsx d (IDX p1) (DAT p2) (STI p3)
      (Z.of_nat (length (al_entries g))) (al_start g) b sz) = Ret () s' ∧
    fs_rep (al_compact i g) s'.
Proof.
  intros l2 Hi Hd Hs (H1 & Hn & _) Hfit' Hsz Hm Hb. unfold al_next in *.
  assert (Z.of_nat (length l2) = Z.of_nat (length (al_entries g)) - (i - al_start g + 1)) as Hl2
    by (unfold l2; len).
  unfold move_start. rewrite (write_start_index _ (al_start g)) by (done || unfold is_u64; lia).
  set (d' := <[LOG_START_INDEX_FILE := _]> d).
  assert (files d' (al_compact i g)) as Hf by (unfold files, d'; simpl; repeat split; lk).
  fs (stream_flush d' LOG_START_INDEX_FILE); [|apply Hf].
  erewrite bind_Ret by done. fields. rewrite <- Hl2, (u64_small (Z.of_nat (length l2))) by (unfold is_u64; lia).
  change (set_field entries_in_store_ _ _)
    with (fsx d' (IDX p1) (DAT p2) (STI 8) (Z.of_nat (length l2)) (al_start g) b sz).
  erewrite bind_Ret by apply upd_start. erewrite bind_Ret by done.
  rewrite (u64_small (i + 1)) by (unfold is_u64; lia).
  rewrite window_start_ret by (done || lia).
  erewrite bind_Ret by (apply on_win; reflexivity).
  pose proof (first_of_ok sz l2 Hsz) as Hk.
  destruct (fill_buffer_ret d' (al_compact i g) (first_of sz l2) sz p1 p2 (STI 8)) as (p1' & p2' & Hr);
    try done.
  replace (set_field _ _ _) with (mk_log_store_buffer [] (i + 1 + Z.of_nat (first_of sz l2)) sz)
    by (destruct b; simpl in Hm; by subst).
  eexists. split; [exact Hr|]. by apply (rep_intro _ _ _ _ _ _ (al_compact i g)).
Qed.

Lemma log_fits_compact g i : log_fits g → al_start g ≤ i < al_next g - 1 → log_fits (al_compact i g).
Proof.
  intros (H1 & Hn & [Hf1 Hf2] & Hst) Hi. unfold log_fits, al_next, al_compact, fits in *.
  cbn [al_start al_entries].
  pose proof (take_drop (Z.to_nat (i + 1 - al_start g)) (al_entries g)) as Hes.
  assert (dlen (al_entries g) = dlen (take (Z.to_nat (i + 1 - al_start g)) (al_entries g))
    + dlen (drop (Z.to_nat (i + 1 - al_start g)) (al_entries g))) as Hd by (by rewrite <- dlen_app, Hes).
  pose proof (dlen_nonneg (take (Z.to_nat (i + 1 - al_start g)) (al_entries g))).
  rewrite length_drop. split; [lia|]. split; [lia|]. split; [split; lia|]. by apply Forall_drop.
Qed.

Lemma compact_part_ret d g i p1 p2 p3 b sz r1 r2 r3 :
  files d g → log_fits g → size_ok sz →
  d !! LOG_INDEX_FILE_BAK = Some (idx_bytes (al_entries g)) →
  d !! LOG_DATA_FILE_BAK = Some (data_bytes (al_entries g)) →
  al_start g ≤ i < al_next g - 1 → lb_max_size b = sz →
  ∃ c, compact_part i (mk_compaction (fsx d (IDX p1) (DAT p2) (STI p3)
      (Z.of_nat (length (al_entries g))) (al_start g) b sz)
      (opened LOG_INDEX_FILE_BAK r1) (opened LOG_DATA_FILE_BAK r2)
      (opened LOG_START_INDEX_FILE_BAK r3)) = Ret true c ∧
    fs_rep (al_compact i g) (cp_store c).
Proof.
  intros (Hi & Hd & Hs) Hfit Hsz Hib Hdb Hb Hm. pose proof (log_fits_compact g i Hfit Hb) as Hfit'.
  pose proof Hfit as (H1 & Hn & [Hf1 Hf2] & Hst). unfold al_next in *.
  set (j := Z.to_nat (i + 1 - al_start g)) in *.
  pose proof (take_drop j (al_entries g)) as Hes.
  set (l1 := take j (al_entries g)) in *. set (l2 := drop j (al_entries g)) in *.
  assert (length l1 = j) as Hl1 by (unfold l1; len).
  assert (length l2 = length (al_entries g) - j)%nat as Hl2 by (unfold l2; len).
  assert (∃ r, idx_bytes (al_entries g) = idx_bytes l1 ++ le_bytes 8 (dlen l1) ++ r ∧ data_bytes l2 ≠ [])
    as (r & Hr & Hne).
  { assert (Forall stored l2) as Hst2 by (unfold l2; by apply Forall_drop).
    clearbody l2. destruct l2 as [|e l2]; [simpl in Hl2; lia|].
    apply Forall_cons in Hst2 as [He _]. pose proof (enc_small e He). eexists. split.
    - rewrite <- Hes, idx_bytes_app. cbn [positions]. by rewrite idx_of_cons.
    - rewrite data_bytes_cons. destruct (enc e); [simpl in *; lia|done]. }
  pose proof (dlen_nonneg l1). pose proof (dlen_nonneg l2).
  assert (dlen (al_entries g) = dlen l1 + dlen l2) as Hlen by (by rewrite <- Hes, dlen_app).
  unfold compact_part. erewrite bind_Ret by done. cbv zeta. rewrite cp_store_fsx. fields. change ulen with 8.
  rewrite (u64_small (i - _)) by (unfold is_u64; lia). rewrite (u64_small (_ * 8)) by (unfold is_u64; lia).
  replace ((i - al_start g + 1) * 8) with (Z.of_nat (8 * length l1)) by lia.
  erewrite bind_Ret.
  2: { apply store_ret. fs (stream_seek _ _ _ Hi); [|lia]. apply on_idx.
    eapply (read_ulong_ret _ _ _ Hi _ (dlen l1) (idx_bytes l1));
      [exact Hr|rewrite length_idx; lia|unfold is_u64; lia]. }
  erewrite bind_Ret.
  2: { apply store_ret. fs (stream_seek_end _ _ _ Hi). apply on_data, (stream_seek_end _ _ _ Hd). }
  cp (stream_tell d LOG_INDEX_FILE). cp (stream_tell d LOG_DATA_FILE). rewrite length_idx.
  fold (dlen (al_entries g)).
  rewrite (u64_small (Z.of_nat (8 * length (al_entries g)))), (u64_small (dlen (al_entries g)))
    by (unfold is_u64; lia).
  replace (u64 (Z.of_nat _ - _)) with (Z.of_nat (8 * length l2)) by (rewrite u64_small by (unfold is_u64; lia); lia).
  replace (u64 (dlen _ - _)) with (dlen l2) by (rewrite u64_small by (unfold is_u64; lia); lia).
  edestruct (compact_data_ret d l1 l2) as (d1 & q2 & r2' & Hr1 & Hd1 & Ho1); [by rewrite Hes..|done|by rewrite Hes|].
  erewrite bind_Ret by exact Hr1. cbn [negb].
  edestruct (compact_idx_ret d1 l1 l2) as (d2 & q1 & r1' & Hr2 & Hi2 & Ho2);
    [by rewrite Ho1, Hes by done..|by rewrite Hes|].
  erewrite bind_Ret by exact Hr2. cbn [negb].
  erewrite bind_Ret by apply close_baks_ret.
  destruct (move_start_ret d2 g i q1 q2 p3 b sz) as (s' & Hr3 & Hrep); try done.
  { by rewrite Ho2. }
  { by rewrite Ho2, Ho1. }
  erewrite bind_Ret by (by apply store_ret). by eexists.
Qed.

Lemma bak_stream_opened f c : c ≠ [] → bak_stream f c = opened f (length c).
Proof. intros. unfold bak_stream. by rewrite bool_decide_true. Qed.

Lemma compact_rep g s i :
  fs_rep g s → al_start g ≤ i < 2 ^ 63 - 1 →
  ∃ s', compact i s = Ret true s' ∧ fs_rep (al_compact i g) s'.
Proof.
  intros (d & p1 & p2 & p3 & k & sz & Hf & Hfit & Hsz & Hk & ->) Hb.
  pose proof Hfit as (H1 & Hn & [Hf1 Hf2] & Hst). unfold al_next in *.
  unfold compact. fields. rewrite ltb_false by lia. unfold compact_in.
  destruct (make_backups_ret d g p1 p2 p3 (Z.of_nat (length (al_entries g))) (al_start g)
    (window (al_entries g) (al_start g) k sz) sz Hf) as (d' & q1 & q2 & q3 & Hr & Hf' & Hb1 & Hb2).
  erewrite bind_Ret by exact Hr. cbn [negb]. erewrite bind_Ret by done. cbv zeta.
  rewrite cp_store_fsx. fields. rewrite u64_small by (unfold is_u64; lia).
  destruct (Z.leb_spec (al_start g + Z.of_nat (length (al_entries g)) - 1) i) as [Hall|Hpart].
  - destruct (compact_all_ret d' g i q1 q2 q3 (window (al_entries g) (al_start g) k sz) sz
      (bak_stream LOG_INDEX_FILE_BAK (idx_bytes (al_entries g)))
      (bak_stream LOG_DATA_FILE_BAK (data_bytes (al_entries g)))
      (bak_stream LOG_START_INDEX_FILE_BAK (le_bytes 8 (al_start g)))) as (c & Hc & Hrep);
      [done|done|lia|done..|].
    erewrite bind_Ret by exact Hc. eexists. split; [done|].
    unfold al_compact. by rewrite drop_ge by lia.
  - assert (idx_bytes (al_entries g) ≠ []) as Hne1.
    { intros Hx. apply (f_equal length) in Hx. rewrite length_idx in Hx. simpl in Hx. lia. }
    assert (data_bytes (al_entries g) ≠ []) as Hne2.
    { destruct (al_entries g) as [|e es]; [simpl in Hpart; lia|].
      apply Forall_cons in Hst as [He _]. pose proof (enc_small e He).
      rewrite data_bytes_cons. destruct (enc e); [simpl in *; lia|done]. }
    assert (le_bytes 8 (al_start g) ≠ []) as Hne3.
    { intros Hx. apply (f_equal length) in Hx. by rewrite length_le_bytes in Hx. }
    rewrite !bak_stream_opened by done.
    destruct (compact_part_ret d' g i q1 q2 q3 (window (al_entries g) (al_start g) k sz) sz
      (length (idx_bytes (al_entries g))) (length (data_bytes (al_entries g)))
      (length (le_bytes 8 (al_start g)))) as (c & Hc & Hrep); try done; [unfold al_next; lia|].
    erewrite bind_Ret by exact Hc. by eexists.
Qed.
