(* ===== verification/FsProps.v ===== *)
(** What the file log store promises and where it breaks.  A run of operations inside
    the bounds of the window behaves as the abstract log; out-of-range indexes are
    refused; and the runs outside those bounds that read freed memory, serve stale or
    mixed entries, or lose the log. *)
From S2P Require Import Prelude Buffer Codec LogStore Stream FsLogStore FsRefine FsCompact.

(** ** Operations of a log store, on any implementation *)
Inductive log_op :=
| ONext | OStart | OLast
| OAppend (e : log_entry) | OWrite (i : Z) (e : log_entry)
| OEntries (i j : Z) | OEntry (i : Z) | OTerm (i : Z) | OCompact (i : Z).
Inductive log_val :=
| LIdx (i : Z) | LUnit | LBool (b : bool)
| LEntry (e : option log_entry) | LEntries (es : option (list log_entry)).

Definition log_step {L} `{LogStore L} (o : log_op) : M L log_val :=
  match o with
  | ONext => gets (λ l, LIdx (LogStore.next_slot l))
  | OStart => gets (λ l, LIdx (LogStore.start_index l))
  | OLast => gets (λ l, LEntry (Some (LogStore.last_entry l)))
  | OAppend e => i ← LogStore.append e; mret (LIdx i)
  | OWrite i e => LogStore.write_at i e;; mret LUnit
  | OEntries i j => r ← LogStore.log_entries i j; mret (LEntries r)
  | OEntry i => e ← LogStore.entry_at i; mret (LEntry e)
  | OTerm i => t ← LogStore.term_at i; mret (LIdx t)
  | OCompact i => b ← LogStore.compact i; mret (LBool b)
  end.

(** Operations of the file store: those of a log, and a restart with a window size. *)
Inductive fs_op := Log (o : log_op) | Reopen (buf_size : Z).
Definition fs_step (o : fs_op) : M fs_log_store log_val :=
  match o with Log o => log_step o | Reopen sz => reopen sz;; mret LUnit end.
Definition spec_step (o : fs_op) : M alog log_val :=
  match o with Log o => log_step o | Reopen _ => mret LUnit end.

(** What a caller has to respect on the store [s] that holds [g]. *)
Definition op_safe (o : fs_op) (s : fs_log_store) (g : alog) : Prop :=
  match o with
  | Log (OAppend e) => stored e ∧ log_fits (al_append e g)
  | Log (OWrite i e) =>
      stored e ∧ al_start g ≤ i < al_next g ∧ window_first s ≤ i ∧ log_fits (al_write_at i e g) ∧
      left_over (al_entries g) (Z.to_nat (i - al_start g)) e = []
  | Log (OEntries i j) =>
      al_start g ≤ i < al_next g ∧ i < j < 2 ^ 64 ∧ window_first s ≤ Z.min j (al_next g)
  | Log (OEntry i) => al_start g ≤ i < 2 ^ 64
  | Log (OTerm i) => al_start g ≤ i < al_next g
  | Log (OCompact i) => al_start g ≤ i < 2 ^ 63 - 1
  | Log _ => True
  | Reopen sz => size_ok (size_of sz)
  end.
Fixpoint run_safe (os : list fs_op) (s : fs_log_store) (g : alog) : Prop :=
  match os with
  | [] => True
  | o :: os' => op_safe o s g ∧ run_safe os' (final (fs_step o s)) (final (spec_step o g))
  end.

Lemma next_slot_rep g s : fs_rep g s → next_slot s = al_next g.
Proof.
  intros (d & p1 & p2 & p3 & k & sz & _ & (H1 & Hn & _) & _ & _ & ->). unfold next_slot. fields.
  unfold al_next in *. apply u64_small. unfold is_u64. lia.
Qed.
Lemma start_index_rep g s : fs_rep g s → start_index s = al_start g.
Proof. by intros (d & p1 & p2 & p3 & k & sz & _ & _ & _ & _ & ->). Qed.
Lemma last_entry_rep g s : fs_rep g s → last_entry s = al_last g.
Proof.
  intros (d & p1 & p2 & p3 & k & sz & _ & _ & _ & Hk & ->). unfold last_entry. fields. by apply win_last.
Qed.
Lemma mapM_id_Some {A} (l : list A) : mapM (M:=option) id (Some <$> l) = Some l.
Proof. induction l as [|x l IH]; [done|]. rewrite fmap_cons. simpl. by rewrite IH. Qed.

(** One step: both return the same value, and the store holds the new log. *)
Lemma fs_step_refines o s g : fs_rep g s → op_safe o s g →
  ∃ v s' g', fs_step o s = Ret v s' ∧ spec_step o g = Ret v g' ∧ fs_rep g' s'.
Proof.
  intros Hr Hs. destruct o as [[]|sz]; simpl in Hs |- *.
  - exists (LIdx (al_next g)), s, g. unfold gets. by rewrite (next_slot_rep g s Hr).
  - exists (LIdx (al_start g)), s, g. unfold gets. by rewrite (start_index_rep g s Hr).
  - exists (LEntry (Some (al_last g))), s, g. unfold gets. by rewrite (last_entry_rep g s Hr).
  - destruct Hs as [He Hf]. pose proof (rewind_stored e He) as Hrw. destruct He as [dd He].
    destruct (append_rep g s e _ Hr He) as (s' & Ha & Hr'); [by rewrite Hrw|]. rewrite Hrw in Hr'.
    exists (LIdx (al_next g)), s', (al_append e g). by erewrite bind_Ret by exact Ha.
  - destruct Hs as (He & Hi & Hw & Hf & Hlo). pose proof (rewind_stored e He) as Hrw.
    destruct He as [dd He].
    destruct (write_at_rep g s i e _ Hr He Hi Hw) as (s' & Ha & Hr'); [by rewrite Hrw..|]. rewrite Hrw in Hr'.
    exists LUnit, s', (al_write_at i e g). erewrite bind_Ret by exact Ha. split; [done|split; [|done]].
    unfold_M. cbn. by rewrite ltb_false, leb_false by lia.
  - destruct Hs as (Hi & Hj & Hw). destruct (log_entries_rep g s i j Hr Hi Hj Hw) as (s' & Ha & Hr').
    exists (LEntries (Some (al_slice i (Z.min j (al_next g)) g))), s', g.
    split; [|split; [|done]].
    + unfold_M. rewrite Ha. cbn beta iota. by rewrite mapM_id_Some.
    + unfold_M. cbn. by rewrite ltb_false, !leb_false by lia.
  - destruct (entry_at_rep g s i Hr Hs) as (s' & Ha & Hr').
    exists (LEntry (al_get i g)), s', g. erewrite bind_Ret by exact Ha. split; [done|split; [|done]].
    unfold_M. cbn. by rewrite ltb_false by lia.
  - destruct (term_at_rep g s i Hr Hs) as (s' & Ha & Hr').
    exists (LIdx (al_term i g)), s', g. erewrite bind_Ret by exact Ha. split; [done|split; [|done]].
    unfold_M. cbn. by rewrite ltb_false, leb_false by lia.
  - destruct (compact_rep g s i Hr Hs) as (s' & Ha & Hr').
    exists (LBool true), s', (al_compact i g). erewrite bind_Ret by exact Ha. split; [done|split; [|done]].
    unfold_M. cbn. by rewrite ltb_false by lia.
  - destruct (reopen_rep g s sz Hr Hs) as (s' & Ha & Hr').
    exists LUnit, s', g. by erewrite bind_Ret by exact Ha.
Qed.

(** A run that stops at the first error; the values returned, in order. *)
Fixpoint run_steps {S O V} (step : O → M S V) (os : list O) : M S (list V) :=
  match os with
  | [] => mret []
  | o :: os' => v ← step o; vs ← run_steps step os'; mret (v :: vs)
  end.

Lemma run_refines os s g :
  fs_rep g s → run_safe os s g →
  ∃ vs s' g', run_steps fs_step os s = Ret vs s' ∧ run_steps spec_step os g = Ret vs g' ∧
    fs_rep g' s'.
Proof.
  revert s g. induction os as [|o os IH]; intros s g Hr Hs; [by exists [], s, g|].
  destruct Hs as [Ho Hs]. destruct (fs_step_refines o s g Hr Ho) as (v & s1 & g1 & E1 & E2 & Hr1).
  rewrite E1, E2 in Hs. destruct (IH s1 g1 Hr1 Hs) as (vs & s2 & g2 & E3 & E4 & Hr2).
  exists (v :: vs), s2, g2. cbn [run_steps].
  split; [|split; [|done]].
  - erewrite bind_Ret by exact E1. by erewrite bind_Ret by exact E3.
  - erewrite bind_Ret by exact E2. by erewrite bind_Ret by exact E4.
Qed.
(** Where a safe run leads. *)
Lemma run_rep os s g : fs_rep g s → run_safe os s g →
  fs_rep (final (run_steps spec_step os g)) (final (run_steps fs_step os s)).
Proof. intros Hr Hs. destruct (run_refines os s g Hr Hs) as (vs & s' & g' & -> & -> & ?). done. Qed.

(** C11: Refinement of the file log store.  A store opened in an empty folder, and any run
    of operations and restarts, with other window sizes, that is safe ([run_safe]).  Safe
    means, at each step: the entry can be stored, and the index file stays below 2^31
    bytes; no index is below the start, and those of [term_at], [log_entries] and
    [write_at] are inside the log; a range of entries is not empty and does not end, and a
    write does not go, before the window; and a write does not put a shorter entry in place
    of the last one, which would leave bytes of the old one behind.  Then every operation
    returns the value of the abstract log, and the files and the window at the end hold
    that log.  The theorems below say what happens outside these conditions. *)
Theorem fs_store_refines_log os buf_size :
  size_ok (size_of buf_size) →
  let s := final (new_store (mk_os ∅ []) buf_size) in
  run_safe os s empty_log →
  ∃ vs s' g', run_steps fs_step os s = Ret vs s' ∧ run_steps spec_step os empty_log = Ret vs g' ∧
    fs_rep g' s'.
Proof.
  intros Hsz s Hs. destruct (new_store_empty buf_size Hsz) as (s0 & E & Hr).
  unfold s in *. rewrite E in *. by apply run_refines.
Qed.

(** *** Deciding the bounds *)
Definition stored_b (e : log_entry) : bool :=
  match le_buff e with
  | Some b => bool_decide (bpos b = 0%nat ∧ is_u64 (le_term e) ∧
                           Z.of_nat (length (bdata b)) < 0x80000000 - 9) &&
              match le_val_type e with other_val _ => false | _ => true end
  | None => false
  end.
Lemma stored_b_ok e : stored_b e = true → stored e.
Proof.
  unfold stored_b, stored, log_entry_ok. destruct (le_buff e) as [[bs pos]|]; [|done].
  intros H. apply andb_true_iff in H as [H Ht]. apply bool_decide_eq_true in H as (Hp & Hu & Hl).
  simpl in Hp. subst pos. exists bs. simpl in Hl. repeat split; try done; try apply Hu.
  intros v Hv. by rewrite Hv in Ht.
Qed.
Definition log_fits_b (g : alog) : bool :=
  bool_decide (1 ≤ al_start g ∧ al_next g < 2 ^ 63 ∧ 8 * Z.of_nat (length (al_entries g)) < 2 ^ 31 ∧
               dlen (al_entries g) < 2 ^ 63) && forallb stored_b (al_entries g).
Lemma log_fits_b_ok g : log_fits_b g = true → log_fits g.
Proof.
  unfold log_fits_b. intros H. apply andb_true_iff in H as [H Hs].
  apply bool_decide_eq_true in H as (H1 & H2 & H3 & H4).
  split; [done|]. split; [done|]. split; [done|].
  apply Forall_forall. intros e He. apply stored_b_ok.
  rewrite forallb_forall in Hs. by apply Hs, list_elem_of_In.
Qed.
Definition op_safe_b (o : fs_op) (s : fs_log_store) (g : alog) : bool :=
  match o with
  | Log (OAppend e) => stored_b e && log_fits_b (al_append e g)
  | Log (OWrite i e) =>
      stored_b e && log_fits_b (al_write_at i e g) &&
      bool_decide (al_start g ≤ i < al_next g ∧ window_first s ≤ i ∧
        left_over (al_entries g) (Z.to_nat (i - al_start g)) e = [])
  | Log (OEntries i j) => bool_decide
      (al_start g ≤ i < al_next g ∧ i < j < 2 ^ 64 ∧ window_first s ≤ Z.min j (al_next g))
  | Log (OEntry i) => bool_decide (al_start g ≤ i < 2 ^ 64)
  | Log (OTerm i) => bool_decide (al_start g ≤ i < al_next g)
  | Log (OCompact i) => bool_decide (al_start g ≤ i < 2 ^ 63 - 1)
  | Log _ => true
  | Reopen sz => bool_decide (1 ≤ size_of sz ≤ int_max)
  end.
Lemma op_safe_b_ok o s g : op_safe_b o s g = true → op_safe o s g.
Proof.
  destruct o as [[]|]; simpl; intros H; try done; try (by apply bool_decide_eq_true in H).
  - apply andb_true_iff in H as [? ?]. split; [by apply stored_b_ok|by apply log_fits_b_ok].
  - apply andb_true_iff in H as [H1 H2]. apply andb_true_iff in H1 as [? ?].
    apply bool_decide_eq_true in H2 as (? & ? & ?).
    split; [by apply stored_b_ok|]. split; [done|]. split; [done|]. split; [by apply log_fits_b_ok|done].
Qed.
Fixpoint run_safe_b (os : list fs_op) (s : fs_log_store) (g : alog) : bool :=
  match os with
  | [] => true
  | o :: os' => op_safe_b o s g && run_safe_b os' (final (fs_step o s)) (final (spec_step o g))
  end.
Lemma run_safe_b_ok os s g : run_safe_b os s g = true → run_safe os s g.
Proof.
  revert s g. induction os as [|o os IH]; intros s g H; [done|]. cbn [run_safe_b] in H.
  apply andb_true_iff in H as [H1 H2]. split; [by apply op_safe_b_ok|by apply IH].
Qed.

(** A store in an empty folder, with a window of two entries, and a run on it. *)
Definition text (t : Z) (n : nat) : log_entry :=
  mk_log_entry t app_log (Some (mk_buffer (replicate n (byte_of (64 + t))) 0)).
Definition fresh (sz : Z) : fs_log_store := final (new_store (mk_os ∅ []) sz).
Definition demo_run : list fs_op :=
  [Log (OAppend (text 1 4)); Log (OAppend (text 1 2)); Log (OAppend (text 2 3)); Log (OAppend (text 2 5));
   Log (OEntry 1); Log (OTerm 2); Log (OEntries 1 5); Log (OWrite 3 (text 3 1)); Reopen 1; Log OLast;
   Log (OAppend (text 3 6)); Log (OCompact 2); Log OStart; Log ONext; Log (OEntries 3 9);
   Log (OCompact 9); Log (OAppend (text 4 1)); Reopen (-1); Log (OEntry 10)].
Lemma fresh_rep sz : size_ok (size_of sz) → fs_rep empty_log (fresh sz).
Proof.
  intros Hsz. destruct (new_store_empty sz Hsz) as (s & E & Hr). unfold fresh. by rewrite E.
Qed.
Lemma fs_store_refines_log_witness :
  size_ok (size_of 2) ∧ run_safe demo_run (fresh 2) empty_log ∧
  ∃ vs s' g', run_steps fs_step demo_run (fresh 2) = Ret vs s' ∧
    run_steps spec_step demo_run empty_log = Ret vs g' ∧ fs_rep g' s'.
Proof.
  assert (size_ok (size_of 2)) as H1 by (vm_compute; split; discriminate).
  assert (run_safe demo_run (fresh 2) empty_log) as H2 by (apply run_safe_b_ok; vm_compute; reflexivity).
  exact (conj H1 (conj H2 (fs_store_refines_log demo_run 2 H1 H2))).
Defined.
Example demo_run_values :
  result (run_steps fs_step demo_run (fresh 2)) = result (run_steps spec_step demo_run empty_log).
Proof. vm_compute. reflexivity. Qed.

(** C15: Durability of an append.  When [append] returns, the entry is in the files: a
    store opened on the folder as it is then, without the first one having been closed
    and whatever its window size, holds the log with the new entry at its end. *)
Theorem append_survives_restart g s e b buf_size :
  fs_rep g s → log_entry_ok e b → log_fits (al_append (rewind e) g) → size_ok (size_of buf_size) →
  ∃ s' s'', append e s = Ret (al_next g) s' ∧
    new_store (fs_os s') buf_size = Ret () s'' ∧ fs_rep (al_append (rewind e) g) s'' ∧
    result (entry_at (al_next g) s'') = Some (Some (rewind e)).
Proof.
  intros Hr He Hf Hsz. destruct (append_rep g s e b Hr He Hf) as (s' & Ha & Hr').
  destruct (Hr') as (d & p1 & p2 & p3 & k & sz & Hfi & _ & _ & _ & Es').
  destruct (init_rep d (al_append (rewind e) g) (size_of buf_size) Hfi Hf Hsz) as (s'' & Hi & Hr'').
  exists s', s''. split; [done|]. split; [by rewrite Es'|]. split; [done|].
  destruct Hf as (H1 & Hn & _). rewrite al_next_append in Hn.
  destruct (entry_at_rep _ _ (al_next g) Hr'') as (s3 & E & _).
  - unfold al_next, al_append, set_field in *. simpl in *. lia.
  - rewrite E, al_get_append_new. done.
Qed.
Lemma append_survives_restart_witness :
  fs_rep empty_log (fresh 2) ∧ log_entry_ok (text 1 4) (mk_buffer (replicate 4 (byte_of 65)) 0) ∧
  log_fits (al_append (rewind (text 1 4)) empty_log) ∧ size_ok (size_of (-1)) ∧
  ∃ s' s'', append (text 1 4) (fresh 2) = Ret (al_next empty_log) s' ∧
    new_store (fs_os s') (-1) = Ret () s'' ∧ fs_rep (al_append (rewind (text 1 4)) empty_log) s'' ∧
    result (entry_at (al_next empty_log) s'') = Some (Some (rewind (text 1 4))).
Proof.
  assert (fs_rep empty_log (fresh 2)) as H1 by (apply fresh_rep; vm_compute; split; discriminate).
  assert (log_entry_ok (text 1 4) (mk_buffer (replicate 4 (byte_of 65)) 0)) as H2.
  { split; [reflexivity|]. split; [vm_compute; split; [discriminate|reflexivity]|].
    split; [intros v; discriminate|vm_compute; reflexivity]. }
  assert (log_fits (al_append (rewind (text 1 4)) empty_log)) as H3
    by (apply log_fits_b_ok; vm_compute; reflexivity).
  assert (size_ok (size_of (-1))) as H4 by (vm_compute; split; discriminate).
  exact (conj H1 (conj H2 (conj H3 (conj H4
    (append_survives_restart empty_log (fresh 2) (text 1 4) _ (-1) H1 H2 H3 H4))))).
Defined.

(** C35: Errors on indexes outside the log.  Below the start index [entry_at], [term_at],
    [log_entries], [write_at], [pack] and [compact] throw a range error and change
    nothing, in memory or on disk; [write_at] does so above the next slot too; from the
    next slot on, [entry_at], [log_entries] and [pack] return nothing.  ([term_at] and
    [compact] above the end are not covered.) *)
Theorem fs_range_errors g s i :
  fs_rep g s → 0 ≤ i < 2 ^ 64 →
  (i < al_start g → ∀ j e n,
    entry_at i s = Stop (Thrown Range_error) s ∧ term_at i s = Stop (Thrown Range_error) s ∧
    log_entries i j s = Stop (Thrown Range_error) s ∧ write_at i e s = Stop (Thrown Range_error) s ∧
    pack i n s = Stop (Thrown Range_error) s ∧ compact i s = Stop (Thrown Range_error) s) ∧
  (al_next g < i → ∀ e, write_at i e s = Stop (Thrown Range_error) s) ∧
  (al_next g ≤ i → ∀ j n, entry_at i s = Ret None s ∧ log_entries i j s = Ret None s ∧
    pack i n s = Ret None s).
Proof.
  intros (d & p1 & p2 & p3 & k & sz & _ & Hfit & Hsz & Hk & ->) Hi.
  pose proof Hfit as (H1 & Hn & [Hf1 Hf2] & Hst). unfold al_next in *.
  pose proof (win_ok_le _ _ _ Hk).
  assert (∀ j, LogBuf.at_idx i (window (al_entries g) (al_start g) k sz) = j →
    j = if i <? al_start g + Z.of_nat k then None else al_entries g !! Z.to_nat (i - al_start g)) as Hat.
  { intros j <-. apply win_at; unfold is_u64; lia. }
  split; [|split].
  - intros Hlt j e n. rewrite (ltb_true i (al_start g + Z.of_nat k)) in Hat by lia.
    unfold entry_at, term_at, log_entries, write_at, pack, compact. unfold_M. fields.
    rewrite (Hat _ eq_refl), win_first_idx, !(ltb_true i (al_start g)) by lia. cbn [orb].
    by rewrite (leb_false (al_start g + _)) by lia.
  - intros Hgt e. unfold write_at. unfold_M. fields. rewrite u64_small by (unfold is_u64; lia).
    by rewrite (ltb_true _ i), orb_true_r by lia.
  - intros Hge j n.
    assert (LogBuf.at_idx i (window (al_entries g) (al_start g) k sz) = None) as Hnone.
    { rewrite (Hat _ eq_refl). destruct (i <? _); [done|]. apply lookup_ge_None_2. lia. }
    split; [|split].
    + unfold entry_at. erewrite bind_Ret by done. fields. rewrite Hnone, (ltb_false i) by lia.
      erewrite bind_Ret by apply io_check_good. fields. rewrite (u64_small (al_start g + _)) by (unfold is_u64; lia).
      by rewrite leb_true by lia.
    + unfold log_entries. erewrite bind_Ret by done. fields. rewrite (ltb_false i) by lia.
      rewrite (u64_small (al_start g + _)) by (unfold is_u64; lia).
      by rewrite (leb_true (al_start g + _)), orb_true_r by lia.
    + unfold pack. erewrite bind_Ret by done. fields. rewrite (ltb_false i) by lia.
      erewrite bind_Ret by apply io_check_good. cbv zeta. fields. rewrite (u64_small (i - _)) by (unfold is_u64; lia).
      by rewrite leb_true by lia.
Qed.
Lemma fs_range_errors_witness :
  fs_rep empty_log (fresh 2) ∧ 0 ≤ 0 < 2 ^ 64 ∧
  term_at 0 (fresh 2) = Stop (Thrown Range_error) (fresh 2).
Proof.
  assert (fs_rep empty_log (fresh 2)) as H1 by (apply fresh_rep; vm_compute; split; discriminate).
  assert (0 ≤ 0 < 2 ^ 64) as H2 by (split; [discriminate|reflexivity]).
  exact (conj H1 (conj H2 (proj1 (proj2
    (proj1 (fs_range_errors empty_log (fresh 2) 0 H1 H2) eq_refl 0 (text 1 1) 0))))).
Defined.

(** C36: A read that ends before the window is undefined behaviour.  [fill] then adds no
    place-holders to the result, and the entries read from the disk are assigned to
    positions of an empty vector. *)
Theorem log_entries_before_window g s i j :
  fs_rep g s → al_start g ≤ i < j → j < window_first s →
  ∃ s', log_entries i j s = Stop Undefined s'.
Proof.
  intros (d & p1 & p2 & p3 & k & sz & (Hi & Hd & Hs) & Hfit & Hsz & Hk & ->) Hb Hw.
  pose proof Hfit as (H1 & Hn & [Hf1 Hf2] & Hst). pose proof (win_ok_le _ _ _ Hk).
  unfold window_first in Hw. fields. rewrite win_first_idx in Hw. unfold al_next in *.
  set (es := al_entries g) in *. set (st := al_start g) in *.
  unfold log_entries. erewrite bind_Ret by done. fields.
  rewrite ltb_false, leb_false, (u64_small (st + _)), leb_false by (unfold is_u64; lia). cbn [orb].
  cbv zeta. rewrite (u64_small (i - _)), (u64_small (j - _)) by (unfold is_u64; lia).
  rewrite (ltb_false (Z.of_nat (length es))), leb_false, (u64_small (j - st + st)) by (unfold is_u64; lia).
  replace (j - st + st) with j by lia.
  erewrite bind_Ret.
  2: { apply on_win. unfold LogBuf.fill. erewrite bind_Ret by reflexivity.
    rewrite (ltb_true j) by (simpl; lia). reflexivity. }
  cbn beta iota. change (lb_start_idx (window es st k sz)) with (st + Z.of_nat k).
  rewrite ltb_true by lia. rewrite (u64_small (_ - st)) by (unfold is_u64; lia).
  destruct (entry_split es (Z.to_nat (i - st))) as (l1 & e & e2 & l2 & _ & Hl1 & He & Hse & Hx & Hdb & H0 & H2 & H3);
    [lia|done|]. destruct (deserialize_stored e Hse) as [bb Hde].
  rewrite i32_small by (unfold is_i32; lia).
  destruct (Z.to_nat (st + Z.of_nat k - st - (i - st))) as [|m] eqn:Em; [lia|].
  erewrite bind_assoc, bind_Ret by apply io_check_good. rewrite bind_assoc. change ulen with 8.
  rewrite (u64_small (_ * 8)) by (unfold is_u64; lia).
  fs (stream_seek _ _ _ Hi); [|lia]. rewrite bind_assoc.
  fs (read_ulong_ret _ _ _ Hi _ (dlen l1)); [|rewrite length_idx; lia|unfold is_u64; lia].
  cbn [read_entries]. rewrite bind_assoc.
  fs (read_ulong_ret _ _ _ Hi _ (dlen l1 + Z.of_nat (length (enc e))) (idx_bytes l1 ++ le_bytes 8 (dlen l1)));
    [|by rewrite <- app_assoc|len; rewrite length_idx; lia|unfold is_u64; lia].
  rewrite bind_assoc. fs (stream_seek _ _ _ Hd); [|lia]. rewrite bind_assoc.
  replace (u64 _) with (Z.of_nat (length (enc e)))
    by (rewrite i32_small by (unfold is_i32; lia); rewrite u64_small by (unfold is_u64; lia); lia).
  fs (read_buffer_ret _ _ _ Hd _ _ (data_bytes l1) (enc e)); [|unfold dlen; lia|done|lia].
  rewrite bind_assoc. erewrite bind_Ret by (by apply local_cursor). by eexists.
Qed.

(** Four entries and a window of two. *)
Definition four : list fs_op :=
  [Log (OAppend (text 1 4)); Log (OAppend (text 1 2)); Log (OAppend (text 2 3)); Log (OAppend (text 2 5))].
Definition full (sz : Z) : fs_log_store := final (run_steps fs_step four (fresh sz)).
Definition four_log : alog := mk_alog 1 [text 1 4; text 1 2; text 2 3; text 2 5].
Lemma full_rep : fs_rep four_log (full 2).
Proof.
  change four_log with (final (run_steps spec_step four empty_log)). apply run_rep.
  - apply fresh_rep. vm_compute. split; discriminate.
  - apply run_safe_b_ok. vm_compute. reflexivity.
Qed.
Lemma log_entries_before_window_witness :
  fs_rep four_log (full 2) ∧ al_start four_log ≤ 1 < 2 ∧ 2 < window_first (full 2) ∧
  ∃ s', log_entries 1 2 (full 2) = Stop Undefined s'.
Proof.
  assert (al_start four_log ≤ 1 < 2) as H2 by (vm_compute; split; [discriminate|reflexivity]).
  assert (2 < window_first (full 2)) as H3 by (vm_compute; reflexivity).
  exact (conj full_rep (conj H2 (conj H3 (log_entries_before_window four_log (full 2) 1 2 full_rep H2 H3)))).
Defined.

Lemma enc_payload e b : le_buff e = Some b → enc e = encode_entry e (bdata b).
Proof. unfold enc. by intros ->. Qed.
Lemma drop_encode e e' d d' : drop (length (encode_entry e d)) (encode_entry e' d') = drop (length d) d'.
Proof.
  unfold encode_entry. rewrite !length_app, !length_le_bytes, app_assoc. simpl.
  rewrite drop_app_ge by len. f_equal. len.
Qed.

Lemma log_fits_last st es o e :
  log_fits (mk_alog st (es ++ [o])) → stored e → (length (enc e) ≤ length (enc o))%nat →
  log_fits (mk_alog st (es ++ [e])).
Proof.
  unfold log_fits, fits, al_next. cbn [al_start al_entries].
  rewrite !length_app, !dlen_app, !dlen_cons, !dlen_nil, !Forall_app, !Forall_singleton.
  simpl length. intros (H1 & H2 & [H3 H4] & Hs & _) He Hl. repeat split; try done; lia.
Qed.

(** The entry that a reader of the files finds where [e] was written over the longer
    [o]: its own bytes and the tail of the old one. *)
Definition overlaid (e : log_entry) (new old : list byte) : log_entry :=
  e <| le_buff := Some (cursor [] (new ++ drop (length new) old)) |>.
Lemma overlaid_enc e b o old : log_entry_ok e b → log_entry_ok o (cursor [] old) →
  (length (bdata b) < length old)%nat →
  stored (overlaid e (bdata b) old) ∧
  enc (overlaid e (bdata b) old) = enc (rewind e) ++ drop (length (enc (rewind e))) (enc o) ∧
  (length (enc (rewind e)) ≤ length (enc o))%nat ∧
  (length (enc (overlaid e (bdata b) old)) ≤ length (enc o))%nat.
Proof.
  intros (Hb & Ht & Hv & Hl) Ho Hlen. pose proof (length_enc o old Ho) as Hlo.
  destruct Ho as (Hob & _ & _ & Hol). simpl in Hol.
  assert (enc (rewind e) = encode_entry e (bdata b)) as Hr by (unfold enc, rewind, set_field; simpl; by rewrite Hb).
  assert (enc (overlaid e (bdata b) old) = encode_entry e (bdata b ++ drop (length (bdata b)) old)) as He by done.
  split; [eexists; repeat split; try done; try apply Ht; simpl; len|].
  rewrite Hr, He, (enc_payload o _ Hob), drop_encode in *. simpl in *. unfold encode_entry in *.
  split; [by rewrite <- !app_assoc|]. split; len.
Qed.

(** C37: Overwriting the last entry with a shorter one corrupts it on disk.  The index
    file does not shrink, so nothing is truncated: the store returns the new entry, but
    after a restart the entry has the tail of the old one behind its own bytes. *)
Theorem shorter_overwrite_corrupts g s es o old e b buf_size :
  fs_rep g s → al_entries g = es ++ [o] → le_buff o = Some old → log_entry_ok e b →
  (length (bdata b) < length (bdata old))%nat → size_ok (size_of buf_size) →
  ∃ s' s'', write_at (al_next g - 1) e s = Ret () s' ∧ last_entry s' = rewind e ∧
    reopen buf_size s' = Ret () s'' ∧ last_entry s'' = overlaid e (bdata b) (bdata old).
Proof.
  intros Hr Hes Hod Hok Hlen Hsz. destruct g as [st gs]. simpl in Hes. subst gs.
  set (g := mk_alog st (es ++ [o])) in *. set (i := al_next g - 1).
  assert (log_fits g ∧ window_first s ≤ i) as [Hfit Hw].
  { destruct Hr as (d & p1 & p2 & p3 & k & sz & _ & Hfit & _ & [[Hk|[_ Hk]] _] & ->); [|by destruct es].
    split; [done|]. unfold window_first, i, al_next. fields. rewrite win_first_idx. simpl in *. lia. }
  assert (∃ od, old = cursor [] od ∧ log_entry_ok o (cursor [] od)) as (od & -> & Ho).
  { destruct Hfit as (_ & _ & _ & Hst). apply Forall_app in Hst as [_ Hst].
    apply Forall_singleton in Hst as [od Ho]. exists od. split; [|done].
    destruct Ho as (Ho & _). congruence. }
  simpl in Hlen |- *. destruct (overlaid_enc e b o od Hok Ho Hlen) as (Hse & Henc & Hl1 & Hl2).
  assert (Z.to_nat (i - al_start g) = length es) as Hi by (unfold i, al_next; simpl; len).
  assert (al_write_at i (rewind e) g = mk_alog st (es ++ [rewind e])) as Hwa.
  { unfold al_write_at, set_field. rewrite Hi. simpl. by rewrite take_app_length. }
  destruct (write_at_ret g s i e b) as (d & p1 & p2 & p3 & k & sz & E & Hdi & Hdd & Hds & Hsz' & Hk);
    [done|done|unfold i, al_next; simpl; len|done|rewrite Hwa; eapply log_fits_last; eauto using stored_rewind|].
  rewrite Hi in *. simpl in Hdi, Hdd, Hk, E. rewrite take_app_length in *.
  unfold left_over in Hdd. rewrite length_app in Hdd. simpl length in Hdd.
  rewrite Nat.add_1_r, Nat.ltb_irrefl, lookup_app_r, Nat.sub_diag in Hdd by lia. simpl in Hdd.
  rewrite data_bytes_snoc, <- app_assoc, <- Henc, <- data_bytes_snoc in Hdd.
  destruct (init_rep d (mk_alog st (es ++ [overlaid e (bdata b) od])) (size_of buf_size))
    as (s'' & Hin & Hr''); [|by eapply log_fits_last|done|].
  { split; [|done]. simpl. by rewrite idx_bytes_snoc in *. }
  do 2 eexists. split; [exact E|]. split.
  { unfold last_entry. fields. rewrite win_last by done. by rewrite last_snoc. }
  split; [exact Hin|]. rewrite (last_entry_rep _ _ Hr''). unfold al_last. simpl. by rewrite last_snoc.
Qed.
Lemma shorter_overwrite_corrupts_witness :
  fs_rep four_log (full 2) ∧ al_entries four_log = [text 1 4; text 1 2; text 2 3] ++ [text 2 5] ∧
  ∃ s' s'', write_at (al_next four_log - 1) (text 7 1) (full 2) = Ret () s' ∧
    last_entry s' = rewind (text 7 1) ∧ reopen 100 s' = Ret () s'' ∧
    last_entry s'' = overlaid (text 7 1) [byte_of 71] (replicate 5 (byte_of 66)).
Proof.
  assert (al_entries four_log = [text 1 4; text 1 2; text 2 3] ++ [text 2 5]) as H1 by reflexivity.
  assert (log_entry_ok (text 7 1) (mk_buffer [byte_of 71] 0)) as H2.
  { split; [reflexivity|]. split; [vm_compute; split; [discriminate|reflexivity]|].
    split; [intros v; discriminate|vm_compute; reflexivity]. }
  assert (length (bdata (mk_buffer [byte_of 71] 0)) < length (bdata (mk_buffer (replicate 5 (byte_of 66)) 0)))%nat
    as H3 by (vm_compute; repeat constructor).
  assert (size_ok (size_of 100)) as H4 by (vm_compute; split; discriminate).
  exact (conj full_rep (conj H1 (shorter_overwrite_corrupts four_log (full 2) _ _
    (mk_buffer (replicate 5 (byte_of 66)) 0) (text 7 1) (mk_buffer [byte_of 71] 0) 100
    full_rep H1 eq_refl H2 H3 H4))).
Defined.

(** ** Compaction when a call fails *)

(** What an operation on a stream in any state leaves: it returns, and only the file it
    names may change. *)
Lemma seek_any d st off : ∃ st', Stream.seek off (on_disk d st) = Ret () (on_disk d st').
Proof.
  unfold Stream.seek, Stream.contents, Stream.good, Stream.set_pos, Stream.fail. unfold_M.
  destruct st as [[f|] [] p]; cbn; [|by eexists..]. case_match; by eexists.
Qed.
Lemma close_st_any d st : ∃ st', Stream.close (on_disk d st) = Ret () (on_disk d st').
Proof. destruct st as [[f|] g p]; by eexists. Qed.
Lemma open_out_any d f st : ∃ d' st', Stream.open f Out (on_disk d st) = Ret () (on_disk d' st') ∧
  same_but f d d' ∧ (st_file st = None → d' !! f = Some []).
Proof.
  destruct st as [[h|] g p].
  - exists d. eexists. split; [done|]. split; [|done]. by intros h' _.
  - exists (<[f := []]> d). eexists. split; [by apply stream_open_out|]. split.
    + intros h Hh. by rewrite lookup_insert_ne.
    + intros _. by rewrite lookup_insert_eq.
Qed.
Lemma open_ate_any d f st : ∃ st', Stream.open f In_out_ate (on_disk d st) = Ret () (on_disk d st') ∧
  (d !! f = None → st_good st' = false).
Proof.
  destruct (st_file st) as [h|] eqn:E.
  - exists (set_field st_good (λ _, false) st). split; [|done].
    destruct st as [? g p]. simpl in E. by subst.
  - destruct (d !! f) as [c|] eqn:Hf.
    + eexists. split; [by eapply stream_open_ate|done].
    + eexists. split; [by apply stream_open_missing|]. by destruct st.
Qed.
(** A stream after [if (s) s.close()]. *)
Definition closed (st : fstream) : fstream :=
  if st_good st then match st_file st with
    | Some _ => set_field st_file (λ _, None) st
    | None => set_field st_good (λ _, false) st
    end else st.
Lemma close_good_idx d s1 s2 s3 n st b sz :
  close_if_good idx_file_ (fsx d s1 s2 s3 n st b sz) = Ret () (fsx d (closed s1) s2 s3 n st b sz).
Proof. by destruct s1 as [[?|] [] ?]. Qed.
Lemma close_good_data d s1 s2 s3 n st b sz :
  close_if_good data_file_ (fsx d s1 s2 s3 n st b sz) = Ret () (fsx d s1 (closed s2) s3 n st b sz).
Proof. by destruct s2 as [[?|] [] ?]. Qed.
Lemma close_good_sti d s1 s2 s3 n st b sz :
  close_if_good start_idx_file_ (fsx d s1 s2 s3 n st b sz) = Ret () (fsx d s1 s2 (closed s3) n st b sz).
Proof. by destruct s3 as [[?|] [] ?]. Qed.
(** [recreate], whatever the state of the stream and the two paths. *)
Lemma recreate_any d f g st : ∃ d' st1 st2 st3,
  Stream.open f Out (on_disk d st) = Ret () (on_disk d' st1) ∧
  Stream.close (on_disk d' st1) = Ret () (on_disk d' st2) ∧
  Stream.open g In_out_ate (on_disk d' st2) = Ret () (on_disk d' st3) ∧
  same_but f d d' ∧ (d !! g = None → f ≠ g → st_good st3 = false) ∧
  (st_file st = None → d' !! f = Some []).
Proof.
  destruct (open_out_any d f st) as (d' & st1 & E1 & Hsb & Hn).
  destruct (close_st_any d' st1) as [st2 E2]. destruct (open_ate_any d' g st2) as (st3 & E3 & Hb).
  exists d', st1, st2, st3. split_and!; try done. intros Hg Hne. apply Hb. by rewrite Hsb.
Qed.
Lemma recreate_all d s1 s2 s3 n st b sz : d !! LOG_DATA_FILE = None →
  ∃ d' s1' s2' s3',
    (recreate data_file_ LOG_DATA_FILE_BAK LOG_DATA_FILE;;
     recreate idx_file_ LOG_INDEX_FILE LOG_INDEX_FILE;;
     recreate start_idx_file_ LOG_START_INDEX_FILE LOG_START_INDEX_FILE) (fsx d s1 s2 s3 n st b sz)
    = Ret () (fsx d' s1' s2' s3' n st b sz) ∧
    d' !! LOG_DATA_FILE = None ∧ st_good s2' = false ∧
    (st_file s2 = None → d' !! LOG_DATA_FILE_BAK = Some []).
Proof.
  intros Hd.
  destruct (recreate_any d LOG_DATA_FILE_BAK LOG_DATA_FILE s2)
    as (d1 & t1 & t2 & t3 & E1 & E2 & E3 & Hs & Hb & He).
  destruct (recreate_any d1 LOG_INDEX_FILE LOG_INDEX_FILE s1)
    as (d2 & u1 & u2 & u3 & F1 & F2 & F3 & Hs2 & _).
  destruct (recreate_any d2 LOG_START_INDEX_FILE LOG_START_INDEX_FILE s3)
    as (d3 & v1 & v2 & v3 & G1 & G2 & G3 & Hs3 & _).
  exists d3, u3, t3, v3. split.
  - unfold recreate. erewrite bind_Ret by (fs E1; fs E2; apply on_data, E3).
    erewrite bind_Ret by (fs F1; fs F2; apply on_idx, F3). fs G1. fs G2. apply on_sti, G3.
  - rewrite Hs3, Hs2, Hs by done. split; [done|]. split; [by apply Hb|].
    intros Hc. rewrite Hs3, Hs2 by done. by apply He.
Qed.

(** C38: The restore after a failed compaction never succeeds and loses the log.  It
    removes the three files and then recreates the data file through the path of its
    backup: whatever made the compaction fail, the data file is gone, the restore
    throws, and a backup that the store's stream could open is empty.  No other call of
    the operating system fails on the way. *)
Theorem restore_loses_log c :
  faults (fs_os (cp_store c)) = [] →
  ∃ c', restore c = Stop (Thrown Runtime_error) c' ∧
    disk (fs_os (cp_store c')) !! LOG_DATA_FILE = None ∧
    (st_good (data_file_ (cp_store c)) = true ∨ st_file (data_file_ (cp_store c)) = None →
     disk (fs_os (cp_store c')) !! LOG_DATA_FILE_BAK = Some []).
Proof.
  destruct c as [[[d fl] s1 s2 s3 n st b sz] b1 b2 b3]. simpl. intros ->.
  change (mk_fs_log_store (mk_os d []) s1 s2 s3 n st b sz) with (fsx d s1 s2 s3 n st b sz).
  destruct (os_remove_any d LOG_INDEX_FILE) as [r1 H1].
  destruct (os_remove_any (delete LOG_INDEX_FILE d) LOG_DATA_FILE) as [r2 H2].
  destruct (os_remove_any (delete LOG_DATA_FILE (delete LOG_INDEX_FILE d)) LOG_START_INDEX_FILE) as [r3 H3].
  unfold restore. erewrite bind_Ret.
  2: { apply store_ret. erewrite bind_Ret by apply close_good_idx.
    erewrite bind_Ret by apply close_good_data. erewrite bind_Ret by apply close_good_sti.
    fs H1. fs H2. apply on_sys. exact H3. }
  set (d0 := delete LOG_START_INDEX_FILE _).
  destruct (seek_any d0 b1 0) as [b1' B1], (seek_any d0 b2 0) as [b2' B2], (seek_any d0 b3 0) as [b3' B3].
  cp B1. cp B2. cp B3.
  destruct (recreate_all d0 (closed s1) (closed s2) (closed s3) n st b sz)
    as (d' & s1' & s2' & s3' & E & Hd & Hg & Hb); [unfold d0; lk|].
  erewrite bind_Ret by (by apply store_ret). erewrite bind_Ret by done.
  change (data_file_ (cp_store _)) with s2'. rewrite Hg, orb_true_r. eexists. split; [done|].
  split; [done|]. intros Hc. apply Hb. destruct s2 as [[f|] [] p]; simpl in *; by destruct Hc.
Qed.
Lemma restore_loses_log_witness :
  let c := mk_compaction (full 2) new_fstream new_fstream new_fstream in
  faults (fs_os (cp_store c)) = [] ∧
  ∃ c', restore c = Stop (Thrown Runtime_error) c' ∧
    disk (fs_os (cp_store c')) !! LOG_DATA_FILE = None ∧
    (st_good (data_file_ (cp_store c)) = true ∨ st_file (data_file_ (cp_store c)) = None →
     disk (fs_os (cp_store c')) !! LOG_DATA_FILE_BAK = Some []).
Proof.
  assert (faults (fs_os (cp_store (mk_compaction (full 2) new_fstream new_fstream new_fstream))) = [])
    as H by (vm_compute; reflexivity).
  exact (conj H (restore_loses_log (mk_compaction (full 2) new_fstream new_fstream new_fstream) H)).
Defined.

(** *** Single runs *)

(** The store whose [n]-th call from now fails, a write before its first byte. *)
Definition failing (n : nat) (s : fs_log_store) : fs_log_store :=
  s <| fs_os ::= set_field faults (λ _, replicate n None ++ [Some 0%nat]) |>.
Definition file_size (f : file_name) (o : os) : option nat := length <$> disk o !! f.

(** The truncation of the data file fails (call 19): after the restore there is no data
    file, the backup and the index file are empty, and the store throws. *)
Example failed_truncation :
  let o := compact 2 (failing 19 (full 10)) in
  result o = None ∧ file_size LOG_DATA_FILE (fs_os (final o)) = None ∧
  file_size LOG_DATA_FILE_BAK (fs_os (final o)) = Some 0%nat ∧
  file_size LOG_INDEX_FILE (fs_os (final o)) = Some 0%nat.
Proof. by vm_compute. Qed.

(** The copy of the data file to its backup fails (call 13), which nobody checks: the
    compaction reports success and keeps the first bytes of the data file in the place
    of the last ones, so that what it returns as entry 4 was never appended. *)
Example failed_backup :
  let o := compact 2 (failing 13 (full 10)) in
  result o = Some true ∧ result (term_at 4 (full 10)) = Some 2 ∧ result (term_at 4 (final o)) = Some 321.
Proof. by vm_compute. Qed.

(** An overwrite below the window: [trim] does nothing, so the old entry 4 stays in the
    window, which claims to hold the indexes 4 and 5 of a log that ends at 1, and reading
    the new entry back throws. *)
Example overwrite_below_window :
  let s := final (write_at 1 (text 9 3) (full 2)) in
  next_slot s = 2 ∧ window_first s = 4 ∧ LogBuf.last_idx (buf_ s) = 6 ∧
  result (entry_at 4 s) = Some (Some (text 2 5)) ∧ result (entry_at 1 s) = None.
Proof. by vm_compute. Qed.

(** A pack holds absolute positions of the sender's data file: a log that was compacted,
    sent to one that was not, makes [apply_pack] throw after the files have changed. *)
Example pack_of_compacted_log :
  let sender := final (compact 1 (full 10)) in
  let receiver := final (append (text 1 9) (fresh 10)) in
  match result (pack 2 2 sender) with
  | Some (Some p) =>
      result (apply_pack 2 p receiver) = None ∧
      file_size LOG_INDEX_FILE (fs_os (final (apply_pack 2 p receiver))) = Some 24%nat
  | _ => False
  end.
Proof. by vm_compute. Qed.

(** The window's own [pack] does not return: its loop advances the bound together with
    the counter, so no number of rounds within the range of [size_t] is enough. *)
Lemma pack_loop_diverges fuel i j n size b e :
  0 ≤ i → 0 ≤ j → 0 < n → i + j + Z.of_nat fuel + n < 2 ^ 64 →
  lb_buf b !! Z.to_nat i = Some e → stored e →
  LogBuf.pack_loop fuel i (i + j) n size b = Stop Diverges b.
Proof.
  intros Hi. revert j size. induction fuel as [|fuel IH]; intros j size Hj Hn Hb He Hs;
    cbn [LogBuf.pack_loop]; rewrite u64_small, ltb_true by (unfold is_u64; lia); [done|].
  erewrite bind_Ret by done. rewrite He. erewrite bind_Ret by done.
  pose proof (rewind_stored e Hs) as Hrw. pose proof Hs as [dd Hok].
  erewrite bind_Ret by (apply local_ret; exact (serialize_stored e _ Hok)). cbn beta iota. rewrite Hrw.
  erewrite bind_Ret by done. rewrite u64_small by (unfold is_u64; lia).
  replace (set_field _ _ _) with b by (destruct b; unfold set_field; simpl in *; by rewrite list_insert_id).
  rewrite <- Z.add_assoc. apply IH; lia || done.
Qed.
Lemma window_pack_diverges fuel es st k sz start cnt :
  Forall stored es → 0 ≤ st → st + Z.of_nat (length es) < 2 ^ 63 →
  st + Z.of_nat k ≤ start < st + Z.of_nat (length es) → 0 < cnt < 2 ^ 31 → Z.of_nat fuel < 2 ^ 62 →
  LogBuf.pack fuel start cnt (window es st k sz) = Stop Diverges (window es st k sz).
Proof.
  intros Hs H0 Hn Hb Hc Hf. unfold LogBuf.pack. erewrite bind_Ret by done. cbv zeta.
  unfold LogBuf.size. change (lb_buf (window es st k sz)) with (drop k es).
  change (lb_start_idx (window es st k sz)) with (st + Z.of_nat k). rewrite length_drop.
  set (i := start - (st + Z.of_nat k)).
  rewrite (u64_small i), (u64_small cnt) by (unfold is_u64, i; lia).
  rewrite (u64_small (Z.of_nat _ - i)) by (unfold is_u64, i; lia).
  set (n := if _ <? cnt then _ else cnt).
  assert (0 < n < 2 ^ 31) as Hn' by (unfold n, i; destruct (Z.ltb_spec (Z.of_nat (length es - k) - (start - (st + Z.of_nat k))) cnt); lia).
  destruct (lookup_lt_is_Some_2 (drop k es) (Z.to_nat i)) as [e He]; [rewrite length_drop; unfold i; lia|].
  apply bind_Stop. rewrite <- (Z.add_0_r i) at 2.
  apply (pack_loop_diverges _ _ _ _ _ _ e); try (unfold i; lia); [done|].
  rewrite lookup_drop in He. by eapply Forall_lookup_1.
Qed.
