(* ===== verification/FsPack.v ===== *)
(** Log packs of the file log store: what [pack] reads from the sender's files and what
    [apply_pack] appends to the receiver's. *)
From S2P Require Import Prelude Buffer Codec LogStore Stream FsLogStore FsRefine FsProps.

(** The entries [mid] of a log whose earlier entries take [base] bytes of the data file. *)
Definition pack_bytes (base : Z) (mid : list log_entry) : list byte :=
  le_bytes 4 (8 * Z.of_nat (length mid)) ++ le_bytes 4 (dlen mid) ++
  idx_of (positions base mid) ++ data_bytes mid.

Lemma pack_build {S} base mid (s : S) :
  8 + 8 * Z.of_nat (length mid) + dlen mid < 2 ^ 31 →
  let idx_buf := cursor [] (idx_of (positions base mid)) in
  let data_buf := cursor [] (data_bytes mid) in
  build (u64 (2 * Z.of_nat sz_int + Z.of_nat (Buf.size idx_buf) + Z.of_nat (Buf.size data_buf)))
    (Buf.put_int (i32 (Z.of_nat (Buf.size idx_buf)));;
     Buf.put_int (i32 (Z.of_nat (Buf.size data_buf)));;
     Buf.put_buf idx_buf;; Buf.put_buf data_buf) s
  = Ret (cursor [] (pack_bytes base mid)) s.
Proof.
  intros Hl idx_buf data_buf. pose proof (dlen_nonneg mid).
  assert (Z.of_nat (Buf.size idx_buf) = 8 * Z.of_nat (length mid)) as Hi
    by (unfold idx_buf, Buf.size, cursor; simpl; rewrite length_idx_of, length_positions; lia).
  assert (Z.of_nat (Buf.size data_buf) = dlen mid) as Hd by done.
  rewrite Hi, Hd, !i32_small by (unfold is_i32; lia). unfold sz_int.
  rewrite u64_small by (unfold is_u64; lia).
  apply (build_writes _ _ (pack_bytes base mid)); unfold pack_bytes.
  - apply writes_bind; [apply writes_bytes|]. apply writes_bind; [apply writes_bytes|].
    apply writes_bind; [apply (writes_put_buf idx_buf)|apply (writes_put_buf data_buf)].
  - rewrite !length_app, !length_le_bytes, length_idx_of, length_positions. unfold dlen. lia.
  - lia.
Qed.

(** ** The sender *)

(** Where the data of the packed entries ends: at the end of the file, or where the next
    entry starts. *)
Lemma end_of_data_ret d es pre mid post q p2 s3 n st b sz :
  d !! LOG_INDEX_FILE = Some (idx_bytes es) → d !! LOG_DATA_FILE = Some (data_bytes es) →
  es = pre ++ mid ++ post → dlen es < 2 ^ 63 → q = (8 * length (pre ++ mid))%nat →
  ∃ p1' p2',
    (if Z.of_nat (length pre + length mid) =? Z.of_nat (length es) then
       on data_file_ Stream.seek_end;; p ← on data_file_ Stream.tell; mret (u64 p)
     else on idx_file_ read_ulong) (fsx d (IDX q) (DAT p2) s3 n st b sz)
    = Ret (dlen pre + dlen mid) (fsx d (IDX p1') (DAT p2') s3 n st b sz).
Proof.
  intros Hi Hd Hes Hl ->. pose proof (dlen_nonneg pre). pose proof (dlen_nonneg mid).
  pose proof (dlen_nonneg post).
  assert (dlen es = dlen pre + dlen mid + dlen post) as Hdl by (rewrite Hes, !dlen_app; lia).
  destruct (Z.eqb_spec (Z.of_nat (length pre + length mid)) (Z.of_nat (length es))) as [He|He];
    rewrite Hes, !length_app in He.
  - assert (post = []) as -> by (destruct post; simpl in *; [done|lia]). rewrite dlen_nil in Hdl.
    fs (stream_seek_end _ _ _ Hd). fs (stream_tell d LOG_DATA_FILE). fold (dlen es).
    rewrite u64_small by (unfold is_u64; lia). do 2 eexists. unfold mret, M_ret. f_equal. lia.
  - destruct post as [|e2 l2]; [simpl in *; lia|]. do 2 eexists. apply on_idx.
    eapply (read_ulong_ret _ _ _ Hi _ _ (idx_bytes (pre ++ mid)));
      [|by rewrite length_idx|unfold is_u64; lia].
    rewrite Hes, app_assoc, idx_bytes_app, dlen_app. cbn [positions]. by rewrite idx_of_cons.
Qed.

Lemma first_position base mid : is_u64 base → mid ≠ [] →
  (Buf.set_pos 0;; z ← Buf.get_ulong; Buf.set_pos 0;; mret z) (cursor [] (idx_of (positions base mid)))
  = Ret base (cursor [] (idx_of (positions base mid))).
Proof.
  intros Hb Hm. destruct mid as [|e mid]; [done|]. cbn [positions]. rewrite idx_of_cons.
  erewrite bind_Ret by apply set_pos_0. erewrite bind_Ret by (by apply get_ulong_cursor).
  by erewrite bind_Ret by apply set_pos_0.
Qed.

Lemma pack_rep g s pre mid post cnt :
  fs_rep g s → al_entries g = pre ++ mid ++ post → mid ≠ [] →
  length mid = Nat.min (Z.to_nat cnt) (length (mid ++ post)) → 0 < cnt < 2 ^ 31 →
  8 + 8 * Z.of_nat (length mid) + dlen mid < 2 ^ 31 →
  ∃ s', pack (al_start g + Z.of_nat (length pre)) cnt s
      = Ret (Some (cursor [] (pack_bytes (dlen pre) mid))) s' ∧ fs_rep g s'.
Proof.
  intros (d & p1 & p2 & p3 & k & sz & (Hi & Hd & Hs) & Hfit & Hsz & Hk & ->) Hes Hne Hm Hc Hp.
  pose proof Hfit as (H1 & Hn & [Hf1 Hf2] & Hst). unfold al_next in *.
  assert (length (al_entries g) = length pre + length mid + length post)%nat as Hlen
    by (rewrite Hes, !length_app; lia).
  assert (0 < length mid)%nat as Hm0 by (destruct mid; simpl; [done|lia]).
  pose proof (dlen_nonneg pre). pose proof (dlen_nonneg mid). pose proof (dlen_nonneg post).
  assert (dlen (al_entries g) = dlen pre + dlen mid + dlen post) as Hdl by (rewrite Hes, !dlen_app; lia).
  rewrite length_app in Hm.
  unfold pack. erewrite bind_Ret by done. fields. rewrite ltb_false by lia.
  erewrite bind_Ret by apply io_check_good. cbv zeta. fields. change ulen with 8.
  replace (al_start g + Z.of_nat (length pre) - al_start g) with (Z.of_nat (length pre)) by lia.
  rewrite (u64_small (Z.of_nat (length pre))), leb_false by (unfold is_u64; lia).
  rewrite (u64_small (_ + cnt)) by (unfold is_u64; lia).
  replace (Z.min _ _) with (Z.of_nat (length pre + length mid)) by lia.
  rewrite (i32_small (Z.of_nat (length pre))), (u64_small (Z.of_nat (length pre) * 8))
    by (unfold is_i32, is_u64; lia).
  fs (stream_seek _ _ _ Hi); [|lia].
  replace (u64 _) with (Z.of_nat (8 * length mid))
    by (rewrite i32_small by (unfold is_i32; lia); rewrite u64_small by (unfold is_u64; lia); lia).
  assert (idx_bytes (al_entries g) = idx_bytes pre ++ idx_of (positions (dlen pre) mid) ++
    idx_of (positions (dlen pre + dlen mid) post)) as Hx
    by (by rewrite Hes, idx_bytes_app, positions_app, idx_of_app).
  fs (read_buffer_ret _ _ _ Hi _ _ (idx_bytes pre)); [|rewrite length_idx; lia
    |rewrite length_idx_of, length_positions; lia|lia].
  rewrite length_idx_of, length_positions.
  destruct (end_of_data_ret d (al_entries g) pre mid post
    (Z.to_nat (Z.of_nat (length pre) * 8) + 8 * length mid) p2 (STI p3)
    (Z.of_nat (length (al_entries g))) (al_start g) (window (al_entries g) (al_start g) k sz) sz)
    as (p1' & p2' & He); [done|done|done|done|rewrite length_app; lia|].
  erewrite bind_Ret by exact He.
  erewrite bind_Ret by (apply local_ret, first_position; [unfold is_u64; lia|done]). cbn beta iota.
  fs (stream_seek _ _ _ Hd); [|lia].
  replace (u64 _) with (dlen mid)
    by (rewrite i32_small by (unfold is_i32; lia); rewrite u64_small by (unfold is_u64; lia); lia).
  fs (read_buffer_ret _ _ _ Hd _ _ (data_bytes pre) (data_bytes mid) (data_bytes post));
    [|by rewrite Hes, !data_bytes_app|unfold dlen; lia|done|lia].
  erewrite bind_Ret by (apply pack_build; lia). eexists. split; [done|]. by apply rep_intro.
Qed.

(** ** The receiver *)
Lemma apply_pack_rep g s mid :
  fs_rep g s → let g' := mk_alog (al_start g) (al_entries g ++ mid) in
  log_fits g' → 8 + 8 * Z.of_nat (length mid) + dlen mid < 2 ^ 31 →
  ∃ s', apply_pack (al_next g) (cursor [] (pack_bytes (dlen (al_entries g)) mid)) s = Ret () s' ∧
    fs_rep g' s'.
Proof.
  intros (d & p1 & p2 & p3 & k & sz & (Hi & Hd & Hs) & Hfit & Hsz & Hk & ->) g' Hfit' Hp.
  pose proof Hfit' as (H1 & Hn & [Hf1 Hf2] & _). unfold al_next, g' in *. cbn [al_start al_entries] in *.
  rewrite length_app in *. pose proof (dlen_nonneg mid). pose proof (dlen_nonneg (al_entries g)).
  rewrite dlen_app in Hf2. set (es := al_entries g) in *. set (st := al_start g) in *.
  unfold apply_pack, pack_bytes.
  erewrite bind_Ret by (apply local_cursor, get_int_cursor; unfold is_i32; lia). cbn beta iota.
  erewrite bind_Ret by (apply local_cursor, get_int_cursor; unfold is_i32; lia). cbn beta iota.
  erewrite bind_Ret by done. cbv zeta. fields.
  replace (st + Z.of_nat (length es) - st) with (Z.of_nat (length es)) by lia.
  rewrite (u64_small (Z.of_nat (length es))), Z.eqb_refl by (unfold is_u64; lia).
  erewrite bind_Ret by (fs (stream_seek_end _ _ _ Hi); apply on_data, (stream_seek_end _ _ _ Hd)).
  rewrite avail_cursor, rest_cursor.
  rewrite !ltb_false by (rewrite ?length_app, ?length_idx_of, ?length_positions; unfold dlen; lia).
  cbn [orb]. erewrite bind_Ret by done.
  replace (Z.to_nat (8 * Z.of_nat (length mid))) with (length (idx_of (positions (dlen es) mid)))
    by (rewrite length_idx_of, length_positions; lia).
  rewrite take_app_length, drop_app_length.
  replace (take (Z.to_nat (dlen mid)) (data_bytes mid)) with (data_bytes mid)
    by (rewrite take_ge; [done|unfold dlen; lia]).
  fs (stream_write _ _ _ Hi). rewrite fwrite_end, <- idx_bytes_app.
  fs (stream_write (<[LOG_INDEX_FILE:=_]> d) LOG_DATA_FILE (data_bytes es)); [|by rewrite lookup_insert_ne].
  rewrite fwrite_end, <- data_bytes_app. set (d' := <[LOG_DATA_FILE:=_]> _).
  assert (files d' (mk_alog st (es ++ mid))) as Hf.
  { unfold files, d'. simpl. repeat split; by simplify_map_eq. }
  destruct (Hf) as (Hi' & Hd' & Hs'). simpl in Hi', Hd'.
  fs (stream_flush _ _ _ Hi'). fs (stream_flush _ _ _ Hd').
  fs (stream_tell d' LOG_INDEX_FILE). fs (stream_tell d' LOG_DATA_FILE).
  fs (stream_seek_end _ _ _ Hi'). fs (stream_seek_end _ _ _ Hd'). fs (stream_tell d' LOG_INDEX_FILE).
  rewrite !length_idx, length_idx_of, length_positions, length_app.
  replace (8 * (length es + length mid))%nat with (8 * length es + 8 * length mid)%nat by lia.
  rewrite Z.ltb_irrefl. cbn [when]. erewrite bind_Ret by done. erewrite bind_Ret by apply io_check_good.
  change ulen with 8. rewrite (u64_small (8 * _)) by (unfold is_u64; lia).
  rewrite (Z.mul_comm 8), Z.div_mul, u64_small by (unfold is_u64; lia).
  erewrite bind_Ret by apply upd_entries. erewrite bind_Ret by done.
  replace (Z.of_nat (length es) + Z.of_nat (length mid)) with (Z.of_nat (length (es ++ mid))) by len.
  rewrite window_start_ret by (done || len).
  erewrite bind_Ret by (apply on_win; reflexivity).
  pose proof (first_of_ok sz (es ++ mid) Hsz) as Hk'.
  destruct (fill_buffer_ret d' (mk_alog st (es ++ mid)) (first_of sz (es ++ mid)) sz
    (8 * length es + 8 * length mid) (length (data_bytes (es ++ mid))) (STI p3) Hf Hfit' Hsz Hk')
    as (p1' & p2' & Hr).
  eexists. split; [exact Hr|]. by apply (rep_intro _ _ _ _ _ _ (mk_alog st (es ++ mid))).
Qed.

(** ** From one store to the other *)
Lemma log_fits_prefix st es es' : log_fits (mk_alog st (es ++ es')) → log_fits (mk_alog st es).
Proof.
  unfold log_fits, fits, al_next. cbn [al_start al_entries]. pose proof (dlen_nonneg es').
  rewrite length_app, dlen_app, Forall_app. intros (H1 & H2 & [H3 H4] & Hs & _). repeat split; try done; lia.
Qed.

(** C16: A pack brings a receiver up to date.  The receiver holds a prefix of the sender's
    log, with the same start index: the pack of [cnt] entries from the receiver's next
    slot, applied there, makes the receiver's log, in its files and in its window, the
    old one followed by the sender's next [cnt] entries; the sender's log is unchanged. *)
Theorem pack_extends_receiver g1 g2 s1 s2 rest cnt :
  fs_rep g1 s1 → fs_rep g2 s2 → al_start g1 = al_start g2 →
  al_entries g1 = al_entries g2 ++ rest → rest ≠ [] → 0 < cnt < 2 ^ 31 →
  let sent := take (Z.to_nat cnt) rest in
  8 + 8 * Z.of_nat (length sent) + dlen sent < 2 ^ 31 →
  ∃ p s1' s2', pack (al_next g2) cnt s1 = Ret (Some p) s1' ∧ fs_rep g1 s1' ∧
    apply_pack (al_next g2) p s2 = Ret () s2' ∧
    fs_rep (mk_alog (al_start g2) (al_entries g2 ++ sent)) s2'.
Proof.
  intros H1 H2 Hst Hes Hne Hc sent Hsz.
  assert (rest = sent ++ drop (Z.to_nat cnt) rest) as Hr by (unfold sent; by rewrite take_drop).
  destruct (pack_rep g1 s1 (al_entries g2) sent (drop (Z.to_nat cnt) rest) cnt) as (s1' & E1 & R1).
  - done.
  - by rewrite <- Hr.
  - unfold sent. destruct rest; [done|]. by destruct (Z.to_nat cnt) eqn:?; [lia|].
  - rewrite <- Hr. unfold sent. by rewrite length_take.
  - done.
  - done.
  - assert (log_fits (mk_alog (al_start g2) (al_entries g2 ++ sent))) as Hfit.
    { apply (log_fits_prefix _ _ (drop (Z.to_nat cnt) rest)). rewrite <- app_assoc, <- Hr, <- Hes, <- Hst.
      destruct H1 as (? & ? & ? & ? & ? & ? & _ & Hfit & _). by destruct g1. }
    destruct (apply_pack_rep g2 s2 sent H2 Hfit Hsz) as (s2' & E2 & R2).
    exists (cursor [] (pack_bytes (dlen (al_entries g2)) sent)), s1', s2'.
    split; [by rewrite <- E1; unfold al_next; rewrite Hst|]. done.
Qed.
Definition one : list fs_op := [Log (OAppend (text 1 4))].
Lemma pack_extends_receiver_witness :
  let g := mk_alog 1 [text 1 4] in
  let s := final (run_steps fs_step one (fresh 10)) in
  fs_rep four_log (full 2) ∧ fs_rep g s ∧
  ∃ p s1' s2', pack 2 2 (full 2) = Ret (Some p) s1' ∧ fs_rep four_log s1' ∧
    apply_pack 2 p s = Ret () s2' ∧
    fs_rep (mk_alog 1 [text 1 4; text 1 2; text 2 3]) s2'.
Proof.
  assert (fs_rep (mk_alog 1 [text 1 4]) (final (run_steps fs_step one (fresh 10)))) as H2.
  { change (mk_alog 1 [text 1 4]) with (final (run_steps spec_step one empty_log)). apply run_rep.
    - apply fresh_rep. vm_compute. split; discriminate.
    - apply run_safe_b_ok. vm_compute. reflexivity. }
  assert ([text 1 2; text 2 3; text 2 5] ≠ []) as H3 by discriminate.
  assert (0 < 2 < 2 ^ 31) as H4 by (split; reflexivity).
  exact (conj full_rep (conj H2 (pack_extends_receiver four_log (mk_alog 1 [text 1 4]) (full 2) _
    [text 1 2; text 2 3; text 2 5] 2 full_rep H2 eq_refl eq_refl H3 H4 eq_refl))).
Defined.
