(* ===== verification/Rpc.v ===== *)
(** The wire format of [asio_service.cxx]: what the client writes for a request and reads
    as a response, and what a session reads and writes.  A request is a header of 45
    bytes, which ends in the size of the log data, and the log data, entry after entry;
    a response is 26 bytes. *)
From S2P Require Import Prelude Buffer Codec Peer.

Create HintDb ends.

Definition RPC_REQ_HEADER_SIZE : Z := 3 * 4 + 8 * 4 + 1.
Definition RPC_RESP_HEADER_SIZE : Z := 4 * 2 + 8 * 2 + 2.
(** The largest log data a session accepts. *)
Definition max_data_size : Z := 0x1000000.

(** [(byte)req->get_type()] and [(msg_type)header_->get_byte()]. *)
Definition msg_types : list msg_type :=
  [request_vote_request; request_vote_response; append_entries_request; append_entries_response;
   client_request; add_server_request; add_server_response; remove_server_request;
   remove_server_response; sync_log_request; sync_log_response; join_cluster_request;
   join_cluster_response; leave_cluster_request; leave_cluster_response;
   install_snapshot_request; install_snapshot_response].
Definition msg_type_of (b : byte) : msg_type :=
  if byte_val b =? 0 then other_msg b
  else default (other_msg b) (msg_types !! Z.to_nat (byte_val b - 1)).
Definition msg_type_code (t : msg_type) : byte :=
  match t with
  | other_msg b => b
  | _ => byte_of (default 0 ((λ p : nat * msg_type, Z.of_nat (p.1 + 1)) <$> list_find (t =.) msg_types))
  end.

(** A sum of two [int]s: overflow is undefined. *)
Definition add_int {S} (a b : Z) : M S Z :=
  if (- 2 ^ 31 <=? a + b) && (a + b <? 2 ^ 31) then mret (a + b) else undefined.

(** ** The client's side *)

(** One entry; its own buffer is rewound on the way. *)
Definition put_entry : M log_entry buffer :=
  e ← get;
  b ← LogEntry.get_buf e;
  entry_buf ← Buf.alloc (8 + 1 + 4 + Z.of_nat (Buf.size b));
  '(_, b') ← local b (Buf.set_pos 0);
  modify (λ e, e <| le_buff := Some b' |>);;
  '(_, entry_buf) ← local entry_buf
    ((Buf.put_ulong (le_term e);; Buf.put_byte (log_val_code (le_val_type e));;
      Buf.put_int (i32 (Z.of_nat (Buf.size b)));; Buf.put_buf b');; Buf.set_pos 0);
  mret entry_buf.
(** The first loop of [send]: the entries as it leaves them, their buffers, and
    [log_data_size]. *)
Fixpoint put_entries {S} (es : list log_entry) (log_data_size : Z) :
    M S (list log_entry * list buffer * Z) :=
  match es with
  | [] => mret ([], [], log_data_size)
  | e :: es' =>
      '(entry_buf, e) ← local e put_entry;
      log_data_size ← add_int log_data_size (i32 (Z.of_nat (Buf.size entry_buf)));
      '(es', bufs, log_data_size) ← put_entries es' log_data_size;
      mret (e :: es', entry_buf :: bufs, log_data_size)
  end.
(** The bytes that [send] writes. *)
Definition put_request : M req_msg buffer :=
  req ← get;
  '(es, log_entry_bufs, log_data_size) ← put_entries (rq_log_entries req) 0;
  modify (λ req, req <| rq_log_entries := es |>);;
  n ← add_int RPC_REQ_HEADER_SIZE log_data_size;
  build (u64 n)
    (Buf.put_byte (msg_type_code (rq_type req));;
     Buf.put_int (rq_src req);; Buf.put_int (rq_dst req);;
     Buf.put_ulong (rq_term req);; Buf.put_ulong (rq_last_log_term req);;
     Buf.put_ulong (rq_last_log_idx req);; Buf.put_ulong (rq_commit_idx req);;
     Buf.put_int log_data_size;; for_each Buf.put_buf log_entry_bufs).

Definition get_response : M buffer resp_msg :=
  msg_type_val ← Buf.get_byte;
  src ← Buf.get_int; dst ← Buf.get_int;
  term ← Buf.get_ulong; nxt_idx ← Buf.get_ulong;
  accepted_val ← Buf.get_byte;
  mret (mk_resp term (msg_type_of msg_type_val) src dst nxt_idx (bool_decide (accepted_val = byte_of 1))).

(** ** The session's side *)

(** The size field, read from the end of the header. *)
Definition get_data_size : M buffer Z :=
  Buf.set_pos (RPC_REQ_HEADER_SIZE - 4);; Buf.get_int.

(** One entry of the log data, and the loop over it. *)
Definition get_entry : M buffer log_entry :=
  term ← Buf.get_ulong;
  val_type ← Buf.get_byte;
  val_size ← Buf.get_int;
  buf ← Buf.alloc (u64 val_size);
  buf ← Buf.get_buf buf;
  mret (mk_log_entry term (log_val_of val_type) (Some buf)).
Fixpoint get_entries (fuel : nat) : M buffer (list log_entry) :=
  log_data ← get;
  if (bpos log_data <? Buf.size log_data)%nat then
    match fuel with
    | O => stop Diverges
    | S fuel' =>
        e ← get_entry;
        es ← get_entries fuel';
        mret (e :: es)
    end
  else mret [].

(** The header but for the entries, and whether it announces any. *)
Definition get_header : M buffer (req_msg * bool) :=
  Buf.set_pos 0;;
  t ← Buf.get_byte;
  src ← Buf.get_int; dst ← Buf.get_int;
  term ← Buf.get_ulong; last_term ← Buf.get_ulong;
  last_idx ← Buf.get_ulong; commit_idx ← Buf.get_ulong;
  size ← Buf.get_int;
  mret (mk_req term (msg_type_of t) src dst last_term last_idx commit_idx [], 0 <? size).
Definition get_log_data : M buffer (list log_entry) :=
  Buf.set_pos 0;; b ← get; get_entries (Buf.size b).

Definition put_response {S} (resp : resp_msg) : M S buffer :=
  build RPC_RESP_HEADER_SIZE
    (Buf.put_byte (msg_type_code (rs_type resp));;
     Buf.put_int (rs_src resp);; Buf.put_int (rs_dst resp);;
     Buf.put_ulong (rs_term resp);; Buf.put_ulong (rs_next_idx resp);;
     Buf.put_byte (if rs_accepted resp then byte_of 1 else byte_of 0)).

(** ** The encodings *)
Definition payload (e : log_entry) : list byte := default [] (bdata <$> le_buff e).
Definition wire_entry (e : log_entry) : list byte :=
  le_bytes 8 (le_term e) ++ [log_val_code (le_val_type e)] ++
  le_bytes 4 (Z.of_nat (length (payload e))) ++ payload e.
Definition wire_data (es : list log_entry) : list byte := concat (wire_entry <$> es).
Definition wire_fields (r : req_msg) : list byte :=
  [msg_type_code (rq_type r)] ++ le_bytes 4 (rq_src r) ++ le_bytes 4 (rq_dst r) ++
  le_bytes 8 (rq_term r) ++ le_bytes 8 (rq_last_log_term r) ++ le_bytes 8 (rq_last_log_idx r) ++
  le_bytes 8 (rq_commit_idx r).
Definition data_size (r : req_msg) : Z := Z.of_nat (length (wire_data (rq_log_entries r))).
Definition wire_header (r : req_msg) : list byte := wire_fields r ++ le_bytes 4 (data_size r).
Definition wire_response (r : resp_msg) : list byte :=
  [msg_type_code (rs_type r)] ++ le_bytes 4 (rs_src r) ++ le_bytes 4 (rs_dst r) ++
  le_bytes 8 (rs_term r) ++ le_bytes 8 (rs_next_idx r) ++
  [if rs_accepted r then byte_of 1 else byte_of 0].

Definition msg_type_ok (t : msg_type) : Prop := msg_type_of (msg_type_code t) = t.
Definition sendable (e : log_entry) : Prop := ∃ b, log_entry_ok e b.
Definition request_ok (r : req_msg) : Prop :=
  msg_type_ok (rq_type r) ∧ is_i32 (rq_src r) ∧ is_i32 (rq_dst r) ∧ is_u64 (rq_term r) ∧
  is_u64 (rq_last_log_term r) ∧ is_u64 (rq_last_log_idx r) ∧ is_u64 (rq_commit_idx r) ∧
  Forall sendable (rq_log_entries r).
Definition response_ok (r : resp_msg) : Prop :=
  msg_type_ok (rs_type r) ∧ is_i32 (rs_src r) ∧ is_i32 (rs_dst r) ∧ is_u64 (rs_term r) ∧
  is_u64 (rs_next_idx r).
(** A request as [send] leaves it. *)
Definition rewound (r : req_msg) : req_msg := r <| rq_log_entries ::= fmap rewind |>.

(** Every enumerator survives the cast to a byte and back. *)
Lemma msg_type_enum t : (∀ b, t ≠ other_msg b) → msg_type_ok t.
Proof. intros H. destruct t; try (by vm_compute). by destruct (H b). Qed.
Lemma length_wire_header r : length (wire_header r) = 45%nat.
Proof. unfold wire_header, wire_fields. by rewrite !length_app, !length_le_bytes. Qed.
Lemma length_wire_response r : length (wire_response r) = 26%nat.
Proof. unfold wire_response. rewrite !length_app, !length_le_bytes. done. Qed.
Lemma length_wire_entry e : length (wire_entry e) = (13 + length (payload e))%nat.
Proof. unfold wire_entry. rewrite !length_app, !length_le_bytes. simpl. lia. Qed.
Lemma wire_data_cons e es : wire_data (e :: es) = wire_entry e ++ wire_data es.
Proof. done. Qed.
Lemma payload_rewind e : payload (rewind e) = payload e.
Proof. unfold payload, rewind, set_field. simpl. by destruct (le_buff e). Qed.

(** ** The client's side *)
Lemma add_int_ok {S} a b (s : S) : is_i32 (a + b) → add_int a b s = Ret (a + b) s.
Proof.
  unfold is_i32, add_int. intros. by rewrite (proj2 (Z.leb_le _ _)), (proj2 (Z.ltb_lt _ _)) by lia.
Qed.
Lemma local_rewind {S} b (s : S) : local b (Buf.set_pos 0) s = Ret ((), cursor [] (bdata b)) s.
Proof. unfold local. by rewrite set_pos_0. Qed.
Lemma local_writes {S} m bs (s : S) : writes m bs →
  local (cursor [] (zeros (length bs))) (m;; Buf.set_pos 0) s = Ret ((), cursor [] bs) s.
Proof.
  intros Hm. unfold local. rewrite (bind_Ret m _ _ _ _ (Hm _ _ (le_n _))).
  rewrite set_pos_0. simpl. by rewrite Nat.sub_diag, app_nil_r.
Qed.
Lemma put_entry_ok e : sendable e → Z.of_nat (length (wire_entry e)) < 2 ^ 31 →
  put_entry e = Ret (cursor [] (wire_entry e)) (rewind e).
Proof.
  intros (b & Hb & Ht & Hv & Hl) Hs. rewrite length_wire_entry in Hs.
  assert (payload e = bdata b) as Hp by (unfold payload; by rewrite Hb).
  unfold put_entry. erewrite bind_Ret by done.
  erewrite bind_Ret by (unfold LogEntry.get_buf; by rewrite Hb).
  replace (8 + 1 + 4 + _) with (Z.of_nat (length (wire_entry e)))
    by (rewrite length_wire_entry, Hp; unfold Buf.size; lia).
  erewrite bind_Ret by (apply alloc_cursor; rewrite length_wire_entry; lia).
  erewrite bind_Ret by apply local_rewind. cbn beta iota. erewrite bind_Ret by done.
  erewrite bind_Ret.
  2: { apply local_writes. unfold wire_entry. rewrite Hp.
    rewrite i32_small by (unfold is_i32, Buf.size; rewrite <- Hp; lia).
    repeat (apply writes_bind; [apply writes_bytes|]). apply (writes_put_buf (cursor [] (bdata b))). }
  cbn beta iota. unfold rewind, set_field. by rewrite Hb.
Qed.
Lemma put_entries_ok {S} es sz (s : S) : Forall sendable es → 0 ≤ sz →
  sz + Z.of_nat (length (wire_data es)) < 2 ^ 31 →
  put_entries es sz s
  = Ret (rewind <$> es, (λ e, cursor [] (wire_entry e)) <$> es, sz + Z.of_nat (length (wire_data es))) s.
Proof.
  intros Hes. revert sz. induction Hes as [|e es He Hes IH]; intros sz H0 Hsz; simpl.
  - by rewrite Z.add_0_r.
  - rewrite wire_data_cons, length_app in *.
    erewrite bind_Ret by (unfold local; rewrite put_entry_ok by (done || lia); done). cbn beta iota.
    assert (Buf.size (cursor [] (wire_entry e)) = length (wire_entry e)) as -> by done.
    rewrite i32_small by (unfold is_i32; lia).
    erewrite bind_Ret by (apply add_int_ok; unfold is_i32; lia).
    erewrite bind_Ret by (apply IH; lia). cbn beta iota. by rewrite Nat2Z.inj_add, Z.add_assoc.
Qed.
Lemma put_request_ok r : request_ok r →
  RPC_REQ_HEADER_SIZE + data_size r < 2 ^ 31 →
  put_request r = Ret (cursor [] (wire_header r ++ wire_data (rq_log_entries r))) (rewound r).
Proof.
  intros (Ht & Hs & Hd & Hm & H1 & H2 & H3 & Hes) Hl. unfold RPC_REQ_HEADER_SIZE, data_size in *.
  unfold put_request. erewrite bind_Ret by done.
  erewrite bind_Ret by (apply put_entries_ok; [done|lia|lia]). cbn beta iota.
  erewrite bind_Ret by done. unfold RPC_REQ_HEADER_SIZE.
  erewrite bind_Ret by (apply add_int_ok; unfold is_i32; lia). rewrite u64_small by (unfold is_u64; lia).
  apply build_writes.
  - unfold wire_header, wire_fields, data_size. rewrite <- !app_assoc, Z.add_0_l.
    repeat (apply writes_bind; [apply writes_bytes|]).
    replace (wire_data (rq_log_entries r))
      with (concat (Buf.rest <$> ((λ e, cursor [] (wire_entry e)) <$> rq_log_entries r)));
      [apply writes_put_all|].
    unfold wire_data. by rewrite <- list_fmap_compose.
  - rewrite length_app, length_wire_header. lia.
  - lia.
Qed.

(** ** The session's side *)
Lemma get_buf_cursor p d q : Buf.get_buf (cursor [] (zeros (length d))) (cursor p (d ++ q))
  = Ret (cursor [] d) (cursor (p ++ d) q).
Proof.
  assert (length (zeros (length d)) = length d) as Hz by apply length_replicate.
  unfold Buf.get_buf. unfold_M. rewrite !avail_cursor, Hz.
  rewrite (proj2 (Nat.ltb_ge _ _)) by len. rewrite advance_cursor.
  f_equal. unfold cursor, set_field. simpl. f_equal.
  rewrite rd_at_app by done. unfold wr_at. simpl. rewrite drop_ge by lia.
  by rewrite app_nil_r.
Qed.
Lemma cursor_more p q : (0 < length q)%nat → (bpos (cursor p q) <? Buf.size (cursor p q))%nat = true.
Proof. intros. apply Nat.ltb_lt. unfold Buf.size, cursor. simpl. len. Qed.
Lemma get_entry_ok e p q : sendable e → Z.of_nat (length (wire_entry e)) < 2 ^ 31 →
  get_entry (cursor p (wire_entry e ++ q)) = Ret (rewind e) (cursor (p ++ wire_entry e) q).
Proof.
  intros (b & Hb & Ht & Hv & Hlb) Hl. rewrite length_wire_entry in Hl.
  assert (payload e = bdata b) as Hp by (unfold payload; by rewrite Hb).
  unfold get_entry, wire_entry. rewrite <- !app_assoc. simpl app at 2. rewrite Hp in *.
  erewrite bind_Ret by (by apply get_ulong_cursor). erewrite bind_Ret by apply get_byte_cursor.
  erewrite bind_Ret by (apply get_int_cursor; unfold is_i32; lia).
  rewrite u64_small by (unfold is_u64; lia). erewrite bind_Ret by (apply alloc_cursor; lia).
  erewrite bind_Ret by apply get_buf_cursor. rewrite log_val_code_of by done.
  unfold mret, M_ret. f_equal.
  - destruct e. unfold rewind, set_field. simpl in *. by rewrite Hb.
  - f_equal. by rewrite <- !app_assoc.
Qed.
Lemma get_entries_ok fuel es p : (length es ≤ fuel)%nat → Forall sendable es →
  Z.of_nat (length (wire_data es)) < 2 ^ 31 →
  get_entries fuel (cursor p (wire_data es)) = Ret (rewind <$> es) (cursor (p ++ wire_data es) []).
Proof.
  intros Hf Hes. revert p fuel Hf. induction Hes as [|e es He Hes IH]; intros p fuel Hf Hl.
  - change (wire_data []) with (@nil byte).
    destruct fuel; cbn [get_entries]; erewrite bind_Ret by done;
      unfold Buf.size; simpl; rewrite !app_nil_r, Nat.ltb_irrefl; done.
  - rewrite wire_data_cons, length_app in *. pose proof (length_wire_entry e). simpl in Hf.
    destruct fuel as [|fuel]; [lia|]. cbn [get_entries]. erewrite bind_Ret by done.
    rewrite cursor_more by (rewrite length_app; lia).
    erewrite bind_Ret by (apply get_entry_ok; [done|lia]). erewrite bind_Ret by (apply IH; lia).
    by rewrite <- app_assoc.
Qed.
Lemma get_log_data_ok es b : bdata b = wire_data es → Forall sendable es →
  Z.of_nat (length (wire_data es)) < 2 ^ 31 →
  get_log_data b = Ret (rewind <$> es) (cursor (wire_data es) []).
Proof.
  intros Hpq Hes Hl. unfold get_log_data. erewrite bind_Ret by apply set_pos_0.
  erewrite bind_Ret by done. rewrite Hpq.
  apply (get_entries_ok _ es []); [|done|done]. unfold Buf.size. simpl.
  clear. induction es as [|e es IH]; [done|]. rewrite wire_data_cons, length_app, length_wire_entry. simpl. lia.
Qed.
Lemma set_pos_cursor n p q p' q' : p ++ q = p' ++ q' → n = Z.of_nat (length p') →
  Buf.set_pos n (cursor p q) = Ret () (cursor p' q').
Proof.
  intros Hpq ->. unfold Buf.set_pos, modify, cursor, set_field, Buf.size. simpl. rewrite Hpq.
  rewrite (proj2 (Z.ltb_ge _ _)) by len. by rewrite Nat2Z.id.
Qed.
Lemma get_header_ok r b : request_ok r → bdata b = wire_header r → data_size r < 2 ^ 31 →
  get_header b
  = Ret (set_field rq_log_entries (λ _, []) r, 0 <? data_size r) (cursor (wire_header r) []).
Proof.
  intros (Ht & Hs & Hd & Hm & H1 & H2 & H3 & Hes) Hpq Hl. unfold data_size in Hl.
  unfold get_header. erewrite bind_Ret by apply set_pos_0. rewrite Hpq.
  unfold wire_header, wire_fields. rewrite <- !app_assoc. simpl app at 1.
  erewrite bind_Ret by apply get_byte_cursor.
  erewrite bind_Ret by (by apply get_int_cursor). erewrite bind_Ret by (by apply get_int_cursor).
  erewrite bind_Ret by (by apply get_ulong_cursor). erewrite bind_Ret by (by apply get_ulong_cursor).
  erewrite bind_Ret by (by apply get_ulong_cursor). erewrite bind_Ret by (by apply get_ulong_cursor).
  rewrite <- (app_nil_r (le_bytes 4 (data_size r))) at 1.
  erewrite bind_Ret by (apply get_int_cursor; unfold is_i32, data_size; lia).
  rewrite Ht. unfold mret, M_ret. f_equal.
Qed.
Lemma get_data_size_ok r : data_size r < 2 ^ 31 →
  get_data_size (cursor [] (wire_header r)) = Ret (data_size r) (cursor (wire_header r) []).
Proof.
  intros Hl. unfold get_data_size, RPC_REQ_HEADER_SIZE, wire_header.
  erewrite bind_Ret by (apply (set_pos_cursor _ _ _ (wire_fields r) (le_bytes 4 (data_size r))); [done|];
    unfold wire_fields; by rewrite !length_app, !length_le_bytes).
  rewrite <- (app_nil_r (le_bytes 4 (data_size r))) at 1.
  apply get_int_cursor. unfold is_i32, data_size in *. lia.
Qed.

Lemma get_response_ok r : response_ok r →
  get_response (cursor [] (wire_response r)) = Ret r (cursor (wire_response r) []).
Proof.
  intros (Ht & Hs & Hd & Hm & Hn). unfold get_response, wire_response. simpl app at 1.
  erewrite bind_Ret by apply get_byte_cursor.
  erewrite bind_Ret by (by apply get_int_cursor). erewrite bind_Ret by (by apply get_int_cursor).
  erewrite bind_Ret by (by apply get_ulong_cursor). erewrite bind_Ret by (by apply get_ulong_cursor).
  erewrite bind_Ret by apply get_byte_cursor. rewrite Ht. unfold mret, M_ret. f_equal.
  by destruct r as [? ? ? ? ? []].
Qed.
(** What a session would write as a response is what the client reads. *)
Lemma response_roundtrip {S} r (s : S) : response_ok r →
  (b ← put_response r; local b get_response) s = Ret (r, cursor (wire_response r) []) s.
Proof.
  intros Hr. erewrite bind_Ret.
  2: { unfold put_response. apply (build_writes _ _ (wire_response r)); [|by rewrite ?length_wire_response..].
    unfold wire_response. repeat (apply writes_bind; [apply writes_bytes|]). apply writes_bytes. }
  by apply local_cursor, get_response_ok.
Qed.

(** The loop over the log data ends, whatever the bytes: every round moves the position,
    throws, or reads too far. *)
Definition ends {S A} (m : M S A) : Prop := ∀ s s', m s ≠ Stop Diverges s'.
Lemma ends_bind {S A B} (m : M S A) (k : A → M S B) : ends m → (∀ a, ends (k a)) → ends (m ≫= k).
Proof.
  intros Hm Hk s s'. unfold mbind, M_bind. specialize (Hm s). destruct (m s) as [a s1|x s1]; [apply Hk|].
  intros [= -> ->]. by apply (Hm s').
Qed.
Lemma ends_get_bytes n : ends (Buf.get_bytes n).
Proof. intros b b'. unfold Buf.get_bytes. unfold_M. by case_match. Qed.
Lemma ends_ret {S A} (a : A) : ends (S:=S) (mret a).
Proof. by intros s s'. Qed.
Lemma ends_deref {S A} (o : option A) : ends (S:=S) (deref o).
Proof. intros s s'. by destruct o. Qed.
Lemma ends_alloc {S} n : ends (S:=S) (Buf.alloc n).
Proof. intros s s'. unfold Buf.alloc, throw, stop, mret, M_ret. by case_match. Qed.
Lemma ends_get_buf b : ends (Buf.get_buf b).
Proof. intros s s'. unfold Buf.get_buf. unfold_M. by case_match. Qed.
#[local] Hint Resolve ends_get_bytes ends_ret ends_deref ends_alloc ends_get_buf : ends.
Lemma get_entry_ends : ends get_entry.
Proof.
  unfold get_entry, Buf.get_ulong, Buf.get_byte, Buf.get_int.
  repeat lazymatch goal with
    | |- ends (mbind _ _) => apply ends_bind; [|intros ?]
    | _ => solve [eauto with ends nocore]
    end.
Qed.
Definition shrinks : relation buffer := λ b b', (Buf.avail b' ≤ Buf.avail b)%nat.
#[export] Instance shrinks_preorder : PreOrder shrinks.
Proof. unfold shrinks. split; [intros b; lia|intros b1 b2 b3; lia]. Qed.
Lemma avail_advance n b : Buf.avail (Buf.advance n b) = (Buf.avail b - n)%nat.
Proof. unfold Buf.avail, Buf.advance, Buf.size, set_field. simpl. lia. Qed.
Lemma get_bytes_shrinks n : keeps shrinks (Buf.get_bytes n).
Proof.
  intros b. unfold shrinks, Buf.get_bytes. unfold_M. case_match; simpl; [done|]. rewrite avail_advance. lia.
Qed.
Lemma get_buf_shrinks b : keeps shrinks (Buf.get_buf b).
Proof.
  intros b'. unfold shrinks, Buf.get_buf. unfold_M. case_match; simpl; [done|]. rewrite avail_advance. lia.
Qed.
#[local] Hint Resolve get_bytes_shrinks get_buf_shrinks : keeps.
Lemma get_entry_moves b e b' : get_entry b = Ret e b' → (Buf.avail b' < Buf.avail b)%nat.
Proof.
  unfold get_entry. intros (term & b1 & H1 & H2)%bind_Ret_inv.
  apply bind_Ret_inv in H1 as (bs & b2 & H1 & [= <- <-]). unfold Buf.get_bytes in H1.
  revert H1. unfold_M. destruct (Nat.ltb_spec (Buf.avail b) sz_ulong); [done|]. intros [= <- <-].
  match type of H2 with ?m _ = _ =>
    assert (keeps shrinks m) as Hm by (unfold Buf.get_byte, Buf.get_int, Buf.alloc; solve_keeps)
  end.
  specialize (Hm (Buf.advance sz_ulong b)). rewrite H2 in Hm. unfold shrinks in Hm. simpl in Hm.
  rewrite avail_advance in Hm. unfold sz_ulong in *. lia.
Qed.
Lemma get_entries_ends fuel b : (Buf.avail b ≤ fuel)%nat → ∀ b', get_entries fuel b ≠ Stop Diverges b'.
Proof.
  revert b. induction fuel as [|fuel IH]; intros b Hb b'; cbn [get_entries];
    (erewrite bind_Ret by done);
    (destruct (Nat.ltb_spec (bpos b) (Buf.size b)); [|done]); [unfold Buf.avail in Hb; lia|].
  pose proof (get_entry_ends b) as He. destruct (get_entry b) as [e b1|x b1] eqn:E.
  - erewrite bind_Ret by done. apply get_entry_moves in E.
    assert (∀ b', get_entries fuel b1 ≠ Stop Diverges b') as H1 by (apply IH; lia).
    unfold mbind, M_bind. destruct (get_entries fuel b1); [done|]. intros [= -> ->]. by apply (H1 b').
  - erewrite bind_Stop by done. intros [= -> ->]. by apply (He b').
Qed.
Lemma get_log_data_ends : ends get_log_data.
Proof.
  intros b b'. unfold get_log_data. erewrite bind_Ret by apply set_pos_0. erewrite bind_Ret by done.
  apply get_entries_ends. unfold Buf.avail. lia.
Qed.
