(* ===== verification/Session.v ===== *)
(** Sessions, the listener and the client of [asio_service.cxx] as machines.  An operation
    that the code starts on a socket ([async_read], [async_write], ...) is pending until
    an event completes it, with success or with an error, in any order; the bytes a
    socket receives are one stream.  The handler of a completed operation is one step. *)
From S2P Require Import Prelude Buffer Codec LogStore Timer Peer RaftState Raft Member.
From S2P Require Import Server Rpc.

(** What a session calls for a request: [msg_handler], which is the server. *)
Class MsgHandler (H : Type) := handle_req : req_msg → M H (option resp_msg).
#[export] Instance server_handler {L SM} `{!LogStore L} `{!StateMachine SM} `{!RaftEnv} :
  MsgHandler (server L SM) := λ req, Some <$> process_req req.

(** [n] bytes of a stream, if they have arrived. *)
Definition ready (n : nat) (s : list byte) : bool := (n <=? length s)%nat.

(** ** Sessions *)

(** The operations in progress: [ReadHeader off] writes to the header from [off] on. *)
Inductive session_op := ReadHeader (off : nat) | ReadData (n : nat) | WriteResponse (bs : list byte).

Record session (H : Type) := mk_session {
  handler_ : H;
  header_ : buffer;
  log_data_ : option buffer;
  sn_open : bool;                (* [socket_.is_open()] *)
  sn_closed : nat;               (* calls of [callback_] *)
  sn_in : list byte;             (* received, not yet read *)
  sn_out : list byte;            (* written *)
  sn_ops : list session_op }.
Arguments mk_session {H}. Arguments handler_ {H}. Arguments header_ {H}. Arguments log_data_ {H}.
Arguments sn_open {H}. Arguments sn_closed {H}. Arguments sn_in {H}. Arguments sn_out {H}.
Arguments sn_ops {H}.
#[export] Instance eta_session {H} : Eta (session H) := λ s,
  mk_session (handler_ s) (header_ s) (log_data_ s) (sn_open s) (sn_closed s) (sn_in s) (sn_out s)
    (sn_ops s).

Inductive session_event := Receive (bs : list byte) | Complete (i : nat) (ok : bool).

Module Session.
Section session.
Context {H : Type} `{!MsgHandler H}.
Abbreviation SM_ := (M (session H)).

Definition new (h : H) : session H :=
  mk_session h (mk_buffer (zeros (Z.to_nat RPC_REQ_HEADER_SIZE)) 0) None true 0 [] [] [].
Definition begin (o : session_op) : SM_ unit := modify (λ s, s <| sn_ops ::= λ l, l ++ [o] |>).

(** The read goes to [header_->data()], the position of the header. *)
Definition start : SM_ unit := s ← get; begin (ReadHeader (bpos (header_ s))).
Definition stop : SM_ unit :=
  modify (λ s, s <| sn_open := false |>);; modify (λ s, s <| sn_closed ::= S |>).

Definition read_log_entries (more : bool) : SM_ (list log_entry) :=
  s ← get;
  match log_data_ s with
  | Some b =>
      if more then
        '(es, b) ← local b get_log_data;
        modify (λ s, s <| log_data_ := Some b |>);; mret es
      else mret []
  | None => mret []
  end.
(** [if (resp)] sends nothing and stops; the other branch uses the null pointer. *)
Definition read_complete : SM_ unit :=
  try_catch
    ('(req, more) ← zoom header_ get_header;
     es ← read_log_entries more;
     resp ← zoom handler_ (handle_req (req <| rq_log_entries := es |>));
     if bool_decide (is_Some resp) then stop
     else
       resp ← deref resp;
       resp_buf ← put_response resp;
       begin (WriteResponse (Buf.rest resp_buf)))
    stop.

Definition on_header (off : nat) (ok : bool) (bs : list byte) : SM_ unit :=
  if negb ok then stop else
  s ← get;
  (if (Buf.size (header_ s) <? off + length bs)%nat then undefined else mret ());;
  modify (λ s, s <| header_ ::= set_field bdata (wr_at off bs) |>);;
  data_size ← zoom header_ get_data_size;
  if (data_size <? 0) || (max_data_size <? data_size) then stop else
  (* a request without entries is handled here, and again below *)
  when (data_size =? 0) read_complete;;
  b ← Buf.alloc data_size;
  modify (λ s, s <| log_data_ := Some b |>);;
  begin (ReadData (Z.to_nat data_size)).
Definition read_log_data (ok : bool) (bs : list byte) : SM_ unit :=
  if negb ok then stop else
  modify (λ s, s <| log_data_ ::= fmap (set_field bdata (wr_at 0 bs)) |>);;
  read_complete.
Definition on_written (ok : bool) (bs : list byte) : SM_ unit :=
  if negb ok then stop else
  modify (λ s, s <| sn_out ::= λ o, o ++ bs |>);; start.

(** The bytes an operation waits for. *)
Definition need (o : session_op) : nat :=
  match o with ReadHeader _ => Z.to_nat RPC_REQ_HEADER_SIZE | ReadData n => n | WriteResponse _ => 0 end.
Definition on_complete (o : session_op) (ok : bool) : SM_ unit :=
  bs ← gets (λ s, take (need o) (sn_in s));
  when ok (modify (λ s, s <| sn_in ::= drop (need o) |>));;
  match o with
  | ReadHeader off => on_header off ok bs
  | ReadData _ => read_log_data ok bs
  | WriteResponse out => on_written ok out
  end.
(** A read cannot succeed before its bytes are there. *)
Definition step (e : session_event) : SM_ unit :=
  match e with
  | Receive bs => modify (λ s, s <| sn_in ::= λ i, i ++ bs |>)
  | Complete i ok =>
      s ← get;
      match sn_ops s !! i with
      | Some o =>
          when (negb ok || ready (need o) (sn_in s))
            (modify (λ s, s <| sn_ops ::= delete i |>);; on_complete o ok)
      | None => mret ()
      end
  end.
Definition run (es : list session_event) : SM_ unit := for_each step es.
End session.
End Session.

(** ** The listener

    Sessions by number; the accepts in progress, each with its session. *)
Record listener := mk_listener {
  li_open : bool; li_next : nat; li_started : list nat; li_active : list nat; li_accepts : list nat }.
#[export] Instance eta_listener : Eta listener := λ l,
  mk_listener (li_open l) (li_next l) (li_started l) (li_active l) (li_accepts l).
Inductive listener_event := Stop_listening | Accepted (i : nat) (ok : bool) | Session_closed (n : nat).

Module Listener.
Definition start : M listener unit :=
  n ← gets li_next;
  modify (λ l, l <| li_next ::= S |> <| li_accepts ::= λ a, a ++ [n] |>).
Definition listen : M listener unit := start.
Definition stop : M listener unit := modify (λ l, l <| li_open := false |>).
Definition on_accept (session : nat) (ok : bool) : M listener unit :=
  when ok (modify (λ l, l <| li_started ::= λ s, s ++ [session] |>));; start.
Fixpoint erase_first (n : nat) (l : list nat) : list nat :=
  match l with [] => [] | m :: l' => if decide (m = n) then l' else m :: erase_first n l' end.
Definition remove_session (session : nat) : M listener unit :=
  modify (λ l, l <| li_active ::= erase_first session |>).
(** On a closed acceptor an accept fails. *)
Definition step (e : listener_event) : M listener unit :=
  match e with
  | Stop_listening => stop
  | Accepted i ok =>
      l ← get;
      match li_accepts l !! i with
      | Some n =>
          when (negb ok || li_open l) (modify (λ l, l <| li_accepts ::= delete i |>);; on_accept n ok)
      | None => mret ()
      end
  | Session_closed n => remove_session n
  end.
End Listener.

(** ** The client

    A call is a request and the number of its [when_done].  [send] takes both by
    reference, to variables of a caller's frame: [cl_frames] has the live ones. *)
Record call := mk_call { call_req : req_msg; call_done : nat }.
Inductive rpc_error := Resolve_failed | Connect_failed | Send_failed | Read_failed.
Inductive client_op :=
| Resolving (frame : nat)                (* the handler has captured the references *)
| Connecting (c : call) | Writing (c : call) (bs : list byte) | Reading (c : call).
Record client := mk_client {
  cl_open : bool;
  cl_frames : gmap nat call;
  cl_in : list byte; cl_out : list byte;
  cl_ops : list client_op;
  cl_done : list (nat * (resp_msg + rpc_error)) }.
#[export] Instance eta_client : Eta client := λ c,
  mk_client (cl_open c) (cl_frames c) (cl_in c) (cl_out c) (cl_ops c) (cl_done c).
(** Opening and closing the socket is also asio's own doing ([async_connect]). *)
Inductive client_event :=
| Call (frame : nat) (c : call) | Return (frame : nat)
| Socket (open : bool) | Get (bs : list byte) | Completed (i : nat) (ok : bool).

Module Client.
Definition begin (o : client_op) : M client unit := modify (λ c, c <| cl_ops ::= λ l, l ++ [o] |>).
Definition when_done (c : call) (r : resp_msg + rpc_error) : M client unit :=
  modify (λ s, s <| cl_done ::= λ l, l ++ [(call_done c, r)] |>).
Definition close : M client unit := modify (λ c, c <| cl_open := false |>).
(** The variable behind a reference; the frame may be gone. *)
Definition variable (frame : nat) : M client call := o ← gets (λ c, cl_frames c !! frame); deref o.

Definition send (frame : nat) : M client unit :=
  open ← gets cl_open;
  if negb open then begin (Resolving frame)
  else
    k ← variable frame;
    '(req_buf, req) ← local (call_req k) put_request;
    begin (Writing (mk_call req (call_done k)) (Buf.rest req_buf)).
Definition resolved (frame : nat) (ok : bool) : M client unit :=
  k ← variable frame;
  if ok then begin (Connecting k) else when_done k (inr Resolve_failed).
(** The arguments of [send] live here as long as the handler runs. *)
Definition connected (k : call) (ok : bool) : M client unit :=
  if ok then
    frame ← gets (λ c, fresh (dom (cl_frames c)));
    modify (λ c, c <| cl_frames ::= insert frame k |>);;
    send frame;;
    modify (λ c, c <| cl_frames ::= delete frame |>)
  else when_done k (inr Connect_failed).
Definition sent (k : call) (bs : list byte) (ok : bool) : M client unit :=
  if ok then modify (λ c, c <| cl_out ::= λ o, o ++ bs |>);; begin (Reading k)
  else close;; when_done k (inr Send_failed).
Definition response_read (k : call) (bs : list byte) (ok : bool) : M client unit :=
  if ok then
    '(rsp, _) ← local (mk_buffer bs 0) get_response;
    when_done k (inl rsp)
  else close;; when_done k (inr Read_failed).

Definition need (o : client_op) : nat :=
  match o with Reading _ => Z.to_nat RPC_RESP_HEADER_SIZE | _ => 0%nat end.
Definition on_complete (o : client_op) (ok : bool) : M client unit :=
  match o with
  | Resolving frame => resolved frame ok
  | Connecting k => connected k ok
  | Writing k bs => sent k bs ok
  | Reading k =>
      bs ← gets (λ c, take (need o) (cl_in c));
      when ok (modify (λ c, c <| cl_in ::= drop (need o) |>));;
      response_read k bs ok
  end.
Definition step (e : client_event) : M client unit :=
  match e with
  | Call frame k => modify (λ c, c <| cl_frames ::= insert frame k |>);; send frame
  | Return frame => modify (λ c, c <| cl_frames ::= delete frame |>)
  | Socket open => modify (λ c, c <| cl_open := open |>)
  | Get bs => modify (λ c, c <| cl_in ::= λ i, i ++ bs |>)
  | Completed i ok =>
      c ← get;
      match cl_ops c !! i with
      | Some o =>
          when (negb ok || ready (need o) (cl_in c))
            (modify (λ c, c <| cl_ops ::= delete i |>);; on_complete o ok)
      | None => mret ()
      end
  end.
Definition run (es : list client_event) : M client unit := for_each step es.
End Client.
Definition new_client : client := mk_client false ∅ [] [] [] [].
