(* ===== verification/RpcProps.v ===== *)
(** What the rpc layer delivers and what it does not: a request reaches the handler as it
    was sent; no session ever answers; a request without entries is handled twice. *)
From S2P Require Import Prelude Buffer Codec LogStore Timer Peer RaftState Raft Member.
From S2P Require Import Server Rpc Session Demo.

Lemma run_cons {H} `{!MsgHandler H} e es (s s' : session H) :
  Session.step e s = Ret () s' → Session.run (e :: es) s = Session.run es s'.
Proof. intros E. unfold Session.run. simpl. by erewrite bind_Ret. Qed.

Lemma ready_app n (p q : list byte) : n = length p → ready n (p ++ q) = true.
Proof. intros ->. apply Nat.leb_le. len. Qed.
Lemma wr_at_all {A} (bs l : list A) : length bs = length l → wr_at 0 bs l = bs.
Proof. intros H. unfold wr_at. simpl. rewrite drop_ge by lia. apply app_nil_r. Qed.

(** The fields of a session given by its constructor. *)
Ltac sn := unfold set_field;
  cbn [sn_in handler_ header_ log_data_ sn_open sn_closed sn_out sn_ops negb orb when].
(** The next step of a computation on such a session. *)
Ltac go := erewrite bind_Ret by done; sn.

Section delivery.
Context {H : Type} `{!MsgHandler H}.

(** The header arrives at a session that waits for it. *)
Lemma header_read r h hd ld op cl inn out : request_ok r → data_size r ≤ max_data_size →
  length hd = 45%nat →
  Session.step (Complete 0 true)
    (mk_session h (cursor [] hd) ld op cl (wire_header r ++ inn) out [ReadHeader 0])
  = (when (data_size r =? 0) Session.read_complete;;
     b ← Buf.alloc (data_size r);
     modify (λ s, s <| log_data_ := Some b |>);;
     Session.begin (ReadData (Z.to_nat (data_size r))))
    (mk_session h (cursor (wire_header r) []) ld op cl inn out []).
Proof.
  intros Hr Hd Hs. pose proof (length_wire_header r) as Hl.
  unfold max_data_size in Hd. assert (0 ≤ data_size r) as H0 by (unfold data_size; lia).
  unfold Session.step. go.
  change ([ReadHeader 0] !! 0%nat) with (Some (ReadHeader 0)). cbn beta iota.
  change (Session.need (ReadHeader 0)) with 45%nat.
  rewrite ready_app by done. sn. go.
  unfold Session.on_complete. change (Session.need (ReadHeader 0)) with 45%nat. go.
  rewrite <- Hl, take_app_length. go. rewrite drop_app_length.
  unfold Session.on_header. sn. go.
  assert (Buf.size (cursor [] hd) = 45%nat) as -> by (unfold Buf.size, cursor; simpl; lia).
  rewrite Hl. change (45 <? 0 + 45)%nat with false. go. go.
  change (mk_buffer (wr_at 0 (wire_header r) (bdata (cursor [] hd))) (bpos (cursor [] hd)))
    with (cursor [] (wr_at 0 (wire_header r) hd)).
  rewrite wr_at_all by lia.
  erewrite bind_Ret by (apply zoom_Ret, get_data_size_ok; lia). sn.
  unfold max_data_size. rewrite (proj2 (Z.ltb_ge (data_size r) 0)), (proj2 (Z.ltb_ge _ (data_size r))) by lia.
  done.
Qed.

(** The handler is called with the request as it was sent. *)
Lemma read_complete_ok r h h1 resp hd ld op cl inn out ops : request_ok r →
  data_size r ≤ max_data_size → bdata hd = wire_header r →
  (0 < data_size r → ld = Some (cursor [] (wire_data (rq_log_entries r)))) →
  handle_req (rewound r) h = Ret (Some resp) h1 →
  ∃ ld', Session.read_complete (mk_session h hd ld op cl inn out ops)
  = Ret () (mk_session h1 (cursor (wire_header r) []) ld' false (S cl) inn out ops).
Proof.
  intros Hr Hd Hhd Hld Hh. unfold max_data_size in Hd.
  assert (zoom header_ get_header (mk_session h hd ld op cl inn out ops)
    = Ret (set_field rq_log_entries (λ _, []) r, 0 <? data_size r)
        (mk_session h (cursor (wire_header r) []) ld op cl inn out ops)) as Eh
    by (unfold zoom; sn; by rewrite (get_header_ok r) by (done || lia)).
  assert (∃ ld', Session.read_log_entries (0 <? data_size r)
      (mk_session h (cursor (wire_header r) []) ld op cl inn out ops)
    = Ret (rewind <$> rq_log_entries r) (mk_session h (cursor (wire_header r) []) ld' op cl inn out ops))
    as [ld' El].
  { unfold Session.read_log_entries. destruct (Z.ltb_spec 0 (data_size r)) as [Hp|Hp].
    - go. rewrite Hld by done. eexists. destruct Hr as (_ & _ & _ & _ & _ & _ & _ & Hes).
      erewrite bind_Ret by (apply local_cursor, (get_log_data_ok (rq_log_entries r)); [done|done|];
        unfold data_size in *; lia).
      cbn beta iota. by go.
    - exists ld. assert (rq_log_entries r = []) as ->.
      { destruct (rq_log_entries r) as [|e es] eqn:Ees; [done|]. unfold data_size in Hp.
        rewrite Ees, wire_data_cons, length_app, length_wire_entry in Hp. lia. }
      go. by destruct ld. }
  exists ld'. unfold Session.read_complete, try_catch.
  erewrite bind_Ret by exact Eh. cbn beta iota. erewrite bind_Ret by exact El.
  change (set_field rq_log_entries _ (set_field rq_log_entries _ r)) with (rewound r).
  erewrite bind_Ret by (apply zoom_Ret; exact Hh). sn. rewrite bool_decide_true by done. done.
Qed.

(** The bytes may arrive in any pieces. *)
Lemma receive_all cs s es :
  Session.run ((Receive <$> cs) ++ es) s
  = Session.run es (set_field sn_in (λ i, i ++ concat cs) s).
Proof.
  revert s. induction cs as [|c cs IH]; intros s; simpl.
  - destruct s. unfold set_field. simpl. by rewrite app_nil_r.
  - erewrite run_cons by done. rewrite IH. unfold set_field. sn. by rewrite <- app_assoc.
Qed.

(** The log data arrives. *)
Lemma data_read r h h1 resp cl hd inn out : request_ok r → 0 < data_size r ≤ max_data_size →
  bdata hd = wire_header r → handle_req (rewound r) h = Ret (Some resp) h1 →
  ∃ s', Session.step (Complete 0 true)
    (mk_session h hd (Some (cursor [] (zeros (Z.to_nat (data_size r))))) true cl
       (wire_data (rq_log_entries r) ++ inn) out [ReadData (Z.to_nat (data_size r))]) = Ret () s' ∧
    handler_ s' = h1 ∧ sn_closed s' = S cl ∧ sn_in s' = inn ∧ sn_ops s' = [].
Proof.
  intros Hr Hd Hhd Hh. unfold Session.step. go.
  change ([ReadData ?n] !! 0%nat) with (Some (ReadData n)). cbn beta iota. cbn [Session.need].
  assert (Z.to_nat (data_size r) = length (wire_data (rq_log_entries r))) as ->
    by (unfold data_size; lia).
  rewrite ready_app by done. sn. go. unfold Session.on_complete. cbn [Session.need]. go.
  rewrite take_app_length. go. rewrite drop_app_length. unfold Session.read_log_data. sn. go.
  unfold fmap, option_fmap, option_map. cbn [bdata bpos cursor length app].
  rewrite wr_at_all by (unfold zeros; by rewrite length_replicate).
  edestruct (read_complete_ok r h h1 resp) as [ld' E]; [done|lia|exact Hhd|done|done|].
  unfold cursor in E at 1. simpl in E. rewrite E. by eexists.
Qed.

(** C14: A request with entries reaches the raft server as it was sent.  The bytes that
    the client writes, arriving at a session in any pieces, make it call the handler once,
    on the same request with its entries rewound. *)
Theorem request_delivered r h h1 resp cs :
  request_ok r → 0 < data_size r ≤ max_data_size →
  handle_req (rewound r) h = Ret (Some resp) h1 →
  ∃ buf, put_request r = Ret buf (rewound r) ∧
    (concat cs = Buf.rest buf → ∃ s',
      (Session.start;; Session.run ((Receive <$> cs) ++ [Complete 0 true; Complete 0 true]))
        (Session.new h) = Ret () s' ∧ handler_ s' = h1 ∧ sn_in s' = [] ∧ sn_ops s' = []).
Proof.
  intros Hr Hd Hh. unfold max_data_size in Hd. eexists. split.
  { apply put_request_ok; [done|]. unfold RPC_REQ_HEADER_SIZE. lia. }
  rewrite (rest_cursor []). intros Hcs. erewrite bind_Ret by done.
  rewrite receive_all. sn. rewrite Hcs. cbn [Session.new sn_in app sn_ops].
  unfold Session.new. sn.
  erewrite run_cons.
  2: { etrans; [apply (header_read r h (zeros 45)); [done|unfold max_data_size; lia|done]|].
    rewrite (proj2 (Z.eqb_neq _ _)) by lia. cbn [when]. go.
    rewrite <- (Z2Nat.id (data_size r)) at 1 by lia.
    erewrite bind_Ret by (apply alloc_cursor; lia). by go. }
  sn. destruct (data_read r h h1 resp 0 (cursor (wire_header r) []) [] []) as (s' & E & Hs' & _ & Hi & Ho);
    [done|done| |done|].
  { simpl. by rewrite app_nil_r. }
  rewrite app_nil_r in E. exists s'. split; [|done]. erewrite run_cons by exact E. done.
Qed.

(** C39: A request without entries is handled twice.  The header is enough, and the empty
    read that the session starts all the same completes and hands the request to the raft
    server again: votes, heart-beats and the rest run twice. *)
Theorem empty_request_twice r h h1 h2 resp1 resp2 cs :
  request_ok r → rq_log_entries r = [] →
  handle_req r h = Ret (Some resp1) h1 → handle_req r h1 = Ret (Some resp2) h2 →
  ∃ buf, put_request r = Ret buf r ∧
    (concat cs = Buf.rest buf → ∃ s1 s2,
      (Session.start;; Session.run ((Receive <$> cs) ++ [Complete 0 true])) (Session.new h) = Ret () s1 ∧
      handler_ s1 = h1 ∧ sn_open s1 = false ∧
      Session.step (Complete 0 true) s1 = Ret () s2 ∧ handler_ s2 = h2).
Proof.
  intros Hr He Hh1 Hh2. assert (data_size r = 0) as Hd by (unfold data_size; by rewrite He).
  assert (rewound r = r) as Hw by (destruct r; unfold rewound, set_field; simpl in *; by rewrite He).
  eexists. split.
  { rewrite <- Hw at 2. apply put_request_ok; [done|]. by rewrite Hd. }
  rewrite (rest_cursor []), He, app_nil_r. intros Hcs. erewrite bind_Ret by done.
  rewrite receive_all. sn. rewrite Hcs. cbn [Session.new sn_in app sn_ops]. unfold Session.new. sn.
  edestruct (read_complete_ok r h h1 resp1 (cursor (wire_header r) []) None true 0 [] [] [])
    as [ld' E]; [done|by rewrite Hd|apply app_nil_r|lia|by rewrite Hw|].
  edestruct (read_complete_ok r h1 h2 resp2 (cursor (wire_header r) []) (Some (cursor [] [])) false 1 [] [] [])
    as [ld2 E2]; [done|by rewrite Hd|apply app_nil_r|lia|by rewrite Hw|].
  eexists _, _. split.
  { erewrite run_cons; [done|]. rewrite <- (app_nil_r (wire_header r)).
    etrans; [apply (header_read r h (zeros 45)); [done|by rewrite Hd|done]|].
    rewrite Hd. cbn [Z.eqb when]. erewrite bind_Ret by exact E. go. go. reflexivity. }
  split; [done|]. split; [done|]. split; [exact E2|reflexivity].
Qed.

(** ** Silence *)
Definition is_read (o : session_op) : Prop := match o with WriteResponse _ => False | _ => True end.
Definition silent (s : session H) : Prop := sn_out s = [] ∧ Forall is_read (sn_ops s).
Definition quiet : relation (session H) := λ s s', silent s → silent s'.
#[local] Instance quiet_preorder : PreOrder quiet.
Proof. split; [by intros s Hs|]. intros s1 s2 s3 H1 H2 Hs. auto. Qed.

Lemma quiet_begin o : is_read o → keeps quiet (Session.begin o).
Proof.
  intros Ho s [H1 H2]. split; [done|]. simpl. apply Forall_app. split; [done|by constructor].
Qed.
#[local] Hint Extern 1 (keeps quiet (Session.begin _)) => (by apply quiet_begin) : keeps.
#[local] Hint Extern 2 (keeps quiet (modify _)) => (apply keeps_modify; by intros s Hs) : keeps.
#[local] Hint Extern 2 (keeps quiet (zoom _ _)) => (apply keeps_zoom; by intros s t Hs) : keeps.
Lemma quiet_stop : keeps quiet (Session.stop (H:=H)).
Proof. unfold Session.stop. solve_keeps. Qed.
#[local] Hint Resolve quiet_stop : keeps.
Lemma quiet_read_log_entries b : keeps quiet (Session.read_log_entries (H:=H) b).
Proof. unfold Session.read_log_entries. solve_keeps. Qed.
#[local] Hint Resolve quiet_read_log_entries : keeps.
Lemma quiet_read_complete : keeps quiet (Session.read_complete (H:=H)).
Proof.
  unfold Session.read_complete. apply keeps_try; [apply _| |auto with keeps].
  apply keeps_bind; [apply _|auto with keeps|intros [req more]].
  apply keeps_bind; [apply _|auto with keeps|intros es].
  apply keeps_bind; [apply _|auto with keeps|intros [resp|]]; [auto with keeps|].
  apply keeps_stop. apply _.
Qed.
#[local] Hint Resolve quiet_read_complete : keeps.
Lemma quiet_alloc n : keeps quiet (Buf.alloc n).
Proof. unfold Buf.alloc. solve_keeps. Qed.
#[local] Hint Resolve quiet_alloc : keeps.
Lemma quiet_complete o ok : is_read o → keeps quiet (Session.on_complete (H:=H) o ok).
Proof.
  intros Ho. unfold Session.on_complete. apply keeps_bind; [apply _|solve_keeps|intros bs].
  apply keeps_bind; [apply _|solve_keeps|intros _]. destruct o as [off|n|out]; [..|done].
  - unfold Session.on_header. solve_keeps.
  - unfold Session.read_log_data. solve_keeps.
Qed.
Lemma quiet_step e : keeps quiet (Session.step (H:=H) e).
Proof.
  destruct e as [bs|i ok]; [unfold Session.step; solve_keeps|].
  intros s Hs. unfold Session.step. erewrite bind_Ret by done.
  destruct (sn_ops s !! i) as [o|] eqn:Eo; [|done]. unfold when. case_match; [|done].
  erewrite bind_Ret by done. destruct Hs as [H1 H2].
  apply quiet_complete; [exact (Forall_lookup_1 _ _ _ _ H2 Eo)|].
  split; [done|]. simpl. by apply Forall_delete.
Qed.

(** C40: No session ever answers.  Whatever arrives, in whatever order the reads end, and
    whatever the handler does, a session neither writes a byte nor starts a write: with
    a response it stops, and without one it uses the null pointer. *)
Theorem rpc_never_answers h es :
  let s := final ((Session.start;; Session.run es) (Session.new h)) in
  sn_out s = [] ∧ ∀ bs, WriteResponse bs ∉ sn_ops s.
Proof.
  assert (keeps quiet (Session.start;; Session.run es)) as Hk.
  { apply keeps_bind; [apply _| |intros _; apply keeps_for_each; [apply _|apply quiet_step]].
    unfold Session.start. solve_keeps. }
  destruct (Hk (Session.new h)) as [H1 H2]; [done|]. split; [done|].
  intros bs Hin. by apply (proj1 (Forall_forall _ _) H2 _ Hin).
Qed.
End delivery.

(** A heart-beat and a client request with one entry, on real servers. *)
Definition wire_vote : req_msg := vote_req 2 1 1 0 0.
Definition wire_append : req_msg := append_req 1 2 1 0 0 0 [data_entry 1 7].
Definition pieces (l : list byte) : list (list byte) := [take 10 l; drop 10 l].
Lemma pieces_concat l : concat (pieces l) = l.
Proof. unfold pieces. simpl. by rewrite app_nil_r, take_drop. Qed.
Lemma sendable_data t n : is_u64 t → sendable (data_entry t n).
Proof.
  intros Ht. exists (mk_buffer [byte_of n] 0). split; [done|]. split; [done|]. split; [by intros v|done].
Qed.
Lemma wire_append_ok : request_ok wire_append.
Proof.
  unfold request_ok, is_i32, is_u64. split; [by vm_compute|]. simpl. repeat (split; [lia|]).
  repeat constructor. apply sendable_data. unfold is_u64. lia.
Qed.
Lemma wire_vote_ok : request_ok wire_vote.
Proof.
  unfold request_ok, is_i32, is_u64. split; [by vm_compute|]. simpl. repeat (split; [lia|]). constructor.
Qed.
Lemma request_delivered_witness :
  let r := wire_append in
  request_ok r ∧ 0 < data_size r ≤ max_data_size ∧
  ∃ buf, put_request r = Ret buf (rewound r) ∧ ∃ s',
    (Session.start;; Session.run ((Receive <$> pieces (Buf.rest buf)) ++ [Complete 0 true; Complete 0 true]))
      (Session.new (demo_server 2)) = Ret () s' ∧
    handler_ s' = final (process_req r (demo_server 2)) ∧ sn_in s' = [] ∧ sn_ops s' = [].
Proof.
  assert (0 < data_size wire_append ≤ max_data_size) as H2 by (vm_compute; split; [reflexivity|discriminate]).
  split; [exact wire_append_ok|]. split; [exact H2|].
  assert (∃ resp, handle_req (rewound wire_append) (demo_server 2)
    = Ret (Some resp) (final (process_req wire_append (demo_server 2)))) as [resp H3]
    by (eexists; vm_compute; reflexivity).
  destruct (request_delivered wire_append (demo_server 2) _ resp
    (pieces (wire_header wire_append ++ wire_data (rq_log_entries wire_append))) wire_append_ok H2 H3)
    as (buf & E & Hb).
  exists buf. split; [exact E|]. 
  pose proof (put_request_ok wire_append wire_append_ok eq_refl) as E'.
  rewrite E in E'. injection E' as ->.
  rewrite (rest_cursor []) in *. apply Hb, pieces_concat.
Defined.
Lemma empty_request_twice_witness :
  let r := wire_vote in
  request_ok r ∧ rq_log_entries r = [] ∧
  ∃ buf, put_request r = Ret buf r ∧ ∃ s1 s2,
    (Session.start;; Session.run ((Receive <$> [Buf.rest buf]) ++ [Complete 0 true]))
      (Session.new (demo_server 1)) = Ret () s1 ∧
    handler_ s1 = final (process_req r (demo_server 1)) ∧ sn_open s1 = false ∧
    Session.step (Complete 0 true) s1 = Ret () s2 ∧
    handler_ s2 = final (process_req r (final (process_req r (demo_server 1)))).
Proof.
  split; [exact wire_vote_ok|]. split; [reflexivity|].
  assert (∃ p1 p2, handle_req wire_vote (demo_server 1)
      = Ret (Some p1) (final (process_req wire_vote (demo_server 1))) ∧
    handle_req wire_vote (final (process_req wire_vote (demo_server 1)))
      = Ret (Some p2) (final (process_req wire_vote (final (process_req wire_vote (demo_server 1))))))
    as (p1 & p2 & H1 & H2) by (eexists _, _; split; vm_compute; reflexivity).
  pose proof (put_request_ok wire_vote wire_vote_ok eq_refl) as E'.
  destruct (empty_request_twice wire_vote (demo_server 1) _ _ p1 p2 [wire_header wire_vote ++ []]
    wire_vote_ok eq_refl H1 H2) as (buf & E & Hb).
  exists buf. split; [exact E|]. rewrite E in E'. injection E' as ->.
  rewrite (rest_cursor []) in *. apply Hb. simpl. by rewrite !app_nil_r.
Defined.

(** An entry whose size field goes beyond the log data is read from behind the buffer. *)
Definition bad_entry : list byte := le_bytes 8 1 ++ [byte_of 1] ++ le_bytes 4 100.
Example entry_size_unchecked :
  let o := (Session.start;; Session.run
    [Receive (wire_fields wire_append ++ le_bytes 4 13 ++ bad_entry); Complete 0 true; Complete 0 true])
    (Session.new (demo_server 2)) in
  match o with Stop Undefined _ => True | _ => False end.
Proof. vm_compute. exact I. Qed.

(** ** The client *)

(** The first call on a client finds the socket closed, and [send] gives its handler
    references to the caller's variables: when the caller has returned, as
    [peer::send_req] and [send_msg_to_leader] do, the handler reads a dead frame. *)
Lemma first_send_dangles c frame k ok : cl_open c = false → cl_ops c = [] →
  ∃ c', Client.run [Call frame k; Return frame; Completed 0 ok] c = Stop Undefined c'.
Proof.
  intros Ho Hops. destruct c as [op fs i o ops dn]. simpl in *. subst. eexists.
  unfold Client.run. cbn [for_each]. erewrite bind_Ret by reflexivity. erewrite bind_Ret by reflexivity.
  apply bind_Stop. unfold Client.step. erewrite bind_Ret by done.
  unfold set_field. cbn [cl_ops cl_in cl_frames app]. change ([Resolving frame] !! 0%nat) with (Some (Resolving frame)).
  cbn beta iota. assert (ready (Client.need (Resolving frame)) i = true) as -> by done.
  rewrite orb_true_r. cbn [when]. erewrite bind_Ret by done. unfold Client.on_complete, Client.resolved.
  apply bind_Stop. unfold Client.variable. erewrite bind_Ret by done.
  unfold set_field. cbn [cl_frames]. by rewrite lookup_delete_eq.
Qed.

Lemma response_arrives k r fs out dn : response_ok r →
  Client.step (Completed 0 true) (mk_client true fs (wire_response r) out [Reading k] dn)
  = Ret () (mk_client true fs [] out [] (dn ++ [(call_done k, inl r)])).
Proof.
  intros Hr. pose proof (length_wire_response r) as Hl.
  unfold Client.step. erewrite bind_Ret by done.
  change (_ !! 0%nat) with (Some (Reading k)). cbn beta iota.
  change (Client.need (Reading k)) with 26%nat. cbn [cl_in]. assert (ready 26 (wire_response r) = true) as ->
    by (rewrite <- (app_nil_r (wire_response r)); by apply ready_app).
  cbn [negb orb when]. erewrite bind_Ret by done. unfold Client.on_complete.
  change (Client.need (Reading k)) with 26%nat. erewrite bind_Ret by done.
  unfold set_field. cbn [cl_in cl_open cl_frames cl_out cl_ops cl_done when]. erewrite bind_Ret by done.
  unfold set_field. cbn [cl_in cl_open cl_frames cl_out cl_ops cl_done].
  rewrite take_ge, drop_ge by lia. unfold Client.response_read.
  erewrite bind_Ret by (apply (local_cursor _ [] (wire_response r)), get_response_ok; done). done.
Qed.
(** On an open socket the bytes of the request go out, and a response that arrives is
    given to [when_done] as the peer made it. *)
Lemma call_answered k r frame : request_ok (call_req k) → data_size (call_req k) ≤ max_data_size →
  response_ok r →
  ∃ c', Client.run [Socket true; Call frame k; Completed 0 true; Get (wire_response r); Completed 0 true]
    new_client = Ret () c' ∧
    cl_out c' = wire_header (call_req k) ++ wire_data (rq_log_entries (call_req k)) ∧
    cl_done c' = [(call_done k, inl r)] ∧ cl_ops c' = [].
Proof.
  intros Hq Hd Hr. unfold max_data_size in Hd. destruct k as [q n]. cbn [call_req call_done] in *.
  unfold Client.run. cbn [for_each]. erewrite bind_Ret by reflexivity.
  erewrite bind_Ret.
  2: { unfold Client.step. erewrite bind_Ret by done. unfold Client.send. erewrite bind_Ret by done.
    cbn [cl_open set_field new_client negb]. unfold Client.variable. rewrite bind_assoc.
    erewrite bind_Ret by done. unfold set_field at 1. cbn [cl_frames set_field].
    rewrite lookup_insert_eq. erewrite bind_Ret by done.
    erewrite bind_Ret.
    2: { unfold local. cbn [call_req]. rewrite put_request_ok; [reflexivity|done|].
         unfold RPC_REQ_HEADER_SIZE. lia. }
    cbn beta iota. reflexivity. }
  rewrite (rest_cursor []). set (bytes := wire_header q ++ wire_data (rq_log_entries q)).
  clearbody bytes.
  erewrite bind_Ret by reflexivity. erewrite bind_Ret by reflexivity.
  eexists. split; [|split; [|split]].
  - erewrite bind_Ret; [reflexivity|]. by apply (response_arrives (mk_call (rewound q) n)).
  - reflexivity.
  - reflexivity.
  - reflexivity.
Qed.

(** ** The listener *)

(** An accept that fails starts the next one, so that a listener that was stopped goes on
    accepting, and failing, for ever; no session is ever in [active_sessions_]. *)
Lemma listener_never_stops es :
  let l := final ((Listener.listen;; for_each Listener.step es) (mk_listener true 0 [] [] [])) in
  length (li_accepts l) = 1%nat ∧ li_active l = [].
Proof.
  set (R := λ l l' : listener, length (li_accepts l) = 1%nat ∧ li_active l = [] →
    length (li_accepts l') = 1%nat ∧ li_active l' = []).
  assert (PreOrder R) by (split; [intros l; unfold R; tauto|intros l1 l2 l3; unfold R; tauto]).
  assert (∀ e, keeps R (Listener.step e)) as Hs.
  { intros e [op n st act acs] [H1 H2]. simpl in H1, H2. subst act.
    destruct acs as [|a [|a' acs]]; try discriminate.
    destruct e as [|i ok|m]; [done| |done]. destruct i as [|i]; [by destruct ok, op|].
    destruct i; done. }
  intros l. apply (keeps_for_each R _ es Hs). done.
Qed.
