(* ===== verification/Endpoint.v ===== *)
(** [asio_service::create_client]: the endpoint is matched with a regular expression, whose
    first and fourth groups are the host and the port.  The expression and its matcher
    (by derivatives) are compared with a parser written by hand. *)
From S2P Require Import Prelude.

(** ** Regular expressions over bytes *)
Inductive regex :=
| Void | Eps | Cls (p : byte → bool) | Cat (a b : regex) | Alt (a b : regex) | Star (a : regex).
Definition Plus (a : regex) : regex := Cat a (Star a).
Definition Lit (s : list byte) : regex := foldr (λ b r, Cat (Cls (λ x, bool_decide (x = b))) r) Eps s.

Inductive matches : regex → list byte → Prop :=
| m_eps : matches Eps []
| m_cls p b : p b = true → matches (Cls p) [b]
| m_cat a b s t : matches a s → matches b t → matches (Cat a b) (s ++ t)
| m_alt_l a b s : matches a s → matches (Alt a b) s
| m_alt_r a b s : matches b s → matches (Alt a b) s
| m_nil a : matches (Star a) []
| m_more a s t : matches a s → matches (Star a) t → matches (Star a) (s ++ t).

Fixpoint nullable (r : regex) : bool :=
  match r with
  | Void | Cls _ => false
  | Eps | Star _ => true
  | Cat a b => nullable a && nullable b
  | Alt a b => nullable a || nullable b
  end.
Fixpoint deriv (c : byte) (r : regex) : regex :=
  match r with
  | Void | Eps => Void
  | Cls p => if p c then Eps else Void
  | Cat a b => if nullable a then Alt (Cat (deriv c a) b) (deriv c b) else Cat (deriv c a) b
  | Alt a b => Alt (deriv c a) (deriv c b)
  | Star a => Cat (deriv c a) (Star a)
  end.
Definition regex_match (r : regex) (s : list byte) : bool := nullable (foldl (λ r c, deriv c r) r s).

Lemma nullable_spec r : nullable r = true ↔ matches r [].
Proof.
  induction r as [| |p|a IHa b IHb|a IHa b IHb|a IHa]; simpl.
  - split; [done|]. by inversion 1.
  - split; [constructor|done].
  - split; [done|]. by inversion 1.
  - rewrite andb_true_iff, IHa, IHb. split.
    + intros [H1 H2]. by apply (m_cat a b [] []).
    + inversion 1 as [| |a' b' s t H1 H2 E1 E2| | | |]; subst. by apply app_nil in E2 as [-> ->].
  - rewrite orb_true_iff, IHa, IHb. split; [intros [?|?]; by constructor|].
    inversion 1; subst; eauto.
  - split; [constructor|done].
Qed.
Lemma matches_cat a b u : matches (Cat a b) u ↔ ∃ s t, u = s ++ t ∧ matches a s ∧ matches b t.
Proof.
  split; [inversion 1; subst; eauto|]. intros (s & t & -> & H1 & H2). by constructor.
Qed.
Lemma matches_star_cons a c u : matches (Star a) (c :: u) →
  ∃ s t, u = s ++ t ∧ matches a (c :: s) ∧ matches (Star a) t.
Proof.
  intros H. remember (Star a) as r eqn:Er. remember (c :: u) as w eqn:Ew. revert c u Ew.
  induction H as [| | | | | |a' s t H1 IH1 H2 IH2]; intros c u Ew; try done.
  injection Er as ->. destruct s as [|c' s]; simpl in Ew; [by apply IH2|].
  injection Ew as -> <-. by exists s, t.
Qed.
Lemma deriv_spec c r u : matches (deriv c r) u ↔ matches r (c :: u).
Proof.
  revert u. induction r as [| |p|a IHa b IHb|a IHa b IHb|a IHa]; intros u; simpl.
  - split; inversion 1.
  - split; inversion 1.
  - destruct (p c) eqn:E; split.
    + inversion 1; subst. by constructor.
    + inversion 1; subst. constructor.
    + inversion 1.
    + inversion 1; subst. congruence.
  - assert (matches (Cat (deriv c a) b) u ↔ ∃ s t, u = s ++ t ∧ matches a (c :: s) ∧ matches b t) as Hc.
    { rewrite matches_cat. by setoid_rewrite IHa. }
    assert (matches (Cat a b) (c :: u) ↔
      (∃ s t, u = s ++ t ∧ matches a (c :: s) ∧ matches b t) ∨ (nullable a = true ∧ matches b (c :: u))) as Hd.
    { rewrite matches_cat, nullable_spec. split.
      - intros (s & t & E & H1 & H2). destruct s as [|c' s]; simpl in E; [subst t; by right|].
        injection E as <- ->. left. eauto.
      - intros [(s & t & -> & H1 & H2)|[H1 H2]]; [by exists (c :: s), t|by exists [], (c :: u)]. }
    rewrite Hd. destruct (nullable a).
    + split; [inversion 1; subst; [left; by apply Hc|right; by rewrite <- IHb]|].
      intros [?|[_ ?]]; [apply m_alt_l; by apply Hc|apply m_alt_r; by apply IHb].
    + rewrite Hc. split; [eauto|intros [?|[? ?]]; done].
  - split; inversion 1; subst; (apply m_alt_l; by apply IHa) || (apply m_alt_r; by apply IHb).
  - rewrite matches_cat. split.
    + intros (s & t & -> & H1 & H2). apply (m_more a (c :: s) t); [by apply IHa|done].
    + intros (s & t & -> & H1 & H2)%matches_star_cons. exists s, t. by rewrite IHa.
Qed.
Lemma regex_match_spec r s : regex_match r s = true ↔ matches r s.
Proof.
  unfold regex_match. revert r. induction s as [|c s IH]; intros r; simpl; [apply nullable_spec|].
  by rewrite IH, deriv_spec.
Qed.

(** ** The client of an endpoint *)
Definition in_range (lo hi : Z) (b : byte) : bool := (lo <=? byte_val b) && (byte_val b <=? hi).
Definition is_digit (b : byte) : bool := in_range 48 57 b.
Definition is_alnum (b : byte) : bool := in_range 97 122 b || in_range 65 90 b || is_digit b.
Definition dash : byte := byte_of 45.
Definition dot : byte := byte_of 46.
Definition colon : byte := byte_of 58.
Definition is_label (b : byte) : bool := is_alnum b || bool_decide (b = dash).
Definition tcp : list byte := byte_of <$> [116; 99; 112; 58; 47; 47].

(** [^tcp://(([a-zA-Z0-9\-]+\.)+([a-zA-Z0-9]+)):([0-9]+)$] *)
Definition host_re : regex := Cat (Plus (Cat (Plus (Cls is_label)) (Lit [dot]))) (Plus (Cls is_alnum)).
Definition port_re : regex := Plus (Cls is_digit).
Definition endpoint_re : regex := Cat (Lit tcp) (Cat host_re (Cat (Lit [colon]) port_re)).

(** The groups of a match of [Cat a b]: the longest first part that leaves a match. *)
Definition splits (s : list byte) : list (list byte * list byte) :=
  (λ n, (take n s, drop n s)) <$> reverse (seq 0 (S (length s))).
Definition groups (a b : regex) (s : list byte) : option (list byte * list byte) :=
  snd <$> list_find (λ st : list byte * list byte, regex_match a st.1 && regex_match b st.2 = true) (splits s).
(** The host and the port of the client; [None] is no client. *)
Definition create_client (endpoint : list byte) : option (list byte * list byte) :=
  if regex_match endpoint_re endpoint then
    '(hostname, rest) ← groups host_re (Cat (Lit [colon]) port_re) (drop (length tcp) endpoint);
    Some (hostname, drop 1 rest)
  else None.

(** ** The reference *)
Fixpoint split_on (c : byte) (s : list byte) : list byte * list (list byte) :=
  match s with
  | [] => ([], [])
  | b :: s' =>
      let '(p, ps) := split_on c s' in
      if decide (b = c) then ([], p :: ps) else (b :: p, ps)
  end.
Definition word (p : byte → bool) (s : list byte) : bool := negb (bool_decide (s = [])) && forallb p s.
Fixpoint valid_host (label : list byte) (rest : list (list byte)) : bool :=
  match rest with
  | [] => word is_alnum label
  | next :: rest' => word is_label label && valid_host next rest'
  end.
(** At least two labels. *)
Definition is_host (s : list byte) : bool :=
  match split_on dot s with
  | (label, next :: rest) => valid_host label (next :: rest)
  | _ => false
  end.
Definition parse_endpoint (endpoint : list byte) : option (list byte * list byte) :=
  if decide (take 6 endpoint = tcp) then
    match split_on colon (drop 6 endpoint) with
    | (host, [port]) => if is_host host && word is_digit port then Some (host, port) else None
    | _ => None
    end
  else None.

(** ** Words, labels, hosts *)
Lemma matches_lit l s : matches (Lit l) s ↔ s = l.
Proof.
  revert s. induction l as [|b l IH]; intros s; simpl.
  - split; [by inversion 1|intros ->; constructor].
  - rewrite matches_cat. split.
    + intros (s1 & t & -> & H1 & H2). inversion H1 as [|p b' Hb| | | | |]; subst.
      apply bool_decide_eq_true in Hb as ->. by apply IH in H2 as ->.
    + intros ->. exists [b], l. split; [done|]. split; [constructor; by rewrite bool_decide_true|by apply IH].
Qed.
Lemma matches_star_cls p s : matches (Star (Cls p)) s ↔ forallb p s = true.
Proof.
  induction s as [|c s IH]; simpl; [split; [done|constructor]|]. rewrite andb_true_iff. split.
  - intros (s1 & t & -> & H1 & H2)%matches_star_cons. inversion H1; subst. simpl in *. by rewrite <- IH.
  - intros [H1 H2]. apply (m_more _ [c] s); [by constructor|by apply IH].
Qed.
Lemma matches_word p s : matches (Plus (Cls p)) s ↔ word p s = true.
Proof.
  unfold Plus, word. rewrite matches_cat. split.
  - intros (s1 & t & -> & H1 & H2). inversion H1; subst. apply matches_star_cls in H2. simpl.
    by apply andb_true_iff.
  - destruct s as [|c s]; [done|]. simpl. intros [H1 H2]%andb_true_iff.
    exists [c], s. split; [done|]. split; [by constructor|by apply matches_star_cls].
Qed.
Lemma split_on_spec c s p ps : split_on c s = (p, ps) → s = p ++ concat (cons c <$> ps).
Proof.
  revert p ps. induction s as [|b s IH]; intros p ps; simpl; [by intros [= <- <-]|].
  destruct (split_on c s) as [q qs]. specialize (IH q qs eq_refl). destruct (decide (b = c)) as [->|];
    intros [= <- <-]; simpl; by rewrite IH.
Qed.
Lemma split_on_app c p ps : c ∉ p → Forall (λ w, c ∉ w) ps →
  split_on c (p ++ concat (cons c <$> ps)) = (p, ps).
Proof.
  revert p. induction ps as [|q ps IHps]; intros p Hp Hps.
  - rewrite app_nil_r. induction p as [|b p IH]; [done|]. apply not_elem_of_cons in Hp as [Hb Hp].
    simpl. rewrite IH by done. by rewrite decide_False by done.
  - inversion Hps; subst. induction p as [|b p IH].
    + simpl. rewrite IHps by done. by rewrite decide_True.
    + apply not_elem_of_cons in Hp as [Hb Hp]. simpl in *. rewrite IH by done. by rewrite decide_False by done.
Qed.
Lemma word_free p s c : p c = false → word p s = true → c ∉ s.
Proof.
  intros Hc [_ Hs]%andb_true_iff Hin. rewrite forallb_forall in Hs.
  rewrite Hs in Hc; [done|]. by apply list_elem_of_In.
Qed.
Definition label_re : regex := Cat (Plus (Cls is_label)) (Lit [dot]).
Lemma matches_label s : matches label_re s ↔ ∃ w, s = w ++ [dot] ∧ word is_label w = true.
Proof.
  unfold label_re. rewrite matches_cat. split.
  - intros (w & t & -> & H1%matches_word & ->%matches_lit). eauto.
  - intros (w & -> & H). exists w, [dot]. by rewrite matches_word, matches_lit.
Qed.
Lemma labels_host s t : matches (Star label_re) s → word is_alnum t = true →
  ∃ p ps, s ++ t = p ++ concat (cons dot <$> ps) ∧ valid_host p ps = true.
Proof.
  intros Hs Ht. remember (Star label_re) as r eqn:Er. induction Hs as [| | | | | |a s u H1 _ H2 IH]; try done.
  - exists t, []. by rewrite app_nil_r.
  - injection Er as ->. apply matches_label in H1 as (w & -> & Hw). destruct IH as (p & ps & E & Hv); [done|].
    exists w, (p :: ps). rewrite <- !app_assoc. simpl. by rewrite E, Hw.
Qed.
Lemma host_labels p ps : valid_host p ps = true →
  ∃ s t, p ++ concat (cons dot <$> ps) = s ++ t ∧ matches (Star label_re) s ∧ word is_alnum t = true.
Proof.
  revert p. induction ps as [|q ps IH]; intros p; simpl.
  - intros Hp. exists [], p. rewrite app_nil_r. split; [done|]. split; [constructor|done].
  - intros [Hp Hq]%andb_true_iff. destruct (IH q Hq) as (s & t & E & Hs & Ht).
    exists ((p ++ [dot]) ++ s), t. split; [by rewrite <- !app_assoc, <- E|]. split; [|done].
    constructor; [apply matches_label; eauto|done].
Qed.
Lemma matches_host h : matches host_re h ↔
  ∃ p q ps, h = p ++ concat (cons dot <$> q :: ps) ∧ valid_host p (q :: ps) = true.
Proof.
  unfold host_re. fold label_re. rewrite matches_cat. split.
  - intros (s & t & -> & Hs & Ht%matches_word). apply matches_cat in Hs as (s1 & s2 & -> & H1 & H2).
    apply matches_label in H1 as (w & -> & Hw). destruct (labels_host s2 t H2 Ht) as (p & ps & E & Hv).
    exists w, p, ps. rewrite <- !app_assoc, E. simpl. by rewrite Hw.
  - intros (p & q & ps & -> & [Hp Hq]%andb_true_iff). destruct (host_labels q ps Hq) as (s & t & E & Hs & Ht).
    exists ((p ++ [dot]) ++ s), t. rewrite fmap_cons. simpl. rewrite E, <- !app_assoc. split; [done|].
    rewrite matches_word. split; [|done]. rewrite (app_assoc p [dot] s). apply matches_cat.
    exists (p ++ [dot]), s. split; [done|]. split; [apply matches_label; eauto|done].
Qed.
Lemma valid_host_free c p ps : is_label c = false → is_alnum c = false → valid_host p ps = true →
  (c ∉ p) ∧ Forall (λ w, c ∉ w) ps.
Proof.
  intros Hl Ha. revert p. induction ps as [|q ps IH]; intros p; simpl.
  - intros Hp. split; [by apply (word_free is_alnum)|constructor].
  - intros [Hp [Hq Hqs]%IH]%andb_true_iff. split; [by apply (word_free is_label)|by constructor].
Qed.
Lemma is_host_spec h : is_host h = true ↔ matches host_re h.
Proof.
  rewrite matches_host. unfold is_host. split.
  - destruct (split_on dot h) as [p [|q ps]] eqn:E; [done|]. apply split_on_spec in E. eauto.
  - intros (p & q & ps & -> & Hv). destruct (valid_host_free dot _ _ eq_refl eq_refl Hv) as [H1 H2].
    by rewrite split_on_app.
Qed.
Lemma host_no_colon h : matches host_re h → colon ∉ h.
Proof.
  rewrite matches_host. intros (p & q & ps & -> & Hv).
  destruct (valid_host_free colon _ _ eq_refl eq_refl Hv) as [H1 H2].
  intros [Hin|Hin]%elem_of_app; [done|]. revert Hin. generalize (q :: ps) H2. clear.
  induction 1 as [|w ws Hw _ IH]; simpl; [by intros ?%elem_of_nil|].
  intros [[=]|[Hin|Hin]%elem_of_app]%elem_of_cons; auto.
Qed.

(** ** What both accept *)
Definition accepts (e h p : list byte) : Prop :=
  e = tcp ++ h ++ colon :: p ∧ matches host_re h ∧ matches port_re p.

Lemma app_sep_inj (c : byte) h h' t t' : c ∉ h → c ∉ h' → h ++ c :: t = h' ++ c :: t' → h = h' ∧ t = t'.
Proof.
  revert h'. induction h as [|b h IH]; intros [|b' h'] H1 H2 E; simpl in *.
  - by injection E.
  - injection E as -> _. by destruct H2; left.
  - injection E as <- _. by destruct H1; left.
  - apply not_elem_of_cons in H1 as [_ H1], H2 as [_ H2]. injection E as <- E. destruct (IH h'); auto. by subst.
Qed.
Lemma accepts_unique e h p h' p' : accepts e h p → accepts e h' p' → h = h' ∧ p = p'.
Proof.
  intros (E & Hh & _) (E' & Hh' & _). rewrite E in E'. apply app_inv_head in E'.
  eapply app_sep_inj; eauto using host_no_colon.
Qed.
Lemma parse_accepts e h p : parse_endpoint e = Some (h, p) ↔ accepts e h p.
Proof.
  unfold parse_endpoint, accepts, port_re. rewrite matches_word, <- is_host_spec. split.
  - destruct (decide (take 6 e = tcp)) as [Ht|]; [|done].
    destruct (split_on colon (drop 6 e)) as [host [|port [|]]] eqn:Es; try done.
    destruct (is_host host && word is_digit port) eqn:Ev; [|done]. intros [= -> ->].
    apply andb_true_iff in Ev as [-> ->]. apply split_on_spec in Es. simpl in Es.
    rewrite app_nil_r in Es. split; [|done]. by rewrite <- Ht, <- Es, take_drop.
  - intros (-> & Hh & Hp). change 6%nat with (length tcp). rewrite take_app_length, drop_app_length.
    rewrite decide_True by done. replace (h ++ colon :: p) with (h ++ concat (cons colon <$> [p]))
      by (simpl; by rewrite app_nil_r).
    rewrite split_on_app.
    + by rewrite Hh, Hp.
    + by apply host_no_colon, is_host_spec.
    + repeat constructor. by apply (word_free is_digit).
Qed.
Lemma endpoint_matches e : regex_match endpoint_re e = true ↔ ∃ h p, accepts e h p.
Proof.
  rewrite regex_match_spec. unfold endpoint_re, accepts. rewrite matches_cat. split.
  - intros (s & t & -> & ->%matches_lit & H). apply matches_cat in H as (h & u & -> & Hh & H).
    apply matches_cat in H as (c & p & -> & ->%matches_lit & Hp). by exists h, p.
  - intros (h & p & -> & Hh & Hp). exists tcp, (h ++ colon :: p). split; [done|].
    split; [by apply matches_lit|]. constructor; [done|]. apply (m_cat _ _ [colon] p); [by apply matches_lit|done].
Qed.
Lemma splits_spec s a b : (a, b) ∈ splits s ↔ s = a ++ b.
Proof.
  unfold splits. rewrite list_elem_of_fmap. split.
  - intros (n & [= -> ->] & _). by rewrite take_drop.
  - intros ->. exists (length a). rewrite take_app_length, drop_app_length. split; [done|].
    apply elem_of_reverse, elem_of_seq. rewrite length_app. lia.
Qed.
Lemma groups_spec a b s h t : groups a b s = Some (h, t) → s = h ++ t ∧ matches a h ∧ matches b t.
Proof.
  unfold groups. intros ([n [h' t']] & Hf & [= -> ->])%fmap_Some.
  apply list_find_Some in Hf as (Hl & Hm & _). apply andb_true_iff in Hm as [H1 H2]. simpl in *.
  rewrite !regex_match_spec in *. split; [|done]. apply splits_spec. by eapply list_elem_of_lookup_2.
Qed.
Lemma groups_found a b h t : matches a h → matches b t → is_Some (groups a b (h ++ t)).
Proof.
  intros H1 H2. unfold groups. apply fmap_is_Some.
  apply (list_find_elem_of _ _ (h, t)); [by apply splits_spec|]. simpl.
  by rewrite !(proj2 (regex_match_spec _ _)).
Qed.

(** C19: The regular expression accepts what a parser by hand accepts: [tcp://], at least
    two labels of letters, digits and dashes separated by dots, the last one without
    dashes, a colon, and digits; the groups taken from the match are the host and the
    port.  [tcp://localhost:9000] is no endpoint. *)
Theorem create_client_parses e : create_client e = parse_endpoint e.
Proof.
  apply option_eq. intros [h p]. rewrite parse_accepts. unfold create_client.
  destruct (regex_match endpoint_re e) eqn:Em.
  2: { split; [done|]. intros Ha. assert (regex_match endpoint_re e = true) by (apply endpoint_matches; eauto).
    congruence. }
  apply endpoint_matches in Em as (h' & p' & Ha). pose proof Ha as (-> & Hh & Hp).
  rewrite drop_app_length.
  destruct (groups_found host_re (Cat (Lit [colon]) port_re) h' (colon :: p')) as [[h1 t1] Eg]; [done|..].
  { apply (m_cat _ _ [colon] p'); [by apply matches_lit|done]. }
  rewrite Eg. simpl. apply groups_spec in Eg as (E & H1 & H2).
  apply matches_cat in H2 as (c & p1 & -> & ->%matches_lit & H2). simpl in E |- *. rewrite drop_0.
  destruct (app_sep_inj _ _ _ _ _ (host_no_colon _ Hh) (host_no_colon _ H1) E) as [<- <-].
  split; [by intros [= <- <-]|]. intros Ha'. by destruct (accepts_unique _ _ _ _ _ Ha Ha') as [-> ->].
Qed.
Example localhost_refused :
  create_client (tcp ++ (byte_of <$> [108; 111; 99; 97; 108; 104; 111; 115; 116; 58; 57; 48])) = None.
Proof. reflexivity. Qed.
Example address_accepted :
  create_client (tcp ++ (byte_of <$> [49; 46; 50; 58; 57; 48])) = Some (byte_of <$> [49; 46; 50], byte_of <$> [57; 48]).
Proof. reflexivity. Qed.
