(* ===== verification/Ptr.v ===== *)
(** [ptr.hxx]: reference counted pointers.  A block holds two counters and an object; a
    [ptr<T>] owns the object, a [ptr<T&>] only keeps the block.  The object's own pointers
    are destroyed with it, so that a release is recursive.

    What the model keeps of an object is its members of pointer type.  Destructors of
    user code do nothing else. *)
From S2P Require Import Prelude.

(** ** The heap *)

(** [T*]: null, an address inside a block, or another address. *)
Inductive tptr := Null | At (b : nat) (off : Z) | Wild (a : Z).
(** [ptr<T>] and [ptr<T&>] have the same two fields. *)
Record handle := mk_handle { owner : bool; p_ : option nat; p_t_ : tptr }.
Record block := mk_block {
  strong : Z; weak : Z;
  members : option (list handle) }.   (* [None]: the object has been destroyed *)
Record mem := mk_mem {
  blocks : gmap nat block; next_block : nat;
  dead : list nat }.                  (* the objects destroyed so far, newest first *)
#[export] Instance eta_block : Eta block := λ c, mk_block (strong c) (weak c) (members c).
#[export] Instance eta_mem : Eta mem := λ m, mk_mem (blocks m) (next_block m) (dead m).
#[export] Instance tptr_eq_dec : EqDecision tptr.
Proof. solve_decision. Defined.
#[export] Instance handle_eq_dec : EqDecision handle.
Proof. solve_decision. Defined.

(** The size of the counters in front of the object. *)
Definition counters : Z := 8.
Definition nil (k : bool) : handle := mk_handle k None Null.
(** [static_cast] to a base class at distance [d]; null stays null. *)
Definition shift (d : Z) (t : tptr) : tptr :=
  match t with Null => Null | At b o => At b (o + d) | Wild a => Wild (a + d) end.

(** A counter of a block; reading freed memory is undefined.  The counters are
    [std::atomic<int32>], whose arithmetic wraps. *)
Definition deref_block (b : nat) : M mem block := o ← gets (λ m, blocks m !! b); deref o.
Definition set_block (b : nat) (c : block) : M mem unit :=
  modify (λ m, m <| blocks ::= <[b := c]> |>).
Definition add_count (k : bool) (b : nat) (d : Z) : M mem Z :=
  c ← deref_block b;
  let n := i32 ((if k then strong c else weak c) + d) in
  set_block b (if k then c <| strong := n |> else c <| weak := n |>);; mret n.
Definition free (b : nat) : M mem unit := modify (λ m, m <| blocks ::= delete b |>).

Definition inc_ref (h : handle) : M mem unit :=
  match p_ h with Some b => add_count (owner h) b 1;; mret () | None => mret () end.

(** The destructor of the object: its members are destroyed in reverse order, each with
    its own destructor [drop]. *)
Fixpoint destroy (drop : handle → M mem unit) (b : nat) (n : nat) : M mem unit :=
  c ← deref_block b;
  match n, default [] (members c) with
  | S n', hs =>
      h ← deref (last hs);
      set_block b (c <| members := Some (take (length hs - 1) hs) |>);;
      drop h;; destroy drop b n'
  | O, _ =>
      set_block b (c <| members := None |>);; modify (λ m, m <| dead ::= cons b |>)
  end.
(** [_dec_ref_and_free] of both kinds of pointer. *)
Fixpoint release (fuel : nat) (h : handle) : M mem unit :=
  match p_ h with
  | None => mret ()
  | Some b =>
      n ← add_count (owner h) b (-1);
      if negb (n =? 0) then mret () else
      if owner h then
        add_count false b 1;;
        c ← deref_block b;
        match fuel with
        | O => stop Diverges
        | S fuel' => destroy (release fuel') b (length (default [] (members c)))
        end;;
        n ← add_count false b (-1);
        when (n =? 0) (free b)
      else
        c ← deref_block b;
        when (strong c =? 0) (free b)
  end.
(** A destruction nests at most once per block. *)
Definition dec_ref_and_free (h : handle) : M mem unit := m ← get; release (size (blocks m)) h.

(** ** Pointer variables *)

(** A variable, or a member of the object in a block. *)
Inductive loc := Var (x : nat) | Field (b : nat) (i : nat).
#[export] Instance loc_eq_dec : EqDecision loc.
Proof. solve_decision. Defined.
Record heap := mk_heap { memory : mem; vars : gmap nat handle }.
#[export] Instance eta_heap : Eta heap := λ h, mk_heap (memory h) (vars h).

Definition lookup_loc (l : loc) (s : heap) : option handle :=
  match l with
  | Var x => vars s !! x
  | Field b i => c ← blocks (memory s) !! b; hs ← members c; hs !! i
  end.
Definition read (l : loc) : M heap handle := o ← gets (lookup_loc l); deref o.
Definition write (l : loc) (h : handle) : M heap unit :=
  read l;;
  match l with
  | Var x => modify (λ s, s <| vars ::= <[x := h]> |>)
  | Field b i =>
      c ← zoom memory (deref_block b);
      zoom memory (set_block b (c <| members ::= fmap <[i := h]> |>))
  end.
Definition declare (x : nat) (h : handle) : M heap unit := modify (λ s, s <| vars ::= <[x := h]> |>).

(** [ptr()] *)
Definition new_ptr (k : bool) (x : nat) : M heap unit := declare x (nil k).
(** The copy constructors, from [ptr] to [ptr] or [ptr<T&>], and from [ptr<T&>]. *)
Definition copy (k : bool) (x : nat) (l : loc) (d : Z) : M heap unit :=
  other ← read l;
  let h := mk_handle k (p_ other) (shift d (p_t_ other)) in
  declare x h;; zoom memory (inc_ref h).
(** The move constructors. *)
Definition move (x : nat) (l : loc) (d : Z) : M heap unit :=
  other ← read l;
  declare x (mk_handle (owner other) (p_ other) (shift d (p_t_ other)));;
  write l (nil (owner other)).
(** The destructor, at the end of the variable's scope. *)
Definition drop (x : nat) : M heap unit :=
  h ← read (Var x);
  modify (λ s, s <| vars ::= delete x |>);;
  zoom memory (dec_ref_and_free h).
(** [reset] and [operator =].  The old block is released first.  While that happens the
    variable is empty here; its old content is read again only when a pointer is assigned
    to itself. *)
Definition release_at (l : loc) : M heap handle :=
  h ← read l; write l (nil (owner h));; zoom memory (dec_ref_and_free h);; mret h.
Definition reset (l : loc) : M heap unit := h ← release_at l; write l (nil (owner h)).
Definition assign (l l' : loc) (d : Z) : M heap unit :=
  h ← release_at l;
  other ← (if decide (l = l') then read l;; mret h else read l');
  let h := mk_handle (owner h) (p_ other) (shift d (p_t_ other)) in
  write l h;; zoom memory (inc_ref h).

(** The private constructor [ptr(any_ptr p, T* p_t = nilptr)]. *)
Definition make_ptr (x : nat) (p : option nat) (t : tptr) : M heap unit :=
  let t := match t with
           | Null => match p with Some b => At b counters | None => Wild counters end
           | _ => t end in
  declare x (mk_handle true p t);; zoom memory (inc_ref (mk_handle true p t)).
(** [cs_new]: the members of the new object are null or copies.  An exception of the
    object's constructor, before it has made them, is swallowed. *)
Definition copies (fs : list (bool * option loc)) : M heap (list handle) := λ s,
  match mapM (M:=option) (λ kl : bool * option loc, match kl.2 with
    | None => Some (nil kl.1)
    | Some l => h ← lookup_loc l s; Some (mk_handle kl.1 (p_ h) (p_t_ h)) end) fs with
  | Some hs => Ret hs s
  | None => Stop Undefined s
  end.
Definition cs_new (x : nat) (fs : list (bool * option loc)) (ok : bool) : M heap unit :=
  if negb ok then make_ptr x None Null else
  hs ← copies fs;
  zoom memory (for_each inc_ref hs);;
  b ← gets (λ s, next_block (memory s));
  zoom memory (set_block b (mk_block 0 0 (Some hs)));;
  zoom memory (modify (λ m, m <| next_block ::= S |>));;
  make_ptr x (Some b) Null.
(** [cs_alloc]: memory for an object without pointers. *)
Definition cs_alloc (x : nat) : M heap unit := cs_new x [] true.
(** [cs_safe(this)], in a method of the object in block [b]. *)
Definition cs_safe (x : nat) (b : nat) : M heap unit := make_ptr x (Some b) Null.

(** ** Observers *)
Definition get_ptr (h : handle) : tptr := p_t_ h.
(** [operator bool] of a [ptr<T>], and of a [ptr<T&>]: whether an owner is left. *)
Definition to_bool (h : handle) : M mem bool :=
  match p_ h with
  | None => mret false
  | Some b => if owner h then mret true else c ← deref_block b; mret (0 <? strong c)
  end.
Definition eq_ptr (h h' : handle) : bool := bool_decide (p_ h = p_ h').
(** [== const T*] *)
Definition eq_raw (h : handle) (t : tptr) : bool :=
  match p_ h with None => bool_decide (t = Null) | Some _ => bool_decide (get_ptr h = t) end.
(** [operator *] of a [ptr<T&>]. *)
Definition deref_weak (h : handle) : M mem tptr :=
  b ← to_bool h; if b : bool then mret (get_ptr h) else throw Runtime_error.
(** [operator &] of a [ptr<T&>]: the owner it was made from, if there is one left. *)
Definition lock (x : nat) (l : loc) : M heap unit :=
  h ← read l;
  b ← zoom memory (to_bool h);
  if b : bool then make_ptr x (p_ h) (p_t_ h) else new_ptr true x.
