(* ===== verification/PtrInv.v ===== *)
(** The invariant of the reference counts and what it gives: a release frees what nobody
    refers to any more, and nothing else, and never touches freed memory. *)
From S2P Require Import Prelude Ptr.

(** ** Sums over maps *)
Definition msum {A} (f : A → Z) (m : gmap nat A) : Z := lsum (λ ka : nat * A, f ka.2) (map_to_list m).
Lemma msum_delete {A} (f : A → Z) m k a : m !! k = Some a → msum f m = f a + msum f (delete k m).
Proof. intros Hk. unfold msum. by rewrite <- (lsum_perm _ _ _ (map_to_list_delete m k a Hk)). Qed.
Lemma msum_insert {A} (f : A → Z) m k a : m !! k = None → msum f (<[k:=a]> m) = f a + msum f m.
Proof. intros Hk. unfold msum. by rewrite (lsum_perm _ _ _ (map_to_list_insert m k a Hk)). Qed.
Lemma msum_update {A} (f : A → Z) m k a a' : m !! k = Some a →
  msum f (<[k:=a']> m) = msum f m - f a + f a'.
Proof.
  intros Hk. rewrite (msum_delete f m k a) by done.
  rewrite <- insert_delete_eq, msum_insert by apply lookup_delete_eq. lia.
Qed.
Lemma msum_nonneg {A} (f : A → Z) m : (∀ a, 0 ≤ f a) → 0 ≤ msum f m.
Proof.
  intros H. induction m as [|k a m Hk IH] using map_ind; [done|].
  rewrite msum_insert by done. specialize (H a). lia.
Qed.
Lemma msum_lookup_le {A} (f : A → Z) m k a : (∀ a, 0 ≤ f a) → m !! k = Some a → f a ≤ msum f m.
Proof.
  intros H Hk. rewrite (msum_delete f m k a) by done. pose proof (msum_nonneg f (delete k m) H). lia.
Qed.

(** ** Who refers to a block *)
Definition hits (k : bool) (b : nat) (h : handle) : Z :=
  match p_ h with Some b' => if bool_decide (owner h = k ∧ b' = b) then 1 else 0 | None => 0 end.
Definition count (k : bool) (c : block) : Z := if k then strong c else weak c.
Definition inside (c : block) : list handle := default [] (members c).
(** The pointers of kind [k] to [b] that are members of objects. *)
Definition inner (k : bool) (b : nat) (m : mem) : Z := msum (λ c, lsum (hits k b) (inside c)) (blocks m).
Definition live (m : mem) : Z := msum (λ c, if 0 <? strong c then 1 else 0) (blocks m).

Lemma hits_nonneg k b h : 0 ≤ hits k b h.
Proof. unfold hits. repeat case_match; lia. Qed.
Lemma hits_self h b : p_ h = Some b → hits (owner h) b h = 1.
Proof. unfold hits. intros ->. by rewrite bool_decide_true. Qed.
Lemma hits_other k b b' h : p_ h = Some b' → k ≠ owner h ∨ b ≠ b' → hits k b h = 0.
Proof. unfold hits. intros -> Hn. rewrite bool_decide_false; [done|]. intros [<- ->]. by destruct Hn. Qed.
Lemma inner_nonneg k b m : 0 ≤ inner k b m.
Proof. apply msum_nonneg. intros c. apply lsum_nonneg, hits_nonneg. Qed.

(** The pointers outside: variables, and those a computation still has to release. *)
Definition ext : Type := bool → nat → Z.
Definition plus (E : ext) (h : handle) : ext := λ k b, E k b + hits k b h.

(** [wf E D m]: the counters of every block are the numbers of pointers to it, [E] of them
    outside; an object is there as long as it has an owner or, in [D], while it is being
    destroyed; a block is there as long as anything refers to it. *)
Record wf (E : ext) (D : list nat) (m : mem) : Prop := {
  wf_pos k b : 0 ≤ inner k b m + E k b;
  wf_count k b c : blocks m !! b = Some c → count k c = inner k b m + E k b;
  wf_none k b : blocks m !! b = None → inner k b m + E k b = 0;
  wf_used b c : blocks m !! b = Some c → 0 < strong c ∨ 0 < weak c;
  wf_alive b c : blocks m !! b = Some c → is_Some (members c) ↔ 0 < strong c ∨ b ∈ D;
  wf_dying b : b ∈ D → inner true b m + E true b = 0;
  wf_room b : (inner true b m + E true b) + (inner false b m + E false b) < 2 ^ 31 - 1;
  wf_next b : is_Some (blocks m !! b) ∨ b ∈ dead m ↔ (b < next_block m)%nat;
  wf_dead b c : blocks m !! b = Some c → b ∈ dead m ↔ members c = None;
  wf_once : NoDup (dead m) }.

Definition upd (m : mem) (b : nat) (c : block) : mem := m <| blocks ::= <[b := c]> |>.
Definition set_count (k : bool) (n : Z) (c : block) : block :=
  if k then c <| strong := n |> else c <| weak := n |>.

Lemma blocks_upd m b c : blocks (upd m b c) = <[b := c]> (blocks m).
Proof. done. Qed.
Lemma inner_upd k x m b c c' : blocks m !! b = Some c →
  inner k x (upd m b c') = inner k x m - lsum (hits k x) (inside c) + lsum (hits k x) (inside c').
Proof. intros Hb. unfold inner. rewrite blocks_upd. by rewrite (msum_update _ _ _ c). Qed.
Lemma inner_same k x m b c c' : blocks m !! b = Some c → members c' = members c →
  inner k x (upd m b c') = inner k x m.
Proof. intros Hb Hc. erewrite inner_upd by done. unfold inside. rewrite Hc. lia. Qed.
Lemma members_set_count k n c : members (set_count k n c) = members c.
Proof. by destruct k. Qed.
Lemma count_set_count k n c : count k (set_count k n c) = n.
Proof. by destruct k. Qed.
Lemma count_set_other k k' n c : k' ≠ k → count k' (set_count k n c) = count k' c.
Proof. by destruct k, k'. Qed.

Lemma deref_block_ret b m c : blocks m !! b = Some c → deref_block b m = Ret c m.
Proof. intros Hb. unfold deref_block. erewrite bind_Ret by done. by rewrite Hb. Qed.
Lemma add_count_ret k b d m c : blocks m !! b = Some c → is_i32 (count k c + d) →
  add_count k b d m = Ret (count k c + d) (upd m b (set_count k (count k c + d) c)).
Proof.
  intros Hb Hi. unfold add_count. erewrite bind_Ret by (by apply deref_block_ret). cbv zeta.
  fold (count k c). rewrite i32_small by done. by destruct k.
Qed.

Lemma wf_allocated E D m k b : wf E D m → 0 < E k b → ∃ c, blocks m !! b = Some c.
Proof.
  intros W He. destruct (blocks m !! b) as [c|] eqn:Hb; [eauto|].
  pose proof (wf_none _ _ _ W k b Hb). pose proof (inner_nonneg k b m). lia.
Qed.
Lemma wf_ext E E' D m : (∀ k b, E k b = E' k b) → wf E D m → wf E' D m.
Proof.
  intros He W. split; intros; rewrite <- ?He; try by eapply W.
  all: (by apply (wf_count _ _ _ W)) || (by apply (wf_none _ _ _ W)) || (by apply (wf_dying _ _ _ W)).
Qed.
Lemma wf_count_range E D m k b c : wf E D m → blocks m !! b = Some c → 0 ≤ count k c < 2 ^ 31 - 1.
Proof.
  intros W Hb. rewrite (wf_count _ _ _ W k b c Hb). pose proof (wf_room _ _ _ W b).
  pose proof (wf_pos _ _ _ W true b). pose proof (wf_pos _ _ _ W false b). destruct k; lia.
Qed.

(** ** Steps that keep the invariant *)
Ltac at_block b :=
  repeat match goal with
  | H : context [blocks (upd _ _ _)] |- _ => rewrite blocks_upd in H
  | H : <[b := _]> _ !! ?x = _ |- _ =>
      destruct (decide (b = x)) as [<-|?];
      [rewrite lookup_insert_eq in H; try discriminate H; injection H as <-
      |rewrite lookup_insert_ne in H by done]
  end.
Ltac at_deleted :=
  match goal with
  | H : delete _ _ !! _ = Some _ |- _ => apply lookup_delete_Some in H as [? Hx]
  end.
Lemma next_upd m b c c' : blocks m !! b = Some c → ∀ x,
  is_Some (blocks (upd m b c') !! x) ↔ is_Some (blocks m !! x).
Proof.
  intros Hb x. rewrite blocks_upd. destruct (decide (b = x)) as [<-|].
  - rewrite lookup_insert_eq, Hb. by split; eexists.
  - by rewrite lookup_insert_ne.
Qed.

Section steps.
Context (E : ext) (D : list nat) (m : mem) (b : nat) (c : block) (Hb : blocks m !! b = Some c).

Lemma wf_dec h : wf (plus E h) D m → p_ h = Some b → (∀ k x, 0 ≤ E k x) →
  count (owner h) c - 1 ≠ 0 ∨ (owner h = false ∧ 0 < strong c) →
  wf E D (upd m b (set_count (owner h) (count (owner h) c - 1) c)).
Proof.
  intros W Hp He Hn. pose proof (wf_count_range _ _ _ (owner h) _ _ W Hb) as Hr.
  assert (∀ k x, inner k x (upd m b (set_count (owner h) (count (owner h) c - 1) c)) = inner k x m) as Hi
    by (intros; apply (inner_same _ _ _ _ _ _ Hb), members_set_count).
  assert (1 ≤ count (owner h) c) as H1.
  { rewrite (wf_count _ _ _ W _ _ _ Hb). unfold plus. rewrite (hits_self _ _ Hp).
    pose proof (inner_nonneg (owner h) b m). specialize (He (owner h) b). lia. }
  split; try done; intros; rewrite ?Hi.
  - pose proof (inner_nonneg k b0 m). specialize (He k b0). lia.
  - at_block b.
    + pose proof (wf_count _ _ _ W k _ _ Hb) as Hc. unfold plus in Hc. destruct (decide (k = owner h)) as [->|].
      * rewrite (hits_self _ _ Hp) in Hc. rewrite count_set_count. lia.
      * rewrite (hits_other _ _ _ _ Hp) in Hc by auto. rewrite count_set_other by done. lia.
    + pose proof (wf_count _ _ _ W k _ _ H) as Hc. unfold plus in Hc.
      rewrite (hits_other _ _ _ _ Hp) in Hc by auto. lia.
  - at_block b. pose proof (wf_none _ _ _ W k _ H) as Hc. unfold plus in Hc.
    pose proof (hits_nonneg k b0 h). pose proof (inner_nonneg k b0 m). specialize (He k b0). lia.
  - at_block b; [|by apply (wf_used _ _ _ W _ _ H)]. pose proof (wf_used _ _ _ W _ _ Hb).
    destruct (owner h); simpl in *; intuition (congruence || lia).
  - at_block b; [|by apply (wf_alive _ _ _ W)]. rewrite members_set_count, (wf_alive _ _ _ W _ _ Hb).
    destruct (owner h); simpl in *; [|done]. intuition (congruence || lia).
  - pose proof (wf_dying _ _ _ W _ H) as Hc. unfold plus in Hc.
    pose proof (hits_nonneg true b0 h). pose proof (inner_nonneg true b0 m). specialize (He true b0). lia.
  - pose proof (wf_room _ _ _ W b0) as Hc. unfold plus in Hc.
    pose proof (hits_nonneg true b0 h). pose proof (hits_nonneg false b0 h). lia.
  - rewrite (next_upd _ _ _ _ Hb). apply (wf_next _ _ _ W).
  - at_block b; [|by apply (wf_dead _ _ _ W)]. rewrite members_set_count. by apply (wf_dead _ _ _ W).
  - apply (wf_once _ _ _ W).
Qed.

Lemma wf_inc h : wf E D m → p_ h = Some b → (owner h = true → 0 < strong c) →
  (inner true b m + E true b) + (inner false b m + E false b) + 1 < 2 ^ 31 - 1 →
  wf (plus E h) D (upd m b (set_count (owner h) (count (owner h) c + 1) c)).
Proof.
  intros W Hp Ho Hroom. pose proof (wf_count_range _ _ _ (owner h) _ _ W Hb) as Hr.
  assert (∀ k x, inner k x (upd m b (set_count (owner h) (count (owner h) c + 1) c)) = inner k x m) as Hi
    by (intros; apply (inner_same _ _ _ _ _ _ Hb), members_set_count).
  split; intros; rewrite ?Hi.
  - unfold plus. pose proof (wf_pos _ _ _ W k b0). pose proof (hits_nonneg k b0 h). lia.
  - unfold plus. at_block b.
    + pose proof (wf_count _ _ _ W k _ _ Hb) as Hc. destruct (decide (k = owner h)) as [->|].
      * rewrite (hits_self _ _ Hp), count_set_count. lia.
      * rewrite (hits_other _ _ _ _ Hp) by auto. rewrite count_set_other by done. lia.
    + pose proof (wf_count _ _ _ W k _ _ H) as Hc. rewrite (hits_other _ _ _ _ Hp) by auto. lia.
  - at_block b. unfold plus. rewrite (hits_other _ _ _ _ Hp) by auto.
    pose proof (wf_none _ _ _ W k _ H). lia.
  - at_block b; [|by apply (wf_used _ _ _ W _ _ H)]. pose proof (wf_used _ _ _ W _ _ Hb).
    destruct (owner h); simpl in *; lia.
  - at_block b; [|by apply (wf_alive _ _ _ W)]. rewrite members_set_count, (wf_alive _ _ _ W _ _ Hb).
    destruct (owner h); simpl in *; [|done]. intuition lia.
  - unfold plus. pose proof (wf_dying _ _ _ W _ H) as Hc. pose proof (wf_pos _ _ _ W true b0).
    destruct (decide (b0 = b)) as [->|]; [|rewrite (hits_other _ _ _ _ Hp) by auto; lia].
    destruct (owner h) eqn:Eo; [|rewrite (hits_other _ _ _ _ Hp) by (rewrite Eo; auto); lia].
    pose proof (wf_count _ _ _ W true _ _ Hb) as Hc'. simpl in Hc'. specialize (Ho eq_refl). lia.
  - unfold plus. pose proof (wf_room _ _ _ W b0). unfold hits. rewrite Hp.
    repeat case_bool_decide; destruct_and?; subst; try congruence; lia.
  - rewrite (next_upd _ _ _ _ Hb). apply (wf_next _ _ _ W).
  - at_block b; [|by apply (wf_dead _ _ _ W)]. rewrite members_set_count. by apply (wf_dead _ _ _ W).
  - apply (wf_once _ _ _ W).
Qed.

(** A block to which nothing refers any more is freed. *)
Lemma wf_free h : wf (plus E h) D m → p_ h = Some b → (∀ k x, 0 ≤ E k x) → (∀ d, d ∈ D → 0 < E false d) →
  owner h = false → weak c = 1 → strong c = 0 → wf E D (m <| blocks ::= delete b |>).
Proof.
  intros W Hp He HD Ho Hw Hs.
  pose proof (wf_count _ _ _ W true _ _ Hb) as H1. pose proof (wf_count _ _ _ W false _ _ Hb) as H2.
  unfold plus in H1, H2. pose proof (hits_self _ _ Hp) as Hh. rewrite Ho in Hh. rewrite Hh in H2. simpl in *.
  rewrite (hits_other true _ _ _ Hp) in H1 by (rewrite Ho; auto).
  pose proof (inner_nonneg true b m). pose proof (inner_nonneg false b m).
  pose proof (He true b). pose proof (He false b).
  assert (b ∉ D) as HbD by (intros Hin; specialize (HD b Hin); lia).
  assert (members c = None) as Hm.
  { destruct (members c) eqn:Em; [|done]. exfalso.
    pose proof (proj1 (wf_alive _ _ _ W _ _ Hb) (ex_intro _ _ Em)) as [?|?]; [lia|done]. }
  assert (∀ k x, inner k x (m <| blocks ::= delete b |>) = inner k x m) as Hi.
  { intros. unfold inner, set_field. simpl. rewrite (msum_delete _ (blocks m) b c Hb).
    unfold inside. by rewrite Hm. }
  assert (∀ k x, x ≠ b → plus E h k x = E k x) as Hpl.
  { intros. unfold plus. rewrite (hits_other _ _ _ _ Hp) by auto. lia. }
  change (blocks (m <| blocks ::= delete b |>)) with (delete b (blocks m)).
  split; try done; intros; rewrite ?Hi;
    change (blocks (m <| blocks ::= delete b |>)) with (delete b (blocks m)) in *;
    change (dead (m <| blocks ::= delete b |>)) with (dead m) in *;
    change (next_block (m <| blocks ::= delete b |>)) with (next_block m) in *.
  - pose proof (inner_nonneg k b0 m). specialize (He k b0). lia.
  - at_deleted. rewrite <- Hpl by done. by apply (wf_count _ _ _ W).
  - destruct (decide (b = b0)) as [<-|Hne]; [destruct k; lia|].
    match goal with H : delete b _ !! _ = None |- _ => rewrite lookup_delete_ne in H by done end.
    rewrite <- Hpl by done. by apply (wf_none _ _ _ W).
  - at_deleted. by apply (wf_used _ _ _ W _ _ Hx).
  - at_deleted. by apply (wf_alive _ _ _ W).
  - assert (b0 ≠ b) by (by intros ->). rewrite <- Hpl by done. by apply (wf_dying _ _ _ W).
  - pose proof (wf_room _ _ _ W b0) as Hc. unfold plus in Hc.
    pose proof (hits_nonneg true b0 h). pose proof (hits_nonneg false b0 h). lia.
  - rewrite <- (wf_next _ _ _ W). destruct (decide (b = b0)) as [<-|]; [|by rewrite lookup_delete_ne].
    assert (b ∈ dead m) by (by apply (wf_dead _ _ _ W _ _ Hb)). tauto.
  - at_deleted. by apply (wf_dead _ _ _ W).
  - apply (wf_once _ _ _ W).
Qed.
End steps.

(** A weak reference that keeps a block while its object is being destroyed. *)
Definition guard (b : nat) : handle := mk_handle false (Some b) Null.
Definition bury (b : nat) (m : mem) : mem := m <| dead ::= cons b |>.

Section destruction.
Context (E : ext) (D : list nat) (m : mem) (b : nat) (c : block) (Hb : blocks m !! b = Some c).

(** The last owner is gone: the object will be destroyed. *)
Lemma wf_begin h : wf (plus E h) D m → p_ h = Some b → owner h = true → strong c = 1 →
  (∀ k x, 0 ≤ E k x) → (∀ d, d ∈ D → 0 < E false d) →
  wf (plus E (guard b)) (b :: D)
    (upd (upd m b (set_count true 0 c)) b (set_count false (weak c + 1) (set_count true 0 c))) ∧ b ∉ D.
Proof.
  intros W Hp Ho Hs He HD. set (c' := set_count false _ _).
  assert (upd (upd m b (set_count true 0 c)) b c' = upd m b c') as ->
    by (unfold upd, set_field; simpl; by rewrite insert_insert_eq).
  assert (∀ k x, inner k x (upd m b c') = inner k x m) as Hi by (intros; by apply (inner_same _ _ _ _ _ _ Hb)).
  pose proof (wf_count _ _ _ W true _ _ Hb) as H1. pose proof (wf_count _ _ _ W false _ _ Hb) as H2.
  pose proof (hits_self _ _ Hp) as Hh. rewrite Ho in Hh.
  unfold plus in H1, H2. rewrite Hh in H1. rewrite (hits_other false _ _ _ Hp) in H2 by (rewrite Ho; auto).
  simpl in H1, H2.
  pose proof (inner_nonneg true b m) as I1. pose proof (inner_nonneg false b m) as I2.
  pose proof (He true b) as P1. pose proof (He false b) as P2.
  assert (b ∉ D) as HbD.
  { intros Hin. pose proof (wf_dying _ _ _ W b Hin) as Hd. unfold plus in Hd. lia. }
  assert (∀ k x, x ≠ b → plus E h k x = E k x) as Hpl.
  { intros. unfold plus. rewrite (hits_other _ _ _ _ Hp) by auto. lia. }
  assert (∀ k x, x ≠ b → plus E (guard b) k x = E k x) as Hpg.
  { intros. unfold plus. rewrite (hits_other _ _ b (guard b)) by auto. lia. }
  assert (plus E (guard b) true b = E true b) as Hgt by (unfold plus, hits; simpl; lia).
  assert (plus E (guard b) false b = E false b + 1) as Hgf
    by (unfold plus; by rewrite (hits_self (guard b) b eq_refl : hits false b (guard b) = 1)).
  split; [|done]. split; intros; rewrite ?Hi.
  - unfold plus. pose proof (He k b0). pose proof (hits_nonneg k b0 (guard b)). pose proof (inner_nonneg k b0 m). lia.
  - at_block b; [destruct k; simpl; rewrite ?Hgt, ?Hgf; lia|].
    rewrite Hpg, <- Hpl by done. by apply (wf_count _ _ _ W).
  - at_block b. rewrite Hpg, <- Hpl by done. by apply (wf_none _ _ _ W).
  - at_block b; [simpl; lia|by apply (wf_used _ _ _ W _ _ H)].
  - at_block b.
    + pose proof (wf_alive _ _ _ W _ _ Hb) as Ha. unfold c'. rewrite !members_set_count, Ha, elem_of_cons.
      simpl. split; [auto|]. intros _. left. lia.
    + rewrite (wf_alive _ _ _ W _ _ H), elem_of_cons. intuition congruence.
  - apply elem_of_cons in H as [->|H]; [lia|]. assert (b0 ≠ b) by (by intros ->).
    rewrite Hpg, <- Hpl by done. by apply (wf_dying _ _ _ W).
  - destruct (decide (b0 = b)) as [->|].
    + pose proof (wf_room _ _ _ W b) as Hr. unfold plus in Hr. rewrite Hh in Hr.
      rewrite (hits_other false _ _ _ Hp) in Hr by (rewrite Ho; auto). rewrite Hgt, Hgf. lia.
    + rewrite !Hpg, <- !Hpl by done. apply (wf_room _ _ _ W).
  - rewrite (next_upd _ _ _ _ Hb). apply (wf_next _ _ _ W).
  - at_block b; [|by apply (wf_dead _ _ _ W)]. unfold c'. rewrite !members_set_count. by apply (wf_dead _ _ _ W).
  - apply (wf_once _ _ _ W).
Qed.

(** A member is taken out of the object. *)
Lemma wf_pop hs h : wf E D m → members c = Some (hs ++ [h]) →
  wf (plus E h) D (upd m b (c <| members := Some hs |>)).
Proof.
  intros W Hm. set (c' := c <| members := Some hs |>).
  assert (∀ k x, inner k x (upd m b c') = inner k x m - hits k x h) as Hi.
  { intros. rewrite (inner_upd _ _ _ _ _ _ Hb). unfold inside. rewrite Hm. simpl. rewrite lsum_app. simpl. lia. }
  assert (∀ k, count k c' = count k c) as Hc by (by intros []).
  split; intros; rewrite ?Hi.
  - unfold plus. pose proof (wf_pos _ _ _ W k b0). lia.
  - unfold plus. at_block b; [rewrite Hc, (wf_count _ _ _ W _ _ _ Hb); lia|].
    rewrite (wf_count _ _ _ W _ _ _ H). lia.
  - unfold plus. at_block b. pose proof (wf_none _ _ _ W k _ H). lia.
  - at_block b; [by apply (wf_used _ _ _ W _ _ Hb)|by apply (wf_used _ _ _ W _ _ H)].
  - at_block b; [|by apply (wf_alive _ _ _ W)]. pose proof (wf_alive _ _ _ W _ _ Hb) as Ha.
    rewrite Hm in Ha. simpl. rewrite <- Ha. split; intros _; by eexists.
  - unfold plus. pose proof (wf_dying _ _ _ W _ H). lia.
  - unfold plus. pose proof (wf_room _ _ _ W b0). lia.
  - rewrite (next_upd _ _ _ _ Hb). apply (wf_next _ _ _ W).
  - at_block b; [|by apply (wf_dead _ _ _ W)]. pose proof (wf_dead _ _ _ W _ _ Hb) as Hd.
    rewrite Hm in Hd. simpl. by rewrite Hd.
  - apply (wf_once _ _ _ W).
Qed.

(** The object is gone. *)
Lemma wf_destroyed : wf E (b :: D) m → members c = Some [] → b ∉ D →
  wf E D (bury b (upd m b (c <| members := None |>))).
Proof.
  intros W Hm HbD. set (c' := c <| members := None |>).
  assert (∀ k x, inner k x (bury b (upd m b c')) = inner k x m) as Hi.
  { intros. change (inner k x (upd m b c') = inner k x m). rewrite (inner_upd _ _ _ _ _ _ Hb).
    unfold inside. rewrite Hm. simpl. lia. }
  assert (∀ k, count k c' = count k c) as Hc by (by intros []).
  assert (strong c = 0) as Hs.
  { pose proof (wf_count _ _ _ W true _ _ Hb) as H1. pose proof (wf_dying _ _ _ W b (list_elem_of_here _ _)).
    simpl in H1. lia. }
  change (blocks (bury b (upd m b c'))) with (blocks (upd m b c')).
  split; intros; rewrite ?Hi;
    change (blocks (bury b (upd m b c'))) with (blocks (upd m b c')) in *;
    change (dead (bury b (upd m b c'))) with (b :: dead m) in *.
  - apply (wf_pos _ _ _ W).
  - at_block b; [rewrite Hc; by apply (wf_count _ _ _ W)|by apply (wf_count _ _ _ W)].
  - at_block b. by apply (wf_none _ _ _ W).
  - at_block b; [by apply (wf_used _ _ _ W _ _ Hb)|by apply (wf_used _ _ _ W _ _ H)].
  - at_block b.
    + simpl. split; [by intros [? ?]|]. intros [?|?]; [lia|done].
    + rewrite (wf_alive _ _ _ W _ _ H), elem_of_cons. intuition congruence.
  - apply (wf_dying _ _ _ W). by right.
  - apply (wf_room _ _ _ W).
  - rewrite (next_upd _ _ _ _ Hb). change (next_block _) with (next_block m).
    rewrite <- (wf_next _ _ _ W), elem_of_cons. intuition subst. left. by eexists.
  - rewrite elem_of_cons. at_block b; [by simpl; tauto|].
    rewrite (wf_dead _ _ _ W _ _ H). intuition congruence.
  - constructor; [|apply (wf_once _ _ _ W)]. rewrite (wf_dead _ _ _ W _ _ Hb). by rewrite Hm.
Qed.
End destruction.

(** ** Releases *)

(** What a release leaves alone: the objects in [D], and the next address; no object comes
    to life. *)
Definition frame (D : list nat) (m m' : mem) : Prop :=
  (∀ d c, d ∈ D → blocks m !! d = Some c → ∃ c', blocks m' !! d = Some c' ∧ members c' = members c) ∧
  live m' ≤ live m ∧ next_block m' = next_block m.
Lemma frame_refl D m : frame D m m.
Proof. split; [eauto|done]. Qed.
Lemma frame_trans D m1 m2 m3 : frame D m1 m2 → frame D m2 m3 → frame D m1 m3.
Proof.
  intros (H1 & L1 & N1) (H2 & L2 & N2). split; [|split; [lia|congruence]].
  intros d c Hd Hc. destruct (H1 d c Hd Hc) as (c' & Hc' & E1). destruct (H2 d c' Hd Hc') as (c'' & Hc'' & E2).
  exists c''. split; [done|congruence].
Qed.
Lemma live_upd m b c c' : blocks m !! b = Some c →
  live (upd m b c') = live m - (if 0 <? strong c then 1 else 0) + (if 0 <? strong c' then 1 else 0).
Proof. intros Hb. unfold live. rewrite blocks_upd. by rewrite (msum_update _ _ _ c). Qed.
Lemma frame_upd D m b c c' : blocks m !! b = Some c → members c' = members c ∨ b ∉ D → strong c' ≤ strong c →
  frame D m (upd m b c').
Proof.
  intros Hb Hm Hs. split; [|split; [|done]].
  - intros d e Hd He. rewrite blocks_upd. destruct (decide (b = d)) as [<-|].
    + rewrite lookup_insert_eq. exists c'. split; [done|]. destruct Hm; [|done]. congruence.
    + rewrite lookup_insert_ne by done. eauto.
  - rewrite (live_upd _ _ _ _ Hb). destruct (Z.ltb_spec 0 (strong c)), (Z.ltb_spec 0 (strong c')); lia.
Qed.
Lemma frame_free D m b c : blocks m !! b = Some c → b ∉ D → frame D m (m <| blocks ::= delete b |>).
Proof.
  intros Hb HbD. split; [|split; [|done]].
  - intros d e Hd He. exists e. split; [|done].
    change (delete b (blocks m) !! d = Some e). rewrite lookup_delete_ne; [done|by intros ->].
  - unfold live, set_field. simpl. rewrite (msum_delete _ (blocks m) b c Hb). case_match; lia.
Qed.
(** An object that is there afterwards was there before, with the same members. *)
Definition kept (X : list nat) (m m' : mem) : Prop := ∀ d c' hs,
  d ∉ X → blocks m' !! d = Some c' → members c' = Some hs →
  ∃ c, blocks m !! d = Some c ∧ members c = Some hs.
Lemma kept_refl X m : kept X m m.
Proof. intros d c' hs _. eauto. Qed.
Lemma kept_trans X m1 m2 m3 : kept X m1 m2 → kept X m2 m3 → kept X m1 m3.
Proof. intros H1 H2 d c' hs Hd Hc Hm. destruct (H2 d c' hs Hd Hc Hm) as (c2 & ? & ?). eauto. Qed.
Lemma kept_weaken X m m' : kept [] m m' → kept X m m'.
Proof. intros H d c' hs _. apply H. by intros ?%elem_of_nil. Qed.
Lemma kept_upd X m b c c' : blocks m !! b = Some c → members c' = members c ∨ b ∈ X → kept X m (upd m b c').
Proof.
  intros Hb Hm d e hs Hd He Hh. rewrite blocks_upd in He. destruct (decide (b = d)) as [<-|].
  - rewrite lookup_insert_eq in He. injection He as <-. destruct Hm as [Hm|]; [|done]. exists c. by rewrite <- Hm.
  - rewrite lookup_insert_ne in He by done. eauto.
Qed.
Lemma kept_free X m b : kept X m (m <| blocks ::= delete b |>).
Proof.
  intros d e hs Hd He Hh. change (delete b (blocks m) !! d = Some e) in He.
  apply lookup_delete_Some in He as [_ He]. eauto.
Qed.
(** Outside [b] nothing changed, and [b] is destroyed. *)
Lemma kept_gone m m' b c : kept [b] m m' → blocks m' !! b = Some c → members c = None → kept [] m m'.
Proof.
  intros H Hb Hm d e hs _ He Hh. apply (H d e hs); [|done..]. intros ->%list_elem_of_singleton. congruence.
Qed.
Lemma plus_nonneg (E : ext) h : (∀ k b, 0 ≤ E k b) → ∀ k b, 0 ≤ plus E h k b.
Proof. intros He k b. unfold plus. specialize (He k b). pose proof (hits_nonneg k b h). lia. Qed.

(** What [release] is shown to do with a given fuel. *)
Definition release_ok (fuel : nat) : Prop := ∀ E D h m,
  wf (plus E h) D m → (∀ k b, 0 ≤ E k b) → (∀ d, d ∈ D → 0 < E false d) → live m ≤ Z.of_nat fuel →
  ∃ m', release fuel h m = Ret () m' ∧ wf E D m' ∧ frame D m m' ∧ kept [] m m'.

Lemma destroy_ok fuel : release_ok fuel → ∀ n E D b m c,
  blocks m !! b = Some c → wf E (b :: D) m → b ∉ D → (∀ k b, 0 ≤ E k b) → (∀ d, d ∈ b :: D → 0 < E false d) →
  length (inside c) = n → live m ≤ Z.of_nat fuel →
  ∃ m', destroy (release fuel) b n m = Ret () m' ∧ wf E D m' ∧ frame D m m' ∧ kept [b] m m' ∧
    ∃ c', blocks m' !! b = Some c' ∧ members c' = None.
Proof.
  intros Hrel. induction n as [|n IH]; intros E D b m c Hb W HbD Hpos HD Hn Hl.
  all: assert (is_Some (members c)) as [hs Hm] by (apply (wf_alive _ _ _ W _ _ Hb); right; by left).
  all: unfold inside in Hn; rewrite Hm in Hn; simpl in Hn; cbn [destroy].
  all: erewrite bind_Ret by (by apply deref_block_ret); rewrite ?Hm; change (default [] (Some hs)) with hs.
  - destruct hs; [|done]. eexists. split; [reflexivity|].
    split; [by apply (wf_destroyed _ _ _ _ _ Hb)|].
    split; [apply (frame_upd D m b c (c <| members := None |>) Hb); [by right|done]|].
    split; [apply (kept_upd _ m b c (c <| members := None |>) Hb); right; by left|].
    exists (c <| members := None |>). split; [apply lookup_insert_eq|done].
  - destruct hs as [|h hs _] using rev_ind; [done|]. rewrite length_app in Hn. simpl in Hn.
    rewrite last_snoc. erewrite bind_Ret by done. erewrite bind_Ret by done.
    replace (take _ (hs ++ [h])) with hs by (rewrite take_app_le, take_ge; [done|rewrite length_app; simpl; lia..]).
    pose proof (wf_pop _ _ _ _ _ Hb _ _ W Hm) as W1.
    assert (frame D m (upd m b (c <| members := Some hs |>))) as F1
      by (apply (frame_upd D m b c _ Hb); [by right|done]).
    destruct (Hrel E (b :: D) h (upd m b (c <| members := Some hs |>))) as (m2 & E2 & W2 & F2 & K2);
      [done..| |].
    { destruct F1 as (_ & ? & _). lia. }
    change (set_block b _ m) with (Ret () (upd m b (c <| members := Some hs |>))).
    erewrite bind_Ret by exact E2.
    destruct F2 as (F2 & L2 & N2). destruct (F2 b (c <| members := Some hs |>)) as (c2 & Hc2 & Hm2);
      [by left|rewrite blocks_upd; apply lookup_insert_eq|].
    destruct (IH E D b m2 c2 Hc2 W2 HbD Hpos HD) as (m3 & E3 & W3 & F3 & K3 & G3).
    { unfold inside. rewrite Hm2. simpl. lia. }
    { destruct F1 as (_ & ? & _). lia. }
    exists m3. split; [done|]. split; [done|]. split; [|split; [|done]].
    2: { apply (kept_trans _ _ (upd m b (c <| members := Some hs |>)));
           [apply (kept_upd _ m b c _ Hb); right; by left|].
         by apply (kept_trans _ _ m2); [apply kept_weaken|]. }
    apply (frame_trans _ _ _ _ F1), (frame_trans _ _ m2); [|done].
    split; [|done]. intros d e Hd Hde. apply F2; [by right|done].
Qed.

(** The guard of a destroyed object goes. *)
Lemma unguard E D m b c : wf (plus E (guard b)) D m → (∀ k x, 0 ≤ E k x) → (∀ d, d ∈ D → 0 < E false d) →
  b ∉ D → blocks m !! b = Some c → members c = None →
  ∃ m', (n ← add_count false b (-1); when (n =? 0) (free b)) m = Ret () m' ∧ wf E D m' ∧ frame D m m' ∧ kept [] m m'.
Proof.
  intros W He HD HbD Hb Hm. pose proof (wf_count_range _ _ _ false _ _ W Hb) as Hr. simpl in Hr.
  assert (strong c = 0) as Hs.
  { pose proof (wf_count_range _ _ _ true _ _ W Hb) as H1. simpl in H1.
    pose proof (wf_alive _ _ _ W _ _ Hb) as Ha. rewrite Hm in Ha. destruct (decide (0 < strong c)); [|lia].
    destruct (proj2 Ha) as [? ?]; [by left|done]. }
  erewrite bind_Ret by (apply (add_count_ret _ _ _ _ _ Hb); unfold is_i32; simpl; lia). simpl count.
  destruct (Z.eqb_spec (weak c + -1) 0) as [Hz|Hz]; cbn [when]; (eexists; split; [reflexivity|]).
  - change (blocks (upd m b _)) with (<[b:=set_count false (weak c + -1) c]> (blocks m)).
    replace (set_field blocks (delete b) _) with (m <| blocks ::= delete b |>)
      by (unfold upd, set_field; simpl; by rewrite delete_insert_eq).
    split; [|split; [by eapply frame_free|apply kept_free]].
    apply (wf_free E D m b c Hb (guard b)); try done. lia.
  - split; [|split; [apply (frame_upd _ _ _ c); [done|by left|done]|by apply (kept_upd _ _ _ c); [|left]]].
    apply (wf_dec E D m b c Hb (guard b)); try done. left. simpl. lia.
Qed.
Lemma live_nonneg m : 0 ≤ live m.
Proof. apply msum_nonneg. intros c. case_match; lia. Qed.
(** The destruction of an object, with what is left of the fuel. *)
Definition destroy_with (fuel : nat) (b n : nat) : M mem unit :=
  match fuel with O => stop Diverges | S fuel' => destroy (release fuel') b n end.
Lemma release_step fuel : (∀ fuel', fuel = S fuel' → release_ok fuel') → release_ok fuel.
Proof.
  intros IH E D h m W He HD Hl.
  assert (release fuel h = match p_ h with None => mret () | Some b =>
      n ← add_count (owner h) b (-1);
      if negb (n =? 0) then mret () else
      if owner h then
        add_count false b 1;; c ← deref_block b; destroy_with fuel b (length (default [] (members c)));;
        n ← add_count false b (-1); when (n =? 0) (free b)
      else c ← deref_block b; when (strong c =? 0) (free b) end) as -> by (by destruct fuel).
  destruct (p_ h) as [b|] eqn:Hp.
  2: { exists m. split; [done|]. split; [|split; [apply frame_refl|apply kept_refl]].
    apply (wf_ext (plus E h)); [|done]. intros. unfold plus, hits. rewrite Hp. lia. }
  destruct (wf_allocated _ _ _ (owner h) b W) as [c Hb];
    [unfold plus; rewrite (hits_self _ _ Hp); specialize (He (owner h) b); lia|].
  pose proof (wf_count_range _ _ _ (owner h) _ _ W Hb) as Hr.
  pose proof (wf_count_range _ _ _ false _ _ W Hb) as Hw.
  erewrite bind_Ret by (apply (add_count_ret _ _ _ _ _ Hb); unfold is_i32; lia).
  assert (∀ k n, strong (set_count k n c) ≤ strong c ∨ (k = true ∧ strong c < n)) as Hle
    by (intros [] n; simpl; lia).
  destruct (Z.eqb_spec (count (owner h) c + -1) 0) as [Hz|Hz]; cbn [negb].
  2: { eexists. split; [reflexivity|]. split; [apply (wf_dec E D m b c Hb); auto; left; lia|].
    split; [|apply (kept_upd _ _ _ c); [done|left; apply members_set_count]].
    apply (frame_upd _ _ _ c); [done|left; apply members_set_count|].
    destruct (Hle (owner h) (count (owner h) c + -1)) as [?|[Ho ?]]; [done|]. rewrite Ho in *. simpl in *. lia. }
  destruct (owner h) eqn:Ho; simpl in Hz, Hr, Hw |- *.
  - destruct (wf_begin E D m b c Hb h W Hp Ho) as [W1 HbD]; [lia|done|done|].
    rewrite Hz. set (m1 := upd m b (set_count true 0 c)) in *.
    assert (blocks m1 !! b = Some (set_count true 0 c)) as Hb1 by apply lookup_insert_eq.
    erewrite bind_Ret by (apply (add_count_ret _ _ _ _ _ Hb1); unfold is_i32; simpl; lia).
    change (count false (set_count true 0 c) + 1) with (weak c + 1).
    set (m2 := upd m1 b (set_count false (weak c + 1) (set_count true 0 c))) in *.
    assert (blocks m2 !! b = Some (set_count false (weak c + 1) (set_count true 0 c))) as Hb2 by apply lookup_insert_eq.
    erewrite bind_Ret by (by apply deref_block_ret).
    assert (live m2 = live m - 1) as Hl2.
    { unfold m2. rewrite (live_upd _ _ _ _ Hb1). unfold m1. rewrite (live_upd _ _ _ _ Hb). simpl.
      rewrite (proj2 (Z.ltb_lt 0 (strong c))) by lia. lia. }
    assert (frame D m m2) as F2.
    { apply (frame_trans _ _ m1); (eapply frame_upd; [done|by right|simpl; lia]). }
    assert (∃ m3, destroy_with fuel b (length (default [] (members (set_count false (weak c + 1) (set_count true 0 c))))) m2
      = Ret () m3 ∧ wf (plus E (guard b)) D m3 ∧ frame D m2 m3 ∧ kept [b] m2 m3 ∧
        ∃ c', blocks m3 !! b = Some c' ∧ members c' = None)
      as (m3 & E3 & W3 & F3 & K3 & c3 & Hb3 & Hm3).
    { destruct fuel as [|fuel]; [pose proof (live_nonneg m2); lia|].
      apply (destroy_ok fuel (IH fuel eq_refl) _ _ D b m2 _ Hb2 W1 HbD (plus_nonneg _ _ He)); [|done|lia].
      intros d Hd. unfold plus. apply elem_of_cons in Hd as [->|Hd].
      - specialize (He false b). rewrite (hits_self (guard b) b eq_refl : hits false b (guard b) = 1). lia.
      - specialize (HD d Hd). pose proof (hits_nonneg false d (guard b)). lia. }
    erewrite bind_Ret by exact E3.
    destruct (unguard E D m3 b c3 W3 He HD HbD Hb3 Hm3) as (m4 & E4 & W4 & F4 & K4).
    exists m4. split; [done|]. split; [done|]. split; [by apply (frame_trans _ _ m2), (frame_trans _ _ m3)|].
    apply (kept_trans _ _ m2).
    + apply (kept_trans _ _ m1); (eapply kept_upd; [done|by left]).
    + apply (kept_trans _ _ m3); [|done]. by apply (kept_gone _ _ b c3).
  - set (m1 := upd m b (set_count false (weak c + -1) c)).
    assert (blocks m1 !! b = Some (set_count false (weak c + -1) c)) as Hb1 by apply lookup_insert_eq.
    erewrite bind_Ret by (by apply deref_block_ret). simpl.
    pose proof (wf_count_range _ _ _ true _ _ W Hb) as Hs. simpl in Hs.
    destruct (Z.eqb_spec (strong c) 0) as [Hs0|Hs0]; cbn [when]; (eexists; split; [reflexivity|]).
    + replace (set_field blocks (delete b) m1) with (m <| blocks ::= delete b |>)
        by (unfold m1, upd, set_field; simpl; by rewrite delete_insert_eq).
      split; [apply (wf_free E D m b c Hb h); auto; lia|].
      split; [|apply kept_free]. apply (frame_free _ _ _ c Hb).
      intros Hin. pose proof (wf_count _ _ _ W false _ _ Hb) as Hc. simpl in Hc. unfold plus in Hc.
      pose proof (hits_self _ _ Hp) as Hh. rewrite Ho in Hh. pose proof (inner_nonneg false b m).
      specialize (HD b Hin). lia.
    + split; [|split; [apply (frame_upd _ _ _ c); [done|by left|done]|by apply (kept_upd _ _ _ c); [|left]]].
      pose proof (wf_dec E D m b c Hb h W Hp He) as Hd. rewrite Ho in Hd. apply Hd. right. split; [done|lia].
Qed.
Lemma release_ret fuel : release_ok fuel.
Proof. induction fuel as [|fuel IH]; apply release_step; intros f [= ->]; done. Qed.
