(* ===== verification/PtrHeap.v ===== *)
(** The heap of a program with pointer variables: its invariant, and what the parts of the
    pointer operations do to it. *)
From S2P Require Import Prelude Ptr PtrInv.

(** ** The heap as a whole *)
Definition outside (s : heap) : ext := λ k b, msum (hits k b) (vars s).
(** The pointers to a block, of both kinds. *)
Definition pointers (b : nat) (s : heap) : Z :=
  (inner true b (memory s) + outside s true b) + (inner false b (memory s) + outside s false b).
(** [E] counts the pointers that a running operation holds. *)
Definition inv (E : ext) (s : heap) : Prop := wf (λ k b, outside s k b + E k b) [] (memory s).
Definition none : ext := λ _ _, 0.
Definition heap_ok (s : heap) : Prop := inv none s.
Definition empty_heap : heap := mk_heap (mk_mem ∅ 0 []) ∅.

Lemma hits_nil k b k' : hits k b (nil k') = 0.
Proof. done. Qed.
Lemma inv_ext E E' s : (∀ k b, E k b = E' k b) → inv E s → inv E' s.
Proof. intros He. apply wf_ext. intros k b. by rewrite He. Qed.
Lemma outside_nonneg s k b : 0 ≤ outside s k b.
Proof. apply msum_nonneg, hits_nonneg. Qed.
Lemma outside_var s x h k b : vars s !! x = Some h → hits k b h ≤ outside s k b.
Proof. apply msum_lookup_le, hits_nonneg. Qed.

(** The block of a variable or member is there, and its object when it is owned. *)
Lemma target_there E s l h b : inv E s → (∀ k x, 0 ≤ E k x) → lookup_loc l s = Some h → p_ h = Some b →
  ∃ c, blocks (memory s) !! b = Some c ∧ (owner h = true → 0 < strong c).
Proof.
  intros W He Hl Hp.
  assert (1 ≤ inner (owner h) b (memory s) + outside s (owner h) b) as H1.
  { pose proof (inner_nonneg (owner h) b (memory s)) as Hi. pose proof (outside_nonneg s (owner h) b) as Ho.
    pose proof (hits_self _ _ Hp) as Hh. destruct l as [x|b' i]; simpl in Hl.
    - pose proof (outside_var _ _ _ (owner h) b Hl). lia.
    - apply bind_Some in Hl as (c & Hc & Hl). apply bind_Some in Hl as (hs & Hm & Hl).
      assert (hits (owner h) b h ≤ lsum (hits (owner h) b) (inside c)) as H2.
      { unfold inside. rewrite Hm. apply list_elem_of_split_length in Hl as (l1 & l2 & -> & _). simpl.
        rewrite lsum_app. simpl. pose proof (lsum_nonneg (hits (owner h) b) l1 (hits_nonneg _ _)).
        pose proof (lsum_nonneg (hits (owner h) b) l2 (hits_nonneg _ _)). lia. }
      pose proof (msum_lookup_le (λ c, lsum (hits (owner h) b) (inside c)) _ _ _
        (λ c, lsum_nonneg _ _ (hits_nonneg _ _)) Hc) as H3. simpl in H3. unfold inner in *. lia. }
  destruct (blocks (memory s) !! b) as [c|] eqn:Hb.
  - exists c. split; [done|]. intros Ho. pose proof (wf_count _ _ _ W true _ _ Hb) as Hc. simpl in Hc.
    rewrite Ho in H1. specialize (He true b). lia.
  - pose proof (wf_none _ _ _ W (owner h) _ Hb). specialize (He (owner h) b). lia.
Qed.

(** ** The parts of the operations *)
Lemma declare_ok E s x h : inv (plus E h) s → vars s !! x = None →
  inv E (s <| vars ::= <[x := h]> |>).
Proof.
  intros W Hx. unfold inv. change (memory (s <| vars ::= <[x := h]> |>)) with (memory s).
  apply (wf_ext (λ k b, outside s k b + plus E h k b)); [|done]. intros k b. unfold plus, outside.
  change (vars (s <| vars ::= <[x := h]> |>)) with (<[x := h]> (vars s)). rewrite msum_insert by done. lia.
Qed.
Lemma undeclare_ok E s x h : inv E s → vars s !! x = Some h →
  inv (plus E h) (s <| vars ::= delete x |>).
Proof.
  intros W Hx. unfold inv. change (memory (s <| vars ::= delete x |>)) with (memory s).
  apply (wf_ext (λ k b, outside s k b + E k b)); [|done]. intros k b. unfold plus, outside.
  change (vars (s <| vars ::= delete x |>)) with (delete x (vars s)). rewrite (msum_delete _ (vars s) x h) by done. lia.
Qed.

Lemma inc_ok E s h : inv E s →
  (∀ b, p_ h = Some b → pointers b s + E true b + E false b + 1 < 2 ^ 31 - 1 ∧
    ∃ c, blocks (memory s) !! b = Some c ∧ (owner h = true → 0 < strong c)) →
  ∃ s', zoom memory (inc_ref h) s = Ret () s' ∧ inv (plus E h) s' ∧ vars s' = vars s ∧
    kept [] (memory s) (memory s') ∧ kept [] (memory s') (memory s) ∧ next_block (memory s') = next_block (memory s).
Proof.
  intros W Hr. unfold inc_ref. destruct (p_ h) as [b|] eqn:Hp.
  - destruct (Hr b eq_refl) as (Hroom & c & Hb & Ho).
    pose proof (wf_count_range _ _ _ (owner h) _ _ W Hb) as Hrange.
    eexists. split.
    { apply zoom_Ret. erewrite bind_Ret by (apply (add_count_ret _ _ _ _ _ Hb); unfold is_i32; lia). done. }
    split; [|split; [done|]].
    + unfold inv. eapply wf_ext; [|apply (wf_inc _ _ _ _ _ Hb h W Hp Ho); unfold pointers in Hroom; lia].
      intros k x. unfold plus. change (outside (s <| memory := _ |>) k x) with (outside s k x). lia.
    + split; [|split; [|done]].
      * apply (kept_upd _ _ _ c); [done|left; apply members_set_count].
      * intros d e hs _ He Hm. change (memory (s <| memory := ?m |>)) with m. rewrite blocks_upd.
        destruct (decide (b = d)) as [<-|]; [|rewrite lookup_insert_ne by done; eauto].
        rewrite lookup_insert_eq. eexists. split; [done|]. rewrite members_set_count. congruence.
  - exists s. split; [by destruct s|]. split; [|split; [done|split; [apply kept_refl|split; [apply kept_refl|done]]]].
    apply (inv_ext E); [|done]. intros. unfold plus, hits. rewrite Hp. lia.
Qed.

Lemma live_le_size m : live m ≤ Z.of_nat (size (blocks m)).
Proof.
  unfold live. generalize (blocks m). intros bs. induction bs as [|k a bs Hk IH] using map_ind; [done|].
  rewrite msum_insert, map_size_insert_None by done. case_match; lia.
Qed.
Lemma dec_ok E s h : inv (plus E h) s → (∀ k b, 0 ≤ E k b) →
  ∃ s', zoom memory (dec_ref_and_free h) s = Ret () s' ∧ inv E s' ∧ vars s' = vars s ∧
    kept [] (memory s) (memory s') ∧ next_block (memory s') = next_block (memory s).
Proof.
  intros W He. destruct (release_ret (size (blocks (memory s))) (λ k b, outside s k b + E k b) [] h (memory s))
    as (m' & Em & W' & F & K).
  - apply (wf_ext (λ k b, outside s k b + plus E h k b)); [|done]. intros. unfold plus. lia.
  - intros k b. pose proof (outside_nonneg s k b). specialize (He k b). lia.
  - by intros d ?%elem_of_nil.
  - apply live_le_size.
  - eexists. split; [by apply zoom_Ret|]. split; [done|]. split; [done|]. split; [done|]. by destruct F as (_ & _ & ?).
Qed.

(** A member is given another value; [E] makes up for it. *)
Lemma wf_slot E D m b c hs i h h' : wf E D m → blocks m !! b = Some c → members c = Some hs →
  hs !! i = Some h →
  wf (λ k x, E k x + hits k x h - hits k x h') D (upd m b (c <| members ::= fmap <[i := h']> |>)).
Proof.
  intros W Hb Hm Hi. set (c' := c <| members ::= fmap <[i := h']> |>).
  assert (members c' = Some (<[i:=h']> hs)) as Hm' by (unfold c', set_field; simpl; by rewrite Hm).
  assert (∀ k x, inner k x (upd m b c') = inner k x m - hits k x h + hits k x h') as Hin.
  { intros. rewrite (inner_upd _ _ _ _ _ _ Hb). unfold inside. rewrite Hm, Hm'. simpl.
    rewrite (lsum_insert _ _ _ _ _ Hi). lia. }
  assert (∀ k, count k c' = count k c) as Hc by (by intros []).
  split; intros; rewrite ?Hin.
  - pose proof (wf_pos _ _ _ W k b0). lia.
  - at_block b; [rewrite Hc, (wf_count _ _ _ W _ _ _ Hb); lia|]. rewrite (wf_count _ _ _ W _ _ _ H). lia.
  - at_block b. pose proof (wf_none _ _ _ W k _ H). lia.
  - at_block b; [by apply (wf_used _ _ _ W _ _ Hb)|by apply (wf_used _ _ _ W _ _ H)].
  - at_block b; [|by apply (wf_alive _ _ _ W)]. pose proof (wf_alive _ _ _ W _ _ Hb) as Ha.
    rewrite Hm in Ha. rewrite Hm'. change (strong c') with (strong c). rewrite <- Ha. split; intros _; by eexists.
  - pose proof (wf_dying _ _ _ W _ H). lia.
  - pose proof (wf_room _ _ _ W b0). lia.
  - rewrite (next_upd _ _ _ _ Hb). apply (wf_next _ _ _ W).
  - at_block b; [|by apply (wf_dead _ _ _ W)]. rewrite Hm'. pose proof (wf_dead _ _ _ W _ _ Hb) as Hd.
    rewrite Hm in Hd. by rewrite Hd.
  - apply (wf_once _ _ _ W).
Qed.

(** What a write to a location does to the heap. *)
Record written (l : loc) (h h' : handle) (s s' : heap) : Prop := {
  wr_here : lookup_loc l s' = Some h';
  wr_other l' : l' ≠ l → lookup_loc l' s' = lookup_loc l' s;
  wr_total k b : inner k b (memory s') + outside s' k b =
                 inner k b (memory s) + outside s k b - hits k b h + hits k b h';
  wr_strong b c : blocks (memory s) !! b = Some c →
                  ∃ c', blocks (memory s') !! b = Some c' ∧ strong c' = strong c }.
Lemma write_var x h h' s : vars s !! x = Some h → written (Var x) h h' s (s <| vars ::= <[x := h']> |>).
Proof.
  intros Hx. split.
  - apply lookup_insert_eq.
  - intros [y|b i] Hne; [|done]. simpl. apply lookup_insert_ne. congruence.
  - intros k b. unfold outside. change (vars (s <| vars ::= <[x := h']> |>)) with (<[x := h']> (vars s)).
    rewrite (msum_update _ (vars s) x h h') by done. change (memory (s <| vars ::= _ |>)) with (memory s). lia.
  - intros b c Hb. by exists c.
Qed.
Lemma write_field b i h h' s c hs : blocks (memory s) !! b = Some c → members c = Some hs → hs !! i = Some h →
  written (Field b i) h h' s (s <| memory := upd (memory s) b (c <| members ::= fmap <[i := h']> |>) |>).
Proof.
  intros Hc Hm Hl. set (c' := c <| members ::= fmap <[i := h']> |>).
  assert (members c' = Some (<[i:=h']> hs)) as Hm' by (unfold c', set_field; simpl; by rewrite Hm).
  split.
  - simpl. rewrite lookup_insert_eq. simpl. rewrite Hm. simpl.
    rewrite list_lookup_insert_eq; [done|]. by eapply lookup_lt_Some.
  - intros [y|b' j] Hne; [done|]. simpl. destruct (decide (b = b')) as [<-|].
    + rewrite lookup_insert_eq, Hc. simpl. rewrite Hm. simpl. apply list_lookup_insert_ne. congruence.
    + by rewrite lookup_insert_ne.
  - intros k x. change (memory (s <| memory := ?m |>)) with m. change (outside (s <| memory := _ |>) k x) with (outside s k x).
    rewrite (inner_upd _ _ _ _ _ _ Hc). unfold inside. rewrite Hm, Hm'. simpl.
    rewrite (lsum_insert _ _ _ _ _ Hl). lia.
  - intros x e Hx. change (memory (s <| memory := ?m |>)) with m. rewrite blocks_upd.
    destruct (decide (b = x)) as [<-|]; [rewrite lookup_insert_eq|rewrite lookup_insert_ne by done]; eauto.
    eexists. split; [done|]. rewrite Hc in Hx. by injection Hx as <-.
Qed.
Lemma write_ok E s l h h' : inv E s → lookup_loc l s = Some h →
  ∃ s', write l h' s = Ret () s' ∧ inv (λ k x, E k x + hits k x h - hits k x h') s' ∧ written l h h' s s' ∧
    next_block (memory s') = next_block (memory s).
Proof.
  intros W Hl. unfold write, read.
  erewrite bind_Ret by (erewrite bind_Ret by reflexivity; rewrite Hl; reflexivity).
  destruct l as [x|b i].
  - eexists. split; [reflexivity|]. split; [|split; [by apply write_var|done]].
    pose proof (write_var x h h' s Hl) as Hw. unfold inv. eapply wf_ext; [|exact W].
    intros k y. pose proof (wr_total _ _ _ _ _ Hw k y) as Ht.
    change (memory (s <| vars ::= _ |>)) with (memory s) in Ht. simpl. lia.
  - simpl in Hl. apply bind_Some in Hl as (c & Hc & Hl). apply bind_Some in Hl as (hs & Hm & Hl).
    erewrite bind_Ret by (apply zoom_Ret; by apply deref_block_ret).
    assert (s <| memory := memory s |> = s) as -> by by destruct s.
    eexists. split; [reflexivity|]. split; [|split; [by eapply write_field|done]].
    unfold inv. eapply wf_ext; [|eapply (wf_slot _ _ _ _ _ _ i h h' W Hc Hm Hl)].
    intros k x. unfold outside. simpl. lia.
Qed.

(** ** The release of what a location holds *)

(** A member stays where it is as long as a variable other than [l] owns its object. *)
Definition anchored (l' l : loc) (s : heap) : bool :=
  match l' with
  | Var _ => true
  | Field b _ => existsb (λ xh : nat * handle,
      bool_decide (Var xh.1 ≠ l) && owner xh.2 && bool_decide (p_ xh.2 = Some b)) (map_to_list (vars s))
  end.
Lemma anchored_spec b i l s : anchored (Field b i) l s = true →
  ∃ y h, vars s !! y = Some h ∧ Var y ≠ l ∧ owner h = true ∧ p_ h = Some b.
Proof.
  simpl. rewrite existsb_exists. intros ([y h] & Hin & Hb). simpl in Hb.
  rewrite !andb_true_iff, !bool_decide_eq_true in Hb. exists y, h.
  rewrite <- list_elem_of_In, elem_of_map_to_list in Hin. tauto.
Qed.

Lemma msum_le {A} (f : A → Z) (m m' : gmap nat A) : (∀ a, 0 ≤ f a) →
  (∀ k a', m' !! k = Some a' → f a' ≤ 0 ∨ ∃ a, m !! k = Some a ∧ f a' ≤ f a) → msum f m' ≤ msum f m.
Proof.
  intros Hf. revert m. induction m' as [|k a' m' Hk IH] using map_ind; intros m Hm.
  - apply (Z.le_trans _ 0); [done|by apply msum_nonneg].
  - rewrite msum_insert by done.
    assert (∀ j b', m' !! j = Some b' → j ≠ k) as Hjk by (intros j b' Hj ->; congruence).
    destruct (Hm k a') as [H0|(a & Ha & Hle)]; [apply lookup_insert_eq| |].
    + assert (msum f m' ≤ msum f m); [|lia]. apply IH. intros j b' Hj. apply Hm.
      rewrite lookup_insert_ne; [done|]. by apply not_eq_sym, (Hjk j b').
    + rewrite (msum_delete f m k a Ha). assert (msum f m' ≤ msum f (delete k m)); [|lia].
      apply IH. intros j b' Hj. pose proof (Hjk _ _ Hj). rewrite lookup_delete_ne by done.
      apply Hm. by rewrite lookup_insert_ne.
Qed.
(** A release makes no new pointers. *)
Lemma kept_inner m m' k b : kept [] m m' → inner k b m' ≤ inner k b m.
Proof.
  intros K. apply msum_le; [intros c; apply lsum_nonneg, hits_nonneg|]. intros d c' Hd. unfold inside.
  destruct (members c') as [hs|] eqn:Hm; [right|by left].
  destruct (K d c' hs) as (c & Hc & Hm'); [by intros ?%elem_of_nil|done..|]. exists c. by rewrite Hm'.
Qed.
Lemma pointers_le s s' b : kept [] (memory s) (memory s') → vars s' = vars s → pointers b s' ≤ pointers b s.
Proof.
  intros K Hv. unfold pointers, outside. rewrite Hv. pose proof (kept_inner _ _ true b K).
  pose proof (kept_inner _ _ false b K). lia.
Qed.
Lemma anchored_kept l s s' : heap_ok s' → kept [] (memory s) (memory s') → vars s' = vars s →
  ∀ b i, (∃ y h, vars s !! y = Some h ∧ Var y ≠ l ∧ owner h = true ∧ p_ h = Some b) →
  is_Some (lookup_loc (Field b i) s) → lookup_loc (Field b i) s' = lookup_loc (Field b i) s.
Proof.
  intros W K Hv b i (y & h & Hy & _ & Ho & Hp) Hs.
  destruct (target_there none s' (Var y) h b W) as (c' & Hc' & Hst); [done|simpl; by rewrite Hv|done|].
  destruct (proj2 (wf_alive _ _ _ W b c' Hc')) as [hs Hm']; [left; auto|].
  destruct (K b c' hs) as (c & Hc & Hm); [by intros ?%elem_of_nil|done..|].
  simpl. by rewrite Hc, Hc'; simpl; rewrite Hm, Hm'.
Qed.

Lemma release_at_ok s l h : heap_ok s → lookup_loc l s = Some h → anchored l l s = true →
  ∃ s', release_at l s = Ret h s' ∧ heap_ok s' ∧ lookup_loc l s' = Some (nil (owner h)) ∧
    (∀ l' h', l' ≠ l → anchored l' l s = true → lookup_loc l' s = Some h' → lookup_loc l' s' = Some h') ∧
    ∀ b, pointers b s' ≤ pointers b s.
Proof.
  intros W Hl Ha. unfold release_at. erewrite bind_Ret by (unfold read; erewrite bind_Ret by reflexivity; by rewrite Hl).
  destruct (write_ok none s l h (nil (owner h)) W Hl) as (s1 & E1 & W1 & Hw & _).
  erewrite bind_Ret by exact E1.
  destruct (dec_ok none s1 h) as (s2 & E2 & W2 & Hv & K & _); [|done|].
  { apply (inv_ext (λ k x, none k x + hits k x h - hits k x (nil (owner h)))); [|done].
    intros. unfold plus. rewrite hits_nil. lia. }
  erewrite bind_Ret by exact E2. exists s2. split; [done|]. split; [done|].
  assert (∀ l' h', (l' = l ∨ l' ≠ l) → anchored l' l s = true → lookup_loc l' s1 = Some h' →
    lookup_loc l' s2 = Some h') as Hkeep.
  { intros [x|b i] h' _ Hl' Hh; [simpl in *; by rewrite Hv|]. rewrite <- Hh.
    apply (anchored_kept l); [done..| |by eexists]. apply anchored_spec in Hl' as (y & h0 & Hy & Hne & Ho & Hp).
    exists y, h0. split; [|done]. rewrite <- Hy. exact (wr_other _ _ _ _ _ Hw (Var y) Hne). }
  split; [apply Hkeep; [by left|done|apply (wr_here _ _ _ _ _ Hw)]|]. split.
  - intros l' h' Hne Hl' Hh. apply Hkeep; [by right|done|]. by rewrite (wr_other _ _ _ _ _ Hw).
  - intros b. apply (Z.le_trans _ (pointers b s1)); [by apply pointers_le|]. unfold pointers.
    pose proof (wr_total _ _ _ _ _ Hw true b) as T1. pose proof (wr_total _ _ _ _ _ Hw false b) as T2.
    rewrite hits_nil in T1, T2. pose proof (hits_nonneg true b h). pose proof (hits_nonneg false b h). lia.
Qed.
