(* ===== verification/PtrProps.v ===== *)
(** Programs over pointers: what they have to respect, and that the counts are then right
    for ever, every object is destroyed once, when its last owner goes, and no operation
    touches freed memory.  And the assignments that break this. *)
From S2P Require Import Prelude Ptr PtrInv PtrHeap.

(** ** Programs *)
Inductive op :=
  | New_ptr (k : bool) (x : nat)
  | Copy (k : bool) (x : nat) (l : loc) (d : Z)
  | Move (x : nat) (l : loc) (d : Z)
  | Drop (x : nat)
  | Reset (l : loc)
  | Assign (l l' : loc) (d : Z)
  | Make (x : nat) (fs : list (bool * option loc)) (ok : bool)
  | Alloc (x : nat)
  | Self (x : nat) (b : nat)
  | Lock (x : nat) (l : loc).
Definition exec (o : op) : M heap unit :=
  match o with
  | New_ptr k x => new_ptr k x
  | Copy k x l d => copy k x l d
  | Move x l d => move x l d
  | Drop x => drop x
  | Reset l => reset l
  | Assign l l' d => assign l l' d
  | Make x fs ok => cs_new x fs ok
  | Alloc x => cs_alloc x
  | Self x b => cs_safe x b
  | Lock x l => lock x l
  end.

(** What the program has to respect.  A new variable has a fresh name; an owner is copied
    from an owner; a counter has room; what is assigned is not the variable itself, and a
    member that is assigned, or assigned from, belongs to an object that another variable
    owns. *)
Definition fresh (x : nat) (s : heap) : bool := bool_decide (vars s !! x = None).
Definition room (n : Z) (o : option nat) (s : heap) : bool :=
  match o with Some b => pointers b s + n <? 2 ^ 31 - 1 | None => true end.
(** A pointer of kind [k] may be made from [l]. *)
Definition source (k : bool) (l : loc) (n : Z) (s : heap) : bool :=
  match lookup_loc l s with
  | Some h => implb k (owner h) && room n (p_ h) s
  | None => false
  end.
Definition owned (b : nat) (s : heap) : bool :=
  match blocks (memory s) !! b with Some c => 0 <? strong c | None => false end.
Definition op_ok (o : op) (s : heap) : bool :=
  match o with
  | New_ptr k x => fresh x s
  | Copy k x l d => fresh x s && source k l 1 s
  | Move x l d => fresh x s && source false l 0 s
  | Drop x => bool_decide (is_Some (vars s !! x))
  | Reset l => bool_decide (is_Some (lookup_loc l s)) && anchored l l s
  | Assign l l' d =>
      bool_decide (l' ≠ l) && anchored l l s && anchored l' l s &&
      match lookup_loc l s with Some h => source (owner h) l' 1 s | None => false end
  | Make x fs ok =>
      fresh x s && forallb (λ kl : bool * option loc,
        match kl.2 with Some l => source kl.1 l (Z.of_nat (length fs)) s | None => true end) fs
  | Alloc x => fresh x s
  | Self x b => fresh x s && owned b s && room 1 (Some b) s
  | Lock x l => fresh x s && source false l 1 s
  end.
(** Every operation of the run respects the heap it finds. *)
Fixpoint respectful (os : list op) (s : heap) : bool :=
  match os with
  | [] => true
  | o :: os' => op_ok o s && match exec o s with Ret _ s' => respectful os' s' | Stop _ _ => true end
  end.

(** ** Each operation *)
Lemma source_spec k l n s : source k l n s = true → ∃ h, lookup_loc l s = Some h ∧
  (k = true → owner h = true) ∧ ∀ b, p_ h = Some b → pointers b s + n < 2 ^ 31 - 1.
Proof.
  unfold source. destruct (lookup_loc l s) as [h|]; [|done]. rewrite andb_true_iff. intros [Hk Hr].
  exists h. split; [done|]. split; [intros ->; exact Hk|]. intros b Hp. unfold room in Hr. rewrite Hp in Hr. lia.
Qed.
Lemma read_ret l s h : lookup_loc l s = Some h → read l s = Ret h s.
Proof. intros Hl. unfold read. erewrite bind_Ret by reflexivity. by rewrite Hl. Qed.

(** A new variable takes a share of a block. *)
Lemma share_ok s x h : heap_ok s → vars s !! x = None →
  (∀ b, p_ h = Some b → pointers b s + 1 < 2 ^ 31 - 1 ∧
    ∃ c, blocks (memory s) !! b = Some c ∧ (owner h = true → 0 < strong c)) →
  ∃ s', (declare x h;; zoom memory (inc_ref h)) s = Ret () s' ∧ heap_ok s'.
Proof.
  intros W Hx Hh. set (E := (λ k b, - hits k b h) : ext). set (s1 := s <| vars ::= <[x := h]> |>).
  assert (inv E s1) as W1.
  { apply declare_ok; [|done]. eapply inv_ext; [|exact W]. intros. unfold plus, E, none. lia. }
  assert (∀ k b, outside s1 k b = hits k b h + outside s k b) as Ho.
  { intros. unfold outside, s1. change (vars (set_field vars _ s)) with (<[x:=h]> (vars s)). by apply msum_insert. }
  destruct (inc_ok E s1 h W1) as (s2 & E2 & W2 & _).
  { intros b Hp. destruct (Hh b Hp) as (Hr & Hc). split; [|done].
    unfold pointers in *. rewrite !Ho. change (memory s1) with (memory s). unfold E. lia. }
  exists s2. change (declare x h s) with (Ret () s1). erewrite bind_Ret by reflexivity. split; [done|].
  eapply inv_ext; [|exact W2]. intros. unfold plus, E, none. lia.
Qed.
Lemma shared_source s l h k t : heap_ok s → lookup_loc l s = Some h → (k = true → owner h = true) →
  (∀ b, p_ h = Some b → pointers b s + 1 < 2 ^ 31 - 1) →
  ∀ b, p_ (mk_handle k (p_ h) t) = Some b → pointers b s + 1 < 2 ^ 31 - 1 ∧
    ∃ c, blocks (memory s) !! b = Some c ∧ (k = true → 0 < strong c).
Proof.
  intros W Hl Hk Hr b Hp. split; [by apply Hr|].
  destruct (target_there none s l h b W) as (c & Hc & Hs); [done..|]. exists c. auto.
Qed.
Lemma copy_ok s k x l d : heap_ok s → op_ok (Copy k x l d) s = true → ∃ s', copy k x l d s = Ret () s' ∧ heap_ok s'.
Proof.
  intros W. simpl. rewrite andb_true_iff. intros [Hx%bool_decide_eq_true (h & Hl & Hk & Hr)%source_spec].
  unfold copy. erewrite bind_Ret by (by apply read_ret). apply share_ok; [done..|]. by apply (shared_source s l).
Qed.
Lemma make_ptr_ok s x p t : heap_ok s → fresh x s = true →
  (∀ b, p = Some b → pointers b s + 1 < 2 ^ 31 - 1 ∧ ∃ c, blocks (memory s) !! b = Some c ∧ 0 < strong c) →
  ∃ s', make_ptr x p t s = Ret () s' ∧ heap_ok s'.
Proof.
  intros W Hx%bool_decide_eq_true Hp. apply share_ok; [done..|]. intros b Hb.
  destruct (Hp b Hb) as (Hr & c & Hc & Hs). eauto.
Qed.
Lemma self_ok s x b : heap_ok s → op_ok (Self x b) s = true → ∃ s', cs_safe x b s = Ret () s' ∧ heap_ok s'.
Proof.
  intros W. simpl. rewrite !andb_true_iff. intros [[Hx Ho] Hr]. apply make_ptr_ok; [done..|].
  intros b' [= ->]. split; [lia|]. unfold owned in Ho. destruct (blocks (memory s) !! b') as [c|]; [|done].
  exists c. split; [done|lia].
Qed.
Lemma new_ptr_ok s k x : heap_ok s → fresh x s = true → ∃ s', new_ptr k x s = Ret () s' ∧ heap_ok s'.
Proof.
  intros W Hx%bool_decide_eq_true. eexists. split; [reflexivity|]. apply declare_ok; [|done].
  eapply inv_ext; [|exact W]. intros. unfold plus. by rewrite hits_nil.
Qed.
Lemma lock_ok s x l : heap_ok s → op_ok (Lock x l) s = true → ∃ s', lock x l s = Ret () s' ∧ heap_ok s'.
Proof.
  intros W. simpl. rewrite andb_true_iff. intros [Hx (h & Hl & _ & Hr)%source_spec].
  unfold lock. erewrite bind_Ret by (by apply read_ret).
  assert (s <| memory := memory s |> = s) as Hs by by destruct s.
  destruct (p_ h) as [b|] eqn:Hp.
  - destruct (target_there none s l h b W) as (c & Hc & Hst); [done..|].
    assert (to_bool h (memory s) = Ret (if owner h then true else 0 <? strong c) (memory s)) as Hb.
    { unfold to_bool. rewrite Hp. destruct (owner h); [done|]. by erewrite bind_Ret by (by apply deref_block_ret). }
    erewrite bind_Ret by (by apply zoom_Ret). rewrite Hs. destruct (if owner h then _ else _) eqn:Hc'.
    + apply make_ptr_ok; [done..|]. intros b' [= ->]. split; [by apply Hr|]. exists c. split; [done|].
      destruct (owner h); [auto|lia].
    + by apply new_ptr_ok.
  - erewrite bind_Ret by (apply zoom_Ret; unfold to_bool; by rewrite Hp). rewrite Hs. by apply new_ptr_ok.
Qed.
Lemma move_ok s x l d : heap_ok s → op_ok (Move x l d) s = true → ∃ s', move x l d s = Ret () s' ∧ heap_ok s'.
Proof.
  intros W. simpl. rewrite andb_true_iff. intros [Hx%bool_decide_eq_true (h & Hl & _)%source_spec].
  unfold move. erewrite bind_Ret by (by apply read_ret).
  set (h' := mk_handle (owner h) (p_ h) (shift d (p_t_ h))). set (s1 := s <| vars ::= <[x := h']> |>).
  change (declare x h' s) with (Ret () s1). erewrite bind_Ret by reflexivity.
  assert (inv (λ k b, - hits k b h) s1) as W1.
  { apply declare_ok; [|done]. eapply inv_ext; [|exact W]. intros. unfold plus, none.
    change (hits k b h') with (hits k b h). lia. }
  destruct (write_ok _ s1 l h (nil (owner h)) W1) as (s2 & E2 & W2 & _).
  { destruct l as [y|b i]; [|done]. simpl in *. change (vars s1) with (<[x:=h']> (vars s)).
    rewrite lookup_insert_ne; [done|congruence]. }
  exists s2. split; [done|]. eapply inv_ext; [|exact W2]. intros. cbv beta. rewrite hits_nil. unfold none. lia.
Qed.
Lemma drop_ok s x : heap_ok s → op_ok (Drop x) s = true → ∃ s', drop x s = Ret () s' ∧ heap_ok s'.
Proof.
  intros W. simpl. intros [h Hx]%bool_decide_eq_true. unfold drop.
  erewrite bind_Ret by (apply read_ret; exact Hx). erewrite bind_Ret by reflexivity.
  destruct (dec_ok none (s <| vars ::= delete x |>) h) as (s2 & E2 & W2 & _); [by apply undeclare_ok|done|].
  eauto.
Qed.
Lemma reset_ok s l : heap_ok s → op_ok (Reset l) s = true → ∃ s', reset l s = Ret () s' ∧ heap_ok s'.
Proof.
  intros W. simpl. rewrite andb_true_iff. intros [[h Hl]%bool_decide_eq_true Ha]. unfold reset.
  destruct (release_at_ok s l h W Hl Ha) as (s1 & E1 & W1 & Hl1 & _).
  erewrite bind_Ret by exact E1. destruct (write_ok _ _ _ _ (nil (owner h)) W1 Hl1) as (s2 & E2 & W2 & _).
  exists s2. split; [done|]. eapply inv_ext; [|exact W2]. intros. cbv beta. rewrite hits_nil. unfold none. lia.
Qed.
Lemma assign_ok s l l' d : heap_ok s → op_ok (Assign l l' d) s = true →
  ∃ s', assign l l' d s = Ret () s' ∧ heap_ok s'.
Proof.
  intros W. simpl. rewrite !andb_true_iff. intros [[[Hne%bool_decide_eq_true Ha] Ha'] Hs].
  destruct (lookup_loc l s) as [h|] eqn:Hl; [|done]. apply source_spec in Hs as (o & Hl' & Hk & Hr). unfold assign.
  destruct (release_at_ok s l h W Hl Ha) as (s1 & E1 & W1 & Hl1 & Hkeep & Hle).
  erewrite bind_Ret by exact E1. rewrite decide_False by congruence.
  specialize (Hkeep l' o Hne Ha' Hl'). erewrite bind_Ret by (by apply read_ret).
  cbv zeta. set (h' := mk_handle (owner h) (p_ o) (shift d (p_t_ o))).
  destruct (write_ok _ s1 l (nil (owner h)) h' W1 Hl1) as (s2 & E2 & W2 & Hw & _).
  erewrite bind_Ret by exact E2.
  destruct (inc_ok (λ k x, none k x + hits k x (nil (owner h)) - hits k x h') s2 h' W2) as (s3 & E3 & W3 & _).
  { intros b Hp. destruct (shared_source s1 l' o (owner h) (p_t_ o) W1 Hkeep Hk) with (b := b) as (_ & c & Hc & Hst);
      [intros b' Hb'; specialize (Hr b' Hb'); specialize (Hle b'); lia|done|].
    destruct (wr_strong _ _ _ _ _ Hw b c Hc) as (c' & Hc' & Hst').
    split; [|exists c'; split; [done|]; intros Ho; rewrite Hst'; by apply Hst].
    specialize (Hr b Hp). specialize (Hle b). unfold pointers in *.
    rewrite (wr_total _ _ _ _ _ Hw true b), (wr_total _ _ _ _ _ Hw false b), !hits_nil. unfold none. lia. }
  exists s3. split; [done|]. eapply inv_ext; [|exact W3]. intros. unfold plus, none. rewrite hits_nil. lia.
Qed.

(** ** [cs_new] *)

(** The pointers in [hs] can be copied. *)
Definition sharable (E : ext) (m : mem) (hs : list handle) : Prop := ∀ h b, h ∈ hs → p_ h = Some b →
  (inner true b m + E true b) + (inner false b m + E false b) + Z.of_nat (length hs) < 2 ^ 31 - 1 ∧
  ∃ c, blocks m !! b = Some c ∧ (owner h = true → 0 < strong c).
Lemma incs_ok hs : ∀ E m, wf E [] m → sharable E m hs →
  ∃ m', for_each inc_ref hs m = Ret () m' ∧ wf (λ k b, E k b + lsum (hits k b) hs) [] m' ∧
    next_block m' = next_block m.
Proof.
  induction hs as [|h hs IH]; intros E m W Hs.
  - exists m. split; [done|]. split; [|done]. eapply wf_ext; [|exact W]. intros. simpl. lia.
  - cbn [for_each]. assert (∃ m1, inc_ref h m = Ret () m1 ∧ wf (plus E h) [] m1 ∧ next_block m1 = next_block m ∧
      (∀ k x, inner k x m1 = inner k x m) ∧
      ∀ b c, blocks m !! b = Some c → ∃ c', blocks m1 !! b = Some c' ∧ (0 < strong c → 0 < strong c'))
      as (m1 & E1 & W1 & N1 & I1 & B1).
    { unfold inc_ref. destruct (p_ h) as [b|] eqn:Hp.
      - destruct (Hs h b) as (Hr & c & Hb & Ho); [by left|done|]. cbn [length] in Hr.
        pose proof (wf_count_range _ _ _ (owner h) _ _ W Hb) as Hc.
        assert (count (owner h) c + 1 < 2 ^ 31) by lia.
        eexists. split; [erewrite bind_Ret by (apply (add_count_ret _ _ _ _ _ Hb); unfold is_i32; lia); done|].
        split; [apply wf_inc; auto; lia|]. split; [done|].
        split; [intros; apply (inner_same _ _ _ _ _ _ Hb), members_set_count|].
        intros d e Hd. rewrite blocks_upd. destruct (decide (b = d)) as [<-|].
        + rewrite lookup_insert_eq. rewrite Hb in Hd. injection Hd as <-. eexists. split; [done|].
          destruct (owner h); simpl; lia.
        + rewrite lookup_insert_ne by done. eauto.
      - exists m. split; [done|]. split; [|eauto 6]. eapply wf_ext; [|exact W]. intros. unfold plus, hits.
        rewrite Hp. lia. }
    destruct (IH _ _ W1) as (m2 & E2 & W2 & N2).
    { intros h' b Hin Hp. destruct (Hs h' b) as (Hr & c & Hc & Ho); [by right|done|].
      cbn [length] in Hr. destruct (B1 b c Hc) as (c' & Hc' & Ho'). split; [|exists c'; auto].
      rewrite !I1. unfold plus, hits. destruct (p_ h); repeat case_bool_decide; destruct_and?; subst; try congruence; lia. }
    exists m2. erewrite bind_Ret by exact E1. split; [done|]. split; [|congruence].
    eapply wf_ext; [|exact W2]. intros. unfold plus. simpl. lia.
Qed.

(** A new object takes over its members. *)
Definition born (hs : list handle) (m : mem) : mem :=
  mk_mem (<[next_block m := mk_block 1 0 (Some hs)]> (blocks m)) (S (next_block m)) (dead m).
Definition first_owner (b : nat) : handle := mk_handle true (Some b) (At b counters).
Lemma wf_born E hs m : (∀ k b, 0 ≤ E k b) → wf (λ k b, E k b + lsum (hits k b) hs) [] m →
  wf (plus E (first_owner (next_block m))) [] (born hs m).
Proof.
  intros He W. set (b := next_block m).
  assert (blocks m !! b = None ∧ b ∉ dead m) as [Hb Hd].
  { pose proof (wf_next _ _ _ W b) as Hn. unfold b in *. split.
    - destruct (blocks m !! _) eqn:?; [|done]. assert (next_block m < next_block m)%nat; [|lia]. apply Hn. eauto.
    - intros ?. assert (next_block m < next_block m)%nat; [|lia]. apply Hn. auto. }
  assert (∀ k x, inner k x (born hs m) = inner k x m + lsum (hits k x) hs) as Hi.
  { intros. unfold inner, born. cbn [blocks]. rewrite msum_insert by done. unfold inside. simpl. lia. }
  assert (∀ k x, plus E (first_owner b) k x = E k x + (if bool_decide (k = true ∧ x = b) then 1 else 0)) as Hp.
  { intros. unfold plus, hits, first_owner. simpl.
    f_equal. by rewrite (bool_decide_ext (true = k ∧ b = x) (k = true ∧ x = b)) by (split; by intros [-> ->]). }
  assert (∀ k, inner k b m + E k b + lsum (hits k b) hs = 0) as H0.
  { intros k. pose proof (wf_none _ _ _ W k b Hb). lia. }
  split; intros; rewrite ?Hi, ?Hp; cbn [blocks dead next_block born] in *;
    repeat match goal with H : <[_:=_]> _ !! ?x = _ |- _ =>
      destruct (decide (x = b)) as [->|];
      [rewrite lookup_insert_eq in H; simplify_eq|rewrite lookup_insert_ne in H by done] end.
  - pose proof (wf_pos _ _ _ W k b0). case_bool_decide; lia.
  - specialize (H0 k). destruct k; [rewrite bool_decide_true by done|rewrite bool_decide_false by intuition congruence]; simpl; lia.
  - rewrite bool_decide_false by tauto. rewrite (wf_count _ _ _ W k _ _ H). lia.
  - rewrite bool_decide_false by tauto. pose proof (wf_none _ _ _ W k _ H). lia.
  - simpl. lia.
  - by apply (wf_used _ _ _ W _ _ H).
  - simpl. split; [left; lia|by eexists].
  - by apply (wf_alive _ _ _ W).
  - by apply elem_of_nil in H.
  - pose proof (wf_room _ _ _ W b0). destruct (decide (b0 = b)) as [->|].
    + rewrite bool_decide_true, bool_decide_false by intuition congruence. pose proof (H0 true). pose proof (H0 false). lia.
    + rewrite !bool_decide_false by tauto. lia.
  - fold b. pose proof (wf_next _ _ _ W b0). fold b in H. destruct (decide (b0 = b)) as [->|].
    + rewrite lookup_insert_eq. split; [lia|]. intros _. left. by eexists.
    + rewrite lookup_insert_ne by done. rewrite H. lia.
  - simpl. done.
  - by apply (wf_dead _ _ _ W).
  - apply (wf_once _ _ _ W).
Qed.

Lemma copies_ret s fs n : heap_ok s → (length fs ≤ n)%nat →
  forallb (λ kl : bool * option loc, match kl.2 with Some l => source kl.1 l (Z.of_nat n) s | None => true end) fs = true →
  ∃ hs, copies fs s = Ret hs s ∧ length hs = length fs ∧
    ∀ h b, h ∈ hs → p_ h = Some b → pointers b s + Z.of_nat n < 2 ^ 31 - 1 ∧
      ∃ c, blocks (memory s) !! b = Some c ∧ (owner h = true → 0 < strong c).
Proof.
  intros W. revert n. induction fs as [|[k o] fs IH]; intros n Hn Hfs.
  - exists []. split; [done|]. split; [done|]. by intros h b ?%elem_of_nil.
  - simpl in Hn, Hfs. apply andb_true_iff in Hfs as [Hk Hfs].
    destruct (IH n ltac:(lia) Hfs) as (hs & E & Hlen & Hhs). unfold copies in *. simpl.
    destruct (mapM _ fs) as [hs'|]; [|done]. injection E as ->. destruct o as [l|]; simpl.
    + apply source_spec in Hk as (h & Hl & Hko & Hr). rewrite Hl. simpl.
      eexists. split; [done|]. split; [simpl; lia|]. intros h' b [->|Hin]%elem_of_cons Hp; [|by apply Hhs].
      split; [by apply Hr|]. destruct (target_there none s l h b W) as (c & Hc & Hst); [done..|].
      exists c. split; [done|]. intros Ho. apply Hst, Hko, Ho.
    + eexists. split; [done|]. split; [simpl; lia|]. intros h' b [->|Hin]%elem_of_cons Hp; [done|by apply Hhs].
Qed.
Lemma make_ok s x fs ok : heap_ok s → op_ok (Make x fs ok) s = true →
  ∃ s', cs_new x fs ok s = Ret () s' ∧ heap_ok s'.
Proof.
  intros W. simpl. rewrite andb_true_iff. intros [Hx Hfs]. unfold cs_new.
  destruct ok; cbn [negb]; [|by apply make_ptr_ok].
  apply copies_ret in Hfs as (hs & E & Hlen & Hhs); [|done..]. erewrite bind_Ret by exact E.
  destruct (incs_ok hs (outside s) (memory s)) as (m1 & E1 & W1 & _).
  { eapply wf_ext; [|exact W]. intros. unfold none. lia. }
  { rewrite <- Hlen in Hhs. exact Hhs. }
  erewrite bind_Ret by (by apply zoom_Ret).
  change (next_block (memory (s <| memory := m1 |>))) with (next_block m1).
  erewrite bind_Ret by reflexivity. cbn beta. change (next_block (memory (s <| memory := m1 |>))) with (next_block m1).
  set (b := next_block m1).
  set (m2 := mk_mem (<[b := mk_block 0 0 (Some hs)]> (blocks m1)) (S b) (dead m1)).
  assert (blocks m2 !! b = Some (mk_block 0 0 (Some hs))) as Hb2 by apply lookup_insert_eq.
  exists (mk_heap (born hs m1) (<[x := first_owner b]> (vars s))). split.
  - erewrite bind_Ret by reflexivity. erewrite bind_Ret by reflexivity. unfold make_ptr.
    erewrite bind_Ret by reflexivity.
    change (zoom memory (inc_ref (first_owner b)) (mk_heap m2 (<[x := first_owner b]> (vars s))) =
      Ret () (mk_heap (born hs m1) (<[x := first_owner b]> (vars s)))).
    assert (inc_ref (first_owner b) m2 = Ret () (born hs m1)) as Ei.
    { change (inc_ref (first_owner b)) with (add_count true b 1;; mret () : M mem unit).
      erewrite bind_Ret by (apply (add_count_ret true _ _ _ _ Hb2); unfold is_i32; simpl; lia).
      unfold born, upd, m2, set_field. simpl. by rewrite insert_insert_eq. }
    by rewrite (zoom_Ret memory _ (mk_heap m2 _) _ _ Ei).
  - assert (∀ k d, 0 ≤ outside s k d) as Hout by (intros; apply outside_nonneg).
    eapply wf_ext; [|apply (wf_born (outside s) hs m1 Hout W1)]. intros k d. unfold plus, none, outside. cbn [vars].
    rewrite (msum_insert _ (vars s)) by (by apply bool_decide_eq_true in Hx). fold b. lia.
Qed.

Lemma step_ok s o : heap_ok s → op_ok o s = true → ∃ s', exec o s = Ret () s' ∧ heap_ok s'.
Proof.
  destruct o; [|apply copy_ok|apply move_ok|apply drop_ok|apply reset_ok|apply assign_ok|apply make_ok| |apply self_ok|apply lock_ok].
  - apply new_ptr_ok.
  - intros W Hx. apply make_ok; [done|]. simpl in *. by rewrite Hx.
Qed.
Lemma run_ok os : ∀ s, heap_ok s → respectful os s = true → ∃ s', for_each exec os s = Ret () s' ∧ heap_ok s'.
Proof.
  induction os as [|o os IH]; intros s W Hr; [by exists s|]. simpl in Hr. apply andb_true_iff in Hr as [Ho Hr].
  destruct (step_ok s o W Ho) as (s1 & E1 & W1). rewrite E1 in Hr. destruct (IH s1 W1 Hr) as (s2 & E2 & W2).
  exists s2. cbn [for_each]. erewrite bind_Ret by exact E1. done.
Qed.
Lemma empty_ok : heap_ok empty_heap.
Proof.
  split; try (intros; rewrite ?lookup_empty in *; done).
  - intros b. simpl. rewrite lookup_empty. split; [|lia]. intros [[? ?]|?%elem_of_nil]; done.
  - constructor.
Qed.

(** ** Any program *)
Definition pointers_of (k : bool) (b : nat) (s : heap) : Z := inner k b (memory s) + outside s k b.

(** C13: A program over pointers that respects the rules of [op_ok] runs to its end from an
    empty heap: every release terminates, and no freed or destroyed object is touched.
    In the heap it leaves, the two counters of a block are the numbers of its owners and of
    its weak pointers; its object is there exactly when it has an owner; the block itself
    is freed exactly when nothing refers to it; and of the objects ever made, those without
    an owner were destroyed, once each. *)
Theorem ptr_run_safe os : respectful os empty_heap = true →
  ∃ s, for_each exec os empty_heap = Ret () s ∧
    (∀ b c, blocks (memory s) !! b = Some c →
      strong c = pointers_of true b s ∧ weak c = pointers_of false b s ∧
      (is_Some (members c) ↔ 0 < pointers_of true b s)) ∧
    (∀ b, blocks (memory s) !! b = None ↔ pointers_of true b s = 0 ∧ pointers_of false b s = 0) ∧
    NoDup (dead (memory s)) ∧
    ∀ b, (b < next_block (memory s))%nat → b ∈ dead (memory s) ↔ pointers_of true b s = 0.
Proof.
  intros Hr. destruct (run_ok os empty_heap empty_ok Hr) as (s & E & W). exists s. split; [done|].
  assert (∀ b c, blocks (memory s) !! b = Some c → ∀ k, count k c = pointers_of k b s) as Hc.
  { intros b c Hb k. rewrite (wf_count _ _ _ W k b c Hb). unfold pointers_of, none. lia. }
  assert (∀ b, blocks (memory s) !! b = None → ∀ k, pointers_of k b s = 0) as Hn.
  { intros b Hb k. pose proof (wf_none _ _ _ W k b Hb) as H. unfold pointers_of, none in *. lia. }
  assert (∀ b c, blocks (memory s) !! b = Some c → is_Some (members c) ↔ 0 < pointers_of true b s) as Ha.
  { intros b c Hb. rewrite <- (Hc b c Hb true), (wf_alive _ _ _ W b c Hb). simpl.
    split; [|by left]. intros [?|?%elem_of_nil]; done. }
  split; [|split; [|split; [apply (wf_once _ _ _ W)|]]].
  - intros b c Hb. split; [apply (Hc b c Hb true)|]. split; [apply (Hc b c Hb false)|by apply Ha].
  - intros b. split; [intros Hb; split; by apply Hn|]. intros [H1 H2].
    destruct (blocks (memory s) !! b) as [c|] eqn:Hb; [|done].
    pose proof (Hc b c Hb true). pose proof (Hc b c Hb false). pose proof (wf_used _ _ _ W b c Hb). simpl in *. lia.
  - intros b Hlt. destruct (blocks (memory s) !! b) as [c|] eqn:Hb.
    + pose proof (Ha b c Hb) as Hab. rewrite (wf_dead _ _ _ W b c Hb).
      pose proof (wf_count_range _ _ _ true _ _ W Hb) as Hrange. rewrite (Hc b c Hb true) in Hrange.
      destruct (members c); split; intros; try done; [|].
      * assert (0 < pointers_of true b s) by (by apply Hab). lia.
      * destruct (decide (0 < pointers_of true b s)) as [Hp|]; [|lia]. by apply Hab in Hp as [? ?].
    + split; [by intros _; apply Hn|]. intros _. apply (wf_next _ _ _ W) in Hlt as [[? ?]|]; congruence.
Qed.

(** Two nodes that refer to each other, the second one by a weak pointer; the list is then
    taken down while a weak pointer is kept. *)
Definition demo_program : list op :=
  [Make 0 [(true, None)] true; Make 1 [(false, Some (Var 0))] true; Assign (Field 0 0) (Var 1) 0;
   Copy false 2 (Var 0) 0; Lock 3 (Var 2); Reset (Var 3); Drop 1; Move 4 (Var 0) 0; Drop 4; Drop 0;
   Lock 5 (Var 2); Self 6 7].
Lemma ptr_run_safe_witness :
  let os := take 11 demo_program in
  respectful os empty_heap = true ∧ respectful demo_program empty_heap = false ∧
  ∃ s, for_each exec os empty_heap = Ret () s ∧
    (∀ b c, blocks (memory s) !! b = Some c →
      strong c = pointers_of true b s ∧ weak c = pointers_of false b s ∧
      (is_Some (members c) ↔ 0 < pointers_of true b s)) ∧
    (∀ b, blocks (memory s) !! b = None ↔ pointers_of true b s = 0 ∧ pointers_of false b s = 0) ∧
    NoDup (dead (memory s)) ∧
    ∀ b, (b < next_block (memory s))%nat → b ∈ dead (memory s) ↔ pointers_of true b s = 0.
Proof.
  split; [by vm_compute|]. split; [by vm_compute|].
  apply (ptr_run_safe (take 11 demo_program)). by vm_compute.
Defined.
(** The heap it leaves: both objects destroyed, one block kept by the weak pointer. *)
Example demo_program_values :
  match for_each exec (take 11 demo_program) empty_heap with
  | Ret _ s => (dead (memory s), map_to_list (blocks (memory s)), vars s !! 5%nat)
  | Stop _ s => ([], [], None)
  end = ([0; 1]%nat, [(0%nat, mk_block 0 1 None)], Some (nil true)).
Proof. by vm_compute. Qed.

(** ** What the rules exclude *)
Definition outcome (os : list op) : option (list nat * nat) :=
  match for_each exec os empty_heap with
  | Ret _ s => Some (dead (memory s), size (blocks (memory s)))
  | Stop _ s => None
  end.
(** [operator =] releases before it takes: a last owner that is assigned to itself is
    freed, and then counts again in freed memory. *)
Example self_assignment_undefined :
  match for_each exec [Make 0 [] true; Assign (Var 0) (Var 0) 0] empty_heap with
  | Stop x _ => Some x
  | Ret _ _ => None
  end = Some Undefined.
Proof. by vm_compute. Qed.
(** So does [p = p->next] when [p] is the last owner of its node. *)
Example assignment_from_member_undefined :
  match for_each exec [Make 0 [(true, None)] true; Make 1 [(true, Some (Var 0))] true; Drop 0;
                       Assign (Var 1) (Field 1 0) 0] empty_heap with
  | Stop x _ => Some x
  | Ret _ _ => None
  end = Some Undefined.
Proof. by vm_compute. Qed.
(** Objects that own each other are never destroyed; a weak pointer breaks the cycle. *)
Definition cycle (k : bool) : list op :=
  [Make 0 [(k, None)] true; Make 1 [(true, Some (Var 0))] true; Assign (Field 0 0) (Var 1) 0; Drop 0; Drop 1].
Example cycle_leaks : outcome (cycle true) = Some ([], 2%nat) ∧ outcome (cycle false) = Some ([1; 0]%nat, 0%nat).
Proof. by vm_compute. Qed.
(** [cs_new] swallows the exception of a constructor: the pointer it returns is empty, but
    [get], [*] and [->] give the address 8. *)
Example failed_construction :
  match for_each exec [Make 0 [] false] empty_heap with
  | Ret _ s => option_map (λ h, (p_ h, get_ptr h, eq_raw h Null)) (vars s !! 0%nat)
  | Stop _ s => None
  end = Some (None, Wild 8, true).
Proof. by vm_compute. Qed.
(** An observer is right about what is left: [deref_weak] of a weak pointer answers as long
    as the object has an owner and throws afterwards. *)
Lemma deref_weak_spec s l h b : heap_ok s → lookup_loc l s = Some h → owner h = false → p_ h = Some b →
  deref_weak h (memory s) =
    (if 0 <? pointers_of true b s then Ret (get_ptr h) else Stop (Thrown Runtime_error)) (memory s).
Proof.
  intros W Hl Ho Hp. destruct (target_there none s l h b W) as (c & Hc & _); [done..|].
  assert (strong c = pointers_of true b s) as <-.
  { pose proof (wf_count _ _ _ W true b c Hc) as H. simpl in H. unfold pointers_of, none in *. lia. }
  unfold deref_weak, to_bool. rewrite Hp, Ho.
  erewrite bind_Ret by (by erewrite bind_Ret by (by apply deref_block_ret)). by destruct (0 <? strong c).
Qed.
