(* ===== verification/Async.v ===== *)
(** [async.hxx]: a result that is set later.  The object is shared by threads; what they do
    under its mutex is one step, and between the steps they interleave in any order.

    A handler here only observes what it is called with: it neither changes the result,
    to which it gets a reference, nor calls the object, whose mutex is held. *)
From S2P Require Import Prelude.

Section async.
Context {T E H : Type}.

(** ** The object *)
Record async_result := mk_async_result {
  result_ : T; err_ : option E; has_result_ : bool; handler_ : option H;
  calls : list (H * T * option E) }.    (* the calls of handlers so far *)
#[export] Instance eta_async_result : Eta async_result :=
  λ a, mk_async_result (result_ a) (err_ a) (has_result_ a) (handler_ a) (calls a).

(** The constructors; [t] is what the default initialisation of a [T] leaves. *)
Definition new_async (t : T) : async_result := mk_async_result t None false None [].
Definition async_of_result (r : T) : async_result := mk_async_result r None true None [].
Definition async_of_handler (t : T) (h : H) : async_result := mk_async_result t None true (Some h) [].

Definition call_handler (h : H) (r : T) (e : option E) : M async_result unit :=
  modify (λ a, a <| calls ::= λ cs, cs ++ [(h, r, e)] |>).
Definition when_ready (h : H) : M async_result unit :=
  b ← gets has_result_;
  if b : bool then r ← gets result_; e ← gets err_; call_handler h r e
  else modify (λ a, a <| handler_ := Some h |>).
(** [set_result], up to its notification. *)
Definition set_result (r : T) (e : option E) : M async_result unit :=
  modify (λ a, a <| result_ := r |>);;
  modify (λ a, a <| err_ := e |>);;
  modify (λ a, a <| has_result_ := true |>);;
  h ← gets handler_;
  match h with Some h => call_handler h r e | None => mret () end.
(** What [get] returns, or throws. *)
Definition answer (r : T) (e : option E) : T + E := match e with None => inl r | Some e => inr e end.
(** [get] up to its wait, if it has to wait, and after it. *)
Definition get_now : M async_result (option (T + E)) :=
  b ← gets has_result_;
  if b : bool then gets (λ a, Some (answer (result_ a) (err_ a))) else mret None.
Definition get_woken : M async_result (T + E) := gets (λ a, answer (result_ a) (err_ a)).

(** ** Threads that share it *)
Inductive call := When_ready (h : H) | Set_result (r : T) (e : option E) | Get.
(** A thread runs, is about to notify the waiting ones, waits, or has been woken. *)
Inductive mode := Running | Notifying | Waiting | Woken.
Record thread := mk_thread { now : mode; todo : list call }.
Record system := mk_system {
  object : async_result; threads : list thread;
  got : list (nat * (T + E)) }.         (* what the calls of [get] returned *)
#[export] Instance eta_system : Eta system := λ s, mk_system (object s) (threads s) (got s).

(** [cv_.notify_all()] *)
Definition wake (t : thread) : thread :=
  match now t with Waiting => mk_thread Woken (todo t) | _ => t end.
Definition put_thread (i : nat) (m : mode) (cs : list call) : M system unit :=
  modify (λ s, s <| threads ::= <[i := mk_thread m cs]> |>).
Definition returned (i : nat) (v : T + E) : M system unit := modify (λ s, s <| got ::= λ vs, vs ++ [(i, v)] |>).
(** The next step of thread [i]; [false] when it has none. *)
Definition step (i : nat) : M system bool :=
  o ← gets (λ s, threads s !! i);
  match o with
  | None => mret false
  | Some t =>
    match now t, todo t with
    | Running, [] | Waiting, _ => mret false
    | Running, When_ready h :: cs => zoom object (when_ready h);; put_thread i Running cs;; mret true
    | Running, Set_result r e :: cs => zoom object (set_result r e);; put_thread i Notifying cs;; mret true
    | Running, Get :: cs =>
        v ← zoom object get_now;
        match v with
        | Some v => returned i v;; put_thread i Running cs;; mret true
        | None => put_thread i Waiting cs;; mret true
        end
    | Notifying, cs =>
        modify (λ s, s <| threads ::= fmap wake |>);; put_thread i Running cs;; mret true
    | Woken, cs => v ← zoom object get_woken; returned i v;; put_thread i Running cs;; mret true
    end
  end.
(** A condition variable may also wake a thread for no reason. *)
Definition spurious (i : nat) : M system bool :=
  o ← gets (λ s, threads s !! i);
  match o with
  | Some (mk_thread Waiting cs) => put_thread i Woken cs;; mret true
  | _ => mret false
  end.
Inductive turn := Go (i : nat) | Spurious (i : nat).
Definition take_turn (t : turn) : M system bool :=
  match t with Go i => step i | Spurious i => spurious i end.
Definition start (t : T) (css : list (list call)) : system :=
  mk_system (new_async t) (mk_thread Running <$> css) [].
(** The system after the turns [js], if each could be taken. *)
Fixpoint schedule (js : list turn) (s : system) : option system :=
  match js with
  | [] => Some s
  | j :: js' => match take_turn j s with Ret true s' => schedule js' s' | _ => None end
  end.
End async.
Arguments call : clear implicits.
Arguments async_result : clear implicits.
Arguments system : clear implicits.
Arguments thread : clear implicits.
