(* ===== verification/AsyncProps.v ===== *)
(** Threads that share an [async_result], with any order of their steps and any spurious
    wake-ups: a [get] answers with a result that was set, or with the default value if its
    own wait ended for no reason; no notification is lost, and a thread waits for ever only
    when no result is ever set.  And the constructor for which this fails. *)
From S2P Require Import Prelude Async.

Section async.
Context {T E H : Type}.
Local Notation call := (call T E H).
Local Notation system := (system T E H).
Local Notation async_result := (async_result T E H).
Local Notation thread := (thread T E H).
Implicit Types (js : list turn) (a : async_result) (s : system) (ths : list thread) (css : list (list call)).

(** ** The steps as a relation *)
Inductive trans : turn → system → system → Prop :=
  | T_ready i h cs a a' ths vs :
      ths !! i = Some (mk_thread Running (When_ready h :: cs)) → when_ready h a = Ret () a' →
      trans (Go i) (mk_system a ths vs) (mk_system a' (<[i := mk_thread Running cs]> ths) vs)
  | T_set i r e cs a a' ths vs :
      ths !! i = Some (mk_thread Running (Set_result r e :: cs)) → set_result r e a = Ret () a' →
      trans (Go i) (mk_system a ths vs) (mk_system a' (<[i := mk_thread Notifying cs]> ths) vs)
  | T_get i cs a ths vs :
      ths !! i = Some (mk_thread Running (Get :: cs)) → has_result_ a = true →
      trans (Go i) (mk_system a ths vs)
        (mk_system a (<[i := mk_thread Running cs]> ths) (vs ++ [(i, answer (result_ a) (err_ a))]))
  | T_wait i cs a ths vs :
      ths !! i = Some (mk_thread Running (Get :: cs)) → has_result_ a = false →
      trans (Go i) (mk_system a ths vs) (mk_system a (<[i := mk_thread Waiting cs]> ths) vs)
  | T_notify i cs a ths vs :
      ths !! i = Some (mk_thread Notifying cs) →
      trans (Go i) (mk_system a ths vs) (mk_system a (<[i := mk_thread Running cs]> (wake <$> ths)) vs)
  | T_woken i cs a ths vs :
      ths !! i = Some (mk_thread Woken cs) →
      trans (Go i) (mk_system a ths vs)
        (mk_system a (<[i := mk_thread Running cs]> ths) (vs ++ [(i, answer (result_ a) (err_ a))]))
  | T_slip i cs a ths vs :
      ths !! i = Some (mk_thread Waiting cs) →
      trans (Spurious i) (mk_system a ths vs) (mk_system a (<[i := mk_thread Woken cs]> ths) vs).

Lemma when_ready_ret h a : ∃ a', when_ready h a = Ret () a' ∧
  result_ a' = result_ a ∧ err_ a' = err_ a ∧ has_result_ a' = has_result_ a.
Proof. unfold when_ready. erewrite bind_Ret by reflexivity. destruct (has_result_ a) eqn:Hb; eexists; by rewrite <-?Hb. Qed.
Lemma set_result_ret r e a : ∃ a', set_result r e a = Ret () a' ∧
  result_ a' = r ∧ err_ a' = e ∧ has_result_ a' = true.
Proof. destruct a as [r0 e0 b [h|] cs]; eexists; by split. Qed.

Lemma step_trans i s s' : step i s = Ret true s' → trans (Go i) s s'.
Proof.
  destruct s as [a ths vs]. unfold step. erewrite bind_Ret by reflexivity. cbn [threads].
  destruct (ths !! i) as [[m cs]|] eqn:Hi; [|done]. destruct m; cbn [now todo].
  - destruct cs as [|[h|r e|] cs]; [done|..].
    + destruct (when_ready_ret h a) as (a' & Ea & _). erewrite bind_Ret by (by apply zoom_Ret).
      intros [= <-]. by econstructor.
    + destruct (set_result_ret r e a) as (a' & Ea & _). erewrite bind_Ret by (by apply zoom_Ret).
      intros [= <-]. by econstructor.
    + unfold get_now. destruct (has_result_ a) eqn:Hb.
      * erewrite bind_Ret by (apply zoom_Ret; cbn [object]; erewrite bind_Ret by reflexivity; rewrite Hb; reflexivity).
        intros [= <-]. by econstructor.
      * erewrite bind_Ret by (apply zoom_Ret; cbn [object]; erewrite bind_Ret by reflexivity; rewrite Hb; reflexivity).
        intros [= <-]. by econstructor.
  - intros [= <-]. by econstructor.
  - done.
  - intros [= <-]. by econstructor.
Qed.
Lemma turn_trans j s s' : take_turn j s = Ret true s' → trans j s s'.
Proof.
  destruct j as [i|i]; [apply step_trans|]. destruct s as [a ths vs]. unfold take_turn, spurious.
  erewrite bind_Ret by reflexivity. cbn [threads]. destruct (ths !! i) as [[[] cs]|] eqn:Hi; try done.
  intros [= <-]. by constructor.
Qed.
(** A thread cannot move when it has finished or waits. *)
Lemma step_stuck i s t : step i s = Ret false s → threads s !! i = Some t →
  t = mk_thread Running [] ∨ now t = Waiting.
Proof.
  destruct s as [a ths vs]. unfold step. erewrite bind_Ret by reflexivity. cbn [threads]. intros Hs Ht.
  rewrite Ht in Hs. destruct t as [m cs]. destruct m; cbn [now todo] in Hs |- *; auto; [|done..].
  destruct cs as [|[h|r e|] cs]; [by left|..]; exfalso.
  - destruct (when_ready_ret h a) as (a' & Ea & _). by erewrite bind_Ret in Hs by (by apply zoom_Ret).
  - destruct (set_result_ret r e a) as (a' & Ea & _). by erewrite bind_Ret in Hs by (by apply zoom_Ret).
  - unfold get_now in Hs. destruct (has_result_ a) eqn:Hb.
    all: by erewrite bind_Ret in Hs
      by (apply zoom_Ret; cbn [object]; erewrite bind_Ret by reflexivity; rewrite Hb; reflexivity).
Qed.

(** ** The invariant *)
Definition gets_of (cs : list call) : Z := lsum (λ c, match c with Get => 1 | _ => 0 end) cs.
(** The answers a thread is still to get, and the steps it can still make. *)
Definition pending (t : thread) : Z :=
  gets_of (todo t) + match now t with Waiting | Woken => 1 | _ => 0 end.
Definition weight (t : thread) : Z :=
  3 * Z.of_nat (length (todo t)) + match now t with Running => 0 | Waiting => 2 | _ => 1 end.
(** [(r, e)] is set by the program. *)
Definition sets (css : list (list call)) (r : T) (e : option E) : Prop := Set_result r e ∈ concat css.

(** [js]: the turns taken so far; [t]: the default value. *)
Record sound (t : T) css (js : list turn) s : Prop := {
  so_todo i th r e : threads s !! i = Some th → Set_result r e ∈ todo th → sets css r e;
  so_result : if has_result_ (object s) then sets css (result_ (object s)) (err_ (object s))
              else result_ (object s) = t ∧ err_ (object s) = None;
  so_notifying i th : threads s !! i = Some th → now th = Notifying → has_result_ (object s) = true;
  so_woken i th : threads s !! i = Some th → now th = Woken →
    has_result_ (object s) = true ∨ Spurious i ∈ js;
  so_notified i th : threads s !! i = Some th → now th = Waiting → has_result_ (object s) = true →
    ∃ j th', threads s !! j = Some th' ∧ now th' = Notifying;
  so_got i v : (i, v) ∈ got s →
    (∃ r e, sets css r e ∧ v = answer r e) ∨ v = inl t ∧ Spurious i ∈ js;
  so_count : Z.of_nat (length (got s)) + lsum pending (threads s) = gets_of (concat css) }.

Lemma lsum_le {A} (f h : A → Z) (l : list A) : (∀ x, f x ≤ h x) → lsum f l ≤ lsum h l.
Proof. intros Hfh. induction l as [|a l IH]; simpl; [done|]. specialize (Hfh a). lia. Qed.
Lemma notifier_kept i t0 t1 ths : ths !! i = Some t0 → now t0 ≠ Notifying →
  (∃ j th, ths !! j = Some th ∧ now th = Notifying) → ∃ j th, <[i := t1]> ths !! j = Some th ∧ now th = Notifying.
Proof.
  intros Hi Hn (j & th & Hj & Ht). exists j, th. split; [|done].
  rewrite list_lookup_insert_ne; [done|]. intros ->. congruence.
Qed.
Lemma lookup_wake ths i th : (wake <$> ths) !! i = Some th → ∃ th', ths !! i = Some th' ∧ todo th = todo th' ∧
  now th ≠ Waiting ∧ (now th = Notifying → now th' = Notifying) ∧
  (now th = Woken → now th' = Woken ∨ now th' = Waiting).
Proof.
  rewrite list_lookup_fmap_Some. intros (th' & -> & Hi). exists th'.
  destruct th' as [[] cs]; simpl; intuition congruence.
Qed.
Lemma pending_wake th : pending (wake th) = pending th.
Proof. by destruct th as [[] cs]. Qed.
Lemma weight_wake th : weight (wake th) ≤ weight th.
Proof. destruct th as [[] cs]; unfold weight; simpl; lia. Qed.

(** Sums over the threads, when thread [i] goes from [t0] to [t1]. *)
Lemma lsum_thread (w : thread → Z) i t0 t1 ths : ths !! i = Some t0 →
  lsum w (<[i := t1]> ths) = lsum w ths - w t0 + w t1.
Proof. apply lsum_insert. Qed.
Lemma lsum_notify (w : thread → Z) i cs t1 ths : ths !! i = Some (mk_thread Notifying cs) →
  lsum w (<[i := t1]> (wake <$> ths)) = lsum (λ th, w (wake th)) ths - w (mk_thread Notifying cs) + w t1.
Proof.
  intros Hi. assert ((wake <$> ths) !! i = Some (mk_thread Notifying cs)) as Hi' by (by rewrite list_lookup_fmap, Hi).
  by rewrite (lsum_insert _ _ _ _ _ Hi'), lsum_fmap.
Qed.
Ltac trans_cases Hi :=
  intros Ht; destruct Ht as [? ? ? ? ? ? ? Hi|? ? ? ? ? ? ? ? Hi|? ? ? ? ? Hi|? ? ? ? ? Hi|? ? ? ? ? Hi|? ? ? ? ? Hi|? ? ? ? ? Hi];
  cbn [threads got].
Lemma weight_eq m cs : weight (mk_thread m cs) =
  3 * Z.of_nat (length cs) + match m with Running => 0 | Waiting => 2 | _ => 1 end.
Proof. done. Qed.
Lemma trans_weight j s s' : trans j s s' → lsum weight (threads s') ≤ lsum weight (threads s) - 1.
Proof.
  trans_cases Hi.
  all: first [rewrite (lsum_thread _ _ _ _ _ Hi) | rewrite (lsum_notify _ _ _ _ _ Hi)].
  all: rewrite ?weight_eq; cbn [length]; try lia.
  match goal with |- context [lsum (λ th, weight (wake th)) ?l] => pose proof (lsum_le _ weight l weight_wake) end. lia.
Qed.
Lemma trans_count j s s' : trans j s s' →
  Z.of_nat (length (got s')) + lsum pending (threads s') = Z.of_nat (length (got s)) + lsum pending (threads s).
Proof.
  trans_cases Hi.
  all: first [rewrite (lsum_thread _ _ _ _ _ Hi) | rewrite (lsum_notify _ _ _ _ _ Hi)].
  all: try (rewrite (lsum_ext (λ th, pending (wake th)) pending) by apply pending_wake).
  all: unfold pending, gets_of; cbn [now todo length lsum foldr]; rewrite ?length_app; simpl length; lia.
Qed.

(** What a step asks of the parts of the invariant that speak of single threads. *)
Definition result_ok (t : T) css a : Prop :=
  if has_result_ a then sets css (result_ a) (err_ a) else result_ a = t ∧ err_ a = None.
Lemma answer_ok t css js i a : result_ok t css a → has_result_ a = true ∨ Spurious i ∈ js →
  (∃ r e, sets css r e ∧ answer (result_ a) (err_ a) = answer r e) ∨
  answer (result_ a) (err_ a) = inl t ∧ Spurious i ∈ js.
Proof.
  unfold result_ok. destruct (has_result_ a).
  - intros Hs _. left. by do 2 eexists.
  - intros [-> ->] [?|?]; [done|]. right. by split.
Qed.
Lemma sound_update t css js i t0 t1 a a' ths vs vs' : sound t css js (mk_system a ths vs) → ths !! i = Some t0 →
  (∀ r e, Set_result r e ∈ todo t1 → Set_result r e ∈ todo t0) →
  result_ok t css a' → (has_result_ a = true → has_result_ a' = true) →
  (now t1 = Notifying → has_result_ a' = true) →
  (now t1 = Woken → has_result_ a' = true ∨ Spurious i ∈ js) →
  (now t1 = Notifying ∨ has_result_ a' = false ∨
     now t0 ≠ Notifying ∧ now t1 ≠ Waiting ∧ has_result_ a' = has_result_ a) →
  (∀ j v, (j, v) ∈ vs' → (j, v) ∈ vs ∨ (∃ r e, sets css r e ∧ v = answer r e) ∨ v = inl t ∧ Spurious j ∈ js) →
  Z.of_nat (length vs') + lsum pending (<[i := t1]> ths) = Z.of_nat (length vs) + lsum pending ths →
  sound t css js (mk_system a' (<[i := t1]> ths) vs').
Proof.
  intros W Hi Htodo Hres Hmono Hno Hw Hn Hgot Hc.
  split; cbn [object threads got].
  - intros j th r e [(<- & <- & _)|[_ Hj]]%list_lookup_insert_Some Hs; [eapply (so_todo _ _ _ _ W i); eauto|].
    by apply (so_todo _ _ _ _ W j th).
  - done.
  - intros j th [(<- & <- & _)|[_ Hj]]%list_lookup_insert_Some Ew; [auto|]. by apply Hmono, (so_notifying _ _ _ _ W j th).
  - intros j th [(<- & <- & _)|[_ Hj]]%list_lookup_insert_Some Ew; [auto|].
    destruct (so_woken _ _ _ _ W j th Hj Ew); auto.
  - intros j th Hj Ew Hr. destruct Hn as [Hn|[Hn|(Hn0 & Hn1 & Hr')]]; [|congruence|].
    + exists i, t1. split; [|done]. apply list_lookup_insert_eq. by eapply lookup_lt_Some.
    + apply list_lookup_insert_Some in Hj as [(<- & <- & _)|[_ Hj]]; [done|]. apply (notifier_kept _ _ _ _ Hi Hn0).
      apply (so_notified _ _ _ _ W j th); [done..|]. cbn [object]. congruence.
  - intros j v [Hv|Hv]%Hgot; [by apply (so_got _ _ _ _ W j)|done].
  - rewrite Hc. apply (so_count _ _ _ _ W).
Qed.
Lemma sound_weaken t css js j s : sound t css js s → sound t css (js ++ [j]) s.
Proof.
  intros W. destruct W as [H1 H2 H3 H4 H5 H6 H7]. split; auto.
  - intros i th Hi Hw. destruct (H4 i th Hi Hw); [auto|]. right. apply elem_of_app. by left.
  - intros i v [Hv|[Hv Hj]]%H6; [by left|]. right. split; [done|]. apply elem_of_app. by left.
Qed.
Lemma in_snoc_got (i j : nat) (v w : T + E) vs : (j, v) ∈ vs ++ [(i, w)] → (j, v) ∈ vs ∨ j = i ∧ v = w.
Proof. intros [Hv|[= -> ->]%list_elem_of_singleton]%elem_of_app; auto. Qed.
Lemma trans_sound t css js j s s' : sound t css js s → trans j s s' → sound t css (js ++ [j]) s'.
Proof.
  intros W0 Ht. pose proof (trans_count _ _ _ Ht) as Hc. pose proof (sound_weaken _ _ _ j _ W0) as W. clear W0.
  pose proof (so_result _ _ _ _ W : result_ok t css (object s)) as Hok.
  destruct Ht as [i h cs a a' ths vs Hi Ea|i r e cs a a' ths vs Hi Ea|i cs a ths vs Hi Hr|i cs a ths vs Hi Hr|i cs a ths vs Hi|i cs a ths vs Hi|i cs a ths vs Hi];
    cbn [got threads object] in Hc, Hok.
  - destruct (when_ready_ret h a) as (a2 & Ea2 & R1 & R2 & R3). assert (a2 = a') as -> by congruence.
    eapply (sound_update _ _ _ _ _ _ a); [exact W|exact Hi| | | |done|done| | |done]; cbn [now todo].
    + intros. by right.
    + unfold result_ok. by rewrite R1, R2, R3.
    + by rewrite R3.
    + right. right. by rewrite R3.
    + by left.
  - destruct (set_result_ret r e a) as (a2 & Ea2 & R1 & R2 & R3). assert (a2 = a') as -> by congruence.
    eapply (sound_update _ _ _ _ _ _ a); [exact W|exact Hi| | | |done|done| | |done]; cbn [now todo].
    + intros. by right.
    + unfold result_ok. rewrite R1, R2, R3. apply (so_todo _ _ _ _ W i _ r e Hi). by left.
    + done.
    + by left.
    + by left.
  - eapply (sound_update _ _ _ _ _ _ a); [exact W|exact Hi| |done|done|done|done| | |done]; cbn [now todo].
    + intros. by right.
    + right. by right.
    + intros k v [Hv|[-> ->]]%in_snoc_got; [by left|right]. apply answer_ok; auto.
  - eapply (sound_update _ _ _ _ _ _ a); [exact W|exact Hi| |done|done|done|done| | |done]; cbn [now todo].
    + intros. by right.
    + right. by left.
    + by left.
  - assert (has_result_ a = true) as Hr by (by apply (so_notifying _ _ _ _ W i _ Hi)).
    assert (∀ k th, <[i := mk_thread Running cs]> (wake <$> ths) !! k = Some th → th = mk_thread Running cs ∨
      (wake <$> ths) !! k = Some th) as Hnew.
    { intros k th [(_ & <- & _)|[_ Hk]]%list_lookup_insert_Some; auto. }
    split; cbn [object threads got].
    + intros k th r e [->|(th' & Hk & E1 & _)%lookup_wake]%Hnew Hs; [by apply (so_todo _ _ _ _ W i _ r e Hi)|].
      apply (so_todo _ _ _ _ W k _ r e Hk). by rewrite <- E1.
    + exact Hok.
    + done.
    + by left.
    + intros k th [->|(th' & _ & _ & E2 & _)%lookup_wake]%Hnew Hm; done.
    + apply (so_got _ _ _ _ W).
    + rewrite Hc. apply (so_count _ _ _ _ W).
  - eapply (sound_update _ _ _ _ _ _ a); [exact W|exact Hi|done|done|done|done|done| | |done]; cbn [now todo].
    + right. by right.
    + intros k v [Hv|[-> ->]]%in_snoc_got; [by left|right].
      apply answer_ok; [done|]. by apply (so_woken _ _ _ _ W i _ Hi).
  - eapply (sound_update _ _ _ _ _ _ a); [exact W|exact Hi|done|done|done|done| | | |done]; cbn [now todo].
    + intros _. right. apply elem_of_app. right. by left.
    + right. by right.
    + by left.
Qed.

Lemma start_sound t css : sound t css [] (start t css).
Proof.
  assert (∀ i th, (mk_thread Running <$> css) !! i = Some th → now th = Running ∧ todo th ∈ css) as Hin.
  { intros i th (cs & -> & Hcs)%list_lookup_fmap_Some. split; [done|]. by eapply list_elem_of_lookup_2. }
  split; cbn [object threads got start]; try done.
  - intros i th r e [_ Hth]%Hin Hs. unfold sets. rewrite list_elem_of_In, in_concat.
    exists (todo th). by rewrite <- !list_elem_of_In.
  - intros i th [E1 _]%Hin Hn. congruence.
  - intros i th [E1 _]%Hin Hn. congruence.
  - by intros i v ?%elem_of_nil.
  - simpl length. rewrite lsum_fmap. clear Hin. induction css as [|cs css IH]; [done|].
    unfold gets_of in *. simpl concat. rewrite lsum_app, <- IH. simpl lsum. unfold pending, gets_of. cbn [now todo]. lia.
Qed.
Lemma schedule_sound t css js : ∀ before s s', sound t css before s → schedule js s = Some s' →
  sound t css (before ++ js) s' ∧ Z.of_nat (length js) + lsum weight (threads s') ≤ lsum weight (threads s).
Proof.
  induction js as [|j js IH]; intros before s s' W Hs.
  - injection Hs as <-. rewrite app_nil_r. simpl. split; [done|lia].
  - simpl in Hs. destruct (take_turn j s) as [[] s1|] eqn:E1; [|done..]. apply turn_trans in E1.
    destruct (IH (before ++ [j]) s1 s') as [W' Hl]; [by eapply trans_sound|done|].
    rewrite <- app_assoc in W'. split; [done|]. pose proof (trans_weight _ _ _ E1). cbn [length]. lia.
Qed.
Lemma start_weight t css : lsum weight (threads (start t css)) = 3 * Z.of_nat (length (concat css)).
Proof.
  cbn [threads start]. rewrite lsum_fmap. induction css as [|cs css IH]; [done|]. simpl concat.
  rewrite length_app. simpl lsum. rewrite IH. unfold weight. cbn [now todo]. lia.
Qed.
End async.

(** C17: Threads run the programs [css] on a new result, a step at a time in any order,
    with spurious wake-ups in between.  Every answer of a [get] is one that some
    [set_result] of the programs gave, or else it is the default value and the wait of
    that thread had ended for no reason.  The threads come to a halt, after three turns for
    a call at most.  When none can move and a result was set, all of them have finished and
    every [get] was answered; when none was set, those that have not finished wait in a
    [get]. *)
Theorem async_gets_answered {T E H} (t : T) (css : list (list (call T E H))) js s :
  schedule js (start t css) = Some s →
  (∀ i v, (i, v) ∈ got s →
    (∃ r e, Set_result r e ∈ concat css ∧ v = answer r e) ∨ v = inl t ∧ Spurious i ∈ js) ∧
  (length js ≤ 3 * length (concat css))%nat ∧
  ((∀ i, step i s = Ret false s) →
    if has_result_ (object s)
    then (∀ i th, threads s !! i = Some th → th = mk_thread Running []) ∧
         Z.of_nat (length (got s)) = gets_of (concat css)
    else ∀ i th, threads s !! i = Some th → th = mk_thread Running [] ∨ now th = Waiting).
Proof.
  intros Hs. destruct (schedule_sound t css js [] _ _ (start_sound t css) Hs) as [W Hl].
  split; [apply (so_got _ _ _ _ W)|]. split.
  { rewrite start_weight in Hl. assert (0 ≤ lsum weight (threads s)); [|lia].
    apply lsum_nonneg. intros [[] cs]; unfold weight; simpl; lia. }
  intros Hstop. destruct (has_result_ (object s)) eqn:Hr; [|intros i th; apply step_stuck, Hstop].
  assert (∀ i th, threads s !! i = Some th → th = mk_thread Running []) as Hdone.
  { intros i th Hi. destruct (step_stuck i s th (Hstop i) Hi) as [|Hw]; [done|].
    destruct (so_notified _ _ _ _ W i th Hi Hw Hr) as (j & t' & Hj & Hn).
    destruct (step_stuck j s t' (Hstop j) Hj) as [->|]; [done|congruence]. }
  split; [done|]. rewrite <- (so_count _ _ _ _ W).
  assert (lsum pending (threads s) = 0) as ->; [|lia]. revert Hdone. generalize (threads s). intros ths Hd.
  induction ths as [|th ths IH]; [done|]. simpl. rewrite (Hd 0%nat th eq_refl), IH; [done|].
  intros i th' Hi. exact (Hd (S i) th' Hi).
Qed.

(** Two threads get; the wait of the first one ends for no reason, so that it gets the
    default value, and the second one is woken by the thread that sets. *)
Definition demo_calls : list (list (call nat bool nat)) :=
  [[Get]; [When_ready 7%nat; Set_result 123%nat None]; [Get]].
Definition demo_turns : list turn :=
  [Go 0; Go 2; Spurious 0; Go 0; Go 1; Go 1; Go 1; Go 2]%nat.
Lemma async_gets_answered_witness :
  match schedule demo_turns (start 0%nat demo_calls) with
  | None => False
  | Some s =>
      got s = [(0, inl 0); (2, inl 123)]%nat ∧ calls (object s) = [(7, 123, None)]%nat ∧
      (∀ i v, (i, v) ∈ got s →
        (∃ r e, Set_result r e ∈ concat demo_calls ∧ v = answer r e) ∨ v = inl 0%nat ∧ Spurious i ∈ demo_turns) ∧
      (length demo_turns ≤ 3 * length (concat demo_calls))%nat ∧
      ((∀ i, step i s = Ret false s) →
        if has_result_ (object s)
        then (∀ i th, threads s !! i = Some th → th = mk_thread Running []) ∧
             Z.of_nat (length (got s)) = gets_of (concat demo_calls)
        else ∀ i th, threads s !! i = Some th → th = mk_thread Running [] ∨ now th = Waiting)
  end.
Proof.
  destruct (schedule demo_turns (start 0%nat demo_calls)) as [s|] eqn:Es; [|by vm_compute in Es].
  split; [by vm_compute in Es; injection Es as <-|]. split; [by vm_compute in Es; injection Es as <-|].
  exact (async_gets_answered 0%nat demo_calls demo_turns s Es).
Defined.

(** ** The handler *)
(** A handler that was registered, before or after the one result, is called once with it. *)
Lemma handler_called_once {T E H} (t r : T) (e : option E) (h : H) :
  calls (final ((when_ready h;; set_result r e) (new_async t))) = [(h, r, e)] ∧
  calls (final ((set_result r e;; when_ready h) (new_async t))) = [(h, r, e)] ∧
  calls (E:=E) (final (when_ready h (async_of_result r))) = [(h, r, None)].
Proof. split; [|split]; reflexivity. Qed.
(** There is one handler: a second [when_ready] before the result drops the first one. *)
Lemma second_handler_replaces {T E H} (t r : T) (e : option E) (h h' : H) :
  calls (final ((when_ready h;; when_ready h';; set_result r e) (new_async t))) = [(h', r, e)].
Proof. reflexivity. Qed.
(** The constructor that takes a handler says that there is a result: [get] returns the
    default value at once, and a handler is called with it. *)
Lemma handler_constructor_has_result {T E H} (t : T) (h h' : H) :
  result (get_now (E:=E) (async_of_handler t h)) = Some (Some (inl t)) ∧
  calls (final (when_ready (E:=E) h' (async_of_handler t h))) = [(h', t, None)].
Proof. by split. Qed.
(** The wait has no predicate: a thread that wakes for no reason returns the default value. *)
Example spurious_get_returns_default :
  got <$> schedule [Go 0; Spurious 0; Go 0]%nat (start 0%nat demo_calls) = Some [(0%nat, inl 0%nat)].
Proof. reflexivity. Qed.
