(* ===== verification/Logger.v ===== *)
(** [asio_service.cxx]: the loggers with their buffers, the timer handler that flushes them,
    and the shutdown of the service, which waits for that handler.  Worker threads run the
    handler, other threads write lines and stop the service; what they do under one mutex,
    or to one atomic variable, is one step. *)
From stdpp Require Import strings.
From S2P Require Import Prelude.

(** ** A logger *)
(** [level_], the lines in the file, and those still in [buffer_]; [closed] after the
    destructor. *)
Record logger := mk_logger { level_ : Z; fs_ : list string; buffer_ : list string; closed : bool }.
#[export] Instance eta_logger : Eta logger := λ l, mk_logger (level_ l) (fs_ l) (buffer_ l) (closed l).

Section logger.
(** The time and thread stamp that [write_log] formats for a level. *)
Variable stamp : string → string.
Definition write_log (level line : string) : M logger unit :=
  modify (λ l, l <| buffer_ ::= λ b, b ++ [stamp level +:+ line] |>).
Definition debug (line : string) : M logger unit := n ← gets level_; when (n <=? 0) (write_log "dbug" line).
Definition info (line : string) : M logger unit := n ← gets level_; when (n <=? 1) (write_log "info" line).
Definition warn (line : string) : M logger unit := n ← gets level_; when (n <=? 2) (write_log "warn" line).
Definition err (line : string) : M logger unit := n ← gets level_; when (n <=? 3) (write_log "errr" line).
End logger.

(** [flush]: the lines are taken out under [lock_] and then written without it. *)
Definition take_lines : M logger (list string) :=
  backup ← gets buffer_; modify (λ l, l <| buffer_ := [] |>);; mret backup.
Definition write_lines (backup : list string) : M logger unit :=
  modify (λ l, l <| fs_ ::= λ ls, ls ++ backup |>).
Definition flush : M logger unit := backup ← take_lines; write_lines backup.
(** The part of the destructor that concerns the logger itself. *)
Definition close_logger : M logger unit := flush;; modify (λ l, l <| closed := true |>).

(** ** The service *)
(** Where a call of [flush_all_loggers] is. *)
Inductive flusher :=
  | Arm (failed : bool)                                  (* at its first test *)
  | Lock                                                 (* wants [logger_list_lock_] *)
  | Loop (ls : list nat)                                 (* has [ls] still to flush *)
  | Write (l : nat) (lines : list string) (ls : list nat)   (* writes the lines of [l] *)
  | Notify
  | Done.
(** Where the call of [stop] is. *)
Inductive stopper := Enter | Mark | Cancel | Wait | Waiting | Returned.

Record service := mk_service {
  continue_ : Z; stopping_ : bool;
  loggers_ : list nat; objects : list logger;      (* loggers are numbered as they are made *)
  flush_tm_ : option bool;                         (* a pending wait, and whether it was cancelled *)
  flushers : list flusher; stopper_ : stopper }.
#[export] Instance eta_service : Eta service := λ s,
  mk_service (continue_ s) (stopping_ s) (loggers_ s) (objects s) (flush_tm_ s) (flushers s) (stopper_ s).
(** [asio_service_impl]; its timer is armed. *)
Definition new_service : service := mk_service 1 false [] [] (Some false) [] Enter.

(** [logger_list_lock_] is held during the loop. *)
Definition holds_list (f : flusher) : bool := match f with Loop _ | Write _ _ _ => true | _ => false end.
Definition list_free (s : service) : bool := negb (existsb holds_list (flushers s)).
(** An operation of the logger numbered [l]; [false] when there is none. *)
Definition on_logger (l : nat) (m : M logger unit) : M service bool :=
  o ← gets (λ s, objects s !! l);
  match o with
  | Some lg => if closed lg then mret false else
      match m lg with Ret _ lg' => modify (λ s, s <| objects ::= <[l := lg']> |>);; mret true | Stop x _ => stop x end
  | None => mret false
  end.
Definition create_logger (level : Z) : M service bool :=
  b ← gets list_free;
  if b : bool then
    modify (λ s, s <| loggers_ := loggers_ s ++ [length (objects s)] |>
                   <| objects ::= λ ls, ls ++ [mk_logger level [] [] false] |>);; mret true
  else mret false.
Fixpoint erase_logger (l : nat) (ls : list nat) : list nat :=
  match ls with
  | [] => []
  | x :: ls' => if decide (x = l) then ls' else x :: erase_logger l ls'
  end.
Definition remove_logger (l : nat) : M service unit := modify (λ s, s <| loggers_ ::= erase_logger l |>).
(** The destructor, while no flush is at work. *)
Definition destroy_logger (l : nat) : M service bool :=
  b ← gets list_free;
  if b : bool then b ← on_logger l close_logger; when b (remove_logger l);; mret b else mret false.

(** The pending wait of the timer ends: in time, or because it was cancelled. *)
Definition timer_ends (failed : bool) : M service bool :=
  o ← gets flush_tm_;
  match o with
  | Some cancelled =>
      if implb failed cancelled
      then modify (λ s, s <| flush_tm_ := None |> <| flushers ::= λ fs, fs ++ [Arm failed] |>);; mret true
      else mret false
  | None => mret false
  end.
Definition move_flusher (i : nat) (f : flusher) : M service bool :=
  modify (λ s, s <| flushers ::= <[i := f]> |>);; mret true.
(** [stopping_cv_.notify_all()] *)
Definition notify_stopper : M service unit :=
  modify (λ s, s <| stopper_ ::= λ p, match p with Waiting => Returned | p => p end |>).
(** The next step of a call of [flush_all_loggers]. *)
Definition flush_step (i : nat) : M service bool :=
  o ← gets (λ s, flushers s !! i);
  match o with
  | None | Some Done => mret false
  | Some (Arm failed) =>
      n ← gets continue_;
      when (negb failed && (n =? 1)) (modify (λ s, s <| flush_tm_ := Some false |>));; move_flusher i Lock
  | Some Lock => b ← gets list_free; if b : bool then ls ← gets loggers_; move_flusher i (Loop ls) else mret false
  | Some (Loop []) => move_flusher i Notify
  | Some (Loop (l :: ls)) =>
      o ← gets (λ s, objects s !! l);
      match o with
      | Some lg =>
          match take_lines lg with
          | Ret lines lg' => modify (λ s, s <| objects ::= <[l := lg']> |>);; move_flusher i (Write l lines ls)
          | Stop x _ => stop x
          end
      | None => undefined
      end
  | Some (Write l lines ls) => on_logger l (write_lines lines);; move_flusher i (Loop ls)
  | Some Notify => b ← gets stopping_; when b notify_stopper;; move_flusher i Done
  end.
Definition move_stopper (p : stopper) : M service bool := modify (λ s, s <| stopper_ := p |>);; mret true.
(** The next step of [stop]; the wait has no predicate, and who notifies does not hold
    [stopping_lock_]. *)
Definition stop_step : M service bool :=
  p ← gets stopper_;
  match p with
  | Enter =>
      n ← gets continue_;
      if n =? 1 then modify (λ s, s <| continue_ := 0 |>);; move_stopper Mark else move_stopper Returned
  | Mark => modify (λ s, s <| stopping_ := true |>);; move_stopper Cancel
  | Cancel => modify (λ s, s <| flush_tm_ ::= fmap (λ _, true) |>);; move_stopper Wait
  | Wait => move_stopper Waiting
  | Waiting | Returned => mret false
  end.

(** The wait of [stop] may also end for no reason. *)
Definition stop_spurious : M service bool :=
  p ← gets stopper_;
  match p with Waiting => move_stopper Returned | _ => mret false end.

(** ** Runs *)
Inductive severity := Debug | Info | Warn | Err.
Inductive action :=
  | Create (level : Z) | Log (l : nat) (v : severity) (stamp : string → string) (line : string)
  | Destroy (l : nat) | Timer (failed : bool) | Flush (i : nat) | Shut_down | Spurious.
Definition log_line (v : severity) (stamp : string → string) (line : string) : M logger unit :=
  match v with Debug => debug stamp line | Info => info stamp line | Warn => warn stamp line | Err => err stamp line end.
Definition act (a : action) : M service bool :=
  match a with
  | Create level => create_logger level
  | Log l v stamp line => on_logger l (log_line v stamp line)
  | Destroy l => destroy_logger l
  | Timer failed => timer_ends failed
  | Flush i => flush_step i
  | Shut_down => stop_step
  | Spurious => stop_spurious
  end.
(** The service after the actions, if each could be done. *)
Fixpoint run (acts : list action) (s : service) : option service :=
  match acts with
  | [] => Some s
  | a :: acts' => match act a s with Ret true s' => run acts' s' | _ => None end
  end.
