(* ===== verification/LoggerProps.v ===== *)
(** The lines of a logger: none is lost or written twice, and their order is kept, whatever
    the order in which writers, flushes and the shutdown take their steps.  And two orders
    in which the shutdown goes wrong. *)
From stdpp Require Import strings.
From S2P Require Import Prelude Logger.

(** ** What should be in the file *)
Definition code (v : severity) : Z := match v with Debug => 0 | Info => 1 | Warn => 2 | Err => 3 end.
Definition name (v : severity) : string :=
  match v with Debug => "dbug" | Info => "info" | Warn => "warn" | Err => "errr" end.
Definition accepted_by (l : nat) (level : Z) (a : action) : list string :=
  match a with
  | Log l' v stamp line => if bool_decide (l' = l ∧ level ≤ code v) then [stamp (name v) +:+ line] else []
  | _ => []
  end.
(** The lines logged to [l] that pass its level. *)
Definition accepted (l : nat) (level : Z) (acts : list action) : list string := acts ≫= accepted_by l level.

(** The lines of [l] that a flush has taken but not written. *)
Definition own (l : nat) (f : flusher) : list string :=
  match f with Write l' lines _ => if decide (l' = l) then lines else [] | _ => [] end.
Definition in_flight (l : nat) (s : service) : list string := flushers s ≫= own l.
Definition to_flush (f : flusher) : list nat :=
  match f with Loop ls => ls | Write l _ ls => l :: ls | _ => [] end.

Record sound (acts : list action) (s : service) : Prop := {
  so_one i j f f' : flushers s !! i = Some f → flushers s !! j = Some f' →
    holds_list f = true → holds_list f' = true → i = j;
  so_open l : l ∈ loggers_ s → ∃ lg, objects s !! l = Some lg ∧ closed lg = false;
  so_flushing i f l : flushers s !! i = Some f → l ∈ to_flush f →
    ∃ lg, objects s !! l = Some lg ∧ closed lg = false;
  so_distinct : NoDup (loggers_ s);
  so_logged l v stamp line : Log l v stamp line ∈ acts → (l < length (objects s))%nat;
  so_lines l lg : objects s !! l = Some lg →
    fs_ lg ++ in_flight l s ++ buffer_ lg = accepted l (level_ lg) acts;
  so_closed l lg : objects s !! l = Some lg → closed lg = true → buffer_ lg = [] }.

(** ** Calls of [flush_all_loggers] *)
Lemma own_free l f : holds_list f = false → own l f = [].
Proof. by destruct f. Qed.
Lemma bind_own_free l fs : (∀ f, f ∈ fs → holds_list f = false) → fs ≫= own l = [].
Proof.
  induction fs as [|f fs IH]; intros H; [done|]. rewrite bind_cons, IH by (intros; apply H; by right).
  by rewrite own_free by (apply H; by left).
Qed.
Lemma list_free_spec s : list_free s = true ↔ ∀ f, f ∈ flushers s → holds_list f = false.
Proof.
  unfold list_free. rewrite negb_true_iff. split.
  - intros H f Hf. destruct (holds_list f) eqn:Eh; [|done]. rewrite <- H. symmetry. apply existsb_exists.
    exists f. by rewrite <- list_elem_of_In.
  - intros H. apply not_true_iff_false. rewrite existsb_exists. intros (f & Hf & Ef).
    rewrite <- list_elem_of_In in Hf. by rewrite H in Ef.
Qed.
Lemma in_flight_free l s : list_free s = true → in_flight l s = [].
Proof. intros H. apply bind_own_free. by apply list_free_spec. Qed.
(** Only the flusher that holds the list has lines. *)
Lemma bind_own_holder l fs i f : fs !! i = Some f →
  (∀ j f', fs !! j = Some f' → holds_list f' = true → j = i) → fs ≫= own l = own l f.
Proof.
  intros Hi Hone. apply list_elem_of_split_length in Hi as (l1 & l2 & -> & ->).
  rewrite bind_app, bind_cons, (bind_own_free l l1), (bind_own_free l l2).
  - by rewrite app_nil_r.
  - intros f' (j & Hj)%list_elem_of_lookup. destruct (holds_list f') eqn:Eh; [|done].
    assert ((length l1 + S j)%nat = length l1); [|lia]. apply (Hone _ f'); [|done].
    rewrite lookup_app_r by lia. by replace (length l1 + S j - length l1)%nat with (S j) by lia.
  - intros f' (j & Hj)%list_elem_of_lookup. destruct (holds_list f') eqn:Eh; [|done].
    pose proof (lookup_lt_Some _ _ _ Hj). assert (j = length l1); [|lia]. apply (Hone _ f'); [|done].
    by rewrite lookup_app_l.
Qed.
Lemma bind_own_same l fs i f f' : fs !! i = Some f → own l f' = own l f → <[i := f']> fs ≫= own l = fs ≫= own l.
Proof.
  intros Hi Ho. apply list_elem_of_split_length in Hi as (l1 & l2 & -> & ->).
  rewrite insert_app_r_alt, Nat.sub_diag by done. simpl. by rewrite !bind_app, !bind_cons, Ho.
Qed.
Lemma accepted_snoc l n acts a : accepted l n (acts ++ [a]) = accepted l n acts ++ accepted_by l n a.
Proof. unfold accepted. rewrite bind_app, bind_cons. by rewrite app_nil_r. Qed.
Lemma accepted_none l n acts : (∀ v stamp line, Log l v stamp line ∉ acts) → accepted l n acts = [].
Proof.
  induction acts as [|a acts IH]; intros H; [done|]. unfold accepted in *. rewrite bind_cons, IH.
  - rewrite app_nil_r. destruct a as [|l' v st line| | | | |]; try done. simpl. rewrite bool_decide_false; [done|].
    intros [-> _]. apply (H v st line). by left.
  - intros v st line Hin. apply (H v st line). by right.
Qed.
Lemma log_line_spec v stamp line lg : log_line v stamp line lg =
  Ret () (lg <| buffer_ ::= λ b, b ++ (if bool_decide (level_ lg ≤ code v) then [stamp (name v) +:+ line] else []) |>).
Proof.
  destruct lg as [n fs b c], v; unfold log_line, debug, info, warn, err; erewrite bind_Ret by reflexivity;
    cbn [level_ code name]; (case_bool_decide; [rewrite (proj2 (Z.leb_le _ _)) by done; done|]);
    rewrite (proj2 (Z.leb_gt _ _)) by lia; unfold when, set_field; simpl; by rewrite app_nil_r.
Qed.

(** ** Each action *)
Lemma sound_snoc acts a s : (∀ l v stamp line, a ≠ Log l v stamp line) → sound acts s → sound (acts ++ [a]) s.
Proof.
  intros Ha W. destruct W. split; auto.
  - intros l v st line [Hin|Hin%list_elem_of_singleton]%elem_of_app; [eauto|]. by destruct (Ha l v st line).
  - intros l lg Hl. rewrite accepted_snoc, (so_lines0 l lg Hl).
    assert (accepted_by l (level_ lg) a = []) as ->; [|by rewrite app_nil_r].
    destruct a; try done. by destruct (Ha l0 v stamp line).
Qed.
(** A flusher moves on. *)
Lemma move_sound acts s s' i f f' : sound acts s → flushers s !! i = Some f →
  objects s' = objects s → loggers_ s' = loggers_ s → flushers s' = <[i := f']> (flushers s) →
  (∀ l, own l f' = own l f) → (holds_list f' = true → holds_list f = true ∨ list_free s = true) →
  (∀ l, l ∈ to_flush f' → l ∈ to_flush f ∨ l ∈ loggers_ s) → sound acts s'.
Proof.
  intros W Hi Ho Hl Hf Hown Hh Ht.
  assert (∀ j g, flushers s' !! j = Some g → j = i ∧ g = f' ∨ j ≠ i ∧ flushers s !! j = Some g) as Hlook.
  { intros j g Hj. rewrite Hf in Hj. apply list_lookup_insert_Some in Hj as [(-> & <- & _)|[? ?]]; auto. }
  assert (∀ j g, flushers s !! j = Some g → holds_list g = true → holds_list f' = true → j = i) as Hone.
  { intros j g Hj Eg Ef'. destruct (Hh Ef') as [Ef|Hfree]; [by eapply (so_one _ _ W)|].
    rewrite list_free_spec in Hfree. rewrite Hfree in Eg; [done|by eapply list_elem_of_lookup_2]. }
  split; rewrite ?Ho, ?Hl.
  - intros j k g g' [[-> ->]|[? Hj]]%Hlook [[-> ->]|[? Hk]]%Hlook Eg Eg'; [done|..].
    + symmetry. by apply (Hone k g').
    + by apply (Hone j g).
    + by apply (so_one _ _ W j k g g').
  - apply (so_open _ _ W).
  - intros j g l [[-> ->]|[_ Hj]]%Hlook Hin; [|by eapply (so_flushing _ _ W)].
    apply Ht in Hin as [Hin|Hin]; [by eapply (so_flushing _ _ W)|by apply (so_open _ _ W)].
  - apply (so_distinct _ _ W).
  - apply (so_logged _ _ W).
  - intros l lg Hlg. unfold in_flight. rewrite Hf, (bind_own_same l _ _ _ _ Hi (Hown l)). by apply (so_lines _ _ W).
  - apply (so_closed _ _ W).
Qed.
(** The logger [l] changes, and perhaps what its flusher holds. *)
Lemma object_sound acts acts' s s' l lg lg' : sound acts s → objects s !! l = Some lg → closed lg = false →
  objects s' = <[l := lg']> (objects s) → loggers_ s' = loggers_ s →
  level_ lg' = level_ lg → closed lg' = false →
  (∀ i j f f', flushers s' !! i = Some f → flushers s' !! j = Some f' →
    holds_list f = true → holds_list f' = true → i = j) →
  (∀ i f l', flushers s' !! i = Some f → l' ∈ to_flush f → ∃ j f', flushers s !! j = Some f' ∧ l' ∈ to_flush f') →
  (∀ l' v stamp line, Log l' v stamp line ∈ acts' → l' = l ∨ Log l' v stamp line ∈ acts) →
  fs_ lg' ++ in_flight l s' ++ buffer_ lg' = accepted l (level_ lg) acts' →
  (∀ l' n, l' ≠ l → in_flight l' s' = in_flight l' s ∧ accepted l' n acts' = accepted l' n acts) →
  sound acts' s'.
Proof.
  intros W Hl Hopen Ho Hls Hlev Hopen' Hone Htf Hlog Hlines Hother.
  pose proof (lookup_lt_Some _ _ _ Hl) as Hlt.
  assert (∀ l', (∃ g, objects s !! l' = Some g ∧ closed g = false) → ∃ g, objects s' !! l' = Some g ∧ closed g = false) as Hopn.
  { intros l' (g & Hg & Eg). rewrite Ho. destruct (decide (l' = l)) as [->|].
    - exists lg'. by rewrite list_lookup_insert_eq.
    - exists g. by rewrite list_lookup_insert_ne. }
  split; rewrite ?Hls.
  - done.
  - intros l' Hin. by apply Hopn, (so_open _ _ W).
  - intros i f l' Hi Hin. apply Hopn. destruct (Htf i f l' Hi Hin) as (j & f' & Hj & Hin').
    by eapply (so_flushing _ _ W).
  - apply (so_distinct _ _ W).
  - rewrite Ho, length_insert. intros l' v st line [->|Hin]%Hlog; [done|by eapply (so_logged _ _ W)].
  - intros l' g. rewrite Ho. intros [(-> & <- & _)|[Hne Hg]]%list_lookup_insert_Some; [by rewrite Hlev|].
    destruct (Hother l' (level_ g)) as [-> ->]; [done|]. by apply (so_lines _ _ W).
  - intros l' g. rewrite Ho. intros [(-> & <- & _)|[_ Hg]]%list_lookup_insert_Some; [congruence|].
    by apply (so_closed _ _ W l').
Qed.

Lemma on_logger_ret l m s s' : on_logger l m s = Ret true s' → ∃ lg lg', objects s !! l = Some lg ∧ closed lg = false ∧
  m lg = Ret () lg' ∧ s' = s <| objects ::= <[l := lg']> |>.
Proof.
  unfold on_logger. erewrite bind_Ret by reflexivity. destruct (objects s !! l) as [lg|]; [|done].
  destruct (closed lg) eqn:Ec; [done|]. destruct (m lg) as [[] lg'|] eqn:Em; [|done].
  intros [= <-]. by exists lg, lg'.
Qed.
Lemma log_sound acts s l v stamp line s' : sound acts s → act (Log l v stamp line) s = Ret true s' →
  sound (acts ++ [Log l v stamp line]) s'.
Proof.
  intros W (lg & lg' & Hl & Hc & Em & ->)%on_logger_ret. rewrite log_line_spec in Em. injection Em as <-.
  eapply (object_sound acts _ s _ l lg); [exact W|exact Hl|exact Hc|reflexivity|done|done|done|apply (so_one _ _ W)| | | |].
  - intros i f l' Hi Hin. by exists i, f.
  - intros l' v' st' line' [Hin|[= -> -> -> ->]%list_elem_of_singleton]%elem_of_app; auto.
  - change (in_flight l _) with (in_flight l s). cbn [fs_ buffer_ set_field eta_logger]. simpl.
    rewrite !app_assoc, <- (app_assoc (fs_ lg)), (so_lines _ _ W l lg Hl), accepted_snoc. f_equal. simpl.
    by rewrite (bool_decide_ext (level_ lg ≤ code v) (l = l ∧ level_ lg ≤ code v)) by tauto.
  - intros l' n Hne. split; [done|]. rewrite accepted_snoc. simpl.
    rewrite bool_decide_false by (intros [? _]; congruence). apply app_nil_r.
Qed.

Lemma create_sound acts s n s' : sound acts s → act (Create n) s = Ret true s' → sound (acts ++ [Create n]) s'.
Proof.
  intros W Ha. apply sound_snoc; [done|]. unfold act, create_logger in Ha. erewrite bind_Ret in Ha by reflexivity.
  destruct (list_free s) eqn:Hfree; [|done]. injection Ha as <-.
  set (s' := set_field objects _ _). assert (objects s' = objects s ++ [mk_logger n [] [] false]) as Ho by done.
  assert (loggers_ s' = loggers_ s ++ [length (objects s)]) as Hl by done.
  assert (∀ l g, objects s !! l = Some g → objects s' !! l = Some g) as Hold.
  { intros l g Hg. rewrite Ho. by apply lookup_app_l_Some. }
  assert (objects s' !! length (objects s) = Some (mk_logger n [] [] false)) as Hnew
    by (rewrite Ho; apply list_lookup_middle; done).
  split; rewrite ?Hl.
  - apply (so_one _ _ W).
  - intros l [Hin| ->%list_elem_of_singleton]%elem_of_app; [|eauto].
    destruct (so_open _ _ W l Hin) as (g & ? & ?). eauto.
  - intros i f l Hi Hin. destruct (so_flushing _ _ W i f l Hi Hin) as (g & ? & ?). eauto.
  - apply NoDup_app. split; [apply (so_distinct _ _ W)|]. split; [|apply NoDup_singleton].
    intros l Hin ->%list_elem_of_singleton. destruct (so_open _ _ W _ Hin) as (g & Hg & _).
    apply lookup_lt_Some in Hg. lia.
  - intros l v st line Hin. rewrite Ho, length_app. pose proof (so_logged _ _ W l v st line Hin). lia.
  - intros l g Hg. change (in_flight l s') with (in_flight l s). rewrite Ho in Hg.
    apply lookup_app_Some in Hg as [Hg|[Hge Hg]]; [by apply (so_lines _ _ W)|].
    apply list_lookup_singleton_Some in Hg as [_ <-]. rewrite in_flight_free by done. simpl.
    symmetry. apply accepted_none. intros v st line Hin. pose proof (so_logged _ _ W l v st line Hin). lia.
  - intros l g Hg Hc. rewrite Ho in Hg. apply lookup_app_Some in Hg as [Hg|[_ Hg]]; [by apply (so_closed _ _ W l)|].
    by apply list_lookup_singleton_Some in Hg as [_ <-].
Qed.
Lemma erase_logger_spec l ls x : NoDup ls → x ∈ erase_logger l ls → x ∈ ls ∧ x ≠ l.
Proof.
  induction 1 as [|y ls Hy Hnd IH]; simpl; [by intros ?%elem_of_nil|]. case_decide as Hd.
  - subst. intros Hin. split; [by right|by intros ->].
  - intros [->|Hin]%elem_of_cons; [split; [by left|done]|]. destruct (IH Hin). split; [by right|done].
Qed.
Lemma erase_logger_sublist l ls : erase_logger l ls `sublist_of` ls.
Proof.
  induction ls as [|y ls IH]; simpl; [done|]. case_decide; [by apply sublist_cons|by apply sublist_skip].
Qed.
Lemma destroy_sound acts s l s' : sound acts s → act (Destroy l) s = Ret true s' → sound (acts ++ [Destroy l]) s'.
Proof.
  intros W Ha. apply sound_snoc; [done|]. unfold act, destroy_logger in Ha. erewrite bind_Ret in Ha by reflexivity.
  destruct (list_free s) eqn:Hfree; [|done]. destruct (on_logger l close_logger s) as [b s1|] eqn:E1;
    [|by unfold mbind, M_bind in Ha; rewrite E1 in Ha]. erewrite bind_Ret in Ha by exact E1.
  destruct b; [|done]. apply on_logger_ret in E1 as (lg & lg' & Hl & Hc & Em & ->).
  injection Em as <-. injection Ha as <-. set (lg' := set_field closed _ _). set (s' := set_field loggers_ _ _).
  assert (objects s' = <[l := lg']> (objects s)) as Ho by done.
  assert (loggers_ s' = erase_logger l (loggers_ s)) as Hls by done.
  pose proof (proj1 (list_free_spec s) Hfree) as Hnone. split; rewrite ?Hls.
  - apply (so_one _ _ W).
  - intros x [Hin Hne]%erase_logger_spec; [|apply (so_distinct _ _ W)]. rewrite Ho, list_lookup_insert_ne by done.
    by apply (so_open _ _ W).
  - intros i f x Hi Hin. apply list_elem_of_lookup_2, Hnone in Hi. by destruct f; try apply elem_of_nil in Hin.
  - eapply sublist_NoDup; [apply (so_distinct _ _ W)|apply erase_logger_sublist].
  - intros x v st line Hin. rewrite Ho, length_insert. by eapply (so_logged _ _ W).
  - intros x g. rewrite Ho. change (in_flight x s') with (in_flight x s).
    intros [(<- & <- & _)|[Hne Hg]]%list_lookup_insert_Some; [|by apply (so_lines _ _ W)].
    change (level_ lg') with (level_ lg). rewrite <- (so_lines _ _ W l lg Hl), in_flight_free by done. simpl.
    by rewrite app_nil_r.
  - intros x g. rewrite Ho. intros [(-> & <- & _)|[_ Hg]]%list_lookup_insert_Some Hcl; [done|].
    by apply (so_closed _ _ W x).
Qed.

Lemma timer_sound acts s b s' : sound acts s → act (Timer b) s = Ret true s' → sound (acts ++ [Timer b]) s'.
Proof.
  intros W Ha. apply sound_snoc; [done|]. unfold act, timer_ends in Ha. erewrite bind_Ret in Ha by reflexivity.
  destruct (flush_tm_ s) as [c|]; [|done]. destruct (implb b c); [|done]. injection Ha as <-.
  set (s' := set_field flushers _ _). assert (flushers s' = flushers s ++ [Arm b]) as Hf by done.
  assert (∀ i f, flushers s' !! i = Some f → flushers s !! i = Some f ∨ f = Arm b) as Hlook.
  { intros i f Hi. rewrite Hf in Hi. apply lookup_app_Some in Hi as [?|[_ Hi]]; [by left|].
    apply list_lookup_singleton_Some in Hi as [_ <-]. by right. }
  split; change (objects s') with (objects s); change (loggers_ s') with (loggers_ s); try apply W.
  - intros i j f f' [Hi| ->]%Hlook [Hj| ->]%Hlook Ef Ef'; try done. by eapply (so_one _ _ W).
  - intros i f l [Hi| ->]%Hlook Hin; [by eapply (so_flushing _ _ W)|by apply elem_of_nil in Hin].
  - intros l g Hg. unfold in_flight. rewrite Hf, bind_app. simpl. rewrite app_nil_r. by apply (so_lines _ _ W).
Qed.
Lemma sound_stop acts s c p t x : sound acts s →
  sound acts (mk_service c p (loggers_ s) (objects s) t (flushers s) x).
Proof. intros W. split; apply W. Qed.
Lemma stop_sound acts s s' : sound acts s → act Shut_down s = Ret true s' → sound (acts ++ [Shut_down]) s'.
Proof.
  intros W Ha. apply sound_snoc; [done|]. unfold act, stop_step in Ha. erewrite bind_Ret in Ha by reflexivity.
  pose proof (λ c p t x, sound_stop acts s c p t x W) as Hany.
  destruct (stopper_ s); try done; try (injection Ha as <-; apply Hany).
  erewrite bind_Ret in Ha by reflexivity. destruct (continue_ s =? 1); injection Ha as <-; apply Hany.
Qed.

Lemma spurious_sound acts s s' : sound acts s → act Spurious s = Ret true s' → sound (acts ++ [Spurious]) s'.
Proof.
  intros W Ha. apply sound_snoc; [done|]. unfold act, stop_spurious in Ha. erewrite bind_Ret in Ha by reflexivity.
  destruct (stopper_ s); try done. injection Ha as <-. by apply sound_stop.
Qed.

(** The flusher [i], which holds the list, changes its logger [l] from [lg] to [lg']. *)
Lemma flush_object_sound acts s s' i f f' l lg lg' : sound acts s → flushers s !! i = Some f →
  holds_list f = true → holds_list f' = true → l ∈ to_flush f → (∀ x, x ∈ to_flush f' → x ∈ to_flush f) →
  objects s !! l = Some lg → objects s' = <[l := lg']> (objects s) → loggers_ s' = loggers_ s →
  flushers s' = <[i := f']> (flushers s) → level_ lg' = level_ lg → closed lg' = closed lg →
  fs_ lg' ++ own l f' ++ buffer_ lg' = fs_ lg ++ own l f ++ buffer_ lg →
  (∀ x, x ≠ l → own x f' = own x f) → sound acts s'.
Proof.
  intros W Hi Eh Eh' Hin Htf Hl Ho Hls Hf Hlev Hcl Hlines Hother.
  assert (∀ j g, flushers s' !! j = Some g → j = i ∧ g = f' ∨ j ≠ i ∧ flushers s !! j = Some g) as Hlook.
  { intros j g Hj. rewrite Hf in Hj. apply list_lookup_insert_Some in Hj as [(-> & <- & _)|[? ?]]; auto. }
  assert (closed lg = false) as Hc.
  { destruct (so_flushing _ _ W i f l Hi Hin) as (g & Hg & Ec). congruence. }
  assert (∀ x, in_flight x s = own x f) as Hfl.
  { intros x. apply (bind_own_holder x _ i f Hi). intros j g Hj Eg. by apply (so_one _ _ W j i g f). }
  assert (∀ x, in_flight x s' = own x f') as Hfl'.
  { intros x. apply (bind_own_holder x _ i f').
    - rewrite Hf. apply list_lookup_insert_eq. by eapply lookup_lt_Some.
    - intros j g [[-> ->]|[_ Hj]]%Hlook Eg; [done|]. by apply (so_one _ _ W j i g f). }
  eapply (object_sound acts acts s s' l lg lg'); [done..| | | | | |]; try congruence.
  - intros j k g g' [[-> ->]|[? Hj]]%Hlook [[-> ->]|[? Hk]]%Hlook Eg Eg'; [done|..].
    + symmetry. by apply (so_one _ _ W k i g' f).
    + by apply (so_one _ _ W j i g f).
    + by apply (so_one _ _ W j k g g').
  - intros j g x [[-> ->]|[_ Hj]]%Hlook Hx; [exists i, f; auto|by exists j, g].
  - auto.
  - rewrite Hfl', Hlines, <- Hfl. by apply (so_lines _ _ W).
  - intros x n Hx. by rewrite Hfl, Hfl', Hother.
Qed.
Lemma flush_sound acts s i s' : sound acts s → act (Flush i) s = Ret true s' → sound (acts ++ [Flush i]) s'.
Proof.
  intros W Ha. apply sound_snoc; [done|]. unfold act, flush_step in Ha. erewrite bind_Ret in Ha by reflexivity.
  destruct (flushers s !! i) as [[b| |[|l ls]|l lines ls| |]|] eqn:Hi; try done.
  - erewrite bind_Ret in Ha by reflexivity.
    destruct (negb b && (continue_ s =? 1)); injection Ha as <-; by eapply (move_sound acts s _ i _ Lock); eauto.
  - erewrite bind_Ret in Ha by reflexivity. destruct (list_free s) eqn:Hfree; [|done].
    injection Ha as <-. eapply (move_sound acts s _ i _ (Loop (loggers_ s))); eauto.
  - injection Ha as <-. by eapply (move_sound acts s _ i _ Notify); eauto.
  - erewrite bind_Ret in Ha by reflexivity. destruct (objects s !! l) as [lg|] eqn:Hl; [|done].
    injection Ha as <-. eapply (flush_object_sound acts s _ i _ (Write l (buffer_ lg) ls) l lg); try done; eauto.
    + by left.
    + simpl. rewrite decide_True by done. by rewrite app_nil_r.
    + intros x Hx. simpl. by rewrite decide_False by done.
  - destruct (so_flushing _ _ W i _ l Hi) as (lg & Hl & Hc); [by left|].
    assert (on_logger l (write_lines lines) s =
      Ret true (s <| objects ::= <[l := lg <| fs_ ::= λ ls, ls ++ lines |>]> |>)) as Ew.
    { unfold on_logger. erewrite bind_Ret by reflexivity. rewrite Hl, Hc. done. }
    erewrite bind_Ret in Ha by exact Ew. injection Ha as <-.
    eapply (flush_object_sound acts s _ i _ (Loop ls) l lg); try done; eauto.
    + by left.
    + intros x Hx. by right.
    + simpl. rewrite decide_True by done. by rewrite app_assoc.
    + intros x Hx. simpl. by rewrite decide_False by done.
  - erewrite bind_Ret in Ha by reflexivity.
    destruct (stopping_ s); injection Ha as <-; by eapply (move_sound acts s _ i _ Done); eauto.
Qed.
Lemma act_sound acts a s s' : sound acts s → act a s = Ret true s' → sound (acts ++ [a]) s'.
Proof.
  destruct a; [apply create_sound|apply log_sound|apply destroy_sound|apply timer_sound|apply flush_sound|apply stop_sound|apply spurious_sound].
Qed.
Lemma run_sound acts : ∀ before s s', sound before s → run acts s = Some s' → sound (before ++ acts) s'.
Proof.
  induction acts as [|a acts IH]; intros before s s' W Hr; [injection Hr as <-; by rewrite app_nil_r|].
  simpl in Hr. destruct (act a s) as [[] s1|] eqn:Ea; [|done..].
  rewrite cons_middle, app_assoc. eapply IH; [by eapply act_sound|done].
Qed.
Lemma new_sound : sound [] new_service.
Proof.
  split; simpl; try done; try (intros; by apply elem_of_nil in H); try constructor.
Qed.

(** ** Runs of the service *)

(** C18: The loggers of a service in use by any number of threads: whatever the order in
    which lines are logged, timer handlers run and the service is stopped, the file of a
    logger, the lines a flush has taken and the buffer make up exactly the lines logged to
    it that pass its level, in order.  What a destroyed logger was given is in its file. *)
Theorem log_lines_kept acts s l lg : run acts new_service = Some s → objects s !! l = Some lg →
  fs_ lg ++ in_flight l s ++ buffer_ lg = accepted l (level_ lg) acts ∧
  (list_free s = true → closed lg = true → fs_ lg = accepted l (level_ lg) acts) ∧
  (∀ i j f f', flushers s !! i = Some f → flushers s !! j = Some f' →
    holds_list f = true → holds_list f' = true → i = j).
Proof.
  intros Hr Hl. pose proof (run_sound acts [] _ _ new_sound Hr) as W. simpl in W.
  pose proof (so_lines _ _ W l lg Hl) as Hlines. split; [done|]. split; [|apply (so_one _ _ W)].
  intros Hfree Hc. rewrite <- Hlines, in_flight_free by done. rewrite (so_closed _ _ W l lg Hl Hc).
  by rewrite app_nil_r.
Qed.
Definition stamp0 (level : string) : string := "[" +:+ level +:+ "] ".
(** A line that is logged while the handler writes is in the buffer; the next call of the
    handler has taken it. *)
Definition demo_run : list action :=
  [Create 1; Log 0 Info stamp0 "a"; Log 0 Debug stamp0 "b"; Timer false; Flush 0; Flush 0; Flush 0;
   Log 0 Err stamp0 "c"; Flush 0; Flush 0; Flush 0; Log 0 Warn stamp0 "d"; Timer false; Flush 1; Flush 1; Flush 1;
   Log 0 Info stamp0 "e"].
Lemma log_lines_kept_witness :
  match run demo_run new_service with
  | Some s => match objects s !! 0%nat with
    | Some lg =>
        (fs_ lg = ["[info] a"] ∧ in_flight 0 s = ["[errr] c"; "[warn] d"] ∧ buffer_ lg = ["[info] e"]) ∧
        fs_ lg ++ in_flight 0 s ++ buffer_ lg = accepted 0 (level_ lg) demo_run ∧
        (list_free s = true → closed lg = true → fs_ lg = accepted 0 (level_ lg) demo_run) ∧
        (∀ i j f f', flushers s !! i = Some f → flushers s !! j = Some f' →
          holds_list f = true → holds_list f' = true → i = j)
    | None => False end
  | None => False
  end.
Proof.
  destruct (run demo_run new_service) as [s|] eqn:Es; [|by vm_compute in Es].
  destruct (objects s !! 0%nat) as [lg|] eqn:El.
  - split; [|exact (log_lines_kept demo_run s 0 lg Es El)].
    vm_compute in Es. injection Es as <-. vm_compute in El. injection El as <-. split; [|split]; vm_compute; reflexivity.
  - vm_compute in Es. injection Es as <-. by vm_compute in El.
Defined.

(** ** The shutdown *)
Definition after (acts : list action) : option (stopper * list (list string)) :=
  s ← run acts new_service; Some (stopper_ s, fs_ <$> objects s).
(** The order that was meant: the wait is cancelled, and the handler it runs writes the
    lines and wakes the thread that stops. *)
Example stop_waits_for_flush :
  after [Create 0; Log 0 Info stamp0 "a"; Shut_down; Shut_down; Shut_down; Shut_down;
         Timer true; Flush 0; Flush 0; Flush 0; Flush 0; Flush 0; Flush 0] = Some (Returned, [["[info] a"]]).
Proof. by vm_compute. Qed.
(** The handler does not hold [stopping_lock_]: it may notify before [stop] waits.  No wait
    of the timer is left then, and every call of the handler has ended, so that [stop]
    waits until its wait ends for no reason. *)
Definition lost_wake_up : list action :=
  [Shut_down; Shut_down; Shut_down; Timer true; Flush 0; Flush 0; Flush 0; Flush 0; Shut_down].
Definition hung (s : service) : Prop := stopper_ s = Waiting ∧ flush_tm_ s = None ∧ ∀ f, f ∈ flushers s → f = Done.
Lemma hung_act a s s' : a ≠ Spurious → hung s → act a s = Ret true s' → hung s'.
Proof.
  intros Ha0 (Hs & Ht & Hf) Ha. destruct a as [n|l v st line|l|b|i| |]; [..|done].
  - unfold act, create_logger in Ha. erewrite bind_Ret in Ha by reflexivity.
    destruct (list_free s); [|done]. by injection Ha as <-.
  - by apply on_logger_ret in Ha as (lg & lg' & _ & _ & _ & ->).
  - unfold act, destroy_logger in Ha. erewrite bind_Ret in Ha by reflexivity. destruct (list_free s); [|done].
    destruct (on_logger l close_logger s) as [b s1|] eqn:E1; [|by unfold mbind, M_bind in Ha; rewrite E1 in Ha].
    erewrite bind_Ret in Ha by exact E1. destruct b; [|done].
    apply on_logger_ret in E1 as (lg & lg' & _ & _ & _ & ->). by injection Ha as <-.
  - unfold act, timer_ends in Ha. erewrite bind_Ret in Ha by reflexivity. by rewrite Ht in Ha.
  - unfold act, flush_step in Ha. erewrite bind_Ret in Ha by reflexivity.
    destruct (flushers s !! i) as [f|] eqn:Hi; [|done]. apply list_elem_of_lookup_2, Hf in Hi as ->. done.
  - unfold act, stop_step in Ha. erewrite bind_Ret in Ha by reflexivity. by rewrite Hs in Ha.
Qed.
Lemma stop_may_hang acts s : Spurious ∉ acts → run (lost_wake_up ++ acts) new_service = Some s → stopper_ s = Waiting.
Proof.
  assert (∀ acts s s', Spurious ∉ acts → hung s → run acts s = Some s' → hung s') as Hrun.
  { clear. induction acts as [|a acts IH]; intros s s' Hno Hs Hr; [by injection Hr as <-|].
    apply not_elem_of_cons in Hno as [Hna Hno]. simpl in Hr.
    destruct (act a s) as [[] s1|] eqn:Ea; [|done..]. eapply (IH s1); [done|by eapply hung_act|done]. }
  intros Hno Hr. destruct (run lost_wake_up new_service) as [s0|] eqn:E0; [|by vm_compute in E0].
  assert (run acts s0 = Some s) as Hr0.
  { vm_compute in E0. injection E0 as <-. exact Hr. }
  apply (Hrun acts s0 s); [done| |done]. vm_compute in E0. injection E0 as <-. split; [done|]. split; [done|].
  by intros f ->%list_elem_of_singleton.
Qed.
(** And it does not look when it was started: a handler that has gone past a logger may
    wake [stop] before the last lines of that logger are written. *)
Example stop_may_return_early :
  after [Create 0; Timer false; Flush 0; Flush 0; Flush 0; Flush 0; Log 0 Info stamp0 "last";
         Shut_down; Shut_down; Shut_down; Shut_down; Flush 0; Flush 0] = Some (Returned, [[]]).
Proof. by vm_compute. Qed.
